(** * A shallow embedding of [checkSyntax] (src/app/utils/syntaxChecker.ts)

    The checker is a pure function from the source text to a list of
    diagnostics and a verdict.  It works on JavaScript strings with
    [String.prototype] methods and regular expressions, so the development
    starts with a model of those: strings as lists of UTF-16 code units, a
    backtracking matcher for the regular-expression fragment the checker
    uses, and then the checker itself, rule by rule, in source order. *)

From Stdlib Require Import NArith String Ascii.
From stdpp Require Import gmap list.

Local Open Scope N_scope.

(** ** JavaScript strings *)

(** A string value is a sequence of 16-bit code units. *)
Abbreviation jsstring := (list N).

(** Rocq string literals hold UTF-8 bytes; [js] decodes them into code units
    (code points above the basic plane become surrogate pairs). *)
Fixpoint utf16 (bs : list N) : jsstring :=
  match bs with
  | [] => []
  | b0 :: t0 =>
    if b0 <? 128 then b0 :: utf16 t0 else
    match t0 with
    | [] => [b0]
    | b1 :: t1 =>
      if b0 <? 224 then (b0 `mod` 32 * 64 + b1 `mod` 64) :: utf16 t1 else
      match t1 with
      | [] => [b0; b1]
      | b2 :: t2 =>
        if b0 <? 240
        then (b0 `mod` 16 * 4096 + b1 `mod` 64 * 64 + b2 `mod` 64) :: utf16 t2
        else
        match t2 with
        | [] => [b0; b1; b2]
        | b3 :: t3 =>
          let cp := b0 `mod` 8 * 262144 + b1 `mod` 64 * 4096
                    + b2 `mod` 64 * 64 + b3 `mod` 64 - 65536 in
          (55296 + cp `div` 1024) :: (56320 + cp `mod` 1024) :: utf16 t3
        end
      end
    end
  end.

Fixpoint bytes_of (s : string) : list N :=
  match s with
  | EmptyString => []
  | String a s' => N_of_ascii a :: bytes_of s'
  end.

Definition js (s : string) : jsstring := utf16 (bytes_of s).

Definition chr (a : ascii) : N := N_of_ascii a.

(** The assignment glyph, U+2190. *)
Definition ARROW : N := 8592.

(** *** Character classes *)

Definition in_range (lo hi c : N) : bool := (lo <=? c) && (c <=? hi).

Definition isDigit (c : N) : bool := in_range 48 57 c.
Definition isUpper (c : N) : bool := in_range 65 90 c.
Definition isLower (c : N) : bool := in_range 97 122 c.
Definition isAlpha (c : N) : bool := isUpper c || isLower c.
Definition isAlphaU (c : N) : bool := isAlpha c || (c =? 95).
Definition isAlnumU (c : N) : bool := isAlpha c || isDigit c || (c =? 95).

(** [\w] *)
Definition isWordChar (c : N) : bool := isAlnumU c.

(** LineTerminator: LF, CR, LS, PS. *)
Definition isLineTerminator (c : N) : bool :=
  (c =? 10) || (c =? 13) || (c =? 8232) || (c =? 8233).

(** WhiteSpace and LineTerminator, as used by [trim] and by [\s]. *)
Definition isSpace (c : N) : bool :=
  in_range 9 13 c || (c =? 32) || (c =? 160) || (c =? 5760)
  || in_range 8192 8202 c || (c =? 8232) || (c =? 8233) || (c =? 8239)
  || (c =? 8287) || (c =? 12288) || (c =? 65279).

(** *** String.prototype methods *)

Fixpoint str_eqb (a b : jsstring) : bool :=
  match a, b with
  | [], [] => true
  | x :: a', y :: b' => (x =? y) && str_eqb a' b'
  | _, _ => false
  end.

Fixpoint startsWith (p s : jsstring) : bool :=
  match p with
  | [] => true
  | x :: p' =>
    match s with
    | [] => false
    | y :: s' => (x =? y) && startsWith p' s'
    end
  end.

Fixpoint includes (p s : jsstring) : bool :=
  startsWith p s ||
  match s with
  | [] => false
  | _ :: s' => includes p s'
  end.

(** [s.indexOf(c)] for a one-unit needle; [None] stands for -1. *)
Fixpoint indexOf (c : N) (s : jsstring) : option nat :=
  match s with
  | [] => None
  | x :: s' => if x =? c then Some O else S <$> indexOf c s'
  end.

Fixpoint trimStart (s : jsstring) : jsstring :=
  match s with
  | [] => []
  | c :: s' => if isSpace c then trimStart s' else s
  end.

Definition trimEnd (s : jsstring) : jsstring := rev (trimStart (rev s)).

Definition trim (s : jsstring) : jsstring := trimEnd (trimStart s).

(** [s.split(c)] for a one-unit separator: never empty, [""] gives [[""]]. *)
Fixpoint split_on (c : N) (s : jsstring) : list jsstring :=
  match s with
  | [] => [[]]
  | x :: s' =>
    if x =? c then [] :: split_on c s'
    else match split_on c s' with
         | [] => [[x]]
         | w :: ws => (x :: w) :: ws
         end
  end.

(** [Array.prototype.includes] on strings. *)
Definition mem (s : jsstring) (l : list jsstring) : bool :=
  existsb (str_eqb s) l.

(** *** Numbers

    A line number is the index of a line plus one: a small integer, which a
    template literal prints as its decimal numeral.  The bounds and indices
    of arrays are what [parseInt] makes of a run of digits: an IEEE 754
    double, that is the integer written when it is below 2^53, the nearest
    double above that, and [Infinity] from 2^1024 - 2^970 on. *)

Definition digit_of (d : N) : N := 48 + d.

Fixpoint decimal_aux (fuel : nat) (n : N) (acc : jsstring) : jsstring :=
  match fuel with
  | O => acc
  | S f =>
    let acc' := digit_of (n `mod` 10) :: acc in
    if n <? 10 then acc' else decimal_aux f (n `div` 10) acc'
  end.

(** The decimal numeral of an integer: a line number in a template literal
    and in the key of a diagnostic. *)
Definition decimal (n : N) : jsstring :=
  decimal_aux (S (N.to_nat (N.log2 n))) n [].

(** The integer that a run of decimal digits denotes. *)
Definition mathInt (s : jsstring) : N :=
  fold_left (fun acc c => acc * 10 + (c - 48)) s 0.

(** The Number values that occur: the non-negative integers that are doubles,
    and [Infinity]. *)
Inductive Number := Finite (n : N) | Infinity.

(** The double nearest to an integer, ties to the even significand.  From
    2^53 on a double is a 53-bit significand [m] times a power of two
    [2^e]; the halfway case above the largest double goes to [Infinity]. *)
Definition toNumber (n : N) : Number :=
  if n <? 2 ^ 53 then Finite n
  else
    let e := N.log2 n - 52 in
    let q := n `div` 2 ^ e in
    let r := n `mod` 2 ^ e in
    let half := 2 ^ (e - 1) in
    let m := if r <? half then q
             else if half <? r then q + 1
             else if N.even q then q else q + 1 in
    if 2 ^ 1024 <=? m * 2 ^ e then Infinity else Finite (m * 2 ^ e).

(** [parseInt] on a run of decimal digits. *)
Definition parseInt (s : jsstring) : Number := toNumber (mathInt s).

(** [a < b] on these numbers. *)
Definition num_ltb (a b : Number) : bool :=
  match a, b with
  | Finite x, Finite y => x <? y
  | Finite _, Infinity => true
  | Infinity, _ => false
  end.

Definition Number_eqb (a b : Number) : bool :=
  match a, b with
  | Finite x, Finite y => x =? y
  | Infinity, Infinity => true
  | _, _ => false
  end.

(** Number to string.  The digits are those of the decimal with the fewest
    significant digits that still reads back as the same double and, among
    these, of the one nearest to it (the even one on a tie).  With [p]
    trailing zeros the candidates are the multiples of [10^p] next to [v];
    the search goes from the fewest significant digits to the most. *)
Fixpoint shortest_from (p : nat) (v : N) : N :=
  let u := 10 ^ N.of_nat p in
  let lo := v `div` u * u in
  let hi := lo + u in
  let okLo := Number_eqb (toNumber lo) (Finite v) in
  let okHi := Number_eqb (toNumber hi) (Finite v) in
  if okLo && okHi then
    if v - lo <? hi - v then lo
    else if hi - v <? v - lo then hi
    else if N.even (v `div` u) then lo else hi
  else if okLo then lo
  else if okHi then hi
  else match p with
       | O => v
       | S p' => shortest_from p' v
       end.

Definition shortest (v : N) : N :=
  shortest_from (length (decimal v) - 1) v.

(** A numeral without its trailing zeros. *)
Fixpoint stripZeros (ds : jsstring) : jsstring :=
  match ds with
  | [] => []
  | c :: t =>
    match stripZeros t with
    | [] => if c =? 48 then [] else [c]
    | t' => c :: t'
    end
  end.

(** The exponential form: the first significant digit, the others after a
    point if there are any, and the exponent with its sign. *)
Definition exponential (c : N) : jsstring :=
  let ds := decimal c in
  let sig := stripZeros ds in
  take 1 sig
  ++ (if (1 <? length sig)%nat then js "." ++ drop 1 sig else [])
  ++ js "e+" ++ decimal (N.of_nat (length ds - 1)).

(** A number in a template literal: plain digits below 10^21, the
    exponential form from there on. *)
Definition numberToString (x : Number) : jsstring :=
  match x with
  | Infinity => js "Infinity"
  | Finite v =>
    let c := shortest v in
    if c <? 10 ^ 21 then decimal c else exponential c
  end.

(** ** Regular expressions *)

Inductive regex :=
| Eps
| Chr (p : N → bool)
| Seq (r1 r2 : regex)
| Alt (r1 r2 : regex)
| Star (greedy : bool) (r : regex)
| Group (i : nat) (r : regex)
| Bol
| Eol
| WordB.

(** The matcher's position: the code unit before it (for [^] and [\b]), the
    input still ahead, and the captures made so far. *)
Record MState := mkMState {
  ms_prev : option N;
  ms_rest : jsstring;
  ms_caps : list (nat * jsstring)
}.

Definition is_word (o : option N) : bool :=
  match o with Some c => isWordChar c | None => false end.

(** Backtracking matcher in continuation style: [rmatch r k s] matches [r]
    at [s] and hands the position reached to [k]; when [k] fails the next
    alternative of [r] is tried.  An iteration of a star that consumes
    nothing is rejected, as in the language definition. *)
Fixpoint rmatch (r : regex) (k : MState → option MState) (s : MState)
  : option MState :=
  match r with
  | Eps => k s
  | Chr p =>
    match ms_rest s with
    | c :: t => if p c then k (mkMState (Some c) t (ms_caps s)) else None
    | [] => None
    end
  | Seq r1 r2 => rmatch r1 (rmatch r2 k) s
  | Alt r1 r2 =>
    match rmatch r1 k s with
    | Some x => Some x
    | None => rmatch r2 k s
    end
  | Star true r1 =>
    (fix loop (fuel : nat) (s : MState) : option MState :=
       match fuel with
       | O => k s
       | S f =>
         match rmatch r1 (λ s', if (length (ms_rest s') <? length (ms_rest s))%nat
                                 then loop f s' else None) s with
         | Some x => Some x
         | None => k s
         end
       end) (length (ms_rest s)) s
  | Star false r1 =>
    (fix loop (fuel : nat) (s : MState) : option MState :=
       match k s with
       | Some x => Some x
       | None =>
         match fuel with
         | O => None
         | S f =>
           rmatch r1 (λ s', if (length (ms_rest s') <? length (ms_rest s))%nat
                            then loop f s' else None) s
         end
       end) (length (ms_rest s)) s
  | Group i r1 =>
    rmatch r1 (λ s', k (mkMState (ms_prev s') (ms_rest s')
       ((i, take (length (ms_rest s) - length (ms_rest s')) (ms_rest s))
          :: ms_caps s'))) s
  | Bol => match ms_prev s with None => k s | Some _ => None end
  | Eol => match ms_rest s with [] => k s | _ :: _ => None end
  | WordB =>
    if xorb (is_word (ms_prev s)) (is_word (head (ms_rest s)))
    then k s else None
  end.

(** The outcome of a successful match: where it starts, the text matched,
    and the position after it (which carries the captures). *)
Record MatchResult := mkMatch {
  m_index : nat;
  m_text : jsstring;
  m_end : MState
}.

(** Capture [i] of a match ([None] for an unset group). *)
Definition group (i : nat) (m : MatchResult) : option jsstring :=
  snd <$> find (λ p, Nat.eqb (fst p) i) (ms_caps (m_end m)).

(** Leftmost match at or after the current position. *)
Fixpoint search (r : regex) (idx : nat) (prev : option N) (rest : jsstring)
  : option MatchResult :=
  match rmatch r Some (mkMState prev rest []) with
  | Some e =>
    Some (mkMatch idx (take (length rest - length (ms_rest e)) rest) e)
  | None =>
    match rest with
    | [] => None
    | c :: t => search r (S idx) (Some c) t
    end
  end.

(** [r.exec(s)] / [s.match(r)] without the global flag. *)
Definition exec (r : regex) (s : jsstring) : option MatchResult :=
  search r O None s.

(** [r.test(s)] *)
Definition test (r : regex) (s : jsstring) : bool :=
  bool_decide (is_Some (exec r s)).

(** [s.match(r)] with the global flag: the texts of the successive matches,
    each search resuming where the previous match ended (one unit further
    after an empty match).  An empty list stands for [null]. *)
Fixpoint match_all_from (r : regex) (fuel : nat) (prev : option N)
    (rest : jsstring) : list jsstring :=
  match fuel with
  | O => []
  | S f =>
    match search r O prev rest with
    | None => []
    | Some m =>
      m_text m ::
      match m_text m, ms_rest (m_end m) with
      | [], [] => []
      | [], c :: t => match_all_from r f (Some c) t
      | _ :: _, _ => match_all_from r f (ms_prev (m_end m)) (ms_rest (m_end m))
      end
    end
  end.

Definition match_all (r : regex) (s : jsstring) : list jsstring :=
  match_all_from r (S (length s)) None s.

(** [s.replace(r, '')] without the global flag. *)
Definition remove_first (r : regex) (s : jsstring) : jsstring :=
  match exec r s with
  | None => s
  | Some m => take (m_index m) s ++ ms_rest (m_end m)
  end.

(** [s.replace(r, '')] with the global flag. *)
Fixpoint remove_all_from (r : regex) (fuel : nat) (prev : option N)
    (rest : jsstring) : jsstring :=
  match fuel with
  | O => rest
  | S f =>
    match search r O prev rest with
    | None => rest
    | Some m =>
      take (m_index m) rest ++
      match m_text m, ms_rest (m_end m) with
      | [], [] => []
      | [], c :: t => c :: remove_all_from r f (Some c) t
      | _ :: _, _ => remove_all_from r f (ms_prev (m_end m)) (ms_rest (m_end m))
      end
    end
  end.

Definition remove_all (r : regex) (s : jsstring) : jsstring :=
  remove_all_from r (S (length s)) None s.

(** [s.split(r)] for a separator without capture groups: at each position
    [q] the separator is tried in place; a match that ends at the start [p]
    of the current piece is skipped. *)
Fixpoint split_from (r : regex) (fuel : nat) (prev : option N)
    (piece rest : jsstring) : list jsstring :=
  match fuel with
  | O => [rev piece ++ rest]
  | S f =>
    match rest with
    | [] => [rev piece]
    | c :: t =>
      match rmatch r Some (mkMState prev rest []) with
      | Some e =>
        if bool_decide (piece = [] ∧ length (ms_rest e) = length rest)
        then split_from r f (Some c) (c :: piece) t
        else rev piece :: split_from r f (ms_prev e) [] (ms_rest e)
      | None => split_from r f (Some c) (c :: piece) t
      end
    end
  end.

Definition split_re (r : regex) (s : jsstring) : list jsstring :=
  match s with
  | [] => match rmatch r Some (mkMState None [] []) with
          | Some _ => []
          | None => [[]]
          end
  | _ => split_from r (S (length s)) None [] s
  end.

(** *** Building blocks for the patterns *)

Definition DQUOTE : N := 34.
Definition SQUOTE : N := 39.

Definition seqs (rs : list regex) : regex := foldr Seq Eps rs.
Definition star (r : regex) : regex := Star true r.
Definition plus (r : regex) : regex := Seq r (Star true r).

(** A literal text. *)
Definition lit (s : string) : regex := seqs ((λ c, Chr (N.eqb c)) <$> js s).

(** Canonical form of a code unit under the [i] flag (without the [u]
    flag): the upper-case mapping, which never takes a unit outside Basic
    Latin into it; on the letters, digits and punctuation of the patterns
    below this is the Basic Latin folding. *)
Definition canon (c : N) : N := if isLower c then c - 32 else c.

(** A literal text under the [i] flag. *)
Definition lit_i (s : string) : regex :=
  seqs ((λ c, Chr (λ x, canon x =? canon c)) <$> js s).

Definition one (c : N) : regex := Chr (N.eqb c).
Definition none_of (c : N) : regex := Chr (λ x, negb (x =? c)).

(** [\s], [\S], [\d], [\w], [.] *)
Definition cSpace : regex := Chr isSpace.
Definition cNonSpace : regex := Chr (λ c, negb (isSpace c)).
Definition cDigit : regex := Chr isDigit.
Definition cWord : regex := Chr isWordChar.
Definition cDot : regex := Chr (λ c, negb (isLineTerminator c)).

(** [[a-zA-Z_][a-zA-Z0-9_]*] and [[a-zA-Z][a-zA-Z0-9_]*] *)
Definition ident_u : regex := Seq (Chr isAlphaU) (star (Chr isAlnumU)).
Definition ident_a : regex := Seq (Chr isAlpha) (star (Chr isAlnumU)).

(** *** The patterns of the checker, in order of appearance

    Each is quoted from the source with its tokens spaced out; DQ and SQ
    stand for the double and the single quote. *)

(** [/\b(IF|WHILE|UNTIL)\b/] *)
Definition re_conditional : regex :=
  seqs [WordB; Group 1 (Alt (lit "IF") (Alt (lit "WHILE") (lit "UNTIL"))); WordB].

(** [/\b[a-zA-Z][a-zA-Z0-9_]*\b/g] *)
Definition re_identifier : regex := seqs [WordB; ident_a; WordB].

(** [/^\d/] *)
Definition re_leading_digit : regex := seqs [Bol; cDigit].

(** [/^[a-zA-Z][a-zA-Z0-9_]*$/] *)
Definition re_identifier_whole : regex := seqs [Bol; ident_a; Eol].

(** [/\s+/] *)
Definition re_spaces : regex := plus cSpace.

(** [/^[a-zA-Z_][a-zA-Z0-9_]*\s*←/] *)
Definition re_assign_pattern : regex :=
  seqs [Bol; ident_u; star cSpace; one ARROW].

(** [/^[a-zA-Z_][a-zA-Z0-9_]*\s*=/] *)
Definition re_constant_pattern : regex :=
  seqs [Bol; ident_u; star cSpace; one (chr "=")].

(** [/^[A-Z]+$/] *)
Definition re_upper_word : regex := seqs [Bol; plus (Chr isUpper); Eol].

(** [/^[A-Z][A-Z0-9_]*$/] *)
Definition re_upper_identifier : regex :=
  seqs [Bol; Chr isUpper;
        star (Chr (λ c, isUpper c || isDigit c || (c =? 95))); Eol].

(** [/\/\/.*$/] *)
Definition re_comment : regex := seqs [lit "//"; star cDot; Eol].

(** [/ DQ [^DQ]* DQ /g] *)
Definition re_double_quoted : regex :=
  seqs [one DQUOTE; star (none_of DQUOTE); one DQUOTE].

(** [/ SQ [^SQ]* SQ /g] *)
Definition re_single_quoted : regex :=
  seqs [one SQUOTE; star (none_of SQUOTE); one SQUOTE].

(** [/ DECLARE \s+ ( [a-zA-Z_][a-zA-Z0-9_]* ) \s* : \s* ARRAY \[ (\d+) : (\d+) \] /i] *)
Definition re_array_declaration : regex :=
  seqs [lit_i "DECLARE"; plus cSpace; Group 1 ident_u; star cSpace;
        one (chr ":"); star cSpace; lit_i "ARRAY["; Group 2 (plus cDigit);
        one (chr ":"); Group 3 (plus cDigit); one (chr "]")].

(** [/ CONSTANT \s+ ( [a-zA-Z_][a-zA-Z0-9_]* ) \s* = /i] *)
Definition re_constant : regex :=
  seqs [lit_i "CONSTANT"; plus cSpace; Group 1 ident_u; star cSpace;
        one (chr "=")].

(** [/ DQ /g] *)
Definition re_quote : regex := one DQUOTE.

(** [/DECLARE\s+\w+\s*:\s*CHAR/] *)
Definition re_declare_char : regex :=
  seqs [lit "DECLARE"; plus cSpace; plus cWord; star cSpace; one (chr ":");
        star cSpace; lit "CHAR"].

(** [/ ( [a-zA-Z_][a-zA-Z0-9_]* ) \s* ← \s* DQ [^DQ]* DQ /] *)
Definition re_assign_string : regex :=
  seqs [Group 1 ident_u; star cSpace; one ARROW; star cSpace;
        one DQUOTE; star (none_of DQUOTE); one DQUOTE].

(** [/ ( [a-zA-Z_][a-zA-Z0-9_]* ) \[ (\d+) \] /], with and without [g] *)
Definition re_array_access : regex :=
  seqs [Group 1 ident_u; one (chr "["); Group 2 (plus cDigit); one (chr "]")].

(** [/ ^ \s* ( [a-zA-Z_][a-zA-Z0-9_]* ) \s* ← /] *)
Definition re_assignment : regex :=
  seqs [Bol; star cSpace; Group 1 ident_u; star cSpace; one ARROW].

(** [/ \b ( [a-zA-Z_][a-zA-Z0-9_]* ) \b /g] *)
Definition re_variable : regex := seqs [WordB; Group 1 ident_u; WordB].

(** [/^[a-zA-Z_][a-zA-Z0-9_]*$/] *)
Definition re_name_whole : regex := seqs [Bol; ident_u; Eol].

(** [/ CALL \s+ ( [a-zA-Z_][a-zA-Z0-9_]* ) /i] *)
Definition re_call : regex := seqs [lit_i "CALL"; plus cSpace; Group 1 ident_u].

(** [/OPENFILE\s+\S+\s+FOR\s+(\w+)/i] *)
Definition re_openfile : regex :=
  seqs [lit_i "OPENFILE"; plus cSpace; plus cNonSpace; plus cSpace;
        lit_i "FOR"; plus cSpace; Group 1 (plus cWord)].

(** [/ FUNCTION \s+ ( [a-zA-Z_][a-zA-Z0-9_]* ) /i] *)
Definition re_function_name : regex :=
  seqs [lit_i "FUNCTION"; plus cSpace; Group 1 ident_u].

(** [/ FUNCTION \s+ \w+ \s* \( ( .*? ) \) /i], and the same with PROCEDURE *)
Definition re_parameters (kw : string) : regex :=
  seqs [lit_i kw; plus cSpace; plus cWord; star cSpace; one (chr "(");
        Group 1 (Star false cDot); one (chr ")")].

(** [/ LENGTH \s* \( \s* ( [a-zA-Z_][a-zA-Z0-9_]* ) \s* \) /gi] *)
Definition re_length : regex :=
  seqs [lit_i "LENGTH"; star cSpace; one (chr "("); star cSpace;
        Group 1 ident_u; star cSpace; one (chr ")")].

(** ** The data model (src/app/types.ts) *)

Local Open Scope nat_scope.

Inductive Severity := error | warning.

Record SyntaxError := mkError {
  line : nat;
  message : jsstring;
  type : Severity
}.

Record SyntaxCheckResult := mkResult {
  isValid : bool;
  errors : list SyntaxError
}.

Definition is_error (e : SyntaxError) : bool :=
  match type e with error => true | warning => false end.

(** ** The tables of one run *)

(** Cambridge 9618 pseudocode keywords. *)
Definition KEYWORDS : list jsstring := js <$>
  [ "DECLARE"; "CONSTANT"; "TYPE"; "ENDTYPE"; "DEFINE";
    "INTEGER"; "REAL"; "CHAR"; "STRING"; "BOOLEAN"; "DATE"; "ARRAY"; "OF"; "SET";
    "IF"; "THEN"; "ELSE"; "ENDIF"; "ELSEIF";
    "CASE"; "ENDCASE"; "OTHERWISE";
    "FOR"; "TO"; "NEXT"; "STEP";
    "WHILE"; "ENDWHILE"; "REPEAT"; "UNTIL";
    "BREAK";
    "PROCEDURE"; "ENDPROCEDURE"; "FUNCTION"; "ENDFUNCTION"; "RETURN"; "RETURNS";
    "CALL"; "BYVAL"; "BYREF";
    "INPUT"; "OUTPUT";
    "OPENFILE"; "READFILE"; "WRITEFILE"; "CLOSEFILE"; "SEEK"; "GETRECORD";
    "PUTRECORD";
    "AND"; "OR"; "NOT"; "MOD"; "DIV";
    "TRUE"; "FALSE";
    "RIGHT"; "LEFT"; "LENGTH"; "MID"; "LCASE"; "UCASE";
    "INT"; "RAND" ]%string.

(** Block keywords that require matching pairs, in insertion order. *)
Definition BLOCK_KEYWORDS : list (jsstring * jsstring) :=
  (λ p, (js p.1, js p.2)) <$>
  [ ("IF", "ENDIF"); ("FOR", "NEXT"); ("WHILE", "ENDWHILE");
    ("REPEAT", "UNTIL"); ("PROCEDURE", "ENDPROCEDURE");
    ("FUNCTION", "ENDFUNCTION"); ("CASE", "ENDCASE"); ("TYPE", "ENDTYPE") ]%string.

(** [BLOCK_KEYWORDS[k]]; [None] is [undefined].  The keys looked up are made
    of upper-case letters only, so no inherited property is ever hit. *)
Definition block_closer (k : jsstring) : option jsstring :=
  snd <$> find (λ p, str_eqb p.1 k) BLOCK_KEYWORDS.

(** [Object.values(BLOCK_KEYWORDS)] *)
Definition closingKeywords : list jsstring := snd <$> BLOCK_KEYWORDS.

(** An [undefined] in a template literal. *)
Definition or_undefined (o : option jsstring) : jsstring :=
  default (js "undefined") o.

Record Block := mkBlock { blk_keyword : jsstring; blk_line : nat }.
Record ArrayInfo := mkArrayInfo {
  arr_start : Number;
  arr_end : Number;
  arr_line : nat
}.
Record VarInfo := mkVarInfo { var_type : jsstring; var_line : nat }.

(** The mutable locals of [checkSyntax].  [blockStack] is the array itself:
    pushes append and pops take the last element. *)
Record State := mkState {
  errs : list SyntaxError;
  blockStack : list Block;
  arrayDeclarations : gmap jsstring ArrayInfo;
  declaredVariables : gset jsstring;
  variableTypes : gmap jsstring VarInfo;
  declaredFunctions : gset jsstring
}.

Definition initial : State := mkState [] [] ∅ ∅ ∅ ∅.

(** [errors.push({line, message, type})] *)
Definition push (l : nat) (msg : jsstring) (t : Severity) (st : State) : State :=
  mkState (errs st ++ [mkError l msg t]) (blockStack st)
    (arrayDeclarations st) (declaredVariables st) (variableTypes st)
    (declaredFunctions st).

Definition set_blockStack (bs : list Block) (st : State) : State :=
  mkState (errs st) bs (arrayDeclarations st) (declaredVariables st)
    (variableTypes st) (declaredFunctions st).

(** [arrayDeclarations.set(name, info)] *)
Definition set_array (name : jsstring) (info : ArrayInfo) (st : State) : State :=
  mkState (errs st) (blockStack st) (<[name := info]> (arrayDeclarations st))
    (declaredVariables st) (variableTypes st) (declaredFunctions st).

(** [declaredVariables.add(name); variableTypes.set(name, info)] *)
Definition declare (name : jsstring) (info : VarInfo) (st : State) : State :=
  mkState (errs st) (blockStack st) (arrayDeclarations st)
    ({[name]} ∪ declaredVariables st) (<[name := info]> (variableTypes st))
    (declaredFunctions st).

(** [declaredFunctions.add(name)] *)
Definition add_function (name : jsstring) (st : State) : State :=
  mkState (errs st) (blockStack st) (arrayDeclarations st)
    (declaredVariables st) (variableTypes st) ({[name]} ∪ declaredFunctions st).

(** A conditional statement on the state. *)
Definition when (b : bool) (f : State → State) (st : State) : State :=
  if b then f st else st.

(** [list.forEach(x => body)] *)
Definition forEach {A} (l : list A) (body : A → State → State) (st : State)
  : State :=
  foldl (λ s x, body x s) st l.

(** Statements in sequence. *)
Definition run (steps : list (State → State)) (st : State) : State :=
  foldl (λ s f, f s) st steps.

Definition decimal_nat (n : nat) : jsstring := decimal (N.of_nat n).

Definition nonempty (s : jsstring) : bool :=
  match s with [] => false | _ :: _ => true end.

(** [s.slice(1, -1)] *)
Definition slice_1_m1 (s : jsstring) : jsstring :=
  take (length s - 2) (drop 1 s).

(** [lines.findIndex((line, idx) => p idx line)], counting from [i]. *)
Fixpoint findIndex (p : nat → jsstring → bool) (i : nat) (ls : list jsstring)
  : option nat :=
  match ls with
  | [] => None
  | l :: ls' => if p i l then Some i else findIndex p (S i) ls'
  end.

(** [lines.forEach((line, index) => body)], counting from [i]. *)
Fixpoint forEachLine (i : nat) (ls : list jsstring)
    (body : nat → jsstring → State → State) (st : State) : State :=
  match ls with
  | [] => st
  | l :: ls' => forEachLine (S i) ls' body (body i l st)
  end.

(** Capture [i] of a match whose pattern always sets it. *)
Definition grp (i : nat) (m : MatchResult) : jsstring := default [] (group i m).

(** ** The checker *)

Section Checker.

(** [String.prototype.toUpperCase] and [toLowerCase] belong to the runtime;
    the checker is read for any pair of case mappings. *)
Variables toUpperCase toLowerCase : jsstring → jsstring.

(** *** The rules of the line pass, in source order *)

(** Indentation should be a multiple of 3 spaces. *)
Definition checkIndentation (lineNumber : nat) (line : jsstring)
  : State → State :=
  let leadingSpaces := length line - length (trimStart line) in
  when (negb (leadingSpaces mod 3 =? 0))
    (push lineNumber (js "Indentation should be multiples of 3 spaces") warning).

(** [=] used for assignment. *)
Definition checkAssignmentOperator (lineNumber : nat) (trimmedLine : jsstring)
  : State → State :=
  when (includes (js "=") trimmedLine && negb (includes (js "<=") trimmedLine)
        && negb (includes (js ">=") trimmedLine)
        && negb (includes (js "<>") trimmedLine)
        && negb (startsWith (js "CONSTANT") trimmedLine))
    (let isInConditional := test re_conditional trimmedLine in
     when (negb isInConditional && negb (includes (js "←") trimmedLine))
       (push lineNumber
          (js "Use ← for assignment instead of = (Cambridge rule)") error)).

(** Shape of the identifiers of the line. *)
Definition checkIdentifiers (lineNumber : nat) (trimmedLine : jsstring)
  : State → State :=
  let identifierMatches := match_all re_identifier trimmedLine in
  forEach identifierMatches (λ identifier,
    when (negb (mem (toUpperCase identifier) KEYWORDS))
      (run [
         when (test re_leading_digit identifier)
           (push lineNumber
              (js "Identifier '" ++ identifier
               ++ js "' cannot start with a number") error);
         when (negb (test re_identifier_whole identifier))
           (push lineNumber
              (js "Identifier '" ++ identifier
               ++ js "' contains invalid characters") error) ])).

(** The line must look like pseudocode at all. *)
Definition checkStructure (lineNumber : nat) (trimmedLine : jsstring)
    (words : list jsstring) : State → State :=
  let hasValidStructure :=
    existsb (λ word, mem (toUpperCase word) KEYWORDS) words
    || includes (js "←") trimmedLine
    || test re_assign_pattern trimmedLine
    || test re_constant_pattern trimmedLine
    || includes (js ":") trimmedLine in
  when (negb hasValidStructure)
    (push lineNumber
       (js "This line does not appear to be valid pseudocode. Use Cambridge keywords and proper syntax.")
       error).

(** A closing keyword (or NEXT / UNTIL) as first word: pop the block stack
    and compare. *)
Definition closeBlock (lineNumber : nat) (firstWord : jsstring)
  : State → State :=
  when (mem firstWord closingKeywords || str_eqb firstWord (js "NEXT")
        || str_eqb firstWord (js "UNTIL"))
    (λ st,
       match last (blockStack st) with
       | None =>
         push lineNumber
           (js "Unexpected " ++ firstWord ++ js " without matching opening")
           error st
       | Some lastBlock =>
         let expectedClosing := block_closer (blk_keyword lastBlock) in
         when (negb (bool_decide (Some firstWord = expectedClosing))
               && negb (str_eqb (blk_keyword lastBlock) (js "FOR")
                        && str_eqb firstWord (js "NEXT"))
               && negb (str_eqb (blk_keyword lastBlock) (js "REPEAT")
                        && str_eqb firstWord (js "UNTIL")))
           (push lineNumber
              (js "Expected " ++ or_undefined expectedClosing
               ++ js " but found " ++ firstWord) error)
           (set_blockStack (removelast (blockStack st)) st)
       end).

(** The first word, when it is written in capitals: unknown keywords, block
    openers and block closers. *)
Definition checkFirstWord (lineNumber : nat) (words : list jsstring)
  : State → State :=
  match words with
  | [] => id
  | firstWord :: _ =>
    when (test re_upper_word firstWord)
      (run [
         when (negb (mem firstWord KEYWORDS)
               && negb (test re_upper_identifier firstWord))
           (push lineNumber (js "Unknown keyword: " ++ firstWord) error);
         when (bool_decide (is_Some (block_closer firstWord)))
           (λ st, set_blockStack
                    (blockStack st ++ [mkBlock firstWord lineNumber]) st);
         closeBlock lineNumber firstWord ])
  end.

(** Comments and quoted literals removed. *)
Definition withoutStrings (trimmedLine : jsstring) : jsstring :=
  remove_all re_single_quoted
    (remove_all re_double_quoted (remove_first re_comment trimmedLine)).

(** Keywords must be written in upper case. *)
Definition checkKeywordCase (lineNumber : nat)
    (wordsOutsideStrings : list jsstring) : State → State :=
  forEach wordsOutsideStrings (λ word,
    let upperWord := toUpperCase word in
    when (mem upperWord KEYWORDS && negb (str_eqb word upperWord)
          && (0 <? length word))
      (push lineNumber
         (js "Keyword '" ++ word ++ js "' should be uppercase: '"
          ++ upperWord ++ js "'") error)).

(** Keywords of other languages. *)
Definition invalidKeywords : list jsstring :=
  js <$> ["CONTINUE"; "DO"; "SWITCH"; "DEFAULT"; "TRY"; "CATCH"]%string.

Definition checkInvalidKeywords (lineNumber : nat) (words : list jsstring)
  : State → State :=
  forEach words (λ word,
    when (mem (toUpperCase word) invalidKeywords)
      (push lineNumber
         (js "'" ++ word ++ js "' is not a valid Cambridge pseudocode keyword")
         error)).

(** One name of a DECLARE statement. *)
Definition declareVariable (lineNumber : nat) (afterColon varName : jsstring)
  : State → State :=
  when (nonempty varName && test re_name_whole varName)
    (λ st,
       let varNameLower := toLowerCase varName in
       if mem (toUpperCase varName) KEYWORDS then
         push lineNumber
           (js "'" ++ varName
            ++ js "' is a reserved keyword and cannot be used as a variable name")
           error st
       else if bool_decide (varNameLower ∈ declaredVariables st) then
         let previousType := variableTypes st !! varNameLower in
         match previousType with
         | Some pt =>
           if negb (str_eqb (var_type pt) afterColon) then
             push lineNumber
               (js "Variable '" ++ varName
                ++ js "' redeclared with different type. Previously declared as "
                ++ var_type pt ++ js " on line " ++ decimal_nat (var_line pt))
               error st
           else
             push lineNumber
               (js "Variable '" ++ varName ++ js "' already declared on line "
                ++ (if var_line pt =? 0 then js "unknown"
                    else decimal_nat (var_line pt)))
               warning st
         | None =>
           push lineNumber
             (js "Variable '" ++ varName
              ++ js "' already declared on line unknown") warning st
         end
       else declare varNameLower (mkVarInfo afterColon lineNumber) st).

(** The names before the colon of a DECLARE statement. *)
Definition trackVariables (lineNumber : nat) (trimmedLine : jsstring)
  : State → State :=
  let declarePart := trim (drop 7 trimmedLine) in
  match indexOf (chr ":") declarePart with
  | None => id
  | Some colonIndex =>
    let beforeColon := trim (take colonIndex declarePart) in
    let afterColon := trim (drop (colonIndex + 1) declarePart) in
    let variableNames := trim <$> split_on (chr ",") beforeColon in
    forEach variableNames (declareVariable lineNumber afterColon)
  end.

(** Track array declarations for bounds checking. *)
Definition trackArray (lineNumber : nat) (trimmedLine : jsstring)
  : State → State :=
  match exec re_array_declaration trimmedLine with
  | None => id
  | Some arrayMatch =>
    let arrayName := toLowerCase (grp 1 arrayMatch) in
    let startIndex := parseInt (grp 2 arrayMatch) in
    let endIndex := parseInt (grp 3 arrayMatch) in
    set_array arrayName (mkArrayInfo startIndex endIndex lineNumber)
  end.

Definition checkDeclare (lineNumber : nat) (trimmedLine : jsstring)
  : State → State :=
  when (startsWith (js "DECLARE") trimmedLine)
    (if negb (includes (js ":") trimmedLine) then
       push lineNumber
         (js "DECLARE statement must specify variable type with colon (:)")
         error
     else
       run [ trackVariables lineNumber trimmedLine;
             trackArray lineNumber trimmedLine ]).

(** CONSTANT declarations. *)
Definition checkConstant (lineNumber : nat) (trimmedLine : jsstring)
  : State → State :=
  when (startsWith (js "CONSTANT") trimmedLine)
    (run [
       when (negb (includes (js "=") trimmedLine))
         (push lineNumber (js "CONSTANT must be assigned a value using =")
            error);
       when (includes (js "←") trimmedLine)
         (push lineNumber (js "CONSTANT declarations use = not ←") error);
       match exec re_constant trimmedLine with
       | None => id
       | Some constantMatch =>
         let constantName := grp 1 constantMatch in
         declare (toLowerCase constantName)
           (mkVarInfo (js "CONSTANT") lineNumber)
       end ]).

(** ARRAY declarations follow the format (only on DECLARE lines). *)
Definition checkArrayFormat (lineNumber : nat) (trimmedLine : jsstring)
  : State → State :=
  when (startsWith (js "DECLARE") trimmedLine
        && includes (js "ARRAY") trimmedLine)
    (run [
       when (negb (includes (js "[") trimmedLine)
             || negb (includes (js "]") trimmedLine))
         (push lineNumber
            (js "ARRAY declaration must include index range in square brackets [start:end]")
            error);
       when (negb (includes (js "OF") trimmedLine))
         (push lineNumber (js "ARRAY declaration must include OF keyword")
            error) ]).

Definition checkForSyntax (lineNumber : nat) (trimmedLine : jsstring)
  : State → State :=
  when (startsWith (js "FOR") trimmedLine)
    (when (negb (includes (js "←") trimmedLine)
           || negb (includes (js "TO") trimmedLine))
       (push lineNumber
          (js "FOR loop must use format: FOR variable ← start TO end") error)).

Definition checkCaseFormat (lineNumber : nat) (trimmedLine : jsstring)
  : State → State :=
  when (startsWith (js "CASE OF") trimmedLine)
    (when (negb (includes (js "OF") trimmedLine))
       (push lineNumber
          (js "CASE statement must use format: CASE OF variable") error)).

Definition checkWhileParentheses (lineNumber : nat) (trimmedLine : jsstring)
  : State → State :=
  when (startsWith (js "WHILE") trimmedLine)
    (when (includes (js "(") trimmedLine && includes (js ")") trimmedLine)
       (push lineNumber
          (js "WHILE conditions should not use parentheses in Cambridge pseudocode")
          error)).

(** An odd number of double quotes on the line. *)
Definition hasUnclosedString (trimmedLine : jsstring) : bool :=
  let stringMatches := match_all re_quote trimmedLine in
  negb (length stringMatches mod 2 =? 0).

Definition checkUnclosedString (lineNumber : nat) (trimmedLine : jsstring)
  : State → State :=
  when (hasUnclosedString trimmedLine)
    (push lineNumber (js "Unclosed string - missing closing quote") error).

(** CHAR literals hold exactly one character. *)
Definition checkCharLiterals (lineNumber : nat) (trimmedLine : jsstring)
  : State → State :=
  let charMatches := match_all re_single_quoted trimmedLine in
  forEach charMatches (λ charLiteral,
    let content := slice_1_m1 charLiteral in
    if length content =? 0 then
      push lineNumber
        (js "Empty CHAR literal - CHAR must contain exactly one character")
        error
    else
      when ((1 <? length content) && negb (startsWith (js "\") content))
        (push lineNumber
           (js "CHAR literal can only contain one character. Use double quotes for strings")
           error)).

(** A CHAR declaration with a double quote on the line. *)
Definition checkCharDeclaration (lineNumber : nat) (trimmedLine : jsstring)
  : State → State :=
  when (test re_declare_char trimmedLine && includes [DQUOTE] trimmedLine)
    (push lineNumber
       (js "CHAR literals must use single quotes ('), not double quotes ("
        ++ [DQUOTE] ++ js ")") error).

(** A double-quoted literal assigned to a CHAR variable. *)
Definition checkCharAssignment (lineNumber : nat) (trimmedLine : jsstring)
  : State → State :=
  when (includes (js "←") trimmedLine)
    (λ st,
       match exec re_assign_string trimmedLine with
       | None => st
       | Some assignMatch =>
         let varName := toLowerCase (grp 1 assignMatch) in
         match variableTypes st !! varName with
         | None => st
         | Some varType =>
           when (str_eqb (toUpperCase (var_type varType)) (js "CHAR"))
             (push lineNumber
                (js "CHAR variable '" ++ grp 1 assignMatch
                 ++ js "' must use single quotes (') for character literals, not double quotes ("
                 ++ [DQUOTE] ++ js ")") error) st
         end
       end).

(** One array access, checked against the declared bounds. *)
Definition checkAccess (lineNumber : nat) (access : jsstring)
  : State → State :=
  λ st,
    match exec re_array_access access with
    | None => st
    | Some m =>
      let arrayName := toLowerCase (grp 1 m) in
      let accessIndex := parseInt (grp 2 m) in
      match arrayDeclarations st !! arrayName with
      | None => st
      | Some arrayInfo =>
        when (num_ltb accessIndex (arr_start arrayInfo)
              || num_ltb (arr_end arrayInfo) accessIndex)
          (push lineNumber
             (js "Array index " ++ numberToString accessIndex
              ++ js " is out of bounds. Array '" ++ grp 1 m
              ++ js "' valid range is [" ++ numberToString (arr_start arrayInfo)
              ++ js ":" ++ numberToString (arr_end arrayInfo) ++ js "]") error) st
      end
    end.

(** Check array bounds. *)
Definition checkArrayBounds (lineNumber : nat) (trimmedLine : jsstring)
  : State → State :=
  let arrayAccessMatch := match_all re_array_access trimmedLine in
  forEach arrayAccessMatch (checkAccess lineNumber).

(** The target of an assignment must be declared. *)
Definition checkAssignmentTarget (lineNumber : nat) (trimmedLine : jsstring)
  : State → State :=
  when (includes (js "←") trimmedLine)
    (λ st,
       match exec re_assignment trimmedLine with
       | None => st
       | Some assignmentMatch =>
         let varName := grp 1 assignmentMatch in
         when (negb (bool_decide (toLowerCase varName ∈ declaredVariables st)))
           (push lineNumber
              (js "Variable '" ++ varName ++ js "' must be declared before use")
              error) st
       end).

(** Variables used in OUTPUT, INPUT, IF and WHILE lines; skipped when the
    line has an unclosed string. *)
Definition checkReferences (lineNumber : nat) (trimmedLine : jsstring)
    (lineWithoutStrings : jsstring) : State → State :=
  when (negb (hasUnclosedString trimmedLine)
        && (includes (js "OUTPUT") trimmedLine
            || includes (js "INPUT") trimmedLine
            || includes (js "IF") trimmedLine
            || includes (js "WHILE") trimmedLine))
    (let lineToCheck := lineWithoutStrings in
     let variableMatches := match_all re_variable lineToCheck in
     forEach variableMatches (λ match_ st,
       if mem (toUpperCase match_) KEYWORDS then st
       else if mem (toUpperCase match_)
                 (js <$> ["OUTPUT"; "INPUT"; "IF"; "WHILE"; "THEN"]%string)
       then st
       else if includes (match_ ++ js "(") lineToCheck then st
       else
         when (negb (bool_decide (toLowerCase match_ ∈ declaredVariables st)))
           (push lineNumber
              (js "Variable '" ++ match_ ++ js "' must be declared before use")
              error) st)).

(** CALL is for procedures, not functions. *)
Definition checkCall (lineNumber : nat) (trimmedLine : jsstring)
  : State → State :=
  when (startsWith (js "CALL ") trimmedLine)
    (λ st,
       match exec re_call trimmedLine with
       | None => st
       | Some callMatch =>
         let calledName := toLowerCase (grp 1 callMatch) in
         when (bool_decide (calledName ∈ declaredFunctions st))
           (push lineNumber
              (js "CALL should not be used with functions. Use function calls directly: "
               ++ grp 1 callMatch ++ js "(...)") error) st
       end).

(** OPENFILE <file> FOR <mode> *)
Definition checkOpenfile (lineNumber : nat) (trimmedLine : jsstring)
  : State → State :=
  when (startsWith (js "OPENFILE") trimmedLine)
    (match exec re_openfile trimmedLine with
     | Some openfileMatch =>
       let mode := toUpperCase (grp 1 openfileMatch) in
       when (negb (mem mode (js <$> ["READ"; "WRITE"; "APPEND"]%string)))
         (push lineNumber
            (js "Invalid file mode '" ++ mode
             ++ js "'. Valid modes are: READ, WRITE, APPEND") error)
     | None =>
       when (includes (js "FOR") trimmedLine)
         (push lineNumber
            (js "OPENFILE syntax should be: OPENFILE filename FOR mode (READ/write/append)")
            error)
     end).

(** FOR loops closed by ENDFOR further down. *)
Definition checkEndfor (lines : list jsstring) (index : nat)
    (trimmedLine : jsstring) : State → State :=
  let later_endfor := λ (idx : nat) (line : jsstring),
    (index <? idx) && startsWith (js "ENDFOR") (trim line) in
  when (startsWith (js "FOR") trimmedLine
        && bool_decide (is_Some (findIndex later_endfor 0 lines)))
    (match findIndex later_endfor 0 lines with
     | None => id
     | Some endforLine =>
       push (endforLine + 1) (js "FOR loops must end with NEXT, not ENDFOR")
         error
     end).

(** The parameters between the parentheses of a FUNCTION or PROCEDURE
    heading are declared on the spot. *)
Definition declareParameters (lineNumber : nat) (kw : string)
    (trimmedLine : jsstring) : State → State :=
  match exec (re_parameters kw) trimmedLine with
  | None => id
  | Some paramMatch =>
    when (nonempty (trim (grp 1 paramMatch)))
      (let params := split_on (chr ",") (grp 1 paramMatch) in
       forEach params (λ param,
         let paramParts := split_on (chr ":") (trim param) in
         match paramParts with
         | [p0; p1] =>
           let paramName := trim p0 in
           let paramType := trim p1 in
           when (nonempty paramName && test re_name_whole paramName)
             (declare (toLowerCase paramName) (mkVarInfo paramType lineNumber))
         | _ => id
         end))
  end.

Definition checkFunction (lineNumber : nat) (trimmedLine : jsstring)
  : State → State :=
  when (startsWith (js "FUNCTION") trimmedLine)
    (run [
       when (negb (includes (js "RETURNS") trimmedLine))
         (push lineNumber (js "FUNCTION must specify return type with RETURNS")
            error);
       match exec re_function_name trimmedLine with
       | None => id
       | Some functionNameMatch =>
         add_function (toLowerCase (grp 1 functionNameMatch))
       end;
       declareParameters lineNumber "FUNCTION" trimmedLine ]).

Definition checkProcedure (lineNumber : nat) (trimmedLine : jsstring)
  : State → State :=
  when (startsWith (js "PROCEDURE") trimmedLine)
    (declareParameters lineNumber "PROCEDURE" trimmedLine).

(** *** The line pass *)

(** A line that is blank or a comment. *)
Definition skipped (trimmedLine : jsstring) : bool :=
  negb (nonempty trimmedLine) || startsWith (js "//") trimmedLine.

(** The checks made on a line that is not skipped, in source order. *)
Definition lineRules (lines : list jsstring) (index : nat) (line : jsstring)
  : list (State → State) :=
  let lineNumber := index + 1 in
  let trimmedLine := trim line in
  let words := split_re re_spaces trimmedLine in
  let lineWithoutStrings := withoutStrings trimmedLine in
  let wordsOutsideStrings := split_re re_spaces lineWithoutStrings in
  [ checkIndentation lineNumber line;
    checkAssignmentOperator lineNumber trimmedLine;
    checkIdentifiers lineNumber trimmedLine;
    checkStructure lineNumber trimmedLine words;
    checkFirstWord lineNumber words;
    checkKeywordCase lineNumber wordsOutsideStrings;
    checkInvalidKeywords lineNumber words;
    checkDeclare lineNumber trimmedLine;
    checkConstant lineNumber trimmedLine;
    checkArrayFormat lineNumber trimmedLine;
    checkForSyntax lineNumber trimmedLine;
    checkCaseFormat lineNumber trimmedLine;
    checkWhileParentheses lineNumber trimmedLine;
    checkUnclosedString lineNumber trimmedLine;
    checkCharLiterals lineNumber trimmedLine;
    checkCharDeclaration lineNumber trimmedLine;
    checkCharAssignment lineNumber trimmedLine;
    checkArrayBounds lineNumber trimmedLine;
    checkAssignmentTarget lineNumber trimmedLine;
    checkReferences lineNumber trimmedLine lineWithoutStrings;
    checkCall lineNumber trimmedLine;
    checkOpenfile lineNumber trimmedLine;
    checkEndfor lines index trimmedLine;
    checkFunction lineNumber trimmedLine;
    checkProcedure lineNumber trimmedLine ].

(** The body of the first [lines.forEach]: blank lines and comments are
    skipped. *)
Definition processLine (lines : list jsstring) (index : nat) (line : jsstring)
  : State → State :=
  if skipped (trim line) then id else run (lineRules lines index line).

Definition linePass (lines : list jsstring) : State → State :=
  forEachLine 0 lines (processLine lines).

(** *** The sweeps after the line pass *)

(** Check for unmatched blocks. *)
Definition checkUnmatched : State → State :=
  λ st,
    forEach (blockStack st) (λ block,
      push (blk_line block)
        (js "Unmatched " ++ blk_keyword block ++ js " - missing "
         ++ or_undefined (block_closer (blk_keyword block))) error) st.

(** The closers of the second sweep, each with the prefix that opens its
    family. *)
Definition closerFamilies : list (jsstring * jsstring) :=
  (λ p, (js p.1, js p.2)) <$>
  [ ("ENDIF", "IF "); ("ENDWHILE", "WHILE "); ("ENDPROCEDURE", "PROCEDURE ");
    ("ENDFUNCTION", "FUNCTION "); ("ENDCASE", "CASE "); ("ENDTYPE", "TYPE ") ]%string.

(** Check for extra closing keywords: openers and closers of the family are
    counted over the lines up to and including this one. *)
Definition checkExtraClosers (lines : list jsstring) : State → State :=
  forEachLine 0 lines (λ index line,
    let lineNumber := index + 1 in
    let trimmedLine := trim line in
    match find (λ p, str_eqb trimmedLine p.1) closerFamilies with
    | None => id
    | Some (closer, opener) =>
      let upTo := trim <$> take (index + 1) lines in
      let openCount :=
        length (List.filter (λ checkLine, startsWith opener checkLine) upTo) in
      let closeCount :=
        length (List.filter (λ checkLine, str_eqb checkLine closer) upTo) in
      when (openCount <? closeCount)
        (push lineNumber
           (js "Extra " ++ trimmedLine ++ js " - no matching opening block")
           error)
    end).

(** Check LENGTH function type usage. *)
Definition checkLength (lines : list jsstring) : State → State :=
  forEachLine 0 lines (λ index line,
    let lineNumber := index + 1 in
    let trimmedLine := trim line in
    let lengthMatches := match_all re_length trimmedLine in
    forEach lengthMatches (λ match_ st,
      match exec re_length match_ with
      | None => st
      | Some varMatch =>
        let varName := toLowerCase (grp 1 varMatch) in
        match variableTypes st !! varName with
        | None => st
        | Some varType =>
          let type_ := toUpperCase (var_type varType) in
          when (negb (includes (js "STRING") type_)
                && negb (includes (js "ARRAY") type_))
            (push lineNumber
               (js "LENGTH() can only be used with STRING or ARRAY variables, not "
                ++ var_type varType) error) st
        end
      end)).

(** The forward scan for the NEXT of a FOR line: the index of the first
    line that starts with NEXT, unless another control structure comes
    first. *)
Fixpoint findNext (i : nat) (ls : list jsstring) : option nat :=
  match ls with
  | [] => None
  | l :: ls' =>
    let nextLine := trim l in
    if startsWith (js "NEXT ") nextLine then Some i
    else if startsWith (js "FOR ") nextLine
            || startsWith (js "WHILE ") nextLine
            || startsWith (js "IF ") nextLine
            || startsWith (js "PROCEDURE ") nextLine
            || startsWith (js "FUNCTION ") nextLine
    then None
    else findNext (S i) ls'
  end.

(** Check for empty loop bodies (warning). *)
Definition checkEmptyLoops (lines : list jsstring) : State → State :=
  forEachLine 0 lines (λ index line,
    let lineNumber := index + 1 in
    let trimmedLine := trim line in
    when (startsWith (js "FOR ") trimmedLine && includes (js " TO ") trimmedLine)
      (let nextLineIndex := findNext (index + 1) (drop (index + 1) lines) in
       when (bool_decide (nextLineIndex = Some (index + 1)))
         (push lineNumber
            (js "Empty FOR loop body - consider adding statements or removing the loop")
            warning))).

(** *** Deduplication and verdict *)

(** The key of a diagnostic: line, colon, message. *)
Definition errorKey (e : SyntaxError) : jsstring :=
  decimal_nat (line e) ++ js ":" ++ message e.

(** Deduplicate errors (same line + same message): the first of each key is
    kept. *)
Definition dedupStep (acc : gset jsstring * list SyntaxError)
    (e : SyntaxError) : gset jsstring * list SyntaxError :=
  let '(errorKeys, uniqueErrors) := acc in
  let key := errorKey e in
  if bool_decide (key ∈ errorKeys) then acc
  else ({[key]} ∪ errorKeys, uniqueErrors ++ [e]).

Definition deduplicate (es : list SyntaxError) : list SyntaxError :=
  (foldl dedupStep (∅, []) es).2.

Definition hasContent (line : jsstring) : bool :=
  let trimmed := trim line in
  nonempty trimmed && negb (startsWith (js "//") trimmed).

(** The state in which line [k] (counted from 0) is processed. *)
Definition stateBefore (lines : list jsstring) (k : nat) : State :=
  forEachLine 0 (take k lines) (processLine lines) initial.

(** The array table as the accesses of line [k] find it: the declaration of
    line [k] itself is already in. *)
Definition arraysAt (lines : list jsstring) (k : nat)
  : gmap jsstring ArrayInfo :=
  arrayDeclarations (stateBefore lines (S k)).

(** The state at the end of the run, before deduplication. *)
Definition finalState (lines : list jsstring) : State :=
  run [ linePass lines;
        checkUnmatched;
        checkExtraClosers lines;
        checkLength lines;
        checkEmptyLoops lines ] initial.

Definition checkSyntax (code : jsstring) : SyntaxCheckResult :=
  let lines := split_on 10 code in
  let hasActualCode := existsb hasContent lines in
  if negb hasActualCode then
    mkResult false
      [mkError 1
         (js "No pseudocode content found. Please write some pseudocode.")
         error]
  else
    let uniqueErrors := deduplicate (errs (finalState lines)) in
    mkResult (length (List.filter is_error uniqueErrors) =? 0) uniqueErrors.

End Checker.

(** ** Case mappings on plain texts

    The case tables of the runtime are not part of the repository.  On a
    text made of Basic Latin units and the assignment glyph (which has no
    case) they act unit by unit and move the 26 letters only. *)

Definition plain (c : N) : bool := (c <? 128)%N || (c =? ARROW)%N.

Definition upper1 (c : N) : N := if isLower c then (c - 32)%N else c.
Definition lower1 (c : N) : N := if isUpper c then (c + 32)%N else c.
Definition latinUpper (s : jsstring) : jsstring := upper1 <$> s.
Definition latinLower (s : jsstring) : jsstring := lower1 <$> s.

(** The mapping that is [f] on plain texts and [other] on all others. *)
Definition onPlain (f other : jsstring → jsstring) (s : jsstring) : jsstring :=
  if forallb plain s then f s else other s.

(** The checker under case mappings that are the Basic Latin ones on plain
    texts and anything at all elsewhere: every runtime qualifies. *)
Definition checkPlain (otherUpper otherLower : jsstring → jsstring)
  : jsstring → SyntaxCheckResult :=
  checkSyntax (onPlain latinUpper otherUpper) (onPlain latinLower otherLower).

(** The checker under the Basic Latin mappings. *)
Definition check : jsstring → SyntaxCheckResult :=
  checkSyntax latinUpper latinLower.

(** * Vocabulary of the statements *)

Global Instance Severity_eq_dec : EqDecision Severity.
Proof. solve_decision. Defined.

Global Instance SyntaxError_eq_dec : EqDecision SyntaxError.
Proof. solve_decision. Defined.

(** ** Inputs *)

(** Lines joined by line feeds. *)
Definition unlines (ls : list jsstring) : jsstring :=
  match ls with
  | [] => []
  | l :: ls' => l ++ foldr (λ x acc, 10%N :: x ++ acc) [] ls'
  end.

Definition example_blocks : jsstring :=
  unlines [js "ENDIF"; js "IF TRUE THEN"; js "FOR i ← 1 TO 2"; js "NEXT i"].

(** The first word of a line, as the first-word check takes it. *)
Definition firstWord (text : jsstring) : option jsstring :=
  head (split_re re_spaces (trim text)).

(** The words on which the block stack is popped. *)
Definition isClosingWord (w : jsstring) : bool :=
  mem w closingKeywords || str_eqb w (js "NEXT") || str_eqb w (js "UNTIL").

(** The words of a line once comments and quoted literals are removed. *)
Definition wordsOutsideStrings (text : jsstring) : list jsstring :=
  split_re re_spaces (withoutStrings (trim text)).

(** The number of double quotes of a text. *)
Definition countQuotes (s : jsstring) : nat :=
  length (List.filter (N.eqb DQUOTE) s).

(** ** Accesses as texts *)

(** Names and numerals, as the access pattern reads them. *)
Definition isName (s : jsstring) : Prop :=
  match s with
  | [] => False
  | c :: xs => isAlphaU c = true ∧ Forall (λ c, isAlnumU c = true) xs
  end.

Definition isNumeral (s : jsstring) : Prop :=
  s ≠ [] ∧ Forall (λ c, isDigit c = true) s.

(** The text of an access. *)
Definition accessText (name ds : jsstring) : jsstring :=
  name ++ js "[" ++ ds ++ js "]".

(** ** Positions of the matcher *)

(** The position after a run of units. *)
Fixpoint after (prev : option N) (xs : jsstring) : option N :=
  match xs with
  | [] => prev
  | x :: xs' => after (Some x) xs'
  end.

(** The class [p] does not go on into [r]. *)
Definition stops (p : N → bool) (r : jsstring) : Prop :=
  match r with
  | [] => True
  | c :: _ => p c = false
  end.

(** ** Diagnostics by name *)

Definition noContentError : SyntaxError :=
  mkError 1 (js "No pseudocode content found. Please write some pseudocode.")
    error.

Definition unexpectedCloser (w : jsstring) : jsstring :=
  js "Unexpected " ++ w ++ js " without matching opening".

Definition unmatchedError (b : Block) : SyntaxError :=
  mkError (blk_line b)
    (js "Unmatched " ++ blk_keyword b ++ js " - missing "
     ++ or_undefined (block_closer (blk_keyword b))) error.

(** The unmatched-opener diagnostics, recognised by their message. *)
Definition isUnmatched (d : SyntaxError) : bool :=
  startsWith (js "Unmatched ") (message d).

Definition keywordCasing (toUpperCase : jsstring → jsstring)
    (word : jsstring) : jsstring :=
  js "Keyword '" ++ word ++ js "' should be uppercase: '"
  ++ toUpperCase word ++ js "'".

Definition unclosedString : jsstring :=
  js "Unclosed string - missing closing quote".

Definition emptyLoopBody : jsstring :=
  js "Empty FOR loop body - consider adding statements or removing the loop".

Definition outOfBounds (i : Number) (name : jsstring) (lo hi : Number)
  : jsstring :=
  js "Array index " ++ numberToString i ++ js " is out of bounds. Array '"
  ++ name ++ js "' valid range is [" ++ numberToString lo ++ js ":"
  ++ numberToString hi ++ js "]".

(** The index lies outside the range, by the comparisons of the check. *)
Definition outside (i lo hi : Number) : Prop :=
  num_ltb i lo = true ∨ num_ltb hi i = true.

(** ** Deduplication as a recursive filter *)

(** The fold of [deduplicate], with the keys seen so far. *)
Fixpoint dedupFrom (keys : gset jsstring) (es : list SyntaxError)
  : list SyntaxError :=
  match es with
  | [] => []
  | e :: es' =>
    if bool_decide (errorKey e ∈ keys) then dedupFrom keys es'
    else e :: dedupFrom ({[errorKey e]} ∪ keys) es'
  end.

(** ** Relations between the states of a run *)

(** A statement respects a preorder on states when its effect stays within
    it; the statement formers preserve this. *)
Definition respects (R : relation State) (f : State → State) : Prop :=
  ∀ st, R st (f st).

(** The diagnostics only grow, by entries that satisfy [Q]. *)
Definition grows (Q : SyntaxError → Prop) (st st' : State) : Prop :=
  ∃ l, errs st' = errs st ++ l ∧ Forall Q l.

(** A component of the state is left as it was. *)
Definition same {A} (proj : State → A) (st st' : State) : Prop :=
  proj st' = proj st.

Definition holds (q : SyntaxError → bool) (d : SyntaxError) : Prop :=
  q d = true.

Definition anything (d : SyntaxError) : Prop := True.

(** Entries of the stack carry the numbers of distinct lines, none beyond
    line [n]. *)
Definition stackOK (n : nat) (st : State) : Prop :=
  Forall (λ b, blk_line b ≤ n) (blockStack st)
  ∧ NoDup (blk_line <$> blockStack st).

(** ** What each phase may push *)

(** The line pass: its errors are neither unmatched-opener nor empty-loop
    messages, and its warnings are about indentation or a variable. *)
Definition lineShape (d : SyntaxError) : bool :=
  let m := message d in
  match type d with
  | error =>
    negb (startsWith (js "Unmatched ") m) && negb (startsWith (js "Empty FOR") m)
  | warning => startsWith (js "Indentation") m || startsWith (js "Variable '") m
  end.

(** The sweeps after the unmatched-block check. *)
Definition sweepShape (d : SyntaxError) : bool :=
  let m := message d in
  match type d with
  | error => startsWith (js "Extra ") m || startsWith (js "LENGTH() ") m
  | warning => startsWith (js "Empty FOR") m
  end.

(** The whole run. *)
Definition finalShape (d : SyntaxError) : bool :=
  let m := message d in
  match type d with
  | error => negb (startsWith (js "Empty FOR") m)
  | warning => startsWith (js "Indentation") m || startsWith (js "Variable '") m
               || startsWith (js "Empty FOR") m
  end.

(** * Vocabulary of the further properties *)

(** ** Where diagnostics sit *)

(** A block entry stands for a line that opened it. *)
Definition opensAt (lines : list jsstring) (b : Block) : Prop :=
  ∃ text closer,
    lines !! (blk_line b - 1) = Some text ∧ 1 ≤ blk_line b
    ∧ skipped (trim text) = false
    ∧ firstWord text = Some (blk_keyword b)
    ∧ block_closer (blk_keyword b) = Some closer.

Definition unmatchedOpener (keyword closer : jsstring) : jsstring :=
  js "Unmatched " ++ keyword ++ js " - missing " ++ closer.

(** The line a diagnostic points at is a line of the input that the line pass processes *)
Definition atProcessed (lines : list jsstring) (d : SyntaxError) : Prop :=
  ∃ text, lines !! (line d - 1) = Some text ∧ 1 ≤ line d
          ∧ skipped (trim text) = false.

Definition atLine (lines : list jsstring) (d : SyntaxError) : Prop :=
  ∃ text, lines !! (line d - 1) = Some text ∧ 1 ≤ line d
          ∧ (skipped (trim text) = true →
             trim text ≠ [] ∧ startsWith (js "LENGTH() ") (message d) = true).

(** ** Diagnostics told apart by the start of their message *)

Definition notPrefix (pfx : jsstring) (d : SyntaxError) : Prop :=
  startsWith pfx (message d) = false.

(** The diagnostics with a given prefix satisfy [P]. *)
Definition prefixed (pfx : jsstring) (P : SyntaxError → Prop) (d : SyntaxError)
  : Prop :=
  startsWith pfx (message d) = true → P d.

(** ** Closing words against the open block *)

Definition expectedCloser (expected w : jsstring) : jsstring :=
  js "Expected " ++ expected ++ js " but found " ++ w.

Definition mismatch (n : nat) (words : list jsstring) (stack : list Block)
    (d : SyntaxError) : Prop :=
  ∃ w ws b expected,
    words = w :: ws ∧ isClosingWord w = true
    ∧ last stack = Some b
    ∧ block_closer (blk_keyword b) = Some expected ∧ w ≠ expected
    ∧ d = mkError n (expectedCloser expected w) error.

Definition mismatchAt (U L : jsstring → jsstring) (lines : list jsstring)
    (d : SyntaxError) : Prop :=
  ∃ k text,
    lines !! k = Some text ∧ skipped (trim text) = false
    ∧ mismatch (k + 1) (split_re re_spaces (trim text))
        (blockStack (stateBefore U L lines k)) d.

(** ** The message on the format of CASE *)

Definition caseFormat : jsstring :=
  js "CASE statement must use format: CASE OF variable".

(** ** Warnings *)

Definition indentation : jsstring :=
  js "Indentation should be multiples of 3 spaces".

Definition alreadyDeclared (v : jsstring) (n : nat) : jsstring :=
  js "Variable '" ++ v ++ js "' already declared on line " ++ decimal_nat n.

(** The two tables of variables agree, and the lines they record are lines
    read so far. *)
Definition tablesOK (n : nat) (st : State) : Prop :=
  (∀ v, v ∈ declaredVariables st ↔ is_Some (variableTypes st !! v))
  ∧ (∀ v info, variableTypes st !! v = Some info →
               1 ≤ var_line info ∧ var_line info ≤ n).

(** A statement keeps an invariant of the state and pushes only diagnostics
    that satisfy [Q]. *)
Definition keeping (I : State → Prop) (Q : SyntaxError → Prop)
  : relation State :=
  λ st st', I st → I st' ∧ grows Q st st'.

(** [varName && /^[a-zA-Z_][a-zA-Z0-9_]*$/.test(varName)] *)
Definition isVariableName (v : jsstring) : bool :=
  nonempty v && test re_name_whole v.

Definition lineWarning (n : nat) (d : SyntaxError) : Prop :=
  type d = warning →
  line d = n
  ∧ (message d = indentation
     ∨ ∃ v m, message d = alreadyDeclared v m ∧ isVariableName v = true
              ∧ 1 ≤ m ∧ m ≤ n).

Definition knownWarning (d : SyntaxError) : Prop :=
  type d = warning →
  message d = indentation ∨ message d = emptyLoopBody
  ∨ ∃ v m, message d = alreadyDeclared v m ∧ isVariableName v = true
           ∧ 1 ≤ m ∧ m ≤ line d.

(** ** Indentation and ENDFOR *)

(** [line.length - line.trimStart().length] *)
Definition leadingSpaces (text : jsstring) : nat :=
  length text - length (trimStart text).

Definition badIndentation (lines : list jsstring) (d : SyntaxError) : Prop :=
  type d = warning
  ∧ ∃ k text, lines !! k = Some text ∧ line d = k + 1
              ∧ leadingSpaces text mod 3 ≠ 0.

Definition endforMessage : jsstring :=
  js "FOR loops must end with NEXT, not ENDFOR".

(** Line [j] is the first line after line [k] that starts with ENDFOR, and
    line [k] is a processed line that starts with FOR. *)
Definition firstEndforAfter (lines : list jsstring) (k j : nat) : Prop :=
  ∃ text textj,
    lines !! k = Some text ∧ skipped (trim text) = false
    ∧ startsWith (js "FOR") (trim text) = true
    ∧ k < j ∧ lines !! j = Some textj
    ∧ startsWith (js "ENDFOR") (trim textj) = true
    ∧ ∀ i t, k < i → i < j → lines !! i = Some t →
             startsWith (js "ENDFOR") (trim t) = false.

Definition endforAt (lines : list jsstring) (d : SyntaxError) : Prop :=
  type d = error ∧ ∃ k j, line d = j + 1 ∧ firstEndforAfter lines k j.

(** ** Closers without an opener *)

(** The lines up to and including line [k] that open, and that close, a
    family of blocks, as the second sweep counts them. *)
Definition countOpen (opener : jsstring) (lines : list jsstring) (k : nat)
  : nat :=
  length (List.filter (λ checkLine, startsWith opener checkLine)
            (trim <$> take (k + 1) lines)).

Definition countClose (closer : jsstring) (lines : list jsstring) (k : nat)
  : nat :=
  length (List.filter (λ checkLine, str_eqb checkLine closer)
            (trim <$> take (k + 1) lines)).

Definition extraCloser (closer : jsstring) : jsstring :=
  js "Extra " ++ closer ++ js " - no matching opening block".

Definition extraAt (lines : list jsstring) (d : SyntaxError) : Prop :=
  type d = error
  ∧ ∃ k text closer opener,
      lines !! k = Some text ∧ line d = k + 1
      ∧ find (λ p, str_eqb (trim text) p.1) closerFamilies = Some (closer, opener)
      ∧ countOpen opener lines k < countClose closer lines k.

(** ** Names used before their declaration *)

Definition undeclared (v : jsstring) : jsstring :=
  js "Variable '" ++ v ++ js "' must be declared before use".

(** An assignment: a name, white space, the assignment glyph, the rest. *)
Definition assignmentText (name ws rest : jsstring) : jsstring :=
  name ++ ws ++ ARROW :: rest.

(** The line opens with one of the words on which names are declared. *)
Definition declaring (trimmedLine : jsstring) : bool :=
  startsWith (js "DECLARE") trimmedLine || startsWith (js "CONSTANT") trimmedLine
  || startsWith (js "FUNCTION") trimmedLine
  || startsWith (js "PROCEDURE") trimmedLine.

Definition undeclaredOn (L : jsstring → jsstring) (n : nat)
    (declared : gset jsstring) (d : SyntaxError) : Prop :=
  ∀ v, message d = undeclared v →
       type d = error ∧ line d = n ∧ L v ∉ declared.

Definition undeclaredAt (U L : jsstring → jsstring) (lines : list jsstring)
    (d : SyntaxError) : Prop :=
  ∀ v, message d = undeclared v →
       type d = error
       ∧ ∃ k, line d = k + 1
              ∧ L v ∉ declaredVariables (stateBefore U L lines k).

(** ** DECLARE statements *)

(** The parts of a DECLARE statement, as the tracking of declarations cuts
    them out: the text after the word, the names before its first colon and
    the type after it. *)
Definition declarePart (trimmedLine : jsstring) : jsstring :=
  trim (drop 7 trimmedLine).

Definition declaredNames (trimmedLine : jsstring) : list jsstring :=
  match indexOf (chr ":") (declarePart trimmedLine) with
  | Some colonIndex =>
    trim <$> split_on (chr ",") (trim (take colonIndex (declarePart trimmedLine)))
  | None => []
  end.

Definition declaredType (trimmedLine : jsstring) : jsstring :=
  match indexOf (chr ":") (declarePart trimmedLine) with
  | Some colonIndex => trim (drop (colonIndex + 1) (declarePart trimmedLine))
  | None => []
  end.

Definition redeclared (v ty : jsstring) (n : nat) : jsstring :=
  js "Variable '" ++ v
  ++ js "' redeclared with different type. Previously declared as "
  ++ ty ++ js " on line " ++ decimal_nat n.

Definition reservedName (v : jsstring) : jsstring :=
  js "'" ++ v
  ++ js "' is a reserved keyword and cannot be used as a variable name".

(** Severity by message: what the line pass pushes as an error is no
    already-declared message. *)
Definition notAlready (d : SyntaxError) : Prop :=
  type d = error →
  ∀ v n, isVariableName v = true → message d ≠ alreadyDeclared v n.

(** ** The tables of variables *)

(** The two tables of variables. *)
Definition tables (st : State) : gset jsstring * gmap jsstring VarInfo :=
  (declaredVariables st, variableTypes st).

(** Two words that differ in their first unit. *)
Definition clash (p q : jsstring) : bool :=
  match p, q with
  | x :: _, y :: _ => negb (x =? y)%N
  | _, _ => false
  end.

(** The tables agree, and the entry of [key] is the one it had or the one
    this statement gives. *)
Definition declaring_inv (key : jsstring) (orig : option VarInfo)
    (info : VarInfo) (st : State) : Prop :=
  (∀ v, v ∈ declaredVariables st ↔ is_Some (variableTypes st !! v))
  ∧ (variableTypes st !! key = orig
     ∨ (orig = None ∧ variableTypes st !! key = Some info)).

(** ** LENGTH *)

(** A call of LENGTH on a name, written without spaces. *)
Definition lengthCall (name : jsstring) : jsstring :=
  js "LENGTH(" ++ name ++ js ")".

Definition lengthMisuse (ty : jsstring) : jsstring :=
  js "LENGTH() can only be used with STRING or ARRAY variables, not " ++ ty.

(** The type recorded for a variable allows LENGTH. *)
Definition hasLength (U : jsstring → jsstring) (ty : jsstring) : bool :=
  includes (js "STRING") (U ty) || includes (js "ARRAY") (U ty).

Definition lengthMisused (U : jsstring → jsstring)
    (types : gmap jsstring VarInfo) (d : SyntaxError) : Prop :=
  type d = error
  ∧ ∃ v vt, types !! v = Some vt ∧ hasLength U (var_type vt) = false
            ∧ message d = lengthMisuse (var_type vt).

(** ** Character literals and foreign keywords *)

Definition emptyChar : jsstring :=
  js "Empty CHAR literal - CHAR must contain exactly one character".

Definition longChar : jsstring :=
  js "CHAR literal can only contain one character. Use double quotes for strings".

(** The single-quoted literals of a line, without their quotes. *)
Definition charLiterals (text : jsstring) : list jsstring :=
  slice_1_m1 <$> match_all re_single_quoted (trim text).

(** More than one unit, and no backslash in front. *)
Definition tooLong (content : jsstring) : bool :=
  (1 <? length content) && negb (startsWith (js "\") content).

Definition notKeyword (word : jsstring) : jsstring :=
  js "'" ++ word ++ js "' is not a valid Cambridge pseudocode keyword".

Definition charAt (lines : list jsstring) (p : jsstring → bool)
    (d : SyntaxError) : Prop :=
  type d = error
  ∧ ∃ k text content,
      lines !! k = Some text ∧ line d = k + 1
      ∧ content ∈ charLiterals text ∧ p content = true.

Definition isEmpty (content : jsstring) : bool := length content =? 0.

(** ** OPENFILE *)

(** OPENFILE, a file name without white space, FOR, a mode made of word
    characters, and what follows the mode. *)
Definition openfileText (file mode rest : jsstring) : jsstring :=
  js "OPENFILE " ++ file ++ js " FOR " ++ mode ++ rest.

Definition fileModes : list jsstring :=
  js <$> ["READ"; "WRITE"; "APPEND"]%string.

Definition invalidMode (mode : jsstring) : jsstring :=
  js "Invalid file mode '" ++ mode
  ++ js "'. Valid modes are: READ, WRITE, APPEND".

Definition modeRejected (U : jsstring → jsstring) (lines : list jsstring)
    (d : SyntaxError) : Prop :=
  type d = error
  ∧ ∃ k text m,
      lines !! k = Some text ∧ line d = k + 1
      ∧ exec re_openfile (trim text) = Some m
      ∧ mem (U (grp 1 m)) fileModes = false
      ∧ message d = invalidMode (U (grp 1 m)).

(** ** Checks on the format of a line *)

(** The checks on the format of a statement that depend on the trimmed
    line alone: the message, and the condition under which it is pushed. *)
Definition formatChecks (U : jsstring → jsstring)
  : list (jsstring * (jsstring → bool)) :=
  [ (js "Use ← for assignment instead of = (Cambridge rule)",
     λ t, (includes (js "=") t && negb (includes (js "<=") t)
           && negb (includes (js ">=") t) && negb (includes (js "<>") t)
           && negb (startsWith (js "CONSTANT") t))
          && (negb (test re_conditional t) && negb (includes (js "←") t)));
    (js "DECLARE statement must specify variable type with colon (:)",
     λ t, startsWith (js "DECLARE") t && negb (includes (js ":") t));
    (js "CONSTANT must be assigned a value using =",
     λ t, startsWith (js "CONSTANT") t && negb (includes (js "=") t));
    (js "CONSTANT declarations use = not ←",
     λ t, startsWith (js "CONSTANT") t && includes (js "←") t);
    (js "ARRAY declaration must include index range in square brackets [start:end]",
     λ t, (startsWith (js "DECLARE") t && includes (js "ARRAY") t)
          && (negb (includes (js "[") t) || negb (includes (js "]") t)));
    (js "ARRAY declaration must include OF keyword",
     λ t, (startsWith (js "DECLARE") t && includes (js "ARRAY") t)
          && negb (includes (js "OF") t));
    (js "FOR loop must use format: FOR variable ← start TO end",
     λ t, startsWith (js "FOR") t
          && (negb (includes (js "←") t) || negb (includes (js "TO") t)));
    (js "WHILE conditions should not use parentheses in Cambridge pseudocode",
     λ t, startsWith (js "WHILE") t
          && (includes (js "(") t && includes (js ")") t));
    (js "FUNCTION must specify return type with RETURNS",
     λ t, startsWith (js "FUNCTION") t && negb (includes (js "RETURNS") t));
    (js "This line does not appear to be valid pseudocode. Use Cambridge keywords and proper syntax.",
     λ t, negb (existsb (λ word, mem (U word) KEYWORDS) (split_re re_spaces t)
                || includes (js "←") t || test re_assign_pattern t
                || test re_constant_pattern t || includes (js ":") t));
    (js "CHAR literals must use single quotes ('), not double quotes ("
     ++ [DQUOTE] ++ js ")",
     λ t, test re_declare_char t && includes [DQUOTE] t) ].

Definition formatAt (lines : list jsstring) (c : jsstring → bool)
    (d : SyntaxError) : Prop :=
  type d = error
  ∧ ∃ k text, lines !! k = Some text ∧ line d = k + 1 ∧ c (trim text) = true.

Definition formatSound (U : jsstring → jsstring) (lines : list jsstring)
    (d : SyntaxError) : Prop :=
  Forall (λ p, message d = p.1 → formatAt lines p.2 d) (formatChecks U).

(** ** CALL *)

(** CALL, a space, further white space, a name, and what follows it. *)
Definition callText (ws name rest : jsstring) : jsstring :=
  js "CALL " ++ ws ++ name ++ rest.

Definition callOfFunction (name : jsstring) : jsstring :=
  js "CALL should not be used with functions. Use function calls directly: "
  ++ name ++ js "(...)".

(** The line is a FUNCTION heading that names [f], up to the case mapping
    of the table of functions. *)
Definition functionNamed (L : jsstring → jsstring) (trimmedLine f : jsstring)
  : Prop :=
  startsWith (js "FUNCTION") trimmedLine = true
  ∧ ∃ m, exec re_function_name trimmedLine = Some m ∧ f = L (grp 1 m).

(** A line before line [k] is a FUNCTION heading that names [f]. *)
Definition functionsBefore (L : jsstring → jsstring) (lines : list jsstring)
    (k : nat) (f : jsstring) : Prop :=
  ∃ j text, j < k ∧ lines !! j = Some text ∧ functionNamed L (trim text) f.

Definition callOn (L : jsstring → jsstring) (n : nat) (trimmedLine : jsstring)
    (functions : gset jsstring) (d : SyntaxError) : Prop :=
  type d = error ∧ line d = n
  ∧ ∃ m, exec re_call trimmedLine = Some m ∧ L (grp 1 m) ∈ functions
         ∧ message d = callOfFunction (grp 1 m).

Definition callAt (U L : jsstring → jsstring) (lines : list jsstring)
    (d : SyntaxError) : Prop :=
  ∃ k text,
    lines !! k = Some text
    ∧ callOn L (k + 1) (trim text) (declaredFunctions (stateBefore U L lines k)) d.

(** ** Texts assigned to CHAR variables *)

(** The assignment of a text between double quotes to a name. *)
Definition stringAssignment (name ws ws' content rest : jsstring) : jsstring :=
  assignmentText name ws (ws' ++ DQUOTE :: content ++ DQUOTE :: rest).

Definition charQuotes (name : jsstring) : jsstring :=
  js "CHAR variable '" ++ name
  ++ js "' must use single quotes (') for character literals, not double quotes ("
  ++ [DQUOTE] ++ js ")".

(** The table of types records [v] as a CHAR. *)
Definition isChar (U : jsstring → jsstring) (types : gmap jsstring VarInfo)
    (v : jsstring) : Prop :=
  ∃ vt, types !! v = Some vt ∧ U (var_type vt) = js "CHAR".

Definition charAssignOn (U L : jsstring → jsstring) (n : nat)
    (trimmedLine : jsstring) (types : gmap jsstring VarInfo) (d : SyntaxError)
  : Prop :=
  type d = error ∧ line d = n
  ∧ ∃ m, exec re_assign_string trimmedLine = Some m
         ∧ isChar U types (L (grp 1 m))
         ∧ message d = charQuotes (grp 1 m).

Definition charAssignAt (U L : jsstring → jsstring) (lines : list jsstring)
    (d : SyntaxError) : Prop :=
  ∃ k text,
    lines !! k = Some text
    ∧ charAssignOn U L (k + 1) (trim text)
        (variableTypes (run (take 16 (lineRules U L lines k text))
                          (stateBefore U L lines k))) d.

(** ** Further example programs *)

Definition example_length_in_comment : jsstring :=
  unlines [js "DECLARE n: INTEGER"; js "// LENGTH(n)"].

Definition example_unclosed_while : jsstring :=
  unlines [js "WHILE TRUE DO"; js "ENDIF"].

Definition example_declared_twice : jsstring :=
  unlines [js "DECLARE x: INTEGER"; js "DECLARE x: INTEGER";
           js "DECLARE x: STRING"].

Definition example_indented : jsstring :=
  unlines [js "DECLARE x: INTEGER"; js "  x ← 1"].

Definition example_length_of_integer : jsstring :=
  unlines [js "DECLARE n: INTEGER"; js "OUTPUT LENGTH(n)"].

Definition example_call : jsstring :=
  unlines [js "FUNCTION f() RETURNS INTEGER"; js "ENDFUNCTION"; js "CALL f()"].

Definition example_char : jsstring :=
  unlines [js "DECLARE c: CHAR"; js "c ← " ++ [DQUOTE] ++ js "a" ++ [DQUOTE]].

(** ** Numbers and their texts *)

Definition isDouble (x : Number) : Prop :=
  match x with
  | Finite v => toNumber v = Finite v
  | Infinity => True
  end.

(** The units of the text of a finite number, and of any number. *)
Definition finiteUnit (c : N) : bool :=
  isDigit c || existsb (N.eqb c) (js ".e+").

Definition numberUnit (c : N) : bool :=
  finiteUnit c || existsb (N.eqb c) (js "Infinity").

(** The significand of the exponential form. *)
Definition significand (sig : jsstring) : jsstring :=
  take 1 sig ++ (if (1 <? length sig)%nat then js "." ++ drop 1 sig else []).

(** ** Accesses to arrays *)

(** An out-of-bounds diagnostic of line [n], whose trimmed text is [t], for
    an access found on that line to an array of the table. *)
Definition accessOn (L : jsstring → jsstring) (n : nat) (t : jsstring)
    (arrays : gmap jsstring ArrayInfo) (d : SyntaxError) : Prop :=
  type d = error ∧ line d = n
  ∧ ∃ access m info,
      access ∈ match_all re_array_access t
      ∧ exec re_array_access access = Some m
      ∧ arrays !! L (grp 1 m) = Some info
      ∧ outside (parseInt (grp 2 m)) (arr_start info) (arr_end info)
      ∧ message d = outOfBounds (parseInt (grp 2 m)) (grp 1 m)
                      (arr_start info) (arr_end info).

Definition accessAt (U L : jsstring → jsstring) (lines : list jsstring)
    (d : SyntaxError) : Prop :=
  ∃ k text,
    lines !! k = Some text
    ∧ accessOn L (k + 1) (trim text) (arraysAt U L lines k) d.

(** ** The literals and the comment of a line *)

(** A line read from left to right: stretches of code, string literals
    between double quotes, character literals between single quotes. *)
Inductive Segment :=
| Code (s : jsstring)
| StringLiteral (s : jsstring)
| CharLiteral (s : jsstring).

Definition quoted (q : N) (s : jsstring) : jsstring := q :: s ++ [q].

Definition render (g : Segment) : jsstring :=
  match g with
  | Code s => s
  | StringLiteral s => quoted DQUOTE s
  | CharLiteral s => quoted SQUOTE s
  end.

Definition renderAll (segs : list Segment) : jsstring :=
  concat (render <$> segs).

(** The text outside the literals. *)
Definition codeOf (segs : list Segment) : jsstring :=
  concat ((λ g, match g with Code s => s | _ => [] end) <$> segs).

(** Code holds no quote, and a literal ends at the next quote of its
    kind. *)
Definition lexical (g : Segment) : bool :=
  match g with
  | Code s => forallb (λ c, negb (c =? DQUOTE)%N && negb (c =? SQUOTE)%N) s
  | StringLiteral s => forallb (λ c, negb (c =? DQUOTE)%N) s
  | CharLiteral s => forallb (λ c, negb (c =? SQUOTE)%N) s
  end.

(** No double quote inside a character literal. *)
Definition tame (g : Segment) : bool :=
  match g with
  | CharLiteral s => forallb (λ c, negb (c =? DQUOTE)%N) s
  | _ => true
  end.

(** The rest of a line from its comment on: nothing, or two slashes and a
    text without line terminators. *)
Definition isComment (tail : jsstring) : bool :=
  match tail with
  | [] => true
  | _ => startsWith (js "//") tail
         && forallb (λ c, negb (isLineTerminator c)) tail
  end.

(** Two slashes in a row occur nowhere before the comment: not in the
    code, not in a literal, not where the code meets the comment. *)
Definition slashFree (segs : list Segment) (tail : jsstring) : bool :=
  negb (includes (js "//") (renderAll segs ++ take 1 tail)).

(** A text between two quotes of one kind. *)
Definition re_quoted (q : N) : regex :=
  seqs [one q; star (none_of q); one q].

(** A text cut at its quoted parts: the parts outside ([inl]) and the
    contents of the quoted ones ([inr]). *)
Definition flat (q : N) (items : list (jsstring + jsstring)) : jsstring :=
  concat ((λ it, match it with inl x => x | inr s => quoted q s end) <$> items).

Definition kept (items : list (jsstring + jsstring)) : jsstring :=
  concat ((λ it, match it with inl x => x | inr _ => [] end) <$> items).

Definition free (q : N) (it : jsstring + jsstring) : Prop :=
  match it with
  | inl x => Forall (λ c, c ≠ q) x
  | inr s => Forall (λ c, c ≠ q) s
  end.

(** The cut at the string literals, and the cut at the character literals
    of what is left. *)
Definition atStrings (g : Segment) : jsstring + jsstring :=
  match g with
  | StringLiteral s => inr s
  | _ => inl (render g)
  end.

Definition atChars (g : Segment) : list (jsstring + jsstring) :=
  match g with
  | Code s => [inl s]
  | StringLiteral _ => []
  | CharLiteral s => [inr s]
  end.

(** ** Example programs for arrays and literals *)

Definition example_access_in_comment : jsstring :=
  unlines [js "DECLARE arr: ARRAY[1:5] OF INTEGER"; js "// arr[10]"].

Definition example_rounded_index : jsstring :=
  unlines [js "DECLARE a: ARRAY[1:9007199254740992] OF INTEGER";
           js "OUTPUT a[9007199254740993]"].

Definition example_inverted_in_comment : jsstring :=
  unlines [js "DECLARE a: ARRAY[5:1] OF INTEGER"; js "// a[3]"].

Definition example_slashes_in_string : jsstring :=
  js "OUTPUT " ++ quoted DQUOTE (js "http://x") ++ js " and y".

Definition example_quote_in_char : jsstring :=
  js "y ← " ++ quoted SQUOTE [DQUOTE] ++ js " if " ++ quoted SQUOTE [DQUOTE].

Definition example_word_after_string : jsstring :=
  js "OUTPUT " ++ quoted DQUOTE (js "a") ++ js "and x".

(** * Properties *)

(** ** Strings *)

Lemma str_eqb_eq (a b : jsstring) : str_eqb a b = true ↔ a = b.
Proof.
  revert b. induction a as [|x a IH]; intros [|y b]; simpl; try easy.
  rewrite andb_true_iff, N.eqb_eq, IH. split.
  - intros [-> ->]. reflexivity.
  - intros [= -> ->]. done.
Qed.

Lemma str_eqb_refl (a : jsstring) : str_eqb a a = true.
Proof. by apply str_eqb_eq. Qed.

Lemma mem_elem_of (s : jsstring) (l : list jsstring) : mem s l = true ↔ s ∈ l.
Proof.
  unfold mem. rewrite existsb_exists. split.
  - intros (x & Hx & Heq). apply str_eqb_eq in Heq. subst.
    by apply list_elem_of_In.
  - intros H. exists s. split; [by apply list_elem_of_In | apply str_eqb_refl].
Qed.

Lemma startsWith_app (p s : jsstring) : startsWith p (p ++ s) = true.
Proof. induction p as [|x p IH]; simpl; [done|]. by rewrite N.eqb_refl. Qed.

Lemma startsWith_inv (p s : jsstring) :
  startsWith p s = true → ∃ s', s = p ++ s'.
Proof.
  revert s. induction p as [|x p IH]; intros s H; simpl in *.
  - by exists s.
  - destruct s as [|y s]; [done|].
    apply andb_true_iff in H as [Hxy H]. apply N.eqb_eq in Hxy. subst.
    destruct (IH _ H) as [s' ->]. by exists s'.
Qed.

(** ** Deduplication *)

Lemma foldl_dedupStep keys acc es :
  (foldl dedupStep (keys, acc) es).2 = acc ++ dedupFrom keys es.
Proof.
  revert keys acc. induction es as [|e es IH]; intros keys acc; simpl.
  - by rewrite app_nil_r.
  - case_bool_decide; [apply IH|].
    rewrite IH, <- app_assoc. done.
Qed.

Lemma deduplicate_eq es : deduplicate es = dedupFrom ∅ es.
Proof. unfold deduplicate. by rewrite foldl_dedupStep. Qed.

Lemma dedupFrom_sublist keys es : dedupFrom keys es `sublist_of` es.
Proof.
  revert keys. induction es as [|e es IH]; intros keys; simpl; [done|].
  case_bool_decide; [by apply sublist_cons | by apply sublist_skip].
Qed.

Lemma dedupFrom_keys keys es e :
  e ∈ dedupFrom keys es → errorKey e ∉ keys.
Proof.
  revert keys. induction es as [|x es IH]; intros keys; simpl.
  - by intros ?%elem_of_nil.
  - case_bool_decide as Hk; [apply IH|].
    intros [->|Hin]%elem_of_cons; [done|].
    apply IH in Hin. set_solver.
Qed.

Lemma dedupFrom_NoDup keys es : NoDup (errorKey <$> dedupFrom keys es).
Proof.
  revert keys. induction es as [|x es IH]; intros keys; simpl.
  - constructor.
  - case_bool_decide as Hk; [apply IH|].
    rewrite fmap_cons. constructor; [|apply IH].
    intros (e & Heq & Hin)%list_elem_of_fmap.
    apply dedupFrom_keys in Hin. set_solver.
Qed.

(** A list without repeated keys is left as it is. *)
Lemma dedupFrom_id keys es :
  NoDup (errorKey <$> es) → (∀ e, e ∈ es → errorKey e ∉ keys) →
  dedupFrom keys es = es.
Proof.
  revert keys. induction es as [|x es IH]; intros keys Hnd Hk; simpl; [done|].
  rewrite fmap_cons in Hnd. apply NoDup_cons in Hnd as [Hx Hnd].
  rewrite bool_decide_eq_false_2 by (apply Hk; left).
  f_equal. apply IH; [done|].
  intros e He. specialize (Hk e (list_elem_of_further _ _ _ He)).
  assert (errorKey e ≠ errorKey x).
  { intros Heq. apply Hx. rewrite <- Heq. by apply list_elem_of_fmap_2. }
  rewrite elem_of_union, elem_of_singleton. tauto.
Qed.

(** Every diagnostic keeps a representative with its key. *)
Lemma dedupFrom_complete keys es e :
  e ∈ es → errorKey e ∉ keys →
  ∃ e', e' ∈ dedupFrom keys es ∧ errorKey e' = errorKey e.
Proof.
  revert keys. induction es as [|x es IH]; intros keys Hin Hk; simpl.
  - by apply elem_of_nil in Hin.
  - apply elem_of_cons in Hin as [->|Hin].
    + rewrite bool_decide_eq_false_2 by done. exists x. split; [left|done].
    + case_bool_decide as Hx; [by apply IH|].
      destruct (decide (errorKey e = errorKey x)) as [Heq|Hne].
      * exists x. split; [left|done].
      * destruct (IH ({[errorKey x]} ∪ keys) Hin) as (e' & He' & Hk');
          [rewrite elem_of_union, elem_of_singleton; tauto|].
        exists e'. split; [by right|done].
Qed.

(** ** The verdict *)

Lemma filter_is_error (es : list SyntaxError) :
  length (List.filter is_error es) = 0 ↔ filter (λ e, type e = error) es = [].
Proof.
  induction es as [|e es IH]; [done|].
  rewrite filter_cons. cbn [List.filter]. unfold is_error at 1.
  destruct (decide (type e = error)) as [Ht|Ht].
  - rewrite Ht. split; discriminate.
  - destruct (type e); [done|exact IH].
Qed.

(** ** Decimal numerals and the keys of diagnostics *)

Lemma mathInt_snoc (ds : jsstring) (c : N) :
  mathInt (ds ++ [c]) = (mathInt ds * 10 + (c - 48))%N.
Proof. unfold mathInt. by rewrite fold_left_app. Qed.

Lemma decimal_aux_spec (fuel : nat) (n : N) (acc : jsstring) :
  N.to_nat (N.log2 n) < fuel →
  ∃ ds, decimal_aux fuel n acc = ds ++ acc
        ∧ Forall (λ c, isDigit c = true) ds ∧ mathInt ds = n.
Proof.
  revert n acc. induction fuel as [|fuel IH]; intros n acc Hf; [lia|].
  simpl.
  assert (Hr : (n `mod` 10 < 10)%N) by (by apply N.mod_lt).
  assert (Hdigit : isDigit (digit_of (n `mod` 10)) = true).
  { revert Hr. generalize (n `mod` 10)%N. intros r Hr.
    unfold isDigit, in_range, digit_of.
    apply andb_true_iff. split; apply N.leb_le; lia. }
  destruct (N.ltb_spec n 10) as [Hlt|Hge].
  - exists [digit_of (n `mod` 10)]. split; [done|].
    split; [by constructor|].
    rewrite (N.mod_small n 10) by done.
    unfold mathInt, digit_of. simpl. lia.
  - destruct (IH (n `div` 10)%N (digit_of (n `mod` 10) :: acc))
      as (ds & Heq & Hds & Hval).
    { assert (0 < n `div` 10)%N by (apply N.div_str_pos; lia).
      assert (N.log2 (2 * (n `div` 10)) ≤ N.log2 n)%N.
      { apply N.log2_le_mono.
        pose proof (N.Div0.mul_div_le n 10) as Hm. revert Hm.
        generalize (n `div` 10)%N. intros; lia. }
      rewrite N.log2_double in H0 by done.
      generalize dependent (N.log2 (n `div` 10)).
      generalize dependent (N.log2 n). intros. lia. }
    exists (ds ++ [digit_of (n `mod` 10)]). split; [|split].
    + rewrite Heq, <- app_assoc. done.
    + apply Forall_app. split; [done|]. by constructor.
    + rewrite mathInt_snoc, Hval. unfold digit_of.
      pose proof (N.div_mod n 10 ltac:(done)) as Hdm. revert Hdm.
      generalize (n `div` 10)%N (n `mod` 10)%N. intros; lia.
Qed.

Lemma decimal_spec (n : N) :
  Forall (λ c, isDigit c = true) (decimal n) ∧ mathInt (decimal n) = n.
Proof.
  unfold decimal.
  destruct (decimal_aux_spec (S (N.to_nat (N.log2 n))) n []) as (ds & -> & H);
    [lia|].
  by rewrite app_nil_r.
Qed.

Lemma decimal_inj (n m : N) : decimal n = decimal m → n = m.
Proof.
  intros H. rewrite <- (proj2 (decimal_spec n)), <- (proj2 (decimal_spec m)).
  by rewrite H.
Qed.

(** A numeral ends at the first unit that is not a digit. *)
Lemma digits_then_inj (ds1 ds2 m1 m2 : jsstring) (c : N) :
  isDigit c = false →
  Forall (λ c, isDigit c = true) ds1 → Forall (λ c, isDigit c = true) ds2 →
  ds1 ++ c :: m1 = ds2 ++ c :: m2 → ds1 = ds2 ∧ m1 = m2.
Proof.
  intros Hc H1. revert ds2.
  induction H1 as [|d ds1 Hd H1 IH]; intros ds2 H2 Heq.
  - destruct H2 as [|d' ds2 Hd' H2]; simpl in Heq.
    + by injection Heq.
    + injection Heq as -> _. congruence.
  - destruct H2 as [|d' ds2 Hd' H2]; simpl in Heq.
    + injection Heq as -> _. congruence.
    + injection Heq as -> Heq. destruct (IH _ H2 Heq) as [-> ->]. done.
Qed.

(** The textual key identifies the line and the message. *)
Lemma errorKey_inj (a b : SyntaxError) :
  errorKey a = errorKey b ↔ line a = line b ∧ message a = message b.
Proof.
  split.
  - unfold errorKey, decimal_nat. intros H.
    change (js ":") with [58%N] in H. simpl in H.
    apply digits_then_inj in H as [Hl Hm];
      [| done | apply decimal_spec | apply decimal_spec].
    apply decimal_inj in Hl. split; [lia | done].
  - unfold errorKey. by intros [-> ->].
Qed.

(** What is pushed is still reported after deduplication, on the same line
    with the same message. *)
Lemma deduplicate_complete (es : list SyntaxError) (e : SyntaxError) :
  e ∈ es →
  ∃ e', e' ∈ deduplicate es ∧ line e' = line e ∧ message e' = message e.
Proof.
  intros Hin. rewrite deduplicate_eq.
  destruct (dedupFrom_complete ∅ es e Hin) as (e' & He' & Hk); [set_solver|].
  exists e'. split; [done|]. by apply errorKey_inj.
Qed.

Lemma deduplicate_sublist (es : list SyntaxError) :
  deduplicate es `sublist_of` es.
Proof. rewrite deduplicate_eq. apply dedupFrom_sublist. Qed.

Lemma deduplicate_NoDup (es : list SyntaxError) :
  NoDup ((λ e, (line e, message e)) <$> deduplicate es).
Proof.
  rewrite deduplicate_eq.
  apply (NoDup_fmap_1 (λ p : nat * jsstring, decimal_nat p.1 ++ js ":" ++ p.2)).
  rewrite <- list_fmap_compose. apply (dedupFrom_NoDup ∅ es).
Qed.

Lemma deduplicate_idempotent (es : list SyntaxError) :
  deduplicate (deduplicate es) = deduplicate es.
Proof.
  rewrite (deduplicate_eq (deduplicate es)).
  apply dedupFrom_id; [|set_solver].
  rewrite deduplicate_eq. apply dedupFrom_NoDup.
Qed.

(** ** Reasoning about statements *)

Section Respects.
Context (R : relation State) `{!PreOrder R}.

Lemma respects_id : respects R id.
Proof. intros st. reflexivity. Qed.

Lemma respects_apply f st st' : respects R f → R st st' → R st (f st').
Proof. intros Hf H. etrans; [exact H | apply Hf]. Qed.

Lemma respects_when b f :
  (b = true → respects R f) → respects R (when b f).
Proof. intros Hf st. unfold when. destruct b; [by apply Hf | reflexivity]. Qed.

Lemma respects_run steps : Forall (respects R) steps → respects R (run steps).
Proof.
  unfold run. induction 1 as [|f steps Hf _ IH]; intros st; simpl.
  - reflexivity.
  - etrans; [apply Hf | apply IH].
Qed.

Lemma respects_forEach {A} (l : list A) body :
  (∀ x, respects R (body x)) → respects R (forEach l body).
Proof.
  intros Hb. unfold forEach. induction l as [|x l IH]; intros st; simpl.
  - reflexivity.
  - etrans; [apply Hb | apply IH].
Qed.

Lemma respects_forEachLine i ls body :
  (∀ i l, respects R (body i l)) → respects R (forEachLine i ls body).
Proof.
  intros Hb. revert i. induction ls as [|l ls IH]; intros i st; simpl.
  - reflexivity.
  - etrans; [apply Hb | apply IH].
Qed.
End Respects.

Global Instance grows_preorder Q : PreOrder (grows Q).
Proof.
  split.
  - intros st. exists []. by rewrite app_nil_r.
  - intros a b c (l1 & H1 & Hq1) (l2 & H2 & Hq2). exists (l1 ++ l2).
    rewrite H2, H1, <- app_assoc. split; [done | by apply Forall_app].
Qed.

Global Instance same_preorder {A} (proj : State → A) : PreOrder (same proj).
Proof. split; [done | intros a b c H1 H2; unfold same in *; congruence]. Qed.

Lemma grows_push Q l m t :
  Q (mkError l m t) → respects (grows Q) (push l m t).
Proof. intros Hq st. exists [mkError l m t]. split; [done | by constructor]. Qed.

Lemma grows_set_blockStack q bs : respects (grows q) (set_blockStack bs).
Proof. intros st. exists []. by rewrite app_nil_r. Qed.
Lemma grows_set_array q n i : respects (grows q) (set_array n i).
Proof. intros st. exists []. by rewrite app_nil_r. Qed.
Lemma grows_declare q n i : respects (grows q) (declare n i).
Proof. intros st. exists []. by rewrite app_nil_r. Qed.
Lemma grows_add_function q n : respects (grows q) (add_function n).
Proof. intros st. exists []. by rewrite app_nil_r. Qed.

Lemma grows_prefix q st st' : grows q st st' → errs st `prefix_of` errs st'.
Proof. intros (l & -> & _). by apply prefix_app_r. Qed.

Lemma grows_weaken (Q Q' : SyntaxError → Prop) st st' :
  (∀ d, Q d → Q' d) → grows Q st st' → grows Q' st st'.
Proof.
  intros H (l & Hl & Hq). exists l. split; [done|].
  eapply Forall_impl; [exact Hq | done].
Qed.

(** Breaks a goal about a statement into goals about its parts; the leaves
    are left to [leaf]. *)
(** The text of a number is of no concern to most statements: it is
    generalised as soon as the number is known. *)
Ltac hide_numbers :=
  match goal with
  | |- context [numberToString ?x] =>
    let s := fresh "s" in generalize (numberToString x); intros s
  end.

Ltac respects_step leaf :=
  first
  [ hide_numbers
  | leaf
  | lazymatch goal with
    | |- PreOrder _ => tc_solve
    | |- respects _ id => apply respects_id
    | |- respects _ (when _ _) => apply respects_when; [..|intros ?]
    | |- respects _ (run _) =>
      apply respects_run; [..|repeat apply Forall_cons_2; [..|apply Forall_nil_2]]
    | |- respects _ (forEach _ _) => apply respects_forEach; [..|intros ?]
    | |- respects _ (forEachLine _ _ _) =>
      apply respects_forEachLine; [..|intros ? ?]
    | |- respects _ (match ?x with _ => _ end) => destruct x eqn:?
    | |- respects _ (λ st, _) => intros ?st; cbv beta
    | |- ?R ?st ?st => reflexivity
    | |- ?R ?st (match ?x with _ => _ end) => destruct x eqn:?
    | |- ?R ?st (?f ?st') => apply (respects_apply R f)
    end ].

Lemma same_push {A} (proj : State → A) l m t :
  (∀ st, proj (push l m t st) = proj st) → respects (same proj) (push l m t).
Proof. intros H st. apply H. Qed.

Lemma run_split (i : nat) (steps : list (State → State)) (st : State) :
  run steps st = run (drop i steps) (run (take i steps) st).
Proof.
  unfold run. rewrite <- foldl_app. by rewrite take_drop.
Qed.

Lemma forEachLine_split (k : nat) (line : jsstring) :
  ∀ (ls : list jsstring) (i : nat) body (st : State),
    ls !! k = Some line →
    forEachLine i ls body st
    = forEachLine (i + S k) (drop (S k) ls) body
        (body (i + k) line (forEachLine i (take k ls) body st)).
Proof.
  induction k as [|k IH]; intros [|l ls] i body st Hk; try done.
  - injection Hk as ->. simpl. rewrite Nat.add_0_r, Nat.add_1_r. done.
  - simpl in Hk. simpl. rewrite (IH ls (S i) body _ Hk).
    by rewrite <- !Nat.add_succ_comm.
Qed.

Lemma forEachLine_snoc (k : nat) (line : jsstring) :
  ∀ (ls : list jsstring) (i : nat) body (st : State),
    ls !! k = Some line →
    forEachLine i (take (S k) ls) body st
    = body (i + k) line (forEachLine i (take k ls) body st).
Proof.
  induction k as [|k IH]; intros [|l ls] i body st Hk; try done.
  - injection Hk as ->. simpl. by rewrite Nat.add_0_r.
  - simpl in Hk. change (take (S (S k)) (l :: ls)) with (l :: take (S k) ls).
    cbn [forEachLine take]. rewrite (IH ls (S i) body _ Hk).
    by rewrite <- !Nat.add_succ_comm.
Qed.

Lemma forEach_push_map {A} (l : list A) (f : A → SyntaxError) (st : State) :
  errs (forEach l (λ x, push (line (f x)) (message (f x)) (type (f x))) st)
  = errs st ++ (f <$> l).
Proof.
  unfold forEach. revert st. induction l as [|x l IH]; intros st; simpl.
  - by rewrite app_nil_r.
  - rewrite IH. simpl. rewrite <- app_assoc. by destruct (f x).
Qed.

Lemma skipped_hasContent (l : jsstring) : skipped (trim l) = negb (hasContent l).
Proof.
  unfold skipped, hasContent. destruct (nonempty _), (startsWith _ _); done.
Qed.

Lemma filter_none {A} (P : A → Prop) `{!∀ x, Decision (P x)} (l : list A) :
  Forall (λ x, ¬ P x) l → filter P l = [].
Proof.
  induction 1 as [|x l Hx _ IH]; [done|].
  by rewrite filter_cons, decide_False.
Qed.

(** ** Deduplication and filters *)

Lemma dedupFrom_ext keys keys' es :
  (∀ e, e ∈ es → errorKey e ∈ keys ↔ errorKey e ∈ keys') →
  dedupFrom keys es = dedupFrom keys' es.
Proof.
  revert keys keys'. induction es as [|x es IH]; intros keys keys' H; [done|].
  simpl. rewrite (bool_decide_ext _ (errorKey x ∈ keys')) by (apply H; left).
  case_bool_decide.
  - apply IH. intros e He. apply H. by right.
  - f_equal. apply IH. intros e He.
    specialize (H e (list_elem_of_further _ _ _ He)).
    rewrite !elem_of_union, H. done.
Qed.

(** A filter that cannot tell apart diagnostics of equal key commutes with
    the deduplication. *)
Lemma dedupFrom_filter (P : SyntaxError → bool) keys es :
  (∀ a b, errorKey a = errorKey b → P a = P b) →
  List.filter P (dedupFrom keys es) = dedupFrom keys (List.filter P es).
Proof.
  intros HP. revert keys. induction es as [|x es IH]; intros keys; [done|].
  simpl. destruct (P x) eqn:Hx.
  - simpl. case_bool_decide; [apply IH|]. simpl. rewrite Hx. f_equal. apply IH.
  - case_bool_decide; [apply IH|]. simpl. rewrite Hx, IH.
    apply dedupFrom_ext. intros e He.
    apply list_elem_of_In, filter_In in He as [_ He].
    assert (errorKey e ≠ errorKey x)
      by (intros Heq; apply HP in Heq; congruence).
    rewrite elem_of_union, elem_of_singleton. tauto.
Qed.

Lemma filter_bool_all {A} (P : A → bool) (l : list A) :
  Forall (λ x, P x = true) l → List.filter P l = l.
Proof.
  induction 1 as [|x l Hx _ IH]; [done|]. simpl. by rewrite Hx, IH.
Qed.

Lemma filter_bool_none {A} (P : A → bool) (l : list A) :
  Forall (λ x, P x = false) l → List.filter P l = [].
Proof.
  induction 1 as [|x l Hx _ IH]; [done|]. simpl. by rewrite Hx, IH.
Qed.

(** ** Matching a single code unit *)

Lemma search_index r i prev rest :
  search r i prev rest
  = (λ m, mkMatch (i + m_index m) (m_text m) (m_end m)) <$> search r 0 prev rest.
Proof.
  revert i prev. induction rest as [|c t IH]; intros i prev; simpl.
  - destruct (rmatch _ _ _); simpl; [by rewrite Nat.add_0_r|done].
  - destruct (rmatch _ _ _); simpl; [by rewrite Nat.add_0_r|].
    rewrite (IH (S i)), (IH 1). destruct (search r 0 (Some c) t); simpl; [|done].
    f_equal. f_equal. lia.
Qed.

(** A global match of a one-unit class finds every unit of the class. *)
Lemma match_all_from_chr p rest :
  ∀ fuel prev, length rest < fuel →
    match_all_from (Chr p) fuel prev rest = (λ c, [c]) <$> List.filter p rest.
Proof.
  induction rest as [|c t IH]; intros fuel prev Hf.
  - destruct fuel; [simpl in Hf; lia|]. done.
  - destruct fuel as [|f]; [simpl in Hf; lia|]. simpl in Hf.
    cbn [match_all_from search rmatch ms_rest ms_caps List.filter].
    destruct (p c) eqn:Hp.
    + cbn [m_text m_end ms_rest ms_prev length].
      replace (S (length t) - length t) with 1 by lia.
      cbn [take fmap list_fmap]. f_equal. apply IH. lia.
    + rewrite search_index.
      specialize (IH (S f) (Some c) ltac:(lia)).
      cbn [match_all_from] in IH.
      destruct (search (Chr p) 0 (Some c) t) as [m|]; exact IH.
Qed.

Lemma filter_trimStart p (s : jsstring) :
  (∀ c, p c = true → isSpace c = false) →
  List.filter p (trimStart s) = List.filter p s.
Proof.
  intros Hp. induction s as [|c s IH]; [done|]. simpl.
  destruct (isSpace c) eqn:Hc; [|done].
  rewrite IH. destruct (p c) eqn:Hpc; [|done].
  apply Hp in Hpc. congruence.
Qed.

Lemma filter_rev {A} (p : A → bool) (l : list A) :
  List.filter p (rev l) = rev (List.filter p l).
Proof.
  induction l as [|x l IH]; [done|]. simpl.
  rewrite List.filter_app, IH. simpl. destruct (p x); [done|].
  by rewrite app_nil_r.
Qed.

Lemma countQuotes_trim (s : jsstring) : countQuotes (trim s) = countQuotes s.
Proof.
  assert (Hq : ∀ c, (DQUOTE =? c)%N = true → isSpace c = false).
  { intros c Hc. apply N.eqb_eq in Hc. by subst c. }
  unfold countQuotes, trim, trimEnd.
  rewrite filter_rev, length_rev, filter_trimStart, filter_rev, length_rev by done.
  by rewrite filter_trimStart.
Qed.

Lemma hasUnclosedString_odd (t : jsstring) :
  hasUnclosedString t = Nat.odd (countQuotes t).
Proof.
  unfold hasUnclosedString, match_all, re_quote, one.
  rewrite match_all_from_chr by lia.
  rewrite length_fmap. fold (countQuotes t).
  generalize (countQuotes t). intros n.
  rewrite <- Nat.negb_even. f_equal.
  destruct (Nat.even n) eqn:He.
  - apply Nat.even_spec in He as [m ->].
    by rewrite Nat.mul_comm, Nat.Div0.mod_mul.
  - apply Nat.eqb_neq. intros H. apply not_true_iff_false in He. apply He.
    apply Nat.even_spec. exists (n / 2).
    pose proof (Nat.div_mod_eq n 2) as Hdm. rewrite H in Hdm.
    revert Hdm. generalize (n / 2). intros; lia.
Qed.

(** ** Greedy iteration of a class *)

Lemma star_chr_nil p k prev caps :
  rmatch (Star true (Chr p)) k (mkMState prev [] caps)
  = k (mkMState prev [] caps).
Proof. reflexivity. Qed.

Lemma star_chr_cons p k prev c t caps :
  rmatch (Star true (Chr p)) k (mkMState prev (c :: t) caps)
  = if p c
    then match rmatch (Star true (Chr p)) k (mkMState (Some c) t caps) with
         | Some x => Some x
         | None => k (mkMState prev (c :: t) caps)
         end
    else k (mkMState prev (c :: t) caps).
Proof.
  cbn [rmatch ms_rest ms_caps length]. destruct (p c); [|reflexivity].
  rewrite (proj2 (Nat.ltb_lt (length t) (S (length t)))) by lia.
  reflexivity.
Qed.

(** A greedy star over a class runs to the end of the class; when what
    follows matches from there, that is the match. *)
Lemma star_chr_run p k xs r caps res :
  ∀ prev, Forall (λ c, p c = true) xs → stops p r →
    k (mkMState (after prev xs) r caps) = Some res →
    rmatch (Star true (Chr p)) k (mkMState prev (xs ++ r) caps) = Some res.
Proof.
  induction xs as [|x xs IH]; intros prev Hxs Hr Hk.
  - destruct r as [|c t]; [exact Hk|].
    cbn [app after] in *. rewrite star_chr_cons. simpl in Hr. by rewrite Hr.
  - apply Forall_cons in Hxs as [Hx Hxs].
    cbn [app after] in *. by rewrite star_chr_cons, Hx, (IH (Some x)).
Qed.

Lemma rmatch_seq a b k s : rmatch (Seq a b) k s = rmatch a (rmatch b k) s.
Proof. reflexivity. Qed.

Lemma rmatch_group i r k s :
  rmatch (Group i r) k s
  = rmatch r (λ s', k (mkMState (ms_prev s') (ms_rest s')
       ((i, take (length (ms_rest s) - length (ms_rest s')) (ms_rest s))
          :: ms_caps s'))) s.
Proof. reflexivity. Qed.

Lemma rmatch_chr_cons p k prev c t caps :
  rmatch (Chr p) k (mkMState prev (c :: t) caps)
  = if p c then k (mkMState (Some c) t caps) else None.
Proof. reflexivity. Qed.

Lemma take_consumed {A} (l r : list A) :
  take (length (l ++ r) - length r) (l ++ r) = l.
Proof.
  rewrite length_app, Nat.add_sub. by rewrite take_app_length.
Qed.

Lemma take_consumed_cons {A} (x : A) (l r : list A) :
  take (length (x :: l ++ r) - length r) (x :: l ++ r) = x :: l.
Proof. apply (take_consumed (x :: l) r). Qed.

Lemma rmatch_array_access name ds prev post :
  isName name → isNumeral ds →
  rmatch re_array_access Some (mkMState prev (accessText name ds ++ post) [])
  = Some (mkMState (Some 93%N) post [(2, ds); (1, name)]).
Proof.
  intros Hname [Hne Hds].
  destruct name as [|c xs]; [done|]. destruct Hname as [Hc Hxs].
  destruct ds as [|d ds]; [done|]. apply Forall_cons in Hds as [Hd Hds].
  unfold accessText.
  change (js "[") with [91%N]. change (js "]") with [93%N].
  change re_array_access
    with (Seq (Group 1 (Seq (Chr isAlphaU) (Star true (Chr isAlnumU))))
            (Seq (Chr (N.eqb 91))
               (Seq (Group 2 (Seq (Chr isDigit) (Star true (Chr isDigit))))
                  (Seq (Chr (N.eqb 93)) Eps)))).
  rewrite <- !app_assoc. cbn [app].
  rewrite rmatch_seq, rmatch_group, rmatch_seq, rmatch_chr_cons, Hc.
  apply star_chr_run; [done|done|].
  cbn [ms_prev ms_rest ms_caps].
  rewrite (take_consumed_cons c xs (91%N :: d :: ds ++ 93%N :: post)).
  rewrite rmatch_seq, rmatch_chr_cons. cbn [N.eqb Pos.eqb].
  rewrite rmatch_seq, rmatch_group, rmatch_seq, rmatch_chr_cons, Hd.
  apply star_chr_run; [done|done|].
  cbn [ms_prev ms_rest ms_caps].
  rewrite (take_consumed_cons d ds (93%N :: post)).
  rewrite rmatch_seq, rmatch_chr_cons. cbn [N.eqb Pos.eqb].
  reflexivity.
Qed.

Lemma exec_array_access name ds :
  isName name → isNumeral ds →
  exec re_array_access (accessText name ds)
  = Some (mkMatch 0 (accessText name ds)
            (mkMState (Some 93%N) [] [(2, ds); (1, name)])).
Proof.
  intros Hname Hds.
  pose proof (rmatch_array_access name ds None [] Hname Hds) as H.
  rewrite app_nil_r in H. unfold exec.
  destruct (accessText name ds) as [|c t] eqn:Ht.
  - destruct name; [done|]. done.
  - cbn [search]. rewrite H. do 2 f_equal. apply take_ge. cbn [ms_rest length]. lia.
Qed.

(** ** Words *)

Lemma split_from_head r fuel prev piece rest :
  piece ≠ [] →
  ∃ w ws, split_from r fuel prev piece rest = (rev piece ++ w) :: ws.
Proof.
  revert prev piece rest.
  induction fuel as [|fuel IH]; intros prev piece rest Hp; simpl.
  - by exists rest, [].
  - destruct rest as [|c t]; [exists [], []; by rewrite app_nil_r|].
    destruct (rmatch _ _ _) as [e|].
    + rewrite bool_decide_eq_false_2 by (by intros [? _]).
      eexists [], _. by rewrite app_nil_r.
    + destruct (IH (Some c) (c :: piece) t) as (w & ws & ->); [done|].
      exists (c :: w), ws. simpl. by rewrite <- app_assoc.
Qed.

Lemma split_from_step r f prev piece c t :
  split_from r (S f) prev piece (c :: t)
  = match rmatch r Some (mkMState prev (c :: t) []) with
    | Some e =>
      if bool_decide (piece = [] ∧ length (ms_rest e) = length (c :: t))
      then split_from r f (Some c) (c :: piece) t
      else rev piece :: split_from r f (ms_prev e) [] (ms_rest e)
    | None => split_from r f (Some c) (c :: piece) t
    end.
Proof. done. Qed.

(** The first word of a line starts where the line starts. *)
Lemma split_re_head r (t : jsstring) c w :
  head (split_re r t) = Some (c :: w) → ∃ t', t = c :: t'.
Proof.
  destruct t as [|x t].
  - simpl. by destruct (rmatch _ _ _).
  - change (split_re r (x :: t))
      with (split_from r (S (S (length t))) None [] (x :: t)).
    rewrite split_from_step.
    destruct (split_from_head r (S (length t)) (Some x) [x] t) as (w' & ws & ->);
      [done|].
    destruct (rmatch _ _ _) as [e|]; [case_bool_decide|].
    + simpl. intros [= -> _]. by exists t.
    + discriminate.
    + simpl. intros [= -> _]. by exists t.
Qed.

Lemma closing_word_cases w :
  isClosingWord w = true →
  w ∈ js <$> ["ENDIF"; "NEXT"; "ENDWHILE"; "UNTIL"; "ENDPROCEDURE";
              "ENDFUNCTION"; "ENDCASE"; "ENDTYPE"]%string.
Proof.
  unfold isClosingWord. rewrite !orb_true_iff, mem_elem_of, !str_eqb_eq.
  intros [[H| ->]| ->].
  - exact H.
  - vm_compute. do 1 right. left.
  - vm_compute. do 3 right. left.
Qed.

Lemma closing_word_facts w :
  isClosingWord w = true →
  test re_upper_word w = true ∧ mem w KEYWORDS = true
  ∧ block_closer w = None ∧ (∃ c w', w = c :: w' ∧ c ≠ 47%N).
Proof.
  intros H%closing_word_cases. vm_compute in H.
  repeat (apply elem_of_cons in H as [->|H]);
    [..|by apply elem_of_nil in H];
    (split; [by vm_compute|]; split; [by vm_compute|]; split; [by vm_compute|];
     eexists _, _; split; [reflexivity|done]).
Qed.

Ltac any_leaf :=
  first [ apply grows_push; exact I
        | apply grows_set_blockStack | apply grows_set_array
        | apply grows_declare | apply grows_add_function ].

(** What the body pushes for one element of the list is there after the
    loop. *)
Lemma forEach_reaches {A} (l : list A) (body : A → State → State) x e :
  x ∈ l → (∀ y, respects (grows anything) (body y)) →
  (∀ st, e ∈ errs (body x st)) →
  ∀ st, e ∈ errs (forEach l body st).
Proof.
  intros Hx Hg He. unfold forEach.
  induction l as [|y l IH]; intros st; [by apply elem_of_nil in Hx|].
  simpl. apply elem_of_cons in Hx as [->|Hx]; [|by apply IH].
  eapply elem_of_prefix; [apply (He st)|].
  apply (grows_prefix anything).
  apply (respects_forEach (grows anything) l body Hg).
Qed.

(** The same, for a body that needs a property of the state which every
    iteration keeps. *)
Lemma forEach_reaches_inv {A} (P : State → Prop) (l : list A)
    (body : A → State → State) x e :
  x ∈ l → (∀ y, respects (grows anything) (body y)) →
  (∀ y st, P st → P (body y st)) →
  (∀ st, P st → e ∈ errs (body x st)) →
  ∀ st, P st → e ∈ errs (forEach l body st).
Proof.
  intros Hx Hg Hinv He. unfold forEach.
  induction l as [|y l IH]; intros st HP; [by apply elem_of_nil in Hx|].
  simpl. apply elem_of_cons in Hx as [->|Hx]; [|by apply IH; [|apply Hinv]].
  eapply elem_of_prefix; [apply (He st HP)|].
  apply (grows_prefix anything).
  apply (respects_forEach (grows anything) l body Hg).
Qed.

(** ** Reversed lists *)

Lemma rev_inj {A} (l k : list A) : rev l = rev k → l = k.
Proof. intros H. by rewrite <- (rev_involutive l), H, rev_involutive. Qed.

Section LinePass.
Variables toUpperCase toLowerCase : jsstring → jsstring.

Ltac grows_leaf :=
  first [ apply grows_push; vm_compute; reflexivity
        | apply grows_set_blockStack | apply grows_set_array
        | apply grows_declare | apply grows_add_function ].

Lemma lineRules_grow lines index line :
  Forall (respects (grows (holds lineShape))) (lineRules toUpperCase toLowerCase lines index line).
Proof.
  unfold lineRules. cbv zeta.
  repeat apply Forall_cons_2; [..|apply Forall_nil_2].
  all: unfold checkIndentation, checkAssignmentOperator, checkIdentifiers,
    checkStructure, checkFirstWord, closeBlock, checkKeywordCase,
    checkInvalidKeywords, checkDeclare, trackVariables, declareVariable,
    trackArray, checkConstant, checkArrayFormat, checkForSyntax,
    checkCaseFormat, checkWhileParentheses, checkUnclosedString,
    checkCharLiterals, checkCharDeclaration, checkCharAssignment,
    checkArrayBounds, checkAccess, checkAssignmentTarget, checkReferences,
    checkCall, checkOpenfile, checkEndfor, checkFunction, checkProcedure,
    declareParameters.
  all: cbv zeta.
  all: repeat respects_step grows_leaf.
  all: try (cbv zeta; repeat respects_step grows_leaf).
Qed.

Lemma processLine_grows lines index line :
  respects (grows (holds lineShape)) (processLine toUpperCase toLowerCase lines index line).
Proof.
  unfold processLine. destruct (skipped _); [apply respects_id; tc_solve|].
  apply respects_run; [tc_solve | apply lineRules_grow].
Qed.

Lemma linePass_grows lines :
  respects (grows (holds lineShape)) (linePass toUpperCase toLowerCase lines).
Proof.
  apply respects_forEachLine; [tc_solve|]. intros. apply processLine_grows.
Qed.

Lemma checkUnmatched_errs (st : State) :
  errs (checkUnmatched st) = errs st ++ (unmatchedError <$> blockStack st).
Proof. unfold checkUnmatched. apply (forEach_push_map _ unmatchedError). Qed.

Lemma sweeps_grow lines :
  respects (grows (holds sweepShape))
    (run [checkExtraClosers lines; checkLength toUpperCase toLowerCase lines;
          checkEmptyLoops lines]).
Proof.
  unfold checkExtraClosers, checkLength, checkEmptyLoops.
  repeat respects_step grows_leaf.
  all: cbv zeta; repeat respects_step grows_leaf.
Qed.

Lemma stateBefore_succ lines k line :
  lines !! k = Some line →
  stateBefore toUpperCase toLowerCase lines (S k)
  = processLine toUpperCase toLowerCase lines k line (stateBefore toUpperCase toLowerCase lines k).
Proof. intros H. unfold stateBefore. by rewrite (forEachLine_snoc k line). Qed.

Lemma linePass_from lines k line :
  lines !! k = Some line →
  linePass toUpperCase toLowerCase lines initial
  = forEachLine (S k) (drop (S k) lines)
      (processLine toUpperCase toLowerCase lines) (stateBefore toUpperCase toLowerCase lines (S k)).
Proof.
  intros H. unfold linePass. rewrite (forEachLine_split k line _ _ _ _ H).
  by rewrite (stateBefore_succ _ _ _ H).
Qed.

(** The diagnostics of the final state: those of the line pass, one per
    block left open, then those of the later sweeps. *)
Lemma finalState_errs lines :
  let st1 := linePass toUpperCase toLowerCase lines initial in
  ∃ rest, errs (finalState toUpperCase toLowerCase lines)
          = errs st1 ++ (unmatchedError <$> blockStack st1) ++ rest
          ∧ Forall (holds lineShape) (errs st1)
          ∧ Forall (holds sweepShape) rest.
Proof.
  intros st1. unfold finalState.
  rewrite (run_split 2). cbn [take drop]. 
  destruct (sweeps_grow lines (run [linePass toUpperCase toLowerCase lines; checkUnmatched] initial))
    as (rest & Hrest & Hshape).
  exists rest. rewrite Hrest. unfold run at 1. cbn [foldl].
  rewrite checkUnmatched_errs, <- app_assoc. fold st1.
  split; [done|]. split; [|done].
  destruct (linePass_grows lines initial) as (l & Hl & Hq).
  fold st1 in Hl. rewrite Hl. done.
Qed.

(** What line [k] has pushed by the end of its processing is still there in
    the final state. *)
Lemma stateBefore_prefix_final lines k :
  errs (stateBefore toUpperCase toLowerCase lines k) `prefix_of` errs (finalState toUpperCase toLowerCase lines).
Proof.
  destruct (finalState_errs lines) as (rest & -> & _).
  etrans; [|apply prefix_app_r; reflexivity].
  destruct (decide (k < length lines)) as [Hk|Hk].
  - destruct (lookup_lt_is_Some_2 lines k Hk) as [line Hline].
    destruct k as [|k].
    + unfold stateBefore. simpl. apply prefix_nil.
    + assert (is_Some (lines !! k)) as [l' Hl'] by (apply lookup_lt_is_Some; lia).
      rewrite (linePass_from lines k l' Hl').
      apply (grows_prefix (holds lineShape)).
      apply respects_forEachLine; [tc_solve|]. intros; apply processLine_grows.
  - unfold stateBefore, linePass. rewrite take_ge by lia. done.
Qed.

Ltac unfold_rules :=
  unfold checkIndentation, checkAssignmentOperator, checkIdentifiers,
    checkStructure, checkFirstWord, closeBlock, checkKeywordCase,
    checkInvalidKeywords, checkDeclare, trackVariables, declareVariable,
    trackArray, checkConstant, checkArrayFormat, checkForSyntax,
    checkCaseFormat, checkWhileParentheses, checkUnclosedString,
    checkCharLiterals, checkCharDeclaration, checkCharAssignment,
    checkArrayBounds, checkAccess, checkAssignmentTarget, checkReferences,
    checkCall, checkOpenfile, checkEndfor, checkFunction, checkProcedure,
    declareParameters.

Ltac same_leaf :=
  first [ apply same_push; reflexivity
        | lazymatch goal with
          | |- respects (same _) (set_blockStack _) => intros ?; reflexivity
          | |- respects (same _) (set_array _ _) => intros ?; reflexivity
          | |- respects (same _) (declare _ _) => intros ?; reflexivity
          | |- respects (same _) (add_function _) => intros ?; reflexivity
          end ].

(** Only the first-word check touches the block stack. *)
Lemma lineRules_same_blockStack lines index line :
  Forall (respects (same blockStack))
    (take 4 (lineRules toUpperCase toLowerCase lines index line))
  ∧ Forall (respects (same blockStack))
      (drop 5 (lineRules toUpperCase toLowerCase lines index line)).
Proof.
  unfold lineRules. cbv zeta. cbn [take drop]. split.
  all: repeat apply Forall_cons_2; [..|apply Forall_nil_2].
  all: unfold_rules; cbv zeta.
  all: repeat respects_step same_leaf.
  all: try (cbv zeta; repeat respects_step same_leaf).
Qed.

(** From the array-bounds check on, nothing touches the array table. *)
Lemma lineRules_same_arrays lines index line :
  Forall (respects (same arrayDeclarations))
    (drop 17 (lineRules toUpperCase toLowerCase lines index line)).
Proof.
  unfold lineRules. cbv zeta. cbn [take drop].
  all: repeat apply Forall_cons_2; [..|apply Forall_nil_2].
  all: unfold_rules; cbv zeta.
  all: repeat respects_step same_leaf.
  all: try (cbv zeta; repeat respects_step same_leaf).
Qed.

(** *** The block stack *)

Lemma stackOK_mono n m st : n ≤ m → stackOK n st → stackOK m st.
Proof.
  intros Hnm [H1 H2]. split; [|done].
  eapply Forall_impl; [exact H1|]. simpl. intros; lia.
Qed.

Lemma stackOK_same n st st' : same blockStack st st' → stackOK n st → stackOK n st'.
Proof. unfold same, stackOK. by intros ->. Qed.

Lemma stackOK_open n w st :
  stackOK n st →
  stackOK (n + 1) (set_blockStack (blockStack st ++ [mkBlock w (n + 1)]) st).
Proof.
  intros [H1 H2]. split; cbn [blockStack set_blockStack].
  - apply Forall_app. split.
    + eapply Forall_impl; [exact H1|]. simpl. intros; lia.
    + repeat constructor.
  - rewrite fmap_app. apply NoDup_app. split; [done|]. split.
    + intros x (b & Hx & Hb)%list_elem_of_fmap Hin.
      apply list_elem_of_singleton in Hin.
      rewrite Forall_forall in H1. apply H1 in Hb. simpl in *. lia.
    + apply NoDup_singleton.
Qed.

Lemma removelast_sublist {A} (l : list A) : removelast l `sublist_of` l.
Proof.
  induction l as [|x [|y l] IH]; simpl; [done|by apply sublist_cons|].
  by apply sublist_skip.
Qed.

Lemma stackOK_close n st :
  stackOK n st → stackOK n (set_blockStack (removelast (blockStack st)) st).
Proof.
  intros [H1 H2]. split; cbn [blockStack set_blockStack].
  - rewrite Forall_forall in *. intros b Hb. apply H1.
    eapply sublist_subseteq; [apply removelast_sublist | done].
  - apply (sublist_NoDup _ (blk_line <$> blockStack st)); [done|].
    apply fmap_sublist, removelast_sublist.
Qed.

Lemma stackOK_push n l m t st : stackOK n st → stackOK n (push l m t st).
Proof. done. Qed.

Lemma closeBlock_stackOK n l w st :
  stackOK n st → stackOK n (closeBlock l w st).
Proof.
  intros H. unfold closeBlock, when.
  destruct (_ || _); [|done].
  destruct (last _); [|done].
  destruct (_ && _); [apply stackOK_push|]; by apply stackOK_close.
Qed.

Lemma checkFirstWord_stackOK n words st :
  stackOK n st → stackOK (n + 1) (checkFirstWord (n + 1) words st).
Proof.
  intros H. unfold checkFirstWord.
  destruct words as [|w ws]; [apply (stackOK_mono n); [lia|done]|].
  unfold when at 1. destruct (test _ _); [|apply (stackOK_mono n); [lia|done]].
  unfold run. cbn [foldl]. apply closeBlock_stackOK.
  unfold when at 1. destruct (bool_decide _).
  - apply stackOK_open. unfold when. by destruct (_ && _).
  - apply (stackOK_mono n); [lia|]. unfold when. by destruct (_ && _).
Qed.

Lemma run_cons f steps st : run (f :: steps) st = run steps (f st).
Proof. done. Qed.

Lemma processLine_stackOK lines k line st :
  stackOK k st →
  stackOK (k + 1) (processLine toUpperCase toLowerCase lines k line st).
Proof.
  intros H. unfold processLine.
  destruct (skipped _); [apply (stackOK_mono k); [lia|done]|].
  destruct (lineRules_same_blockStack lines k line) as [Hpre Hpost].
  rewrite (run_split 4).
  change (drop 4 (lineRules toUpperCase toLowerCase lines k line))
    with (checkFirstWord (k + 1) (split_re re_spaces (trim line))
          :: drop 5 (lineRules toUpperCase toLowerCase lines k line)).
  rewrite run_cons.
  eapply stackOK_same; [apply (respects_run _ _ Hpost)|].
  apply checkFirstWord_stackOK.
  eapply stackOK_same; [apply (respects_run _ _ Hpre)|]. done.
Qed.

Lemma forEachLine_stackOK lines ls i st :
  stackOK i st →
  stackOK (i + length ls)
    (forEachLine i ls (processLine toUpperCase toLowerCase lines) st).
Proof.
  revert i st. induction ls as [|l ls IH]; intros i st H; simpl.
  - by rewrite Nat.add_0_r.
  - rewrite <- Nat.add_succ_comm. apply IH.
    rewrite <- Nat.add_1_r. by apply processLine_stackOK.
Qed.

Lemma linePass_stackOK lines :
  stackOK (length lines) (linePass toUpperCase toLowerCase lines initial).
Proof.
  apply (forEachLine_stackOK lines lines 0). split; simpl; constructor.
Qed.

(** *** From a push to the result *)

Lemma finalState_shape lines :
  Forall (holds finalShape) (errs (finalState toUpperCase toLowerCase lines)).
Proof.
  destruct (finalState_errs lines) as (rest & -> & Hline & Hsweep).
  rewrite !Forall_app. split; [|split].
  - eapply Forall_impl; [exact Hline|].
    intros [l m []]; unfold holds, lineShape, finalShape; cbn [message type].
    + by intros [_ H]%andb_true_iff.
    + intros H. by rewrite H.
  - apply Forall_fmap, Forall_true. intros b. by vm_compute.
  - eapply Forall_impl; [exact Hsweep|].
    intros [l m []]; unfold holds, sweepShape, finalShape; cbn [message type].
    + intros [H|H]%orb_true_iff; apply startsWith_inv in H as [s' ->];
        by vm_compute.
    + intros ->. by rewrite orb_true_r.
Qed.

Lemma checkSyntax_content code :
  existsb hasContent (split_on 10 code) = true →
  checkSyntax toUpperCase toLowerCase code
  = let es := deduplicate (errs (finalState toUpperCase toLowerCase (split_on 10 code))) in
    mkResult (length (List.filter is_error es) =? 0) es.
Proof. intros H. unfold checkSyntax. rewrite H. done. Qed.

Lemma lookup_hasContent (lines : list jsstring) k line :
  lines !! k = Some line → skipped (trim line) = false →
  existsb hasContent lines = true.
Proof.
  intros Hk Hs. apply existsb_exists. exists line. split.
  - apply list_elem_of_In. by eapply list_elem_of_lookup_2.
  - rewrite skipped_hasContent in Hs. by destruct (hasContent line).
Qed.

(** A diagnostic present in the final state is reported, possibly through
    an earlier one with the same line and message. *)
Lemma reported code l m t :
  existsb hasContent (split_on 10 code) = true →
  mkError l m t ∈ errs (finalState toUpperCase toLowerCase (split_on 10 code)) →
  ∃ t', mkError l m t' ∈ errors (checkSyntax toUpperCase toLowerCase code)
        ∧ holds finalShape (mkError l m t').
Proof.
  intros Hc He. rewrite (checkSyntax_content code Hc). cbn [errors].
  destruct (deduplicate_complete _ _ He) as ([l' m' t'] & He' & Hl & Hm).
  cbn [line message] in Hl, Hm. subst l' m'.
  exists t'. split; [done|].
  pose proof (finalState_shape (split_on 10 code)) as Hshape.
  rewrite Forall_forall in Hshape. apply Hshape.
  eapply sublist_subseteq; [apply deduplicate_sublist | done].
Qed.

(** What a rule of line [k] pushes is in the final state. *)
Lemma rule_reaches lines k line i f e :
  lines !! k = Some line → skipped (trim line) = false →
  lineRules toUpperCase toLowerCase lines k line !! i = Some f →
  e ∈ errs (f (run (take i (lineRules toUpperCase toLowerCase lines k line))
                 (stateBefore toUpperCase toLowerCase lines k))) →
  e ∈ errs (finalState toUpperCase toLowerCase lines).
Proof.
  intros Hk Hs Hi He.
  eapply elem_of_prefix; [|apply (stateBefore_prefix_final lines (S k))].
  rewrite (stateBefore_succ _ _ _ Hk). unfold processLine. rewrite Hs.
  rewrite (run_split i), (drop_S _ _ _ Hi), run_cons.
  eapply elem_of_prefix; [exact He|].
  apply (grows_prefix (holds lineShape)). apply (respects_run (grows (holds lineShape))).
  apply Forall_drop, lineRules_grow.
Qed.

(** Exactly one entry of a deduplicated list carries a given line and
    message, as soon as one does. *)
Lemma exactly_one (es : list SyntaxError) (e : SyntaxError) :
  NoDup ((λ d, (line d, message d)) <$> es) → e ∈ es →
  filter (λ d, line d = line e ∧ message d = message e) es = [e].
Proof.
  induction es as [|x es IH]; intros Hnd He; [by apply elem_of_nil in He|].
  rewrite fmap_cons in Hnd. apply NoDup_cons in Hnd as [Hx Hnd].
  rewrite filter_cons.
  destruct (decide (line x = line e ∧ message x = message e)) as [[Hl Hm]|Hne].
  - assert (Hnone : filter (λ d, line d = line e ∧ message d = message e) es = []).
    { apply filter_none, Forall_forall. intros d Hd [Hdl Hdm]. apply Hx.
      apply list_elem_of_fmap. exists d. split; [congruence|done]. }
    rewrite Hnone. f_equal.
    apply elem_of_cons in He as [->|He]; [done|].
    exfalso. apply Hx. apply list_elem_of_fmap. exists e. split; [congruence|done].
  - apply elem_of_cons in He as [->|He]; [by destruct Hne|]. by apply IH.
Qed.

(** *** Closing words *)

Lemma closing_line line w :
  firstWord line = Some w → isClosingWord w = true →
  skipped (trim line) = false
  ∧ ∃ ws, split_re re_spaces (trim line) = w :: ws.
Proof.
  intros Hw Hc. unfold firstWord in Hw.
  destruct (closing_word_facts w Hc) as (_ & _ & _ & c & w' & -> & Hc47).
  destruct (split_re_head _ _ _ _ Hw) as [t' Ht]. split.
  - rewrite Ht. unfold skipped. cbn [nonempty negb orb].
    change (js "//") with [47%N; 47%N]. cbn [startsWith].
    destruct (N.eqb_spec 47 c); [congruence|done].
  - destruct (split_re _ _) as [|w0 ws]; [done|].
    injection Hw as ->. by exists ws.
Qed.

Lemma checkFirstWord_unexpected n w ws st :
  isClosingWord w = true → blockStack st = [] →
  errs (checkFirstWord n (w :: ws) st)
  = errs st ++ [mkError n (unexpectedCloser w) error].
Proof.
  intros Hc Hst.
  destruct (closing_word_facts w Hc) as (Htest & Hmem & Hopen & _).
  unfold checkFirstWord, when at 1. rewrite Htest.
  unfold run. cbn [foldl]. rewrite Hmem, Hopen.
  rewrite bool_decide_eq_false_2 by (by intros [? ?]).
  cbn [negb andb when]. unfold closeBlock, when.
  unfold isClosingWord in Hc. rewrite Hc, Hst. done.
Qed.

Lemma closeBlock_accepts n w st b :
  last (blockStack st) = Some b →
  (blk_keyword b = js "FOR" ∧ w = js "NEXT")
  ∨ (blk_keyword b = js "REPEAT" ∧ w = js "UNTIL") →
  closeBlock n w st = set_blockStack (removelast (blockStack st)) st.
Proof.
  intros Hb H. unfold closeBlock, when. rewrite Hb.
  destruct H as [[-> ->]|[-> ->]]; by vm_compute.
Qed.

Lemma unmatched_keys_NoDup (bs : list Block) :
  NoDup (blk_line <$> bs) → NoDup (errorKey <$> (unmatchedError <$> bs)).
Proof.
  intros H. rewrite <- list_fmap_compose.
  induction bs as [|b bs IH]; [constructor|].
  rewrite fmap_cons in *. apply NoDup_cons in H as [Hb H].
  constructor; [|by apply IH].
  intros (b' & Hk & Hb')%list_elem_of_fmap. apply Hb.
  apply list_elem_of_fmap. exists b'. split; [|done].
  apply errorKey_inj in Hk as [Hl _]. done.
Qed.

Lemma count_unmatched lines :
  length (List.filter isUnmatched (deduplicate (errs (finalState toUpperCase toLowerCase lines))))
  = length (blockStack (linePass toUpperCase toLowerCase lines initial)).
Proof.
  rewrite deduplicate_eq, dedupFrom_filter.
  2:{ intros a b [_ Hm]%errorKey_inj. unfold isUnmatched. by rewrite Hm. }
  destruct (finalState_errs lines) as (rest & -> & Hline & Hsweep).
  rewrite !List.filter_app.
  rewrite (filter_bool_none _ (errs _)), (filter_bool_none _ rest).
  - rewrite app_nil_l, app_nil_r, filter_bool_all.
    + rewrite dedupFrom_id; [by rewrite length_fmap| |set_solver].
      apply unmatched_keys_NoDup, linePass_stackOK.
    + apply Forall_fmap, Forall_true. intros b. by vm_compute.
  - eapply Forall_impl; [exact Hsweep|].
    intros [l m []]; unfold holds, sweepShape, isUnmatched; cbn [message type].
    + intros [H|H]%orb_true_iff; apply startsWith_inv in H as [s' ->]; by vm_compute.
    + intros H; apply startsWith_inv in H as [s' ->]; by vm_compute.
  - eapply Forall_impl; [exact Hline|].
    intros [l m []]; unfold holds, lineShape, isUnmatched; cbn [message type].
    + intros [H _]%andb_true_iff. by destruct (startsWith _ m).
    + intros [H|H]%orb_true_iff; apply startsWith_inv in H as [s' ->]; by vm_compute.
Qed.

Lemma no_content_linePass (lines ls : list jsstring) i st :
  existsb hasContent ls = false →
  forEachLine i ls (processLine toUpperCase toLowerCase lines) st = st.
Proof.
  revert i st. induction ls as [|l ls IH]; intros i st H; [done|].
  simpl in H. apply orb_false_iff in H as [Hl Hls].
  simpl. unfold processLine at 2. rewrite skipped_hasContent, Hl. simpl.
  by apply IH.
Qed.

(** *** Keyword casing *)

Lemma checkKeywordCase_pushes n ws word st :
  word ∈ ws → word ≠ [] → mem (toUpperCase word) KEYWORDS = true →
  word ≠ toUpperCase word →
  mkError n (keywordCasing toUpperCase word) error
  ∈ errs (checkKeywordCase toUpperCase n ws st).
Proof.
  intros Hin Hne Hkw Hcase. unfold checkKeywordCase.
  apply (forEach_reaches ws _ word); [done| |].
  - intros y. cbv zeta. repeat respects_step any_leaf.
  - intros st'. cbv zeta. rewrite Hkw.
    assert (str_eqb word (toUpperCase word) = false) as ->.
    { apply not_true_iff_false. by rewrite str_eqb_eq. }
    assert ((0 <? length word) = true) as ->.
    { destruct word; [done|]. done. }
    cbn [negb andb when push errs]. set_solver.
Qed.

(** *** Unclosed strings *)

Lemma checkReferences_skipped n t lws st :
  hasUnclosedString t = true →
  checkReferences toUpperCase toLowerCase n t lws st = st.
Proof. intros H. unfold checkReferences. by rewrite H. Qed.

(** *** Empty loop bodies *)

Lemma checkEmptyLoops_pushes lines k text next st :
  lines !! k = Some text → lines !! S k = Some next →
  startsWith (js "FOR ") (trim text) = true →
  includes (js " TO ") (trim text) = true →
  startsWith (js "NEXT ") (trim next) = true →
  mkError (k + 1) emptyLoopBody warning ∈ errs (checkEmptyLoops lines st).
Proof.
  intros Hk Hn Hfor Hto Hnext. unfold checkEmptyLoops.
  rewrite (forEachLine_split k text _ 0 _ st Hk).
  match goal with
  | |- _ ∈ errs (forEachLine ?i ?ls ?body ?st') =>
    assert (Hg : respects (grows anything) (forEachLine i ls body))
  end.
  { apply (respects_forEachLine (grows anything)). intros.
    cbv zeta. repeat respects_step any_leaf. }
  eapply elem_of_prefix; [|apply (grows_prefix anything), Hg].
  cbv zeta. rewrite Nat.add_0_l, Hfor, Hto. cbn [andb when].
  rewrite Nat.add_1_r, (drop_S _ _ _ Hn). cbn [findNext]. rewrite Hnext.
  rewrite bool_decide_eq_true_2 by done. cbn [when push errs]. set_solver.
Qed.

(** *** Array bounds *)

Lemma arraysAt_access lines k text :
  lines !! k = Some text → skipped (trim text) = false →
  arrayDeclarations
    (run (take 17 (lineRules toUpperCase toLowerCase lines k text))
       (stateBefore toUpperCase toLowerCase lines k))
  = arraysAt toUpperCase toLowerCase lines k.
Proof.
  intros Hk Hs. unfold arraysAt.
  rewrite (stateBefore_succ _ _ _ Hk). unfold processLine. rewrite Hs.
  rewrite (run_split 17 (lineRules _ _ _ _ _)). symmetry.
  apply (respects_run (same arrayDeclarations)), lineRules_same_arrays.
Qed.

Lemma checkAccess_pushes n access m info st :
  exec re_array_access access = Some m →
  arrayDeclarations st !! toLowerCase (grp 1 m) = Some info →
  outside (parseInt (grp 2 m)) (arr_start info) (arr_end info) →
  checkAccess toLowerCase n access st
  = push n (outOfBounds (parseInt (grp 2 m)) (grp 1 m) (arr_start info)
              (arr_end info)) error st.
Proof.
  intros Hm Hinfo Hout. unfold checkAccess. rewrite Hm, Hinfo.
  assert (num_ltb (parseInt (grp 2 m)) (arr_start info)
          || num_ltb (arr_end info) (parseInt (grp 2 m)) = true) as ->; [|done].
  by apply orb_true_iff.
Qed.

Lemma checkAccess_silent n access m info st :
  exec re_array_access access = Some m →
  arrayDeclarations st !! toLowerCase (grp 1 m) = Some info →
  ¬ outside (parseInt (grp 2 m)) (arr_start info) (arr_end info) →
  checkAccess toLowerCase n access st = st.
Proof.
  intros Hm Hinfo Hin. unfold checkAccess. rewrite Hm, Hinfo.
  assert (num_ltb (parseInt (grp 2 m)) (arr_start info)
          || num_ltb (arr_end info) (parseInt (grp 2 m)) = false) as ->; [|done].
  apply not_true_iff_false. by rewrite orb_true_iff.
Qed.

(** The check of one access written as a name, a bracket, a numeral and a
    bracket: an error exactly when the numeral is outside the registered
    bounds. *)
Lemma checkAccess_text n name ds info st :
  isName name → isNumeral ds →
  arrayDeclarations st !! toLowerCase name = Some info →
  checkAccess toLowerCase n (accessText name ds) st
  = when (num_ltb (parseInt ds) (arr_start info)
          || num_ltb (arr_end info) (parseInt ds))
      (push n (outOfBounds (parseInt ds) name (arr_start info) (arr_end info))
         error) st.
Proof.
  intros Hname Hds Hinfo. unfold checkAccess.
  rewrite (exec_array_access name ds Hname Hds).
  change (grp 1 _) with name. change (grp 2 _) with ds.
  by rewrite Hinfo.
Qed.

Lemma checkAccess_same_arrays n access :
  respects (same arrayDeclarations) (checkAccess toLowerCase n access).
Proof. unfold checkAccess. repeat respects_step same_leaf. Qed.

(** An access of line [k] beyond the registered bounds is in the final
    state. *)
Lemma out_of_range_pushed lines k text access m info :
  lines !! k = Some text → skipped (trim text) = false →
  access ∈ match_all re_array_access (trim text) →
  exec re_array_access access = Some m →
  arraysAt toUpperCase toLowerCase lines k !! toLowerCase (grp 1 m) = Some info →
  outside (parseInt (grp 2 m)) (arr_start info) (arr_end info) →
  mkError (k + 1)
    (outOfBounds (parseInt (grp 2 m)) (grp 1 m) (arr_start info) (arr_end info))
    error
  ∈ errs (finalState toUpperCase toLowerCase lines).
Proof.
  intros Hk Hs Hin Hm Hinfo Hout.
  apply (rule_reaches lines k text 17
           (checkArrayBounds toLowerCase (k + 1) (trim text)));
    [done|done|done|].
  unfold checkArrayBounds. cbv zeta.
  apply (forEach_reaches_inv
           (λ st, arrayDeclarations st
                  = arraysAt toUpperCase toLowerCase lines k) _ _ access);
    [done| | | |by apply arraysAt_access].
  - intros y. unfold checkAccess. repeat respects_step any_leaf.
  - intros y st Hst. by rewrite (checkAccess_same_arrays (k + 1) y st).
  - intros st Hst. rewrite (checkAccess_pushes _ _ m info); [|done| |done].
    + cbn [push errs]. apply elem_of_app. right. by apply list_elem_of_singleton.
    + by rewrite Hst.
Qed.
End LinePass.

(** ** From a push to an error of the result *)

(** A diagnostic of the final state whose message cannot be that of a
    warning is reported as an error. *)
Lemma reported_error toUpperCase toLowerCase code l m :
  existsb hasContent (split_on 10 code) = true →
  mkError l m error ∈ errs (finalState toUpperCase toLowerCase (split_on 10 code)) →
  finalShape (mkError 0 m warning) = false →
  ∃ d, d ∈ errors (checkSyntax toUpperCase toLowerCase code)
       ∧ line d = l ∧ message d = m ∧ type d = error.
Proof.
  intros Hc He Hw.
  destruct (reported toUpperCase toLowerCase code _ _ _ Hc He)
    as (t' & Hd & Hshape).
  exists (mkError l m t'). repeat split; try done.
  destruct t'; [done|].
  unfold holds, finalShape in *. cbn [message type] in *. congruence.
Qed.

(** An access beyond the registered bounds is reported as an error on its
    line. *)
Lemma out_of_range_reported toUpperCase toLowerCase code k text access m info :
  split_on 10 code !! k = Some text → skipped (trim text) = false →
  access ∈ match_all re_array_access (trim text) →
  exec re_array_access access = Some m →
  arraysAt toUpperCase toLowerCase (split_on 10 code) k
    !! toLowerCase (grp 1 m) = Some info →
  outside (parseInt (grp 2 m)) (arr_start info) (arr_end info) →
  ∃ d, d ∈ errors (checkSyntax toUpperCase toLowerCase code)
       ∧ line d = k + 1
       ∧ message d = outOfBounds (parseInt (grp 2 m)) (grp 1 m)
                       (arr_start info) (arr_end info)
       ∧ type d = error.
Proof.
  intros Hk Hs Hin Hm Hinfo Hout.
  apply (reported_error toUpperCase toLowerCase code).
  - by eapply lookup_hasContent.
  - by eapply out_of_range_pushed.
  - by vm_compute.
Qed.

(** The same for an access written as a name, a bracket, a numeral and a
    bracket. *)
Lemma out_of_range_text_reported toUpperCase toLowerCase code k text name ds
    info :
  split_on 10 code !! k = Some text → skipped (trim text) = false →
  isName name → isNumeral ds →
  accessText name ds ∈ match_all re_array_access (trim text) →
  arraysAt toUpperCase toLowerCase (split_on 10 code) k !! toLowerCase name
  = Some info →
  outside (parseInt ds) (arr_start info) (arr_end info) →
  ∃ d, d ∈ errors (checkSyntax toUpperCase toLowerCase code)
       ∧ line d = k + 1
       ∧ message d = outOfBounds (parseInt ds) name (arr_start info)
                       (arr_end info)
       ∧ type d = error.
Proof.
  intros Hk Hs Hname Hds Hin Hinfo Hout.
  exact (out_of_range_reported toUpperCase toLowerCase code k text _ _ info
           Hk Hs Hin (exec_array_access name ds Hname Hds) Hinfo Hout).
Qed.

(** * The behaviour of the checker *)

(** ** Verdict and emptiness guard *)

(** C1. For every input (and whatever the case mappings of the runtime),
    [isValid] is true exactly when the returned diagnostics hold no entry of
    severity error; in particular a result made of warnings only is valid. *)
Theorem isValid_iff_no_error (toUpperCase toLowerCase : jsstring → jsstring)
    (code : jsstring) :
  let r := checkSyntax toUpperCase toLowerCase code in
  (isValid r = true ↔ filter (λ e, type e = error) (errors r) = [])
  ∧ (Forall (λ e, type e = warning) (errors r) ↔ isValid r = true).
Proof.
  assert (Hw : ∀ es : list SyntaxError,
    Forall (λ e, type e = warning) es ↔ filter (λ e, type e = error) es = []).
  { induction es as [|e es IH]; [done|].
    rewrite Forall_cons, filter_cons, IH.
    destruct (decide (type e = error)) as [Ht|Ht].
    - rewrite Ht. split; [by intros [? _] | discriminate].
    - destruct (type e); [done|tauto]. }
  cbv zeta. rewrite Hw. unfold checkSyntax.
  destruct (negb _); cbn [isValid errors].
  - split; split; discriminate.
  - rewrite Nat.eqb_eq, filter_is_error. tauto.
Qed.

(** C2. When every line of the input is blank or a comment, the result is
    invalid and consists of the missing-content error alone. *)
Theorem only_blank_or_comment_lines
    (toUpperCase toLowerCase : jsstring → jsstring) (code : jsstring) :
  (∀ l, l ∈ split_on 10 code →
        trim l = [] ∨ startsWith (js "//") (trim l) = true) →
  checkSyntax toUpperCase toLowerCase code = mkResult false [noContentError].
Proof.
  intros H. unfold checkSyntax.
  assert (Hex : existsb hasContent (split_on 10 code) = false).
  { apply not_true_iff_false. rewrite existsb_exists.
    intros (l & Hin & Hc). apply list_elem_of_In in Hin.
    unfold hasContent in Hc. apply andb_true_iff in Hc as [Hne Hns].
    destruct (H l Hin) as [Hb|Hcm].
    - by rewrite Hb in Hne.
    - by rewrite Hcm in Hns. }
  rewrite Hex. done.
Qed.

Lemma only_blank_or_comment_lines_witness :
  check (unlines [js "// nothing but a comment"; js "   "; js ""])
  = mkResult false [noContentError].
Proof.
  apply only_blank_or_comment_lines.
  intros l Hl. vm_compute in Hl.
  repeat (apply elem_of_cons in Hl as [->|Hl]);
    [right | left | left | by apply elem_of_nil in Hl]; by vm_compute.
Defined.

(** ** Block matching *)

(** C3. Block matching is a stack discipline.  (i) A line whose first word
    is a closing keyword (NEXT and UNTIL included), processed while the
    block stack is empty, is reported with exactly one unexpected-closer
    error.  (ii) The result holds as many unmatched-opener diagnostics as
    there are entries on the block stack after the line pass.  (iii) NEXT
    closes FOR and UNTIL closes REPEAT: the entry is popped and nothing is
    pushed. *)
Theorem block_stack_discipline
    (toUpperCase toLowerCase : jsstring → jsstring) (code : jsstring) :
  let lines := split_on 10 code in
  let r := checkSyntax toUpperCase toLowerCase code in
  (∀ k text w,
     lines !! k = Some text → firstWord text = Some w →
     isClosingWord w = true →
     blockStack (stateBefore toUpperCase toLowerCase lines k) = [] →
     ∃ d, filter (λ d, line d = k + 1 ∧ message d = unexpectedCloser w)
            (errors r) = [d]
          ∧ type d = error)
  ∧ length (List.filter isUnmatched (errors r))
    = length (blockStack (linePass toUpperCase toLowerCase lines initial))
  ∧ (∀ n w st b,
       last (blockStack st) = Some b →
       (blk_keyword b = js "FOR" ∧ w = js "NEXT")
       ∨ (blk_keyword b = js "REPEAT" ∧ w = js "UNTIL") →
       closeBlock n w st = set_blockStack (removelast (blockStack st)) st).
Proof.
  intros lines r. split; [|split].
  - intros k line w Hk Hw Hc Hst.
    destruct (closing_line line w Hw Hc) as (Hs & ws & Hwords).
    pose proof (lookup_hasContent _ _ _ Hk Hs) as Hcontent.
    set (e := mkError (k + 1) (unexpectedCloser w) error).
    assert (He : e ∈ errs (finalState toUpperCase toLowerCase lines)).
    { apply (rule_reaches _ _ lines k line 4
               (checkFirstWord (k + 1) (split_re re_spaces (trim line))));
        [done|done|done|].
      rewrite Hwords, checkFirstWord_unexpected; [set_solver|done|].
      destruct (lineRules_same_blockStack toUpperCase toLowerCase lines k line)
        as [Hpre _].
      rewrite (respects_run _ _ Hpre). done. }
    destruct (reported toUpperCase toLowerCase code _ _ _ Hcontent He)
      as (t' & He' & Hshape).
    exists (mkError (k + 1) (unexpectedCloser w) t'). split.
    + subst r. rewrite (checkSyntax_content _ _ _ Hcontent) in He' |- *.
      cbn [errors] in *.
      by rewrite <- (exactly_one _ _ (deduplicate_NoDup _) He').
    + destruct t'; [done|]. by vm_compute in Hshape.
  - subst r. destruct (existsb hasContent lines) eqn:Hcontent.
    + rewrite (checkSyntax_content _ _ _ Hcontent). apply count_unmatched.
    + unfold checkSyntax. fold lines. rewrite Hcontent. cbn [negb errors].
      unfold linePass. by rewrite no_content_linePass.
  - intros. by eapply closeBlock_accepts.
Qed.

Lemma block_stack_discipline_witness :
  (∃ d, filter (λ d, line d = 1 ∧ message d = unexpectedCloser (js "ENDIF"))
          (errors (check example_blocks)) = [d] ∧ type d = error)
  ∧ length (List.filter isUnmatched (errors (check example_blocks))) = 1
  ∧ closeBlock 4 (js "NEXT")
      (set_blockStack [mkBlock (js "FOR") 3] initial)
    = set_blockStack [] initial.
Proof.
  destruct (block_stack_discipline latinUpper latinLower example_blocks)
    as (H1 & H2 & H3).
  split; [|split].
  - apply (H1 0 (js "ENDIF") (js "ENDIF")); by vm_compute.
  - etrans; [exact H2 | by vm_compute].
  - apply (H3 4 (js "NEXT") (set_blockStack [mkBlock (js "FOR") 3] initial)
             (mkBlock (js "FOR") 3)); [reflexivity|].
    left. split; reflexivity.
Defined.

(** ** A valid program *)

(** C5. Declaration, assignment and output of one variable: valid, no
    diagnostic at all, whatever the case mappings do outside plain texts. *)
Theorem example_declare_assign_output
    (otherUpper otherLower : jsstring → jsstring) :
  checkPlain otherUpper otherLower
    (unlines [js "DECLARE x: INTEGER"; js "x ← 5"; js "OUTPUT x"])
  = mkResult true [].
Proof. vm_compute. reflexivity. Qed.

(** ** Unclosed strings *)

(** C7, as the code has it.  On a line that is neither blank nor a comment,
    an odd number of double quotes is reported with an unclosed-string
    error, and the reference check leaves that line alone. *)
Theorem unclosed_string_reported
    (toUpperCase toLowerCase : jsstring → jsstring)
    (code : jsstring) (k : nat) (text : jsstring) :
  split_on 10 code !! k = Some text → skipped (trim text) = false →
  Nat.odd (countQuotes text) = true →
  (∃ d, d ∈ errors (checkSyntax toUpperCase toLowerCase code)
        ∧ line d = k + 1 ∧ message d = unclosedString ∧ type d = error)
  ∧ (∀ st, checkReferences toUpperCase toLowerCase (k + 1) (trim text)
             (withoutStrings (trim text)) st = st).
Proof.
  intros Hk Hs Hodd.
  assert (Hun : hasUnclosedString (trim text) = true).
  { by rewrite hasUnclosedString_odd, countQuotes_trim. }
  split; [|intros st; by apply checkReferences_skipped].
  apply (reported_error toUpperCase toLowerCase code).
  - by eapply lookup_hasContent.
  - apply (rule_reaches _ _ _ k text 13
             (checkUnclosedString (k + 1) (trim text))); [done|done|done|].
    unfold checkUnclosedString. rewrite Hun. cbn [when push errs]. set_solver.
  - by vm_compute.
Qed.

Lemma unclosed_string_reported_witness :
  (∃ d, d ∈ errors (check (js "OUTPUT " ++ [DQUOTE] ++ js "hi"))
        ∧ line d = 1 ∧ message d = unclosedString ∧ type d = error)
  ∧ (∀ st, checkReferences latinUpper latinLower 1
             (trim (js "OUTPUT " ++ [DQUOTE] ++ js "hi"))
             (withoutStrings (trim (js "OUTPUT " ++ [DQUOTE] ++ js "hi"))) st
           = st).
Proof.
  apply (unclosed_string_reported latinUpper latinLower
           (js "OUTPUT " ++ [DQUOTE] ++ js "hi") 0
           (js "OUTPUT " ++ [DQUOTE] ++ js "hi")); by vm_compute.
Defined.

(** A comment line with an odd number of double quotes is skipped like any
    comment: nothing is reported for it. *)
Lemma unclosed_string_in_comment :
  let code := unlines [js "DECLARE x: INTEGER";
                       js "// say " ++ [DQUOTE] ++ js "hi"] in
  ∃ text, split_on 10 code !! 1 = Some text
          ∧ Nat.odd (countQuotes text) = true
          ∧ ¬ ∃ d, d ∈ errors (check code)
                   ∧ line d = 2 ∧ message d = unclosedString.
Proof.
  eexists. split; [by vm_compute|]. split; [by vm_compute|].
  intros (d & Hd & _). vm_compute in Hd. by apply elem_of_nil in Hd.
Qed.

(** ** Empty loop bodies *)

(** C8, as the code has it.  A line that starts with FOR and a space and
    holds TO between spaces, directly followed by a line that starts with
    NEXT and a space, is reported with the empty-loop warning. *)
Theorem empty_for_body_warned
    (toUpperCase toLowerCase : jsstring → jsstring)
    (code : jsstring) (k : nat) (text next : jsstring) :
  split_on 10 code !! k = Some text → split_on 10 code !! S k = Some next →
  startsWith (js "FOR ") (trim text) = true →
  includes (js " TO ") (trim text) = true →
  startsWith (js "NEXT ") (trim next) = true →
  mkError (k + 1) emptyLoopBody warning
  ∈ errors (checkSyntax toUpperCase toLowerCase code).
Proof.
  intros Hk Hn Hfor Hto Hnext.
  set (e := mkError (k + 1) emptyLoopBody warning).
  assert (Hc : existsb hasContent (split_on 10 code) = true).
  { apply (lookup_hasContent _ k text Hk).
    apply startsWith_inv in Hfor as [s' ->]. done. }
  assert (He : e ∈ errs (finalState toUpperCase toLowerCase (split_on 10 code))).
  { unfold finalState. rewrite (run_split 4). cbn [take drop].
    rewrite run_cons. by eapply checkEmptyLoops_pushes. }
  destruct (reported toUpperCase toLowerCase code _ _ _ Hc He)
    as (t & Hd & Hshape).
  destruct t; [|exact Hd]. by vm_compute in Hshape.
Qed.

Lemma empty_for_body_warned_witness :
  mkError 2 emptyLoopBody warning
  ∈ errors (check (unlines [js "DECLARE i: INTEGER"; js "FOR i ← 1 TO 3";
                            js "NEXT i"])).
Proof.
  apply (empty_for_body_warned latinUpper latinLower _ 1
           (js "FOR i ← 1 TO 3") (js "NEXT i")); by vm_compute.
Defined.

(** A FOR line whose next non-blank line is its NEXT, with a blank line in
    between: no warning. *)
Lemma empty_for_body_after_blank_line :
  let code := unlines [js "DECLARE i: INTEGER"; js "FOR i ← 1 TO 3"; js "";
                       js "NEXT i"] in
  split_on 10 code
  = [js "DECLARE i: INTEGER"; js "FOR i ← 1 TO 3"; []; js "NEXT i"]
  ∧ ¬ ∃ d, d ∈ errors (check code) ∧ type d = warning.
Proof.
  split; [by vm_compute|].
  intros (d & Hd & _). vm_compute in Hd. by apply elem_of_nil in Hd.
Qed.

(** ** Deduplication *)

(** C9. No two diagnostics of a result share both line and message, running
    the deduplication on the result again changes nothing, and in general
    the step is idempotent, keeps no duplicate, and loses no (line, message)
    pair. *)
Theorem deduplication_idempotent_complete
    (toUpperCase toLowerCase : jsstring → jsstring) (code : jsstring) :
  let r := checkSyntax toUpperCase toLowerCase code in
  NoDup ((λ e, (line e, message e)) <$> errors r)
  ∧ deduplicate (errors r) = errors r
  ∧ (∀ es, deduplicate (deduplicate es) = deduplicate es)
  ∧ (∀ es, NoDup ((λ e, (line e, message e)) <$> deduplicate es))
  ∧ (∀ es e, e ∈ es →
       ∃ e', e' ∈ deduplicate es ∧ line e' = line e ∧ message e' = message e).
Proof.
  cbv zeta. unfold checkSyntax. destruct (negb _); cbn [errors].
  - split; [|split; [|split; [|split]]].
    + apply NoDup_singleton.
    + rewrite deduplicate_eq. simpl.
      rewrite bool_decide_eq_false_2 by set_solver. done.
    + apply deduplicate_idempotent.
    + apply deduplicate_NoDup.
    + apply deduplicate_complete.
  - split; [|split; [|split; [|split]]].
    + apply deduplicate_NoDup.
    + apply deduplicate_idempotent.
    + apply deduplicate_idempotent.
    + apply deduplicate_NoDup.
    + apply deduplicate_complete.
Qed.

(** * Further behaviour of the checker *)

(** ** Loops over lines and lists *)

Section Loops.
Context (R : relation State) `{!PreOrder R}.

Lemma respects_forEach_elem {A} (l : list A) body :
  (∀ x, x ∈ l → respects R (body x)) → respects R (forEach l body).
Proof.
  unfold forEach. induction l as [|x l IH]; intros Hb st; simpl.
  - reflexivity.
  - etrans; [apply Hb; left|]. apply IH. intros y Hy. apply Hb. by right.
Qed.

Lemma respects_forEachLine_from ls body :
  ∀ i, (∀ j l, ls !! j = Some l → respects R (body (i + j) l)) →
       respects R (forEachLine i ls body).
Proof.
  induction ls as [|l ls IH]; intros i Hb st; simpl.
  - reflexivity.
  - etrans.
    + specialize (Hb 0 l eq_refl). rewrite Nat.add_0_r in Hb. apply Hb.
    + apply IH. intros j l' Hj. rewrite Nat.add_succ_comm. by apply (Hb (S j)).
Qed.

Lemma respects_forEachLine_lookup ls body :
  (∀ j l, ls !! j = Some l → respects R (body j l)) →
  respects R (forEachLine 0 ls body).
Proof. intros H. by apply respects_forEachLine_from. Qed.
End Loops.

Lemma forEachLine_invariant (I : State → Prop) ls body :
  ∀ i st, (∀ j l st, ls !! j = Some l → I st → I (body (i + j) l st)) →
          I st → I (forEachLine i ls body st).
Proof.
  induction ls as [|l ls IH]; intros i st Hb HI; simpl; [done|].
  apply IH.
  - intros j l' st' Hj. rewrite Nat.add_succ_comm. by apply (Hb (S j)).
  - specialize (Hb 0 l st eq_refl HI). by rewrite Nat.add_0_r in Hb.
Qed.

Lemma findIndex_Some p ls :
  ∀ i j, findIndex p i ls = Some j →
    i ≤ j ∧ (∃ l, ls !! (j - i) = Some l ∧ p j l = true)
    ∧ ∀ j' l', i ≤ j' → j' < j → ls !! (j' - i) = Some l' → p j' l' = false.
Proof.
  induction ls as [|l ls IH]; intros i j H; simpl in H; [done|].
  destruct (p i l) eqn:Hp.
  - injection H as <-. split; [done|]. split.
    + exists l. by rewrite Nat.sub_diag.
    + intros; lia.
  - apply IH in H as (Hle & (l0 & Hl0 & Hp0) & Hfirst).
    split; [lia|]. split.
    + exists l0. split; [|done].
      replace (j - i) with (S (j - S i)) by lia. done.
    + intros j' l' Hj' Hlt Hl'.
      destruct (decide (j' = i)) as [->|Hne].
      * rewrite Nat.sub_diag in Hl'. injection Hl' as <-. done.
      * apply Hfirst; [lia|done|].
        replace (j' - i) with (S (j' - S i)) in Hl' by lia. done.
Qed.

(** ** Openers on the block stack *)

Lemma block_closer_Some w c :
  block_closer w = Some c → (w, c) ∈ BLOCK_KEYWORDS.
Proof.
  unfold block_closer. destruct (find _ _) as [[k c']|] eqn:Hf; [|done].
  simpl. intros [= ->]. apply find_some in Hf as [Hin Heq].
  simpl in Heq. apply str_eqb_eq in Heq. subst k. by apply list_elem_of_In.
Qed.

Lemma startsWith_cons_inv c p s :
  startsWith (c :: p) s = true → ∃ s', s = c :: s' ∧ startsWith p s' = true.
Proof.
  destruct s as [|y s]; [done|]. simpl.
  intros [Hc H]%andb_true_iff. apply N.eqb_eq in Hc. subst. by exists s.
Qed.

(** A text that starts with something other than a slash is neither blank
    nor a comment. *)
Lemma starts_not_skipped c p t :
  c ≠ 47%N → startsWith (c :: p) t = true → skipped t = false.
Proof.
  intros Hc (t' & -> & _)%startsWith_cons_inv.
  unfold skipped. cbn [nonempty negb orb].
  change (js "//") with [47%N; 47%N]. cbn [startsWith].
  destruct (N.eqb_spec 47 c); [congruence|done].
Qed.

Lemma not_skipped_cons t : skipped t = false → ∃ c t', t = c :: t' .
Proof. destruct t as [|c t']; [done|]. by exists c, t'. Qed.

Section Openers.
Variables U L : jsstring → jsstring.

Lemma checkFirstWord_opens lines k text st :
  lines !! k = Some text → skipped (trim text) = false →
  Forall (opensAt lines) (blockStack st) →
  Forall (opensAt lines)
    (blockStack (checkFirstWord (k + 1) (split_re re_spaces (trim text)) st)).
Proof.
  intros Hk Hs Hst. unfold checkFirstWord.
  destruct (split_re re_spaces (trim text)) as [|w ws] eqn:Hw; [done|].
  unfold when at 1. destruct (test _ _); [|done].
  unfold run. cbn [foldl].
  assert (Hopen : Forall (opensAt lines) (blockStack
    (when (bool_decide (is_Some (block_closer w)))
       (λ st0, set_blockStack (blockStack st0 ++ [mkBlock w (k + 1)]) st0)
       (when (negb (mem w KEYWORDS) && negb (test re_upper_identifier w))
          (push (k + 1) (js "Unknown keyword: " ++ w) error) st)))).
  { unfold when at 1. case_bool_decide as Hc.
    - cbn [set_blockStack blockStack]. apply Forall_app. split.
      + unfold when. by destruct (_ && _).
      + apply Forall_singleton. destruct Hc as [c Hc].
        exists text, c. cbn [blk_line blk_keyword].
        replace (k + 1 - 1) with k by lia.
        repeat split; [done|lia|done| |done].
        unfold firstWord. by rewrite Hw.
    - unfold when. by destruct (_ && _). }
  revert Hopen. generalize (when (bool_decide (is_Some (block_closer w)))
       (λ st0, set_blockStack (blockStack st0 ++ [mkBlock w (k + 1)]) st0)
       (when (negb (mem w KEYWORDS) && negb (test re_upper_identifier w))
          (push (k + 1) (js "Unknown keyword: " ++ w) error) st)).
  intros st' H. unfold closeBlock, when.
  destruct (_ || _); [|done].
  destruct (last _); [|done].
  assert (Forall (opensAt lines) (removelast (blockStack st'))).
  { rewrite Forall_forall in *. intros b0 Hb0. apply H.
    eapply sublist_subseteq; [apply removelast_sublist | exact Hb0]. }
  by destruct (_ && _).
Qed.

Lemma processLine_opens lines k text st :
  lines !! k = Some text →
  Forall (opensAt lines) (blockStack st) →
  Forall (opensAt lines) (blockStack (processLine U L lines k text st)).
Proof.
  intros Hk H. unfold processLine.
  destruct (skipped _) eqn:Hs; [done|].
  destruct (lineRules_same_blockStack U L lines k text) as [Hpre Hpost].
  rewrite (run_split 4).
  change (drop 4 (lineRules U L lines k text))
    with (checkFirstWord (k + 1) (split_re re_spaces (trim text))
          :: drop 5 (lineRules U L lines k text)).
  rewrite run_cons.
  rewrite (respects_run (same blockStack) _ Hpost _).
  apply checkFirstWord_opens; [done|done|].
  by rewrite (respects_run (same blockStack) _ Hpre _).
Qed.

(** Every entry of the block stack stands for a line that opened it. *)
Lemma linePass_opens lines :
  Forall (opensAt lines) (blockStack (linePass U L lines initial)).
Proof.
  unfold linePass.
  apply (forEachLine_invariant (λ st, Forall (opensAt lines) (blockStack st))).
  - intros j l st Hj. by apply processLine_opens.
  - constructor.
Qed.

Lemma stateBefore_opens lines k :
  Forall (opensAt lines) (blockStack (stateBefore U L lines k)).
Proof.
  unfold stateBefore.
  apply (forEachLine_invariant (λ st, Forall (opensAt lines) (blockStack st))).
  - intros j l st Hj. apply processLine_opens.
    apply lookup_take_Some in Hj. tauto.
  - constructor.
Qed.

End Openers.

(** ** Diagnostics of processed lines *)

Ltac unfold_all_rules :=
  unfold checkIndentation, checkAssignmentOperator, checkIdentifiers,
    checkStructure, checkFirstWord, closeBlock, checkKeywordCase,
    checkInvalidKeywords, checkDeclare, trackVariables, declareVariable,
    trackArray, checkConstant, checkArrayFormat, checkForSyntax,
    checkCaseFormat, checkWhileParentheses, checkUnclosedString,
    checkCharLiterals, checkCharDeclaration, checkCharAssignment,
    checkArrayBounds, checkAccess, checkAssignmentTarget, checkReferences,
    checkCall, checkOpenfile, checkEndfor, checkFunction, checkProcedure,
    declareParameters.

Ltac quiet_leaf :=
  first [ apply grows_set_blockStack | apply grows_set_array
        | apply grows_declare | apply grows_add_function ].

(** Proves that every rule of a line keeps [grows Q], the pushes being left to [leaf]. *)
Ltac rules_grow leaf :=
  unfold lineRules; cbv zeta;
  repeat apply Forall_cons_2; [..|apply Forall_nil_2];
  unfold_all_rules; cbv zeta;
  repeat respects_step ltac:(first [quiet_leaf | leaf]);
  try (cbv zeta; repeat respects_step ltac:(first [quiet_leaf | leaf])).

Lemma atProcessed_intro lines k text m t :
  lines !! k = Some text → skipped (trim text) = false →
  atProcessed lines (mkError (k + 1) m t).
Proof.
  intros Hk Hs. exists text. cbn [line]. rewrite Nat.add_sub.
  split; [done|]. split; [lia|done].
Qed.

Lemma later_endfor_lookup lines index j :
  findIndex (λ idx l, (index <? idx) && startsWith (js "ENDFOR") (trim l)) 0 lines
  = Some j →
  ∃ text, lines !! j = Some text ∧ index < j
          ∧ startsWith (js "ENDFOR") (trim text) = true.
Proof.
  intros (_ & (l & Hl & Hp) & _)%findIndex_Some.
  rewrite Nat.sub_0_r in Hl. apply andb_true_iff in Hp as [Hlt Hp].
  apply Nat.ltb_lt in Hlt. by exists l.
Qed.

Lemma atProcessed_endfor lines index j m t :
  findIndex (λ idx l, (index <? idx) && startsWith (js "ENDFOR") (trim l)) 0 lines
  = Some j →
  atProcessed lines (mkError (j + 1) m t).
Proof.
  intros (text & Hl & _ & Hp)%later_endfor_lookup.
  apply (atProcessed_intro lines j text); [done|].
  by apply (starts_not_skipped 69 (js "NDFOR")).
Qed.

Section ProcessedLines.
Variables U L : jsstring → jsstring.

Lemma linePass_grows_with (Q : SyntaxError → Prop) lines :
  (∀ k text, lines !! k = Some text → skipped (trim text) = false →
     Forall (respects (grows Q)) (lineRules U L lines k text)) →
  respects (grows Q) (linePass U L lines).
Proof.
  intros H. apply respects_forEachLine_lookup; [tc_solve|].
  intros k text Hk. unfold processLine.
  destruct (skipped _) eqn:Hs; [apply respects_id; tc_solve|].
  apply respects_run; [tc_solve|]. by apply H.
Qed.

Lemma finalState_parts (Ql Qs : SyntaxError → Prop) lines :
  respects (grows Ql) (linePass U L lines) →
  respects (grows Qs)
    (run [checkExtraClosers lines; checkLength U L lines; checkEmptyLoops lines]) →
  let st1 := linePass U L lines initial in
  ∃ rest, errs (finalState U L lines)
          = errs st1 ++ (unmatchedError <$> blockStack st1) ++ rest
          ∧ Forall Ql (errs st1) ∧ Forall Qs rest.
Proof.
  intros Hl Hs st1. unfold finalState.
  rewrite (run_split 2). cbn [take drop].
  destruct (Hs (run [linePass U L lines; checkUnmatched] initial))
    as (rest & Hrest & Hshape).
  exists rest. rewrite Hrest. unfold run at 1. cbn [foldl].
  rewrite checkUnmatched_errs, <- app_assoc. fold st1.
  split; [done|]. split; [|done].
  destruct (Hl initial) as (l & Hl' & Hq). fold st1 in Hl'. by rewrite Hl'.
Qed.

Lemma lineRules_atProcessed lines k text :
  lines !! k = Some text → skipped (trim text) = false →
  Forall (respects (grows (atProcessed lines))) (lineRules U L lines k text).
Proof.
  intros Hk Hs.
  rules_grow ltac:(first
    [ apply grows_push; eapply atProcessed_intro; eassumption
    | apply grows_push; eapply atProcessed_endfor; eassumption ]).
Qed.

End ProcessedLines.

(** ** The line of a diagnostic *)

Lemma atProcessed_atLine lines d : atProcessed lines d → atLine lines d.
Proof.
  intros (text & Hl & H1 & Hs). exists text. split; [done|]. split; [done|].
  congruence.
Qed.

Lemma atLine_intro lines k text m t :
  lines !! k = Some text → skipped (trim text) = false →
  atLine lines (mkError (k + 1) m t).
Proof. intros. by eapply atProcessed_atLine, atProcessed_intro. Qed.

Lemma startsWith_app_l (p q s : jsstring) :
  startsWith p q = true → startsWith p (q ++ s) = true.
Proof.
  revert q. induction p as [|x p IH]; intros [|y q]; simpl; try done.
  intros [-> H]%andb_true_iff. by rewrite IH.
Qed.

Lemma closer_not_skipped t p :
  find (λ p, str_eqb t p.1) closerFamilies = Some p → skipped t = false.
Proof.
  intros [Hin Heq]%find_some. apply str_eqb_eq in Heq. subst t.
  apply list_elem_of_In in Hin. vm_compute in Hin.
  repeat (apply elem_of_cons in Hin as [->|Hin]); [..|by apply elem_of_nil in Hin];
    by vm_compute.
Qed.

Section Positions.
Variables U L : jsstring → jsstring.

Lemma sweeps_atLine lines :
  respects (grows (atLine lines))
    (run [checkExtraClosers lines; checkLength U L lines; checkEmptyLoops lines]).
Proof.
  apply respects_run; [tc_solve|].
  repeat apply Forall_cons_2; [..|apply Forall_nil_2].
  - unfold checkExtraClosers.
    apply respects_forEachLine_lookup; [tc_solve|]. intros k text Hk. cbv zeta.
    destruct (find _ _) as [[closer opener]|] eqn:Hf; [|apply respects_id; tc_solve].
    apply respects_when; [tc_solve|]. intros _.
    apply grows_push. apply (atLine_intro lines k text); [done|].
    by eapply closer_not_skipped.
  - unfold checkLength.
    apply respects_forEachLine_lookup; [tc_solve|]. intros k text Hk. cbv zeta.
    apply respects_forEach_elem; [tc_solve|]. intros x Hx.
    assert (Hne : trim text ≠ []).
    { intros E. rewrite E in Hx. vm_compute in Hx. by apply elem_of_nil in Hx. }
    repeat respects_step ltac:(idtac; fail).
    apply grows_push. exists text. cbn [line message]. rewrite Nat.add_sub.
    split; [done|]. split; [lia|]. intros _. split; [done|].
    by apply startsWith_app_l.
  - unfold checkEmptyLoops.
    apply respects_forEachLine_lookup; [tc_solve|]. intros k text Hk. cbv zeta.
    apply respects_when; [tc_solve|]. intros [Hfor _]%andb_true_iff.
    apply respects_when; [tc_solve|]. intros _.
    apply grows_push. apply (atLine_intro lines k text); [done|].
    by apply (starts_not_skipped 70 (js "OR ")).
Qed.

Lemma finalState_atLine lines :
  Forall (atLine lines) (errs (finalState U L lines)).
Proof.
  destruct (finalState_parts U L (atProcessed lines) (atLine lines) lines)
    as (rest & -> & Hl & Hs).
  - apply linePass_grows_with. apply lineRules_atProcessed.
  - apply sweeps_atLine.
  - rewrite !Forall_app. split; [|split; [|done]].
    + eapply Forall_impl; [exact Hl|]. apply atProcessed_atLine.
    + apply Forall_fmap. eapply Forall_impl; [apply linePass_opens|].
      intros b (text & c & Hl' & H1 & Hsk & _). apply atProcessed_atLine.
      by exists text.
Qed.

End Positions.

Lemma split_on_nonempty c s : ∃ l ls, split_on c s = l :: ls.
Proof.
  induction s as [|x s (l & ls & IH)]; simpl; [by eexists _, _|].
  destruct (N.eqb x c); [by eexists _, _|]. rewrite IH. by eexists _, _.
Qed.

(** X1. Every diagnostic of a result carries the number, counted from 1, of a
    line of the program.  That line is blank only for the no-content
    diagnostic, and a comment only for that one and for the misuse of
    LENGTH(), which is looked for on every line. *)
Theorem diagnostics_point_at_lines (U L : jsstring → jsstring)
    (code : jsstring) (d : SyntaxError) :
  d ∈ errors (checkSyntax U L code) →
  ∃ text, split_on 10 code !! (line d - 1) = Some text ∧ 1 ≤ line d
    ∧ (skipped (trim text) = true →
       d = noContentError
       ∨ (trim text ≠ [] ∧ startsWith (js "LENGTH() ") (message d) = true)).
Proof.
  unfold checkSyntax. cbv zeta.
  destruct (existsb hasContent (split_on 10 code)) eqn:Hc; cbn [negb errors].
  - intros Hd.
    pose proof (finalState_atLine U L (split_on 10 code)) as H.
    rewrite Forall_forall in H.
    destruct (H d) as (text & Hl & H1 & Hs).
    { eapply sublist_subseteq; [apply deduplicate_sublist | done]. }
    exists text. split; [done|]. split; [done|]. intros Hsk. right. by apply Hs.
  - intros ->%list_elem_of_singleton.
    destruct (split_on_nonempty 10 code) as (l & ls & ->).
    exists l. cbn [line]. split; [done|]. split; [lia|]. intros _. by left.
Qed.

Lemma diagnostics_point_at_lines_witness :
  ∃ text,
    split_on 10 example_length_in_comment
      !! (line (mkError 2 (lengthMisuse (js "INTEGER")) error) - 1) = Some text
    ∧ 1 ≤ line (mkError 2 (lengthMisuse (js "INTEGER")) error)
    ∧ (skipped (trim text) = true →
       mkError 2 (lengthMisuse (js "INTEGER")) error = noContentError
       ∨ (trim text ≠ []
          ∧ startsWith (js "LENGTH() ")
              (message (mkError 2 (lengthMisuse (js "INTEGER")) error)) = true)).
Proof.
  apply (diagnostics_point_at_lines latinUpper latinLower).
  vm_compute. repeat constructor.
Defined.

(** ** Blocks left open *)

(** X2. A diagnostic for a block left open is an error, names an opening
    keyword of the table with its closer, and sits on a line whose first
    word is that keyword. *)
Theorem unmatched_points_at_opener (U L : jsstring → jsstring)
    (code : jsstring) (d : SyntaxError) :
  d ∈ errors (checkSyntax U L code) → isUnmatched d = true →
  ∃ keyword closer text,
    (keyword, closer) ∈ BLOCK_KEYWORDS
    ∧ message d = unmatchedOpener keyword closer ∧ type d = error
    ∧ split_on 10 code !! (line d - 1) = Some text ∧ 1 ≤ line d
    ∧ firstWord text = Some keyword.
Proof.
  unfold checkSyntax. cbv zeta.
  destruct (existsb hasContent (split_on 10 code)) eqn:Hc; cbn [negb errors].
  2:{ intros ->%list_elem_of_singleton. by vm_compute. }
  intros Hd Hu.
  assert (Hin : d ∈ errs (finalState U L (split_on 10 code))).
  { eapply sublist_subseteq; [apply deduplicate_sublist | done]. }
  destruct (finalState_errs U L (split_on 10 code)) as (rest & Herrs & Hline & Hsweep).
  rewrite Herrs in Hin. rewrite !elem_of_app in Hin.
  rewrite Forall_forall in Hline, Hsweep.
  destruct Hin as [Hin|[Hin|Hin]].
  - apply Hline in Hin. exfalso. revert Hin Hu.
    destruct d as [l m []]; unfold holds, lineShape, isUnmatched; cbn [message type].
    + intros [H _]%andb_true_iff. by destruct (startsWith _ m).
    + intros [H|H]%orb_true_iff; apply startsWith_inv in H as [s' ->]; by vm_compute.
  - apply list_elem_of_fmap in Hin as (b & -> & Hb).
    pose proof (linePass_opens U L (split_on 10 code)) as Hopen.
    rewrite Forall_forall in Hopen.
    destruct (Hopen b Hb) as (text & closer & Hl & H1 & _ & Hw & Hcl).
    exists (blk_keyword b), closer, text.
    unfold unmatchedError, unmatchedOpener. cbn [message type line].
    rewrite Hcl. cbn [or_undefined default].
    repeat split; try done. by apply block_closer_Some.
  - apply Hsweep in Hin. exfalso. revert Hin Hu.
    destruct d as [l m []]; unfold holds, sweepShape, isUnmatched; cbn [message type].
    + intros [H|H]%orb_true_iff; apply startsWith_inv in H as [s' ->]; by vm_compute.
    + intros H; apply startsWith_inv in H as [s' ->]; by vm_compute.
Qed.

Lemma unmatched_points_at_opener_witness :
  ∃ keyword closer text,
    (keyword, closer) ∈ BLOCK_KEYWORDS
    ∧ message (mkError 1 (unmatchedOpener (js "IF") (js "ENDIF")) error)
      = unmatchedOpener keyword closer
    ∧ type (mkError 1 (unmatchedOpener (js "IF") (js "ENDIF")) error) = error
    ∧ split_on 10 (js "IF TRUE THEN")
        !! (line (mkError 1 (unmatchedOpener (js "IF") (js "ENDIF")) error) - 1)
      = Some text
    ∧ 1 ≤ line (mkError 1 (unmatchedOpener (js "IF") (js "ENDIF")) error)
    ∧ firstWord text = Some keyword.
Proof.
  apply (unmatched_points_at_opener latinUpper latinLower (js "IF TRUE THEN")).
  - vm_compute. repeat constructor.
  - by vm_compute.
Defined.

(** ** A property of the diagnostics, phase by phase *)

Lemma notPrefix_prefixed pfx P d : notPrefix pfx d → prefixed pfx P d.
Proof. unfold notPrefix, prefixed. congruence. Qed.

Ltac other_leaf := apply grows_push; by vm_compute.

Ltac sweeps_keep leaf :=
  apply respects_run; [tc_solve|];
  repeat apply Forall_cons_2; [..|apply Forall_nil_2];
  unfold checkExtraClosers, checkLength, checkEmptyLoops;
  repeat respects_step leaf; try (cbv zeta; repeat respects_step leaf).

Ltac unmatched_grow :=
  apply Forall_fmap, Forall_true; intros ?; by vm_compute.

Section Phases.
Variables U L : jsstring → jsstring.

(** One rule of the line is looked at in the state it runs in, the others
    only for what they may push. *)
Lemma rules_grow_special (Q Q' : SyntaxError → Prop) i f
    (rules : list (State → State)) st :
  (∀ d, Q' d → Q d) →
  Forall (respects (grows Q')) (take i rules) →
  Forall (respects (grows Q')) (drop (S i) rules) →
  rules !! i = Some f →
  grows Q (run (take i rules) st) (f (run (take i rules) st)) →
  grows Q st (run rules st).
Proof.
  intros Hw Hpre Hpost Hi Hf.
  rewrite (run_split i rules), (drop_S _ _ _ Hi), run_cons.
  etrans; [|etrans; [exact Hf|]].
  - eapply grows_weaken; [exact Hw|]. exact (respects_run (grows Q') _ Hpre _).
  - eapply grows_weaken; [exact Hw|]. exact (respects_run (grows Q') _ Hpost _).
Qed.

Lemma stateBefore_skipped lines k text :
  lines !! k = Some text → skipped (trim text) = true →
  stateBefore U L lines (S k) = stateBefore U L lines k.
Proof.
  intros Hk Hs. rewrite (stateBefore_succ U L lines k text Hk).
  unfold processLine. by rewrite Hs.
Qed.

Lemma stateBefore_processed lines k text :
  lines !! k = Some text → skipped (trim text) = false →
  stateBefore U L lines (S k)
  = run (lineRules U L lines k text) (stateBefore U L lines k).
Proof.
  intros Hk Hs. rewrite (stateBefore_succ U L lines k text Hk).
  unfold processLine. by rewrite Hs.
Qed.

Lemma stateBefore_all lines k :
  length lines ≤ k → stateBefore U L lines k = linePass U L lines initial.
Proof. intros H. unfold stateBefore, linePass. by rewrite take_ge. Qed.

(** What holds of the diagnostics of each line holds of those of the pass. *)
Lemma linePass_by_line (Q : SyntaxError → Prop) lines :
  (∀ k text, lines !! k = Some text → skipped (trim text) = false →
     grows Q (stateBefore U L lines k)
       (run (lineRules U L lines k text) (stateBefore U L lines k))) →
  Forall Q (errs (linePass U L lines initial)).
Proof.
  intros H. rewrite <- (stateBefore_all lines (length lines)) by done.
  assert (Hall : ∀ k, k ≤ length lines → Forall Q (errs (stateBefore U L lines k))).
  { induction k as [|k IH]; intros Hk; [constructor|].
    destruct (lookup_lt_is_Some_2 lines k) as [text Ht]; [lia|].
    destruct (skipped (trim text)) eqn:Hs.
    - rewrite (stateBefore_skipped lines k text) by done. apply IH. lia.
    - rewrite (stateBefore_processed lines k text) by done.
      destruct (H k text Ht Hs) as (l & -> & Hl).
      apply Forall_app. split; [apply IH; lia|done]. }
  by apply Hall.
Qed.

(** The state in which rule [i] of line [k] runs. *)
Lemma final_by_parts (Q : SyntaxError → Prop) lines :
  Forall Q (errs (linePass U L lines initial)) →
  Forall Q (unmatchedError <$> blockStack (linePass U L lines initial)) →
  respects (grows Q)
    (run [checkExtraClosers lines; checkLength U L lines; checkEmptyLoops lines]) →
  Forall Q (errs (finalState U L lines)).
Proof.
  intros Hl Hu Hs. unfold finalState.
  rewrite (run_split 2). cbn [take drop].
  destruct (Hs (run [linePass U L lines; checkUnmatched] initial))
    as (rest & -> & Hrest).
  unfold run at 1. cbn [foldl]. rewrite checkUnmatched_errs.
  rewrite !Forall_app. done.
Qed.

End Phases.

(** ** Closing words against the open block *)

Lemma grows_errs Q st st' : errs st' = errs st → grows Q st st'.
Proof. intros H. exists []. by rewrite app_nil_r. Qed.

Lemma grows_push_at (Q : SyntaxError → Prop) l m t st :
  Q (mkError l m t) → grows Q st (push l m t st).
Proof. intros H. by apply grows_push. Qed.

Lemma last_elem_of {A} (l : list A) x : last l = Some x → x ∈ l.
Proof.
  intros H. apply last_Some in H as [l' ->].
  apply elem_of_app. right. by apply list_elem_of_singleton.
Qed.

Lemma isClosingWord_false_closeBlock n w st :
  isClosingWord w = false → closeBlock n w st = st.
Proof. unfold isClosingWord, closeBlock, when. by intros ->. Qed.

(** The first-word check on a closing word met with a block open. *)
Lemma checkFirstWord_closing n w ws st b expected :
  isClosingWord w = true → last (blockStack st) = Some b →
  block_closer (blk_keyword b) = Some expected →
  checkFirstWord n (w :: ws) st
  = when (negb (bool_decide (w = expected)))
      (push n (expectedCloser expected w) error)
      (set_blockStack (removelast (blockStack st)) st).
Proof.
  intros Hc Hb He.
  destruct (closing_word_facts w Hc) as (Htest & Hmem & Hopen & _).
  unfold checkFirstWord, when at 1. rewrite Htest.
  unfold run. cbn [foldl]. rewrite Hmem, Hopen.
  rewrite bool_decide_eq_false_2 by (by intros [? ?]).
  cbn [negb andb when]. unfold closeBlock, when at 1.
  unfold isClosingWord in Hc. rewrite Hc, Hb, He. cbn [or_undefined default].
  case_bool_decide as Heq.
  - injection Heq as ->. rewrite bool_decide_eq_true_2 by done. done.
  - rewrite bool_decide_eq_false_2 by congruence. cbn [negb andb].
    assert (str_eqb (blk_keyword b) (js "FOR") && str_eqb w (js "NEXT") = false) as ->.
    { apply not_true_iff_false. intros [H1 H2]%andb_true_iff.
      apply str_eqb_eq in H1, H2. rewrite H1 in He. apply Heq. subst w.
      vm_compute in He. injection He as <-. by vm_compute. }
    assert (str_eqb (blk_keyword b) (js "REPEAT") && str_eqb w (js "UNTIL") = false) as ->.
    { apply not_true_iff_false. intros [H1 H2]%andb_true_iff.
      apply str_eqb_eq in H1, H2. rewrite H1 in He. apply Heq. subst w.
      vm_compute in He. injection He as <-. by vm_compute. }
    done.
Qed.

Lemma checkFirstWord_expected n words st :
  Forall (λ b, is_Some (block_closer (blk_keyword b))) (blockStack st) →
  grows (prefixed (js "Expected ") (mismatch n words (blockStack st))) st
    (checkFirstWord n words st).
Proof.
  intros Hst. destruct words as [|w ws]; [reflexivity|].
  destruct (isClosingWord w) eqn:Hc.
  - destruct (last (blockStack st)) as [b|] eqn:Hb.
    + rewrite Forall_forall in Hst.
      destruct (Hst b (last_elem_of _ _ Hb)) as [expected He].
      rewrite (checkFirstWord_closing n w ws st b expected) by done.
      unfold when. case_bool_decide as Heq; cbn [negb].
      * by apply grows_errs.
      * etrans; [apply (grows_errs _ _ (set_blockStack (removelast (blockStack st)) st)); done|].
        apply grows_push_at. intros _. by exists w, ws, b, expected.
    + exists [mkError n (unexpectedCloser w) error]. split.
      * apply checkFirstWord_unexpected; [done|]. by apply last_None.
      * constructor; [|constructor]. intros H. by vm_compute in H.
  - unfold checkFirstWord, when at 1. destruct (test _ _); [|reflexivity].
    unfold run. cbn [foldl]. rewrite isClosingWord_false_closeBlock by done.
    unfold when. destruct (_ && _).
    + destruct (bool_decide _).
      * etrans; [|by apply grows_errs].
        apply grows_push_at. intros H. by vm_compute in H.
      * apply grows_push_at. intros H. by vm_compute in H.
    + destruct (bool_decide _); [by apply grows_errs | reflexivity].
Qed.

Ltac prefixed_leaf :=
  apply grows_push; let H := fresh in intros H; by vm_compute in H.
Ltac notPrefix_leaf := apply grows_push; by vm_compute.

Section Closers.
Variables U L : jsstring → jsstring.

Lemma lineRules_notExpected lines k text :
  Forall (respects (grows (notPrefix (js "Expected "))))
    (take 4 (lineRules U L lines k text))
  ∧ Forall (respects (grows (notPrefix (js "Expected "))))
      (drop 5 (lineRules U L lines k text)).
Proof.
  unfold lineRules. cbv zeta. cbn [take drop]. split.
  all: repeat apply Forall_cons_2; [..|apply Forall_nil_2].
  all: unfold_all_rules; cbv zeta.
  all: repeat respects_step ltac:(first [quiet_leaf | notPrefix_leaf]).
  all: try (cbv zeta; repeat respects_step ltac:(first [quiet_leaf | notPrefix_leaf])).
Qed.

Lemma stack_at_firstWord lines k text :
  blockStack (run (take 4 (lineRules U L lines k text)) (stateBefore U L lines k))
  = blockStack (stateBefore U L lines k).
Proof.
  destruct (lineRules_same_blockStack U L lines k text) as [Hpre _].
  apply (respects_run (same blockStack) _ Hpre).
Qed.

Lemma finalState_expected lines :
  Forall (prefixed (js "Expected ") (mismatchAt U L lines))
    (errs (finalState U L lines)).
Proof.
  apply final_by_parts.
  - apply linePass_by_line. intros k text Hk Hs.
    destruct (lineRules_notExpected lines k text) as [Hpre Hpost].
    apply (rules_grow_special _ (notPrefix (js "Expected ")) 4
             (checkFirstWord (k + 1) (split_re re_spaces (trim text))));
      [apply notPrefix_prefixed|done|done|done|].
    eapply grows_weaken; [|apply checkFirstWord_expected].
    + intros d Hd Hp. exists k, text. split; [done|]. split; [done|].
      rewrite <- (stack_at_firstWord lines k text). by apply Hd.
    + rewrite stack_at_firstWord.
      eapply Forall_impl; [apply stateBefore_opens|].
      intros b (_ & c & _ & _ & _ & _ & Hc). by exists c.
  - apply Forall_fmap, Forall_true. intros b H. by vm_compute in H.
  - sweeps_keep prefixed_leaf.
Qed.

End Closers.

Lemma firstWord_words text w :
  firstWord text = Some w → ∃ ws, split_re re_spaces (trim text) = w :: ws.
Proof.
  unfold firstWord. destruct (split_re _ _) as [|w0 ws]; [done|].
  intros [= ->]. by exists ws.
Qed.

(** X3. A line that starts with a closing word while a block is open pops the
    innermost block, whatever the word.  When the word is not the closer of
    that block the line gets the error that names both; when it is, no
    diagnostic of that form sits on the line. *)
Theorem closer_checked_against_open_block (U L : jsstring → jsstring)
    (code : jsstring) (k : nat) (text w : jsstring) (b : Block) :
  let lines := split_on 10 code in
  let r := checkSyntax U L code in
  lines !! k = Some text → firstWord text = Some w → isClosingWord w = true →
  last (blockStack (stateBefore U L lines k)) = Some b →
  ∃ expected,
    (blk_keyword b, expected) ∈ BLOCK_KEYWORDS
    ∧ blockStack (stateBefore U L lines (S k))
      = removelast (blockStack (stateBefore U L lines k))
    ∧ (w ≠ expected →
       mkError (k + 1) (expectedCloser expected w) error ∈ errors r)
    ∧ (w = expected →
       ∀ d, d ∈ errors r → line d = k + 1 →
            startsWith (js "Expected ") (message d) = false).
Proof.
  intros lines r Hk Hw Hc Hb.
  destruct (closing_line text w Hw Hc) as (Hs & ws & Hws).
  pose proof (stateBefore_opens U L lines k) as Hopen.
  rewrite Forall_forall in Hopen.
  destruct (Hopen b (last_elem_of _ _ Hb)) as (_ & expected & _ & _ & _ & _ & He).
  exists expected. split; [by apply block_closer_Some|].
  assert (Hcontent : existsb hasContent lines = true) by (by eapply lookup_hasContent).
  set (st4 := run (take 4 (lineRules U L lines k text)) (stateBefore U L lines k)).
  assert (Hst4 : blockStack st4 = blockStack (stateBefore U L lines k))
    by apply stack_at_firstWord.
  assert (Hrule : checkFirstWord (k + 1) (split_re re_spaces (trim text)) st4
    = when (negb (bool_decide (w = expected)))
        (push (k + 1) (expectedCloser expected w) error)
        (set_blockStack (removelast (blockStack st4)) st4)).
  { rewrite Hws. apply (checkFirstWord_closing _ _ _ _ b); [done| |done].
    by rewrite Hst4. }
  split; [|split].
  - rewrite (stateBefore_processed U L lines k text Hk Hs).
    rewrite (run_split 4).
    change (drop 4 (lineRules U L lines k text))
      with (checkFirstWord (k + 1) (split_re re_spaces (trim text))
            :: drop 5 (lineRules U L lines k text)).
    rewrite run_cons. fold st4.
    destruct (lineRules_same_blockStack U L lines k text) as [_ Hpost].
    rewrite (respects_run (same blockStack) _ Hpost _).
    rewrite Hrule, <- Hst4. unfold when. by destruct (negb _).
  - intros Hne.
    destruct (reported_error U L code (k + 1) (expectedCloser expected w))
      as ([l m t] & Hd & Hl & Hm & Ht); [done| |by vm_compute|].
    + apply (rule_reaches U L lines k text 4
               (checkFirstWord (k + 1) (split_re re_spaces (trim text))));
        [done|done|done|].
      fold st4. rewrite Hrule, bool_decide_eq_false_2 by done.
      cbn [negb when push errs set_blockStack].
      apply elem_of_app. right. by apply list_elem_of_singleton.
    + cbn [line message type] in Hl, Hm, Ht. by subst.
  - intros Heq d Hd Hl. apply not_true_iff_false. intros Hp.
    pose proof (finalState_expected U L lines) as Hprov.
    rewrite Forall_forall in Hprov.
    destruct (Hprov d) as (k' & text' & Hk' & _ & Hmis); [|done|].
    { unfold r in Hd. rewrite (checkSyntax_content U L code Hcontent) in Hd.
      cbn [errors] in Hd.
      eapply sublist_subseteq; [apply deduplicate_sublist | done]. }
    destruct Hmis as (w' & ws' & b' & e' & Hws' & _ & Hb' & He' & Hne & ->).
    cbn [line] in Hl. assert (k' = k) as -> by lia.
    rewrite Hk in Hk'. injection Hk' as <-.
    rewrite Hws in Hws'. injection Hws' as <- <-.
    rewrite Hb in Hb'. injection Hb' as <-.
    rewrite He in He'. injection He' as <-. done.
Qed.

Lemma closer_checked_against_open_block_witness :
  ∃ expected,
    (blk_keyword (mkBlock (js "WHILE") 1), expected) ∈ BLOCK_KEYWORDS
    ∧ blockStack (stateBefore latinUpper latinLower
                    (split_on 10 example_unclosed_while) 2)
      = removelast (blockStack (stateBefore latinUpper latinLower
                                  (split_on 10 example_unclosed_while) 1))
    ∧ (js "ENDIF" ≠ expected →
       mkError (1 + 1) (expectedCloser expected (js "ENDIF")) error
       ∈ errors (check example_unclosed_while))
    ∧ (js "ENDIF" = expected →
       ∀ d, d ∈ errors (check example_unclosed_while) → line d = 1 + 1 →
            startsWith (js "Expected ") (message d) = false).
Proof.
  apply (closer_checked_against_open_block latinUpper latinLower
           example_unclosed_while 1 (js "ENDIF") (js "ENDIF")
           (mkBlock (js "WHILE") 1)); by vm_compute.
Defined.

(** ** Rules that never fire *)

(** *** Anchored patterns *)

Lemma search_bol r idx c rest :
  search (Seq Bol r) idx (Some c) rest = None.
Proof.
  revert idx c. induction rest as [|x t IH]; intros idx c; [done|].
  cbn [search rmatch ms_prev]. apply IH.
Qed.

Lemma exec_bol r s :
  exec (Seq Bol r) s
  = (λ e, mkMatch 0 (take (length s - length (ms_rest e)) s) e)
    <$> rmatch r Some (mkMState None s []).
Proof.
  unfold exec. destruct s as [|c t]; cbn [search rmatch ms_prev].
  - by destruct (rmatch r Some _).
  - destruct (rmatch r Some _); [done|]. apply search_bol.
Qed.

Lemma test_bol r s :
  test (Seq Bol r) s = true ↔ is_Some (rmatch r Some (mkMState None s [])).
Proof.
  unfold test. rewrite bool_decide_eq_true, exec_bol.
  by rewrite fmap_is_Some.
Qed.

(** What a greedy iteration of a class has consumed is a run of the class. *)
Lemma star_chr_inv p k xs res :
  ∀ prev caps,
    rmatch (Star true (Chr p)) k (mkMState prev xs caps) = Some res →
    ∃ a b, xs = a ++ b ∧ Forall (λ c, p c = true) a
           ∧ k (mkMState (after prev a) b caps) = Some res.
Proof.
  induction xs as [|x xs IH]; intros prev caps H.
  - rewrite star_chr_nil in H. by exists [], [].
  - rewrite star_chr_cons in H. destruct (p x) eqn:Hx.
    + destruct (rmatch _ _ _) as [y|] eqn:Hy.
      * injection H as <-. apply IH in Hy as (a & b & -> & Ha & Hk).
        exists (x :: a), b. split; [done|]. split; [by constructor|done].
      * by exists [], (x :: xs).
    + by exists [], (x :: xs).
Qed.

Lemma star_chr_all p k xs caps res prev :
  Forall (λ c, p c = true) xs →
  k (mkMState (after prev xs) [] caps) = Some res →
  rmatch (Star true (Chr p)) k (mkMState prev xs caps) = Some res.
Proof.
  intros Hxs Hk. rewrite <- (app_nil_r xs). by apply star_chr_run.
Qed.

Lemma rmatch_eol k prev rest caps :
  rmatch Eol k (mkMState prev rest caps)
  = match rest with [] => k (mkMState prev [] caps) | _ :: _ => None end.
Proof. by destruct rest. Qed.

(** [^[A-Z]+$] *)
Lemma upper_word_inv w :
  test re_upper_word w = true →
  ∃ c t, w = c :: t ∧ isUpper c = true ∧ Forall (λ c, isUpper c = true) t.
Proof.
  intros [res H]%test_bol.
  change (rmatch _ _ _) with
    (rmatch (Chr isUpper)
       (rmatch (Star true (Chr isUpper)) (rmatch Eol Some))
       (mkMState None w [])) in H.
  destruct w as [|c t]; [done|]. rewrite rmatch_chr_cons in H.
  destruct (isUpper c) eqn:Hc; [|done].
  apply star_chr_inv in H as (a & b & -> & Ha & H).
  rewrite rmatch_eol in H. destruct b; [|done]. rewrite app_nil_r.
  by exists c, a.
Qed.

(** A word of capitals is an identifier of capitals: the second test of the
    first-word check cannot fail where the first has passed. *)
Lemma upper_word_identifier w :
  test re_upper_word w = true → test re_upper_identifier w = true.
Proof.
  intros (c & t & -> & Hc & Ht)%upper_word_inv.
  apply test_bol. exists (mkMState (after (Some c) t) [] []).
  change (rmatch _ _ _) with
    (rmatch (Chr isUpper)
       (rmatch (Star true (Chr (λ c, isUpper c || isDigit c || (c =? 95)%N)))
          (rmatch Eol Some))
       (mkMState None (c :: t) [])).
  rewrite rmatch_chr_cons, Hc.
  apply star_chr_all; [|reflexivity].
  eapply Forall_impl; [exact Ht|]. cbv beta. by intros x ->.
Qed.

Lemma includes_start (p s : jsstring) :
  startsWith p s = true → includes p s = true.
Proof. intros H. destruct s; simpl; by rewrite H. Qed.

Lemma includes_app (p a s : jsstring) : includes p (a ++ p ++ s) = true.
Proof.
  induction a as [|x a IH]; cbn [app].
  - apply includes_start, startsWith_app.
  - cbn [includes]. rewrite IH. apply orb_true_r.
Qed.

Lemma case_of_includes_of t :
  startsWith (js "CASE OF") t = true → includes (js "OF") t = true.
Proof.
  intros [s' ->]%startsWith_inv.
  change (js "CASE OF" ++ s') with (js "CASE " ++ js "OF" ++ s').
  apply includes_app.
Qed.

Ltac differs_leaf :=
  apply grows_push; let H := fresh in intros H; vm_compute in H; discriminate H.

Section DeadRules.
Variables U L : jsstring → jsstring.

Lemma lineRules_no_caseFormat lines k text :
  Forall (respects (grows (λ d, message d ≠ caseFormat)))
    (lineRules U L lines k text).
Proof.
  rules_grow ltac:(first
    [ differs_leaf
    | match goal with
      | H1 : startsWith (js "CASE OF") _ = true,
        H2 : negb (includes (js "OF") _) = true |- _ =>
        apply case_of_includes_of in H1; rewrite H1 in H2; discriminate H2
      end ]).
Qed.

Lemma lineRules_no_unknown lines k text :
  Forall (respects (grows (notPrefix (js "Unknown keyword: "))))
    (lineRules U L lines k text).
Proof.
  rules_grow ltac:(first
    [ notPrefix_leaf
    | match goal with
      | H1 : test re_upper_word _ = true,
        H2 : negb (mem _ KEYWORDS) && negb (test re_upper_identifier _) = true
        |- _ =>
        apply upper_word_identifier in H1; rewrite H1, andb_false_r in H2;
        discriminate H2
      end ]).
Qed.

Lemma finalState_no_caseFormat lines :
  Forall (λ d, message d ≠ caseFormat) (errs (finalState U L lines)).
Proof.
  apply final_by_parts.
  - apply linePass_by_line. intros k text Hk Hs.
    exact (respects_run _ _ (lineRules_no_caseFormat lines k text) _).
  - apply Forall_fmap, Forall_true. intros b H. vm_compute in H. discriminate H.
  - sweeps_keep differs_leaf.
Qed.

Lemma finalState_no_unknown lines :
  Forall (notPrefix (js "Unknown keyword: ")) (errs (finalState U L lines)).
Proof.
  apply final_by_parts.
  - apply linePass_by_line. intros k text Hk Hs.
    exact (respects_run _ _ (lineRules_no_unknown lines k text) _).
  - apply Forall_fmap, Forall_true. intros b. by vm_compute.
  - sweeps_keep notPrefix_leaf.
Qed.

End DeadRules.

Lemma in_result U L code d (Q : SyntaxError → Prop) :
  Q noContentError →
  Forall Q (errs (finalState U L (split_on 10 code))) →
  d ∈ errors (checkSyntax U L code) → Q d.
Proof.
  intros Hn Hf. unfold checkSyntax. cbv zeta.
  destruct (existsb hasContent (split_on 10 code)); cbn [negb errors].
  - intros Hd. rewrite Forall_forall in Hf. apply Hf.
    eapply sublist_subseteq; [apply deduplicate_sublist | done].
  - by intros ->%list_elem_of_singleton.
Qed.

(** X4. The diagnostic on the format of CASE is never produced: its rule asks
    for a line that starts with CASE OF and does not contain OF. *)
Theorem case_format_never_reported (U L : jsstring → jsstring)
    (code : jsstring) :
  Forall (λ d, message d ≠ caseFormat) (errors (checkSyntax U L code)).
Proof.
  apply Forall_forall. intros d.
  apply (in_result U L code d (λ d, message d ≠ caseFormat)).
  - intros H. vm_compute in H. discriminate H.
  - apply finalState_no_caseFormat.
Qed.

(** X5. No diagnostic for an unknown keyword is ever produced: a first word
    made of capital letters passes the test on identifiers that the rule
    applies to the words outside the list of keywords. *)
Theorem unknown_keyword_never_reported (U L : jsstring → jsstring)
    (code : jsstring) :
  Forall (λ d, startsWith (js "Unknown keyword: ") (message d) = false)
    (errors (checkSyntax U L code)).
Proof.
  apply Forall_forall. intros d.
  apply (in_result U L code d (notPrefix (js "Unknown keyword: "))).
  - by vm_compute.
  - apply finalState_no_unknown.
Qed.

(** ** Warnings *)

Global Instance keeping_preorder I Q : PreOrder (keeping I Q).
Proof.
  split.
  - intros st HI. split; [done|reflexivity].
  - intros a b c H1 H2 HI.
    destruct (H1 HI) as [Hb Hg1]. destruct (H2 Hb) as [Hc Hg2].
    split; [done|]. by etrans.
Qed.

Lemma tablesOK_mono n m st : n ≤ m → tablesOK n st → tablesOK m st.
Proof.
  intros Hnm [H1 H2]. split; [done|].
  intros v info Hv. destruct (H2 v info Hv). lia.
Qed.

Lemma tablesOK_declare n name ty st :
  1 ≤ n → tablesOK n st → tablesOK n (declare name (mkVarInfo ty n) st).
Proof.
  intros Hn [H1 H2]. split; cbn [declare declaredVariables variableTypes].
  - intros v. rewrite elem_of_union, elem_of_singleton, H1.
    destruct (decide (v = name)) as [->|Hne].
    + rewrite lookup_insert_eq. split; [by eexists|by left].
    + rewrite lookup_insert_ne by done. split; [intros [?|?]; done|by right].
  - intros v info. destruct (decide (v = name)) as [->|Hne].
    + rewrite lookup_insert_eq. intros [= <-]. simpl. lia.
    + rewrite lookup_insert_ne by done. apply H2.
Qed.

Lemma keeping_quiet (I : State → Prop) Q f :
  (∀ st, I st → I (f st)) → (∀ st, errs (f st) = errs st) →
  respects (keeping I Q) f.
Proof. intros HI He st Hst. split; [by apply HI|]. by apply grows_errs. Qed.

Lemma keeping_push (I : State → Prop) (Q : SyntaxError → Prop) l m t st :
  (I st → I (push l m t st)) → (I st → Q (mkError l m t)) →
  keeping I Q st (push l m t st).
Proof. intros HI HQ Hst. split; [by apply HI|]. by apply grows_push_at, HQ. Qed.

Lemma keeping_apply I Q (P : State → Prop) f st :
  (I st → keeping I Q st (f st)) → keeping I Q st (f st).
Proof. intros H HI. by apply H. Qed.

Lemma lineWarning_indentation n :
  lineWarning n
    (mkError n (js "Indentation should be multiples of 3 spaces") warning).
Proof. intros _. split; [done|]. left. by vm_compute. Qed.

Lemma lineWarning_already n v x pt st :
  nonempty x && test re_name_whole x = true →
  tablesOK n st → variableTypes st !! v = Some pt →
  lineWarning n
    (mkError n
       (js "Variable '" ++ x ++ js "' already declared on line "
        ++ (if var_line pt =? 0 then js "unknown" else decimal_nat (var_line pt)))
       warning).
Proof.
  intros Hx [_ H] Hv _. destruct (H v pt Hv) as [H1 H2].
  split; [done|]. right. exists x, (var_line pt).
  destruct (Nat.eqb_spec (var_line pt) 0); [lia|]. done.
Qed.

Lemma declared_has_type n v st :
  tablesOK n st → bool_decide (v ∈ declaredVariables st) = true →
  variableTypes st !! v = None → False.
Proof.
  intros [H _] Hd%bool_decide_eq_true Hv. apply H in Hd as [? Hd]. congruence.
Qed.

Section Warnings.
Variables U L : jsstring → jsstring.

Ltac tables_leaf := idtac;
  lazymatch goal with
  | |- respects (keeping _ _) (push _ _ error) =>
    intros ?; apply keeping_push; [done | intros _ [=]]
  | |- respects (keeping _ _) (push _ _ warning) =>
    intros ?; apply keeping_push;
    [done | intros _; exact (lineWarning_indentation _)]
  | |- keeping _ _ ?st (push _ _ warning ?st) =>
    apply keeping_push;
    [ done
    | let HI := fresh in
      intros HI;
      lazymatch goal with
      | _ : variableTypes _ !! _ = None |- _ =>
        exfalso; eapply declared_has_type; eassumption
      | _ : variableTypes _ !! _ = Some _ |- _ =>
        eapply lineWarning_already; eassumption
      end ]
  | |- respects (keeping _ _) (set_blockStack _) => by apply keeping_quiet
  | |- respects (keeping _ _) (set_array _ _) => by apply keeping_quiet
  | |- respects (keeping _ _) (add_function _) => by apply keeping_quiet
  | |- respects (keeping _ _) (declare _ _) =>
    apply keeping_quiet; [intros ?; apply tablesOK_declare; lia | done]
  | |- keeping _ _ ?st (push _ _ error ?st) =>
    apply keeping_push; [done | intros _ [=]]
  | |- keeping _ _ ?st (declare _ _ ?st) =>
    apply keeping_quiet; [intros ?; apply tablesOK_declare; lia | done]
  end.

Lemma lineRules_tables lines k text :
  Forall (respects (keeping (tablesOK (k + 1)) (lineWarning (k + 1))))
    (lineRules U L lines k text).
Proof.
  unfold lineRules; cbv zeta.
  repeat apply Forall_cons_2; [..|apply Forall_nil_2].
  all: unfold_all_rules; cbv zeta.
  all: repeat respects_step tables_leaf.
  all: try (cbv zeta; repeat respects_step tables_leaf).
Qed.

Lemma linePass_keeping (I : nat → State → Prop) (Q : SyntaxError → Prop) lines :
  I 0 initial → (∀ k st, I k st → I (k + 1) st) →
  (∀ k text, lines !! k = Some text → skipped (trim text) = false →
     keeping (I (k + 1)) Q (stateBefore U L lines k)
       (run (lineRules U L lines k text) (stateBefore U L lines k))) →
  ∀ k, k ≤ length lines →
       I k (stateBefore U L lines k) ∧ Forall Q (errs (stateBefore U L lines k)).
Proof.
  intros H0 Hmono Hline.
  induction k as [|k IH]; intros Hk; [split; [done|constructor]|].
  destruct IH as [HI HQ]; [lia|].
  destruct (lookup_lt_is_Some_2 lines k) as [text Ht]; [lia|].
  rewrite <- Nat.add_1_r.
  destruct (skipped (trim text)) eqn:Hs.
  - rewrite Nat.add_1_r, (stateBefore_skipped U L lines k text) by done.
    rewrite <- Nat.add_1_r. split; [by apply Hmono|done].
  - rewrite Nat.add_1_r at 2 3.
    rewrite (stateBefore_processed U L lines k text) by done.
    destruct (Hline k text Ht Hs (Hmono _ _ HI)) as [HI' (l & -> & Hl)].
    split; [done|]. apply Forall_app. done.
Qed.

Lemma tablesOK_initial : tablesOK 0 initial.
Proof.
  split; cbn.
  - intros v. rewrite lookup_empty. split; [set_solver|by intros [? ?]].
  - intros v info. by rewrite lookup_empty.
Qed.

Lemma lineWarning_known n d : lineWarning n d → knownWarning d.
Proof.
  intros H Ht. destruct (H Ht) as [Hl [Hm|(v & m & Hm & Hv & H1 & H2)]].
  - by left.
  - right. right. exists v, m. split; [done|]. split; [done|]. lia.
Qed.

Lemma stateBefore_tables lines k :
  k ≤ length lines →
  tablesOK k (stateBefore U L lines k)
  ∧ Forall knownWarning (errs (stateBefore U L lines k)).
Proof.
  apply (linePass_keeping tablesOK knownWarning).
  - apply tablesOK_initial.
  - intros k' st. apply tablesOK_mono. lia.
  - intros k' text Hk Hs HI.
    destruct (respects_run (keeping (tablesOK (k' + 1)) (lineWarning (k' + 1))) _
                (lineRules_tables lines k' text) _ HI) as [HI' Hg].
    split; [done|]. eapply grows_weaken; [|exact Hg]. apply lineWarning_known.
Qed.

Lemma finalState_knownWarning lines :
  Forall knownWarning (errs (finalState U L lines)).
Proof.
  apply final_by_parts.
  - rewrite <- (stateBefore_all U L lines (length lines)) by done.
    by apply stateBefore_tables.
  - apply Forall_fmap, Forall_true. by intros b [=].
  - sweeps_keep ltac:(first
      [ apply grows_push; by intros [=]
      | apply grows_push; intros _; right; left; by vm_compute ]).
Qed.

End Warnings.

(** X6. The warnings of a result are of three kinds: indentation, an empty
    FOR body, and a variable declared again with the type it has.  The last
    names a well-formed variable and, by its number, a line that is not
    after the line of the warning: the fallback text for a missing line
    number is never used. *)
Theorem warnings_are_of_three_kinds (U L : jsstring → jsstring)
    (code : jsstring) (d : SyntaxError) :
  d ∈ errors (checkSyntax U L code) → type d = warning →
  message d = indentation ∨ message d = emptyLoopBody
  ∨ ∃ v n, message d = alreadyDeclared v n ∧ isVariableName v = true
           ∧ 1 ≤ n ∧ n ≤ line d.
Proof.
  apply (in_result U L code d knownWarning).
  - by intros [=].
  - apply finalState_knownWarning.
Qed.

Lemma warnings_are_of_three_kinds_witness :
  message (mkError 2 (alreadyDeclared (js "x") 1) warning) = indentation
  ∨ message (mkError 2 (alreadyDeclared (js "x") 1) warning) = emptyLoopBody
  ∨ ∃ v n, message (mkError 2 (alreadyDeclared (js "x") 1) warning)
             = alreadyDeclared v n
           ∧ isVariableName v = true ∧ 1 ≤ n
           ∧ n ≤ line (mkError 2 (alreadyDeclared (js "x") 1) warning).
Proof.
  apply (warnings_are_of_three_kinds latinUpper latinLower
           example_declared_twice).
  - vm_compute. repeat constructor.
  - reflexivity.
Defined.

(** ** Indentation and ENDFOR *)

Lemma later_endfor_first lines k text j :
  lines !! k = Some text → skipped (trim text) = false →
  startsWith (js "FOR") (trim text) = true →
  findIndex (λ idx l, (k <? idx) && startsWith (js "ENDFOR") (trim l)) 0 lines
  = Some j →
  firstEndforAfter lines k j.
Proof.
  intros Hk Hs Hfor (_ & (l & Hl & Hp) & Hfirst)%findIndex_Some.
  rewrite Nat.sub_0_r in Hl. apply andb_true_iff in Hp as [Hlt Hp].
  apply Nat.ltb_lt in Hlt. exists text, l. repeat split; try done.
  intros i t Hki Hij Hi.
  specialize (Hfirst i t ltac:(lia) Hij). rewrite Nat.sub_0_r in Hfirst.
  specialize (Hfirst Hi). apply andb_false_iff in Hfirst as [H|H]; [|done].
  apply Nat.ltb_ge in H. lia.
Qed.

Lemma findIndex_first p ls j l :
  ls !! j = Some l → p j l = true →
  (∀ i t, i < j → ls !! i = Some t → p i t = false) →
  findIndex p 0 ls = Some j.
Proof.
  assert (G : ∀ ls i j l, ls !! j = Some l → p (i + j) l = true →
            (∀ i' t, i' < j → ls !! i' = Some t → p (i + i') t = false) →
            findIndex p i ls = Some (i + j)).
  { clear. induction ls as [|x ls IH]; intros i j l Hj Hp Hfirst; [done|].
    destruct j as [|j]; simpl in Hj.
    - injection Hj as ->. simpl. rewrite Nat.add_0_r in *. by rewrite Hp.
    - simpl. specialize (Hfirst 0 x ltac:(lia) eq_refl) as Hx.
      rewrite Nat.add_0_r in Hx. rewrite Hx.
      rewrite <- Nat.add_succ_comm. apply (IH (S i) j l); [done| |].
      + by rewrite Nat.add_succ_comm.
      + intros i' t Hi' Ht. rewrite Nat.add_succ_comm.
        apply Hfirst; [lia|done]. }
  intros. by apply (G ls 0 j l).
Qed.

Section Indentation.
Variables U L : jsstring → jsstring.

Lemma lineRules_indentation lines k text :
  lines !! k = Some text → skipped (trim text) = false →
  Forall (respects (grows (λ d, message d = indentation → badIndentation lines d)))
    (lineRules U L lines k text).
Proof.
  intros Hk Hs.
  rules_grow ltac:(first
    [ differs_leaf
    | apply grows_push; intros _; split; [done|]; exists k, text;
      split; [done|]; split; [done|];
      match goal with
      | H : negb (_ mod 3 =? 0) = true |- _ =>
        apply negb_true_iff, Nat.eqb_neq in H; exact H
      end ]).
Qed.

Lemma finalState_indentation lines :
  Forall (λ d, message d = indentation → badIndentation lines d)
    (errs (finalState U L lines)).
Proof.
  apply final_by_parts.
  - apply linePass_by_line. intros k text Hk Hs.
    exact (respects_run _ _ (lineRules_indentation lines k text Hk Hs) _).
  - apply Forall_fmap, Forall_true. intros b H. vm_compute in H. discriminate H.
  - sweeps_keep differs_leaf.
Qed.

Lemma lineRules_endfor lines k text :
  lines !! k = Some text → skipped (trim text) = false →
  Forall (respects (grows (λ d, message d = endforMessage → endforAt lines d)))
    (lineRules U L lines k text).
Proof.
  intros Hk Hs.
  rules_grow ltac:(first
    [ differs_leaf
    | apply grows_push; intros _; split; [done|];
      match goal with
      | H : startsWith (js "FOR") _ && _ = true,
        H' : findIndex _ 0 _ = Some ?j |- _ =>
        apply andb_true_iff in H as [H _];
        exists k, j; split; [done|]; by apply (later_endfor_first lines k text j)
      end ]).
Qed.

Lemma finalState_endfor lines :
  Forall (λ d, message d = endforMessage → endforAt lines d)
    (errs (finalState U L lines)).
Proof.
  apply final_by_parts.
  - apply linePass_by_line. intros k text Hk Hs.
    exact (respects_run _ _ (lineRules_endfor lines k text Hk Hs) _).
  - apply Forall_fmap, Forall_true. intros b H. vm_compute in H. discriminate H.
  - sweeps_keep differs_leaf.
Qed.

End Indentation.

(** A diagnostic of the final state whose type is settled by its message. *)
Lemma reported_typed U L code l m t :
  existsb hasContent (split_on 10 code) = true →
  mkError l m t ∈ errs (finalState U L (split_on 10 code)) →
  (∀ d, d ∈ errs (finalState U L (split_on 10 code)) → message d = m → type d = t) →
  mkError l m t ∈ errors (checkSyntax U L code).
Proof.
  intros Hc He Ht. rewrite (checkSyntax_content U L code Hc). cbn [errors].
  destruct (deduplicate_complete _ _ He) as ([l' m' t'] & He' & Hl & Hm).
  cbn [line message] in Hl, Hm. subst l' m'.
  assert (t' = t) as ->; [|done].
  apply (Ht (mkError l m t')); [|done].
  eapply sublist_subseteq; [apply deduplicate_sublist | done].
Qed.

Lemma result_in_final U L code d :
  existsb hasContent (split_on 10 code) = true →
  d ∈ errors (checkSyntax U L code) →
  d ∈ errs (finalState U L (split_on 10 code)).
Proof.
  intros Hc. rewrite (checkSyntax_content U L code Hc). cbn [errors].
  intros Hd. eapply sublist_subseteq; [apply deduplicate_sublist | done].
Qed.

(** X7. A line that is neither blank nor a comment gets the indentation
    warning exactly when the number of its leading white-space units is not
    a multiple of 3, and the message is never reported as an error. *)
Theorem indentation_warning_iff (U L : jsstring → jsstring) (code : jsstring)
    (k : nat) (text : jsstring) :
  let r := checkSyntax U L code in
  split_on 10 code !! k = Some text → skipped (trim text) = false →
  (mkError (k + 1) indentation warning ∈ errors r
   ↔ leadingSpaces text mod 3 ≠ 0)
  ∧ (∀ d, d ∈ errors r → message d = indentation → type d = warning).
Proof.
  intros r Hk Hs.
  assert (Hc : existsb hasContent (split_on 10 code) = true)
    by (by eapply lookup_hasContent).
  pose proof (finalState_indentation U L (split_on 10 code)) as Hprov.
  rewrite Forall_forall in Hprov.
  split; [split|].
  - intros Hd. apply (result_in_final U L code _ Hc) in Hd.
    destruct (Hprov _ Hd) as (_ & k' & text' & Hk' & Hl & Hbad); [done|].
    cbn [line] in Hl. assert (k' = k) as -> by lia. congruence.
  - intros Hbad. apply (reported_typed U L code); [done| |].
    + apply (rule_reaches U L (split_on 10 code) k text 0
               (checkIndentation (k + 1) text)); [done|done|done|].
      cbn [take run foldl]. unfold checkIndentation. cbv zeta.
      fold (leadingSpaces text).
      apply Nat.eqb_neq in Hbad. rewrite Hbad. cbn [negb when push errs].
      apply elem_of_app. right. apply list_elem_of_singleton.
      f_equal.
    + intros d Hd Hm. by destruct (Hprov d Hd Hm).
  - intros d Hd Hm. apply (result_in_final U L code _ Hc) in Hd.
    by destruct (Hprov d Hd Hm).
Qed.

Lemma indentation_warning_iff_witness :
  (mkError (1 + 1) indentation warning ∈ errors (check example_indented)
   ↔ leadingSpaces (js "  x ← 1") mod 3 ≠ 0)
  ∧ (∀ d, d ∈ errors (check example_indented) → message d = indentation →
          type d = warning).
Proof.
  apply (indentation_warning_iff latinUpper latinLower example_indented 1
           (js "  x ← 1")); by vm_compute.
Defined.

(** X8. The error that FOR loops end with NEXT is reported on line j + 1
    exactly when line j is the first line starting with ENDFOR after some
    processed line that starts with FOR. *)
Theorem endfor_reported_iff (U L : jsstring → jsstring) (code : jsstring)
    (j : nat) :
  mkError (j + 1) endforMessage error ∈ errors (checkSyntax U L code)
  ↔ ∃ k, firstEndforAfter (split_on 10 code) k j.
Proof.
  pose proof (finalState_endfor U L (split_on 10 code)) as Hprov.
  rewrite Forall_forall in Hprov.
  destruct (existsb hasContent (split_on 10 code)) eqn:Hc.
  - split.
    + intros Hd. apply (result_in_final U L code _ Hc) in Hd.
      destruct (Hprov _ Hd) as (_ & k & j' & Hl & Hf); [done|].
      cbn [line] in Hl. assert (j' = j) as -> by lia. by exists k.
    + intros (k & text & textj & Hk & Hs & Hfor & Hkj & Hj & Hend & Hfirst).
      apply (reported_typed U L code); [done| |].
      * apply (rule_reaches U L (split_on 10 code) k text 22
                 (checkEndfor (split_on 10 code) k (trim text))); [done|done|done|].
        unfold checkEndfor. cbv zeta.
        rewrite (findIndex_first _ (split_on 10 code) j textj).
        -- rewrite Hfor, bool_decide_eq_true_2 by (by eexists).
           cbn [andb when push errs].
           apply elem_of_app. right. by apply list_elem_of_singleton.
        -- done.
        -- rewrite Hend, andb_true_r. by apply Nat.ltb_lt.
        -- intros i t Hij Hi. destruct (Nat.ltb_spec k i) as [Hki|Hki]; [|done].
           cbn [andb]. by apply (Hfirst i t).
      * intros d Hd Hm. by destruct (Hprov d Hd Hm).
  - split.
    + unfold checkSyntax. rewrite Hc. cbn [negb errors].
      intros H%list_elem_of_singleton. vm_compute in H. discriminate H.
    + intros (k & text & textj & Hk & Hs & _).
      rewrite (lookup_hasContent _ _ _ Hk Hs) in Hc. discriminate Hc.
Qed.

(** ** Closers without an opener *)

Lemma closerFamilies_find closer opener :
  (closer, opener) ∈ closerFamilies →
  find (λ p, str_eqb closer p.1) closerFamilies = Some (closer, opener).
Proof.
  intros Hin. vm_compute in Hin.
  repeat (apply elem_of_cons in Hin as [[= -> ->]|Hin]);
    [..|by apply elem_of_nil in Hin]; by vm_compute.
Qed.

Section ExtraClosers.
Variables U L : jsstring → jsstring.

Lemma lineRules_no_extra lines k text :
  Forall (respects (grows (notPrefix (js "Extra "))))
    (lineRules U L lines k text).
Proof. rules_grow notPrefix_leaf. Qed.

Lemma sweeps_extra lines :
  respects (grows (prefixed (js "Extra ") (extraAt lines)))
    (run [checkExtraClosers lines; checkLength U L lines; checkEmptyLoops lines]).
Proof.
  apply respects_run; [tc_solve|].
  repeat apply Forall_cons_2; [..|apply Forall_nil_2].
  - unfold checkExtraClosers.
    apply respects_forEachLine_lookup; [tc_solve|]. intros k text Hk. cbv zeta.
    destruct (find _ _) as [[closer opener]|] eqn:Hf; [|apply respects_id; tc_solve].
    apply respects_when; [tc_solve|]. intros Hlt%Nat.ltb_lt.
    apply grows_push. intros _. split; [done|].
    by exists k, text, closer, opener.
  - unfold checkLength. repeat respects_step prefixed_leaf.
    all: cbv zeta; repeat respects_step prefixed_leaf.
  - unfold checkEmptyLoops. repeat respects_step prefixed_leaf.
    all: cbv zeta; repeat respects_step prefixed_leaf.
Qed.

Lemma finalState_extra lines :
  Forall (prefixed (js "Extra ") (extraAt lines)) (errs (finalState U L lines)).
Proof.
  apply final_by_parts.
  - apply linePass_by_line. intros k text Hk Hs.
    eapply grows_weaken; [apply notPrefix_prefixed|].
    exact (respects_run _ _ (lineRules_no_extra lines k text) _).
  - apply Forall_fmap, Forall_true. intros b H. by vm_compute in H.
  - apply sweeps_extra.
Qed.

(** What the second sweep pushes on line [k] is in the final state. *)
Lemma checkExtraClosers_reaches lines k text closer opener :
  lines !! k = Some text →
  find (λ p, str_eqb (trim text) p.1) closerFamilies = Some (closer, opener) →
  countOpen opener lines k < countClose closer lines k →
  mkError (k + 1) (extraCloser (trim text)) error ∈ errs (finalState U L lines).
Proof.
  intros Hk Hf Hlt. unfold finalState.
  rewrite (run_split 2). cbn [take drop]. rewrite run_cons.
  eapply elem_of_prefix;
    [|apply (grows_prefix anything);
      apply (respects_run (grows anything)
               [checkLength U L lines; checkEmptyLoops lines]);
      repeat apply Forall_cons_2; [..|apply Forall_nil_2];
      unfold checkLength, checkEmptyLoops;
      repeat respects_step any_leaf; cbv zeta; repeat respects_step any_leaf].
  unfold checkExtraClosers.
  rewrite (forEachLine_split k text _ 0 _ _ Hk).
  match goal with
  | |- _ ∈ errs (forEachLine ?i ?ls ?body ?st') =>
    assert (Hg : respects (grows anything) (forEachLine i ls body))
  end.
  { apply (respects_forEachLine (grows anything)). intros.
    cbv zeta. repeat respects_step any_leaf. }
  eapply elem_of_prefix; [|apply (grows_prefix anything), Hg].
  cbv zeta. rewrite Nat.add_0_l, Hf.
  fold (countOpen opener lines k). fold (countClose closer lines k).
  apply Nat.ltb_lt in Hlt. rewrite Hlt. cbn [when push errs].
  apply elem_of_app. right. by apply list_elem_of_singleton.
Qed.

End ExtraClosers.

(** X9. A line that consists of one of the six counted closers gets the
    error for an extra closer exactly when, among the lines up to and
    including it, those equal to the closer outnumber those that start with
    the opener of its family followed by a space. *)
Theorem extra_closer_iff (U L : jsstring → jsstring) (code : jsstring)
    (k : nat) (text opener : jsstring) :
  let lines := split_on 10 code in
  lines !! k = Some text → (trim text, opener) ∈ closerFamilies →
  mkError (k + 1) (extraCloser (trim text)) error ∈ errors (checkSyntax U L code)
  ↔ countOpen opener lines k < countClose (trim text) lines k.
Proof.
  intros lines Hk Hin.
  pose proof (closerFamilies_find _ _ Hin) as Hf.
  assert (Hs : skipped (trim text) = false) by (by eapply closer_not_skipped).
  assert (Hc : existsb hasContent lines = true) by (by eapply lookup_hasContent).
  pose proof (finalState_extra U L lines) as Hprov.
  rewrite Forall_forall in Hprov.
  split.
  - intros Hd. apply (result_in_final U L code _ Hc) in Hd.
    destruct (Hprov _ Hd) as (_ & k' & text' & c' & o' & Hk' & Hl & Hf' & Hlt).
    { apply startsWith_app. }
    cbn [line] in Hl. assert (k' = k) as -> by lia.
    fold lines in Hk'. rewrite Hk in Hk'. injection Hk' as <-.
    rewrite Hf in Hf'. by injection Hf' as <- <-.
  - intros Hlt. apply (reported_typed U L code); [done| |].
    + by apply (checkExtraClosers_reaches U L lines k text (trim text) opener).
    + intros d Hd Hm. apply (Hprov d Hd). rewrite Hm. apply startsWith_app.
Qed.

Lemma extra_closer_iff_witness :
  mkError (0 + 1) (extraCloser (trim (js "ENDIF"))) error
  ∈ errors (check (js "ENDIF"))
  ↔ countOpen (js "IF ") (split_on 10 (js "ENDIF")) 0
    < countClose (trim (js "ENDIF")) (split_on 10 (js "ENDIF")) 0.
Proof.
  apply (extra_closer_iff latinUpper latinLower (js "ENDIF") 0 (js "ENDIF")
           (js "IF ")).
  - by vm_compute.
  - vm_compute. repeat constructor.
Defined.

(** ** Names used before their declaration *)

Ltac class_solve :=
  unfold isAlphaU, isAlnumU, isWordChar, isAlpha, isUpper, isLower, isDigit,
    isSpace, isLineTerminator, in_range, ARROW, DQUOTE, SQUOTE in *;
  repeat match goal with
         | H : _ = true |- _ =>
           rewrite ?orb_true_iff, ?andb_true_iff, ?N.leb_le, ?N.eqb_eq,
             ?negb_true_iff in H
         | H : _ = false |- _ =>
           rewrite ?orb_false_iff, ?andb_false_iff, ?N.leb_gt, ?N.eqb_neq,
             ?negb_false_iff in H
         end;
  rewrite ?orb_true_iff, ?andb_true_iff, ?N.leb_le, ?N.eqb_eq,
    ?orb_false_iff, ?andb_false_iff, ?N.leb_gt, ?N.eqb_neq;
  lia.

Lemma alnum_not_space c : isAlnumU c = true → isSpace c = false.
Proof. intros H. apply not_true_iff_false. intros H'. class_solve. Qed.

Lemma alphaU_alnumU c : isAlphaU c = true → isAlnumU c = true.
Proof. intros H. class_solve. Qed.

Lemma space_not_alnum c : isSpace c = true → isAlnumU c = false.
Proof. intros H. apply not_true_iff_false. intros H'. class_solve. Qed.

Lemma undeclared_inj a b : undeclared a = undeclared b → a = b.
Proof.
  unfold undeclared. intros H. apply app_inv_head in H.
  by apply app_inv_tail in H.
Qed.

Lemma last_app_Some {A} (l1 l2 : list A) x :
  last l2 = Some x → last (l1 ++ l2) = Some x.
Proof.
  intros H. apply last_Some in H as [l' ->].
  by rewrite app_assoc, last_snoc.
Qed.

Lemma decimal_aux_app fuel : ∀ n acc, ∃ ds, decimal_aux fuel n acc = ds ++ acc.
Proof.
  induction fuel as [|f IH]; intros n acc; simpl; [by exists []|].
  destruct (n <? 10)%N.
  - by exists [digit_of (n `mod` 10)].
  - destruct (IH (n `div` 10)%N (digit_of (n `mod` 10) :: acc)) as [ds ->].
    exists (ds ++ [digit_of (n `mod` 10)]). by rewrite <- app_assoc.
Qed.

(** A numeral ends with a digit. *)
Lemma decimal_last n : ∃ c, last (decimal n) = Some c ∧ isDigit c = true.
Proof.
  destruct (decimal_spec n) as [Hd _].
  assert (Hne : decimal n ≠ []).
  { unfold decimal. cbn [decimal_aux]. destruct (n <? 10)%N; [done|].
    destruct (decimal_aux_app (N.to_nat (N.log2 n)) (n `div` 10)%N
                [digit_of (n `mod` 10)]) as [ds ->].
    by destruct ds. }
  revert Hd Hne. generalize (decimal n). intros l Hd Hne.
  destruct l as [|x l _] using rev_ind; [done|].
  exists x. rewrite last_snoc. split; [done|].
  apply Forall_app in Hd as [_ Hx]. by inversion Hx.
Qed.

Lemma undeclared_last v : last (undeclared v) = Some 101%N.
Proof. unfold undeclared. by do 2 apply last_app_Some. Qed.

(** A message that ends with a number is not this one. *)
Lemma ends_with_number a n v : a ++ decimal_nat n ≠ undeclared v.
Proof.
  intros H. apply (f_equal last) in H. rewrite undeclared_last in H.
  destruct (decimal_last (N.of_nat n)) as (c & Hc & Hd).
  unfold decimal_nat in H. rewrite (last_app_Some _ _ c Hc) in H.
  injection H as ->. done.
Qed.

Lemma ends_with_unknown a v : a ++ js "unknown" ≠ undeclared v.
Proof.
  intros H. apply (f_equal last) in H. rewrite undeclared_last in H.
  rewrite (last_app_Some _ _ 110%N) in H; [|done]. done.
Qed.

Lemma rmatch_assignment name ws rest :
  isName name → Forall (λ c, isSpace c = true) ws →
  rmatch (seqs [star cSpace; Group 1 ident_u; star cSpace; one ARROW]) Some
    (mkMState None (assignmentText name ws rest) [])
  = Some (mkMState (Some ARROW) rest [(1, name)]).
Proof.
  intros Hname Hws. destruct name as [|c xs]; [done|]. destruct Hname as [Hc Hxs].
  unfold assignmentText.
  change (seqs _) with
    (Seq (Star true (Chr isSpace))
       (Seq (Group 1 (Seq (Chr isAlphaU) (Star true (Chr isAlnumU))))
          (Seq (Star true (Chr isSpace)) (Seq (Chr (N.eqb ARROW)) Eps)))).
  rewrite <- !app_comm_cons.
  rewrite rmatch_seq.
  rewrite (star_chr_run isSpace _ [] (c :: xs ++ ws ++ ARROW :: rest) []
             (mkMState (Some ARROW) rest [(1, c :: xs)]) None); [done|done| |].
  { simpl. by apply alnum_not_space, alphaU_alnumU. }
  cbn [after].
  rewrite rmatch_seq, rmatch_group, rmatch_seq, rmatch_chr_cons, Hc.
  apply star_chr_run; [done| |].
  { destruct ws as [|w ws']; simpl; [done|].
    apply Forall_cons in Hws as [Hw _]. by apply space_not_alnum. }
  cbn [ms_prev ms_rest ms_caps].
  rewrite (take_consumed_cons c xs (ws ++ ARROW :: rest)).
  rewrite rmatch_seq.
  apply star_chr_run; [done|done|].
  rewrite rmatch_seq, rmatch_chr_cons. by rewrite N.eqb_refl.
Qed.

Lemma exec_assignment name ws rest :
  isName name → Forall (λ c, isSpace c = true) ws →
  ∃ m, exec re_assignment (assignmentText name ws rest) = Some m
       ∧ grp 1 m = name.
Proof.
  intros Hname Hws. unfold re_assignment.
  change (seqs (Bol :: ?l)) with (Seq Bol (seqs l)).
  rewrite exec_bol, (rmatch_assignment name ws rest Hname Hws).
  eexists. split; [reflexivity|done].
Qed.

Lemma includes_arrow name ws rest :
  includes (js "←") (assignmentText name ws rest) = true.
Proof.
  unfold assignmentText. rewrite app_assoc.
  change (ARROW :: rest) with (js "←" ++ rest). apply includes_app.
Qed.

Lemma ends_with_closed a tail c v :
  last tail = Some c → c ≠ 101%N → a ++ tail ≠ undeclared v.
Proof.
  intros Hc Hne H. apply (f_equal last) in H.
  rewrite undeclared_last, (last_app_Some _ _ c Hc) in H. congruence.
Qed.

Ltac refute_undeclared Hm :=
  cbn [message] in Hm;
  first
  [ vm_compute in Hm; discriminate Hm
  | rewrite !app_assoc in Hm;
    exfalso;
    first [ exact (ends_with_number _ _ _ Hm)
          | exact (ends_with_unknown _ _ Hm)
          | refine (ends_with_closed _ _ _ _ _ _ Hm); [by vm_compute | done] ] ].

Section Undeclared.
Variables U L : jsstring → jsstring.

Ltac undeclared_leaf := idtac;
  lazymatch goal with
  | |- respects (keeping _ _) (push _ _ _) =>
    intros ?; apply keeping_push;
    [ done | let Hm := fresh in intros _ ? Hm; refute_undeclared Hm ]
  | |- respects (keeping _ _) (set_blockStack _) => by apply keeping_quiet
  | |- respects (keeping _ _) (set_array _ _) => by apply keeping_quiet
  | |- respects (keeping _ _) (add_function _) => by apply keeping_quiet
  | |- respects (keeping _ _) (declare _ _) =>
    apply keeping_quiet; [intros ? ?; cbn; set_solver | done]
  | |- keeping _ _ ?st (declare _ _ ?st) =>
    apply keeping_quiet; [intros ? ?; cbn; set_solver | done]
  | |- keeping _ _ ?st
         (when (negb (bool_decide (?x ∈ declaredVariables ?st)))
            (push _ (_ ++ ?name ++ _) _) ?st) =>
    let Hb := fresh in
    destruct (bool_decide (x ∈ declaredVariables st)) eqn:Hb; cbn [negb when];
    [ reflexivity
    | apply keeping_push;
      [ done
      | let HI := fresh in let Hm := fresh in
        intros HI ? Hm; apply (undeclared_inj name) in Hm; subst;
        apply bool_decide_eq_false in Hb;
        split; [done|]; split; [done|]; set_solver ] ]
  | |- keeping _ _ ?st (push _ _ _ ?st) =>
    apply keeping_push;
    [ done
    | let Hm := fresh in intros _ ? Hm;
      first [ refute_undeclared Hm
            | destruct (_ =? 0); refute_undeclared Hm ] ]
  end.

Lemma lineRules_undeclared lines k text declared :
  Forall (respects (keeping (λ st, declared ⊆ declaredVariables st)
                     (undeclaredOn L (k + 1) declared)))
    (lineRules U L lines k text).
Proof.
  unfold lineRules; cbv zeta.
  repeat apply Forall_cons_2; [..|apply Forall_nil_2].
  all: unfold_all_rules; cbv zeta.
  all: repeat respects_step undeclared_leaf.
  all: try (cbv zeta; repeat respects_step undeclared_leaf).
Qed.

(** What a line declares is added to what was declared, and the names it
    reports as undeclared were not declared before it. *)
Lemma line_undeclared lines k text :
  let st0 := stateBefore U L lines k in
  declaredVariables st0 ⊆ declaredVariables (run (lineRules U L lines k text) st0)
  ∧ grows (undeclaredOn L (k + 1) (declaredVariables st0)) st0
      (run (lineRules U L lines k text) st0).
Proof.
  intros st0.
  apply (respects_run _ _ (lineRules_undeclared lines k text (declaredVariables st0))).
  done.
Qed.

Lemma rules_declared_mono lines k text i st :
  declaredVariables st
  ⊆ declaredVariables (run (drop i (lineRules U L lines k text)) st).
Proof.
  apply (respects_run
           (keeping (λ st', declaredVariables st ⊆ declaredVariables st')
              (undeclaredOn L (k + 1) (declaredVariables st)))
           (drop i (lineRules U L lines k text))); [|done].
  apply Forall_drop, lineRules_undeclared.
Qed.

Lemma finalState_undeclared lines :
  Forall (undeclaredAt U L lines) (errs (finalState U L lines)).
Proof.
  apply final_by_parts.
  - apply linePass_by_line. intros k text Hk Hs.
    eapply grows_weaken; [|apply line_undeclared].
    intros d Hd v Hm. destruct (Hd v Hm) as (Ht & Hl & Hv).
    split; [done|]. by exists k.
  - apply Forall_fmap, Forall_true. intros b v Hm.
    vm_compute in Hm. discriminate Hm.
  - sweeps_keep ltac:(apply grows_push; let Hm := fresh in
                      intros ? Hm; vm_compute in Hm; discriminate Hm).
Qed.

Ltac same_declared_leaf := idtac;
  lazymatch goal with
  | |- respects (same _) (push _ _ _) => intros ?; reflexivity
  | |- respects (same _) (set_blockStack _) => intros ?; reflexivity
  | |- respects (same _) (set_array _ _) => intros ?; reflexivity
  | |- respects (same _) (add_function _) => intros ?; reflexivity
  | |- respects (same _) (declare _ _) => exfalso; congruence
  | |- same _ ?st (declare _ _ ?st) => exfalso; congruence
  end.

(** A line that opens with none of the declaring words declares nothing. *)
Lemma lineRules_same_declared lines k text :
  declaring (trim text) = false →
  Forall (respects (same declaredVariables)) (lineRules U L lines k text).
Proof.
  unfold declaring. intros H.
  apply orb_false_iff in H as [H H4]. apply orb_false_iff in H as [H H3].
  apply orb_false_iff in H as [H1 H2].
  unfold lineRules; cbv zeta.
  repeat apply Forall_cons_2; [..|apply Forall_nil_2].
  all: unfold_all_rules; cbv zeta.
  all: repeat respects_step same_declared_leaf.
  all: try (cbv zeta; repeat respects_step same_declared_leaf).
Qed.

Lemma checkAssignmentTarget_text n name ws rest st :
  isName name → Forall (λ c, isSpace c = true) ws →
  L name ∉ declaredVariables st →
  checkAssignmentTarget L n (assignmentText name ws rest) st
  = push n (undeclared name) error st.
Proof.
  intros Hname Hws Hv. unfold checkAssignmentTarget.
  rewrite includes_arrow. cbn [when].
  destruct (exec_assignment name ws rest Hname Hws) as (m & -> & ->).
  by rewrite bool_decide_eq_false_2.
Qed.

End Undeclared.

(** X10. An assignment that starts its line with the target name, on a line
    that opens with none of the declaring words, gets the error that the
    variable must be declared before use exactly when the lower-cased name
    is not among the variables declared by the lines before. *)
Theorem undeclared_target_reported (U L : jsstring → jsstring)
    (code : jsstring) (k : nat) (text name ws rest : jsstring) :
  let lines := split_on 10 code in
  let r := checkSyntax U L code in
  lines !! k = Some text → trim text = assignmentText name ws rest →
  isName name → Forall (λ c, isSpace c = true) ws →
  declaring (trim text) = false →
  mkError (k + 1) (undeclared name) error ∈ errors r
  ↔ L name ∉ declaredVariables (stateBefore U L lines k).
Proof.
  intros lines r Hk Ht Hname Hws Hdecl.
  assert (Hs : skipped (trim text) = false).
  { rewrite Ht. destruct name as [|c xs]; [done|]. destruct Hname as [Hc _].
    unfold skipped, assignmentText. cbn [app nonempty negb orb].
    change (js "//") with [47%N; 47%N]. cbn [startsWith].
    destruct (N.eqb_spec 47 c) as [<-|]; [by vm_compute in Hc|done]. }
  assert (Hc : existsb hasContent lines = true) by (by eapply lookup_hasContent).
  pose proof (finalState_undeclared U L lines) as Hprov.
  rewrite Forall_forall in Hprov.
  split.
  - intros Hd. apply (result_in_final U L code _ Hc) in Hd.
    destruct (Hprov _ Hd name eq_refl) as (_ & k' & Hl & Hv).
    cbn [line] in Hl. assert (k' = k) as -> by lia. done.
  - intros Hv. apply (reported_typed U L code); [done| |].
    + apply (rule_reaches U L lines k text 18
               (checkAssignmentTarget L (k + 1) (trim text))); [done|done|done|].
      pose proof (respects_run (same declaredVariables) _
                    (Forall_take _ 18 _ (lineRules_same_declared U L lines k text Hdecl))
                    (stateBefore U L lines k)) as Hsame.
      unfold same in Hsame.
      rewrite Ht, checkAssignmentTarget_text; [|done|done|by rewrite Hsame].
      cbn [push errs].
      apply elem_of_app. right. by apply list_elem_of_singleton.
    + intros d Hd Hm. by destruct (Hprov d Hd name Hm).
Qed.

Lemma undeclared_target_reported_witness :
  mkError (0 + 1) (undeclared (js "y")) error ∈ errors (check (js "y ← 1"))
  ↔ latinLower (js "y")
    ∉ declaredVariables
        (stateBefore latinUpper latinLower (split_on 10 (js "y ← 1")) 0).
Proof.
  apply (undeclared_target_reported latinUpper latinLower (js "y ← 1") 0
           (js "y ← 1") (js "y") (js " ") (js " 1")).
  - by vm_compute.
  - by vm_compute.
  - split; [by vm_compute | by repeat constructor].
  - by repeat constructor.
  - by vm_compute.
Defined.

(** X11. Whatever rule produced it, a diagnostic that a variable must be
    declared before use is an error on a line before which the variable,
    lower-cased, was not declared. *)
Theorem undeclared_report_sound (U L : jsstring → jsstring)
    (code : jsstring) (d : SyntaxError) (v : jsstring) :
  d ∈ errors (checkSyntax U L code) → message d = undeclared v →
  type d = error ∧ 1 ≤ line d
  ∧ L v ∉ declaredVariables (stateBefore U L (split_on 10 code) (line d - 1)).
Proof.
  intros Hd Hm.
  assert (Hq : undeclaredAt U L (split_on 10 code) d).
  { apply (in_result U L code d (undeclaredAt U L (split_on 10 code))); [| |done].
    - intros v' H. vm_compute in H. discriminate H.
    - apply finalState_undeclared. }
  destruct (Hq v Hm) as (Ht & k & Hl & Hv).
  split; [done|]. split; [lia|]. by rewrite Hl, Nat.add_sub.
Qed.

Lemma undeclared_report_sound_witness :
  type (mkError 1 (undeclared (js "y")) error) = error
  ∧ 1 ≤ line (mkError 1 (undeclared (js "y")) error)
  ∧ latinLower (js "y")
    ∉ declaredVariables
        (stateBefore latinUpper latinLower (split_on 10 (js "y ← 1"))
           (line (mkError 1 (undeclared (js "y")) error) - 1)).
Proof.
  apply (undeclared_report_sound latinUpper latinLower (js "y ← 1")).
  - vm_compute. repeat constructor.
  - reflexivity.
Defined.

(** ** DECLARE statements *)

(** [^[a-zA-Z_][a-zA-Z0-9_]*$] *)
Lemma name_whole_inv v : test re_name_whole v = true → isName v.
Proof.
  intros [res H]%test_bol.
  change (rmatch _ _ _) with
    (rmatch (Chr isAlphaU)
       (rmatch (Star true (Chr isAlnumU)) (rmatch Eol Some))
       (mkMState None v [])) in H.
  destruct v as [|c t]; [done|]. rewrite rmatch_chr_cons in H.
  destruct (isAlphaU c) eqn:Hc; [|done].
  apply star_chr_inv in H as (a & b & -> & Ha & H).
  rewrite rmatch_eol in H. destruct b; [|done]. rewrite app_nil_r.
  by split.
Qed.

Lemma isVariableName_isName v : isVariableName v = true → isName v.
Proof. intros [_ H]%andb_true_iff. by apply name_whole_inv. Qed.

Lemma isName_no_quote v : isName v → Forall (λ c, c ≠ SQUOTE) v.
Proof.
  destruct v as [|c t]; [done|]. intros [Hc Ht]. constructor.
  - intros ->. by vm_compute in Hc.
  - eapply Forall_impl; [exact Ht|]. intros x Hx ->. by vm_compute in Hx.
Qed.

(** Two texts cut at their first quote. *)
Lemma cut_at_quote (a b r r' : jsstring) :
  Forall (λ c, c ≠ SQUOTE) a → Forall (λ c, c ≠ SQUOTE) b →
  a ++ SQUOTE :: r = b ++ SQUOTE :: r' → a = b ∧ r = r'.
Proof.
  intros Ha. revert b.
  induction Ha as [|x a Hx Ha IH]; intros b Hb Heq.
  - destruct Hb as [|y b Hy Hb]; simpl in Heq.
    + by injection Heq.
    + injection Heq as <- _. done.
  - destruct Hb as [|y b Hy Hb]; simpl in Heq.
    + injection Heq as -> _. done.
    + injection Heq as -> Heq. destruct (IH _ Hb Heq) as [-> ->]. done.
Qed.

Lemma alreadyDeclared_ne_redeclared v m name ty n :
  isName v → isName name → alreadyDeclared v m ≠ redeclared name ty n.
Proof.
  intros Hv Hname H. unfold alreadyDeclared, redeclared in H.
  apply app_inv_head in H.
  assert (E1 : js "' already declared on line "
               = SQUOTE :: js " already declared on line ") by (by vm_compute).
  assert (E2 : js "' redeclared with different type. Previously declared as "
               = SQUOTE :: js " redeclared with different type. Previously declared as ")
    by (by vm_compute).
  rewrite E1, E2, <- !app_comm_cons in H.
  apply cut_at_quote in H as [_ H]; [|by apply isName_no_quote..].
  vm_compute in H. discriminate H.
Qed.

Lemma alreadyDeclared_inj v m v' m' :
  isName v → isName v' → alreadyDeclared v m = alreadyDeclared v' m' →
  v = v' ∧ m = m'.
Proof.
  intros Hv Hv' H. unfold alreadyDeclared in H. apply app_inv_head in H.
  assert (E1 : js "' already declared on line "
               = SQUOTE :: js " already declared on line ") by (by vm_compute).
  rewrite E1, <- !app_comm_cons in H.
  apply cut_at_quote in H as [-> H]; [|by apply isName_no_quote..].
  split; [done|]. apply app_inv_head in H. unfold decimal_nat in H.
  apply decimal_inj in H. lia.
Qed.

Lemma undeclared_ne_already x v n : undeclared x ≠ alreadyDeclared v n.
Proof.
  intros H. symmetry in H. unfold alreadyDeclared in H.
  rewrite !app_assoc in H. exact (ends_with_number _ _ _ H).
Qed.

Section Redeclaration.
Variables U L : jsstring → jsstring.

Ltac refute_already Hm :=
  cbn [message] in Hm;
  first
  [ vm_compute in Hm; discriminate Hm
  | exfalso; exact (undeclared_ne_already _ _ _ Hm)
  | exfalso; symmetry in Hm;
    match goal with
    | H : nonempty ?x && test re_name_whole ?x = true,
      H' : isVariableName ?v = true |- _ =>
      exact (alreadyDeclared_ne_redeclared _ _ _ _ _
               (isVariableName_isName _ H') (isVariableName_isName _ H) Hm)
    end ].

Ltac already_leaf := idtac;
  lazymatch goal with
  | |- respects (grows _) (push _ _ warning) =>
    apply grows_push; by intros [=]
  | |- respects (grows _) (push _ _ error) =>
    apply grows_push;
    let Hm := fresh in intros _ ? ? ? Hm; refute_already Hm
  | |- respects (grows _) (set_blockStack _) => apply grows_set_blockStack
  | |- respects (grows _) (set_array _ _) => apply grows_set_array
  | |- respects (grows _) (add_function _) => apply grows_add_function
  | |- respects (grows _) (declare _ _) => apply grows_declare
  end.

Lemma lineRules_notAlready lines k text :
  Forall (respects (grows notAlready)) (lineRules U L lines k text).
Proof.
  unfold lineRules; cbv zeta.
  repeat apply Forall_cons_2; [..|apply Forall_nil_2].
  all: unfold_all_rules; cbv zeta.
  all: repeat respects_step already_leaf.
  all: try (cbv zeta; repeat respects_step already_leaf).
Qed.

Lemma finalState_notAlready lines :
  Forall notAlready (errs (finalState U L lines)).
Proof.
  apply final_by_parts.
  - apply linePass_by_line. intros k text Hk Hs.
    exact (respects_run _ _ (lineRules_notAlready lines k text) _).
  - apply Forall_fmap, Forall_true. intros b _ v n _ Hm.
    vm_compute in Hm. discriminate Hm.
  - sweeps_keep already_leaf.
Qed.

(** An already-declared message is a warning, a redeclared message an
    error. *)
Lemma alreadyDeclared_is_warning lines d v n :
  d ∈ errs (finalState U L lines) → isVariableName v = true →
  message d = alreadyDeclared v n → type d = warning.
Proof.
  intros Hd Hv Hm. pose proof (finalState_notAlready lines) as H.
  rewrite Forall_forall in H. specialize (H d Hd).
  destruct (type d) eqn:Ht; [|done]. by destruct (H Ht v n Hv).
Qed.

Lemma redeclared_is_error lines d v ty n :
  d ∈ errs (finalState U L lines) → isVariableName v = true →
  message d = redeclared v ty n → type d = error.
Proof.
  intros Hd Hv Hm. pose proof (finalState_knownWarning U L lines) as H.
  rewrite Forall_forall in H. specialize (H d Hd).
  destruct (type d) eqn:Ht; [done|]. exfalso.
  destruct (H Ht) as [H'|[H'|(v' & m & H' & Hv' & _)]];
    rewrite Hm in H'.
  - vm_compute in H'. discriminate H'.
  - vm_compute in H'. discriminate H'.
  - symmetry in H'. revert H'.
    apply alreadyDeclared_ne_redeclared; by apply isVariableName_isName.
Qed.

End Redeclaration.

Lemma starts_clash p q t :
  clash p q = true → startsWith p t = true → startsWith q t = true → False.
Proof.
  destruct p as [|x p], q as [|y q]; try done. cbn [clash].
  intros Hc (t1 & -> & _)%startsWith_cons_inv H.
  apply startsWith_cons_inv in H as (t2 & [= <- _] & _).
  by rewrite N.eqb_refl in Hc.
Qed.

(** After the body has run on [x], [K] holds and goes on holding. *)
Lemma forEach_after {A} (J K : State → Prop) (l : list A)
    (body : A → State → State) x :
  x ∈ l →
  (∀ y st, J st → J (body y st)) →
  (∀ st, J st → K (body x st)) →
  (∀ y st, J st → K st → K (body y st)) →
  ∀ st, J st → J (forEach l body st) ∧ K (forEach l body st).
Proof.
  intros Hx HJ HK HKK. unfold forEach.
  assert (Hboth : ∀ l st, J st → K st →
            J (foldl (λ s y, body y s) st l) ∧ K (foldl (λ s y, body y s) st l)).
  { clear Hx. intros l'. induction l' as [|y l' IH]; intros st H1 H2; [done|].
    simpl. apply IH; [by apply HJ | by apply HKK]. }
  induction l as [|y l IH]; intros st Hst; [by apply elem_of_nil in Hx|].
  simpl. apply elem_of_cons in Hx as [->|Hx].
  - apply Hboth; [by apply HJ | by apply HK].
  - apply IH; [done | by apply HJ].
Qed.

Section Tables.
Variables U L : jsstring → jsstring.

Lemma trackVariables_eq n t :
  trackVariables U L n t
  = forEach (declaredNames t) (declareVariable U L n (declaredType t)).
Proof.
  unfold trackVariables, declaredNames, declaredType, declarePart. cbv zeta.
  by destruct (indexOf _ _).
Qed.

Ltac same_quiet_leaf := idtac;
  lazymatch goal with
  | |- respects (same _) (push _ _ _) => intros ?; reflexivity
  | |- respects (same _) (set_blockStack _) => intros ?; reflexivity
  | |- respects (same _) (set_array _ _) => intros ?; reflexivity
  | |- respects (same _) (add_function _) => intros ?; reflexivity
  end.

(** The rules before the DECLARE rule leave the tables of variables alone. *)
Lemma lineRules_same_tables_before lines k text :
  Forall (respects (same tables)) (take 7 (lineRules U L lines k text)).
Proof.
  unfold lineRules. cbv zeta. cbn [take].
  repeat apply Forall_cons_2; [..|apply Forall_nil_2].
  all: unfold_all_rules; cbv zeta.
  all: repeat respects_step same_quiet_leaf.
  all: try (cbv zeta; repeat respects_step same_quiet_leaf).
Qed.

(** On a DECLARE line, so do the rules after it. *)
Lemma lineRules_same_tables_after lines k text :
  startsWith (js "DECLARE") (trim text) = true →
  Forall (respects (same tables)) (drop 8 (lineRules U L lines k text)).
Proof.
  intros Hd. unfold lineRules. cbv zeta. cbn [drop].
  repeat apply Forall_cons_2; [..|apply Forall_nil_2].
  all: unfold_all_rules; cbv zeta.
  all: repeat respects_step ltac:(first
         [ same_quiet_leaf
         | match goal with
           | H : startsWith ?q (trim _) = true |- _ =>
             exfalso; refine (starts_clash (js "DECLARE") q _ _ Hd H);
             by vm_compute
           end ]).
Qed.

Lemma trackArray_same_tables n t : respects (same tables) (trackArray L n t).
Proof. unfold trackArray. repeat respects_step same_quiet_leaf. Qed.

(** What one name of a DECLARE statement does to the tables. *)
Lemma declareVariable_tables n ty y st :
  tables (declareVariable U L n ty y st) = tables st
  ∨ ((L y ∉ declaredVariables st)
     ∧ (tables (declareVariable U L n ty y st)
        = tables (declare (L y) (mkVarInfo ty n) st))).
Proof.
  unfold declareVariable, when. destruct (_ && _); [|by left].
  destruct (mem _ _); [by left|].
  case_bool_decide as Hd.
  - left. destruct (variableTypes st !! L y); [destruct (negb _)|]; done.
  - by right.
Qed.

Lemma declareVariable_declares n ty y st :
  isVariableName y = true → mem (U y) KEYWORDS = false →
  L y ∈ declaredVariables (declareVariable U L n ty y st).
Proof.
  intros Hy Hk. unfold declareVariable, when. unfold isVariableName in Hy.
  rewrite Hy, Hk. case_bool_decide as Hd.
  - destruct (variableTypes st !! L y); [destruct (negb _)|]; done.
  - cbn. set_solver.
Qed.

Lemma declareVariable_reserved n ty y st :
  isVariableName y = true → mem (U y) KEYWORDS = true →
  declareVariable U L n ty y st = push n (reservedName y) error st.
Proof.
  intros Hy Hk. unfold declareVariable, when. unfold isVariableName in Hy.
  by rewrite Hy, Hk.
Qed.

Lemma declareVariable_again n ty y st pt :
  isVariableName y = true → mem (U y) KEYWORDS = false →
  L y ∈ declaredVariables st → variableTypes st !! L y = Some pt →
  1 ≤ var_line pt →
  declareVariable U L n ty y st
  = if str_eqb (var_type pt) ty
    then push n (alreadyDeclared y (var_line pt)) warning st
    else push n (redeclared y (var_type pt) (var_line pt)) error st.
Proof.
  intros Hy Hk Hd Hv Hl. unfold declareVariable, when. unfold isVariableName in Hy.
  rewrite Hy, Hk, bool_decide_eq_true_2, Hv by done.
  destruct (str_eqb _ _); cbn [negb]; [|done].
  destruct (Nat.eqb_spec (var_line pt) 0); [lia|]. done.
Qed.

Lemma declareVariable_inv key orig n ty y st :
  declaring_inv key orig (mkVarInfo ty n) st →
  declaring_inv key orig (mkVarInfo ty n) (declareVariable U L n ty y st).
Proof.
  intros [Hagree Hkey].
  destruct (declareVariable_tables n ty y st) as [E|[Hy E]];
    unfold tables in E; injection E as E1 E2; unfold declaring_inv;
    rewrite E1, E2; [done|].
  cbn [declare declaredVariables variableTypes]. split.
  - intros v. rewrite elem_of_union, elem_of_singleton, Hagree.
    destruct (decide (v = L y)) as [->|Hne].
    + rewrite lookup_insert_eq. split; [by eexists|by left].
    + rewrite lookup_insert_ne by done. split; [intros [?|?]; done|by right].
  - destruct (decide (key = L y)) as [->|Hne].
    + rewrite lookup_insert_eq. right. split; [|done].
      assert (variableTypes st !! L y = None) as Hnone.
      { apply eq_None_not_Some. by rewrite <- Hagree. }
      destruct Hkey as [<-|[-> _]]; done.
    + by rewrite lookup_insert_ne.
Qed.

End Tables.

Section Declarations.
Variables U L : jsstring → jsstring.

Lemma stateBefore_declared_mono lines k k' :
  k ≤ k' →
  declaredVariables (stateBefore U L lines k)
  ⊆ declaredVariables (stateBefore U L lines k').
Proof.
  induction 1 as [|k' Hle IH]; [done|].
  etrans; [exact IH|].
  destruct (lines !! k') as [text|] eqn:Hk.
  - destruct (skipped (trim text)) eqn:Hs.
    + by rewrite (stateBefore_skipped U L lines k' text).
    + rewrite (stateBefore_processed U L lines k' text) by done.
      apply (line_undeclared U L lines k' text).
  - apply lookup_ge_None in Hk.
    rewrite !(stateBefore_all U L lines) by lia. done.
Qed.

(** The state in which the DECLARE rule of a line runs, and the state it
    leaves. *)
Lemma declare_line_tables lines k text :
  lines !! k = Some text →
  startsWith (js "DECLARE") (trim text) = true →
  includes (js ":") (trim text) = true →
  let st0 := stateBefore U L lines k in
  let st7 := run (take 7 (lineRules U L lines k text)) st0 in
  tables st7 = tables st0
  ∧ checkDeclare U L (k + 1) (trim text) st7
    = trackArray L (k + 1) (trim text)
        (forEach (declaredNames (trim text))
           (declareVariable U L (k + 1) (declaredType (trim text))) st7)
  ∧ tables (stateBefore U L lines (S k))
    = tables (forEach (declaredNames (trim text))
                (declareVariable U L (k + 1) (declaredType (trim text))) st7).
Proof.
  intros Hk Hd Hcolon st0 st7.
  assert (Hs : skipped (trim text) = false)
    by (by apply (starts_not_skipped 68 (js "ECLARE"))).
  assert (H7 : tables st7 = tables st0).
  { apply (respects_run (same tables) _ (lineRules_same_tables_before U L lines k text)). }
  assert (Hrule : checkDeclare U L (k + 1) (trim text) st7
    = trackArray L (k + 1) (trim text)
        (forEach (declaredNames (trim text))
           (declareVariable U L (k + 1) (declaredType (trim text))) st7)).
  { unfold checkDeclare. rewrite Hd, Hcolon. cbn [when negb].
    unfold run. cbn [foldl]. by rewrite trackVariables_eq. }
  split; [done|]. split; [done|].
  rewrite (stateBefore_processed U L lines k text Hk Hs).
  rewrite (run_split 7).
  change (drop 7 (lineRules U L lines k text))
    with (checkDeclare U L (k + 1) (trim text)
          :: drop 8 (lineRules U L lines k text)).
  rewrite run_cons. fold st0. fold st7.
  rewrite (respects_run (same tables) _
             (lineRules_same_tables_after U L lines k text Hd) _).
  rewrite Hrule. apply trackArray_same_tables.
Qed.

Lemma declareVariable_grows n ty y :
  respects (grows anything) (declareVariable U L n ty y).
Proof. unfold declareVariable. repeat respects_step any_leaf. Qed.

(** What the DECLARE rule pushes for one of its names is in the final
    state. *)
Lemma declare_reaches lines k text name e (P : State → Prop) :
  lines !! k = Some text →
  startsWith (js "DECLARE") (trim text) = true →
  includes (js ":") (trim text) = true →
  name ∈ declaredNames (trim text) →
  (∀ st, tables st = tables (stateBefore U L lines k) → P st) →
  (∀ y st, P st →
     P (declareVariable U L (k + 1) (declaredType (trim text)) y st)) →
  (∀ st, P st →
     e ∈ errs (declareVariable U L (k + 1) (declaredType (trim text)) name st)) →
  e ∈ errs (finalState U L lines).
Proof.
  intros Hk Hd Hcolon Hin HP0 HP He.
  assert (Hs : skipped (trim text) = false)
    by (by apply (starts_not_skipped 68 (js "ECLARE"))).
  destruct (declare_line_tables lines k text Hk Hd Hcolon) as (H7 & Hrule & _).
  apply (rule_reaches U L lines k text 7 (checkDeclare U L (k + 1) (trim text)));
    [done|done|done|].
  rewrite Hrule.
  assert (Hta : ∀ st, errs (trackArray L (k + 1) (trim text) st) = errs st).
  { intros st. unfold trackArray. by destruct (exec _ _). }
  rewrite Hta.
  apply (forEach_reaches_inv P _ _ name); try done.
  - intros y. apply declareVariable_grows.
  - by apply HP0.
Qed.

End Declarations.

(** X12. In a DECLARE statement with a colon, a well-formed name that is a
    keyword gets the reserved-keyword error.  A name that is not a keyword
    and has an entry in the table of types gets, when the recorded type is
    the one written, the warning that names the earlier line, and otherwise
    the error that names the recorded type and that line. *)
Theorem declare_diagnostics (U L : jsstring → jsstring) (code : jsstring)
    (k : nat) (text name : jsstring) :
  let lines := split_on 10 code in
  let r := checkSyntax U L code in
  lines !! k = Some text →
  startsWith (js "DECLARE") (trim text) = true →
  includes (js ":") (trim text) = true →
  name ∈ declaredNames (trim text) → isVariableName name = true →
  (mem (U name) KEYWORDS = true →
   mkError (k + 1) (reservedName name) error ∈ errors r)
  ∧ (mem (U name) KEYWORDS = false →
     ∀ pt, variableTypes (stateBefore U L lines k) !! L name = Some pt →
       1 ≤ var_line pt ∧ var_line pt ≤ k
       ∧ if str_eqb (var_type pt) (declaredType (trim text))
         then mkError (k + 1) (alreadyDeclared name (var_line pt)) warning
              ∈ errors r
         else mkError (k + 1) (redeclared name (var_type pt) (var_line pt)) error
              ∈ errors r).
Proof.
  intros lines r Hk Hd Hcolon Hin Hname.
  assert (Hs : skipped (trim text) = false)
    by (by apply (starts_not_skipped 68 (js "ECLARE"))).
  assert (Hc : existsb hasContent lines = true) by (by eapply lookup_hasContent).
  split.
  - intros Hkw.
    destruct (reported_error U L code (k + 1) (reservedName name))
      as ([l m t] & Hdg & Hl & Hm & Ht); [done| |by vm_compute|].
    + apply (declare_reaches U L lines k text name _ (λ _, True)); try done.
      intros st _. rewrite declareVariable_reserved by done.
      cbn [push errs]. apply elem_of_app. right. by apply list_elem_of_singleton.
    + cbn [line message type] in Hl, Hm, Ht. by subst.
  - intros Hkw pt Hpt.
    assert (Hklt : k ≤ length lines).
    { apply Nat.lt_le_incl. by eapply lookup_lt_Some. }
    destruct (stateBefore_tables U L lines k Hklt) as [[Hagree Hlines] _].
    destruct (Hlines _ _ Hpt) as [H1 H2]. split; [done|]. split; [done|].
    set (P := declaring_inv (L name) (Some pt)
                (mkVarInfo (declaredType (trim text)) (k + 1))).
    assert (HP0 : ∀ st, tables st = tables (stateBefore U L lines k) → P st).
    { intros st [= E1 E2]. split; [by rewrite E1, E2|]. left. by rewrite E2. }
    assert (HPstep : ∀ y st, P st →
              P (declareVariable U L (k + 1) (declaredType (trim text)) y st)).
    { intros y st. apply declareVariable_inv. }
    assert (Hbody : ∀ st, P st →
      declareVariable U L (k + 1) (declaredType (trim text)) name st
      = if str_eqb (var_type pt) (declaredType (trim text))
        then push (k + 1) (alreadyDeclared name (var_line pt)) warning st
        else push (k + 1) (redeclared name (var_type pt) (var_line pt)) error st).
    { intros st [Hag [Hkey|[[=] _]]].
      apply declareVariable_again; try done. apply Hag. by rewrite Hkey. }
    destruct (str_eqb (var_type pt) (declaredType (trim text))) eqn:Hty.
    + apply (reported_typed U L code); [done| |].
      * apply (declare_reaches U L lines k text name _ P); try done.
        intros st HP. rewrite (Hbody st HP). cbn [push errs].
        apply elem_of_app. right. by apply list_elem_of_singleton.
      * intros d Hdg Hm. by eapply alreadyDeclared_is_warning.
    + apply (reported_typed U L code); [done| |].
      * apply (declare_reaches U L lines k text name _ P); try done.
        intros st HP. rewrite (Hbody st HP). cbn [push errs].
        apply elem_of_app. right. by apply list_elem_of_singleton.
      * intros d Hdg Hm. by eapply redeclared_is_error.
Qed.

Lemma declare_diagnostics_witness :
  (mem (latinUpper (js "x")) KEYWORDS = true →
   mkError (2 + 1) (reservedName (js "x")) error
   ∈ errors (check example_declared_twice))
  ∧ (mem (latinUpper (js "x")) KEYWORDS = false →
     ∀ pt,
       variableTypes (stateBefore latinUpper latinLower
                        (split_on 10 example_declared_twice) 2)
         !! latinLower (js "x") = Some pt →
       1 ≤ var_line pt ∧ var_line pt ≤ 2
       ∧ if str_eqb (var_type pt) (declaredType (trim (js "DECLARE x: STRING")))
         then mkError (2 + 1) (alreadyDeclared (js "x") (var_line pt)) warning
              ∈ errors (check example_declared_twice)
         else mkError (2 + 1) (redeclared (js "x") (var_type pt) (var_line pt))
                error
              ∈ errors (check example_declared_twice)).
Proof.
  apply (declare_diagnostics latinUpper latinLower example_declared_twice 2
           (js "DECLARE x: STRING") (js "x")); try by vm_compute.
  vm_compute. repeat constructor.
Defined.

(** X13. After a DECLARE statement with a colon, each well-formed name of it
    that is not a keyword is declared on all later lines, and its entry in
    the table of types is the one it had, if any, and otherwise the written
    type with the number of the line: the statement never overwrites an
    earlier entry. *)
Theorem declare_registers (U L : jsstring → jsstring) (code : jsstring)
    (k : nat) (text name : jsstring) :
  let lines := split_on 10 code in
  lines !! k = Some text →
  startsWith (js "DECLARE") (trim text) = true →
  includes (js ":") (trim text) = true →
  name ∈ declaredNames (trim text) → isVariableName name = true →
  mem (U name) KEYWORDS = false →
  (∀ k', k < k' → L name ∈ declaredVariables (stateBefore U L lines k'))
  ∧ variableTypes (stateBefore U L lines (S k)) !! L name
    = Some (default (mkVarInfo (declaredType (trim text)) (k + 1))
              (variableTypes (stateBefore U L lines k) !! L name)).
Proof.
  intros lines Hk Hd Hcolon Hin Hname Hkw.
  destruct (declare_line_tables U L lines k text Hk Hd Hcolon) as (H7 & _ & Hafter).
  assert (Hklt : k ≤ length lines).
  { apply Nat.lt_le_incl. by eapply lookup_lt_Some. }
  destruct (stateBefore_tables U L lines k Hklt) as [[Hagree _] _].
  set (orig := variableTypes (stateBefore U L lines k) !! L name).
  set (info := mkVarInfo (declaredType (trim text)) (k + 1)).
  set (st7 := run (take 7 (lineRules U L lines k text)) (stateBefore U L lines k)) in *.
  injection H7 as E1 E2.
  destruct (forEach_after (declaring_inv (L name) orig info)
              (λ st, L name ∈ declaredVariables st)
              (declaredNames (trim text))
              (declareVariable U L (k + 1) (declaredType (trim text))) name Hin)
    with (st := st7) as [[Hag Hkey] Hdecl].
  - intros y st. apply declareVariable_inv.
  - intros st _. by apply declareVariable_declares.
  - intros y st _ Hin'.
    destruct (declareVariable_tables U L (k + 1) (declaredType (trim text)) y st)
      as [[= -> _]|[_ [= -> _]]]; [done|].
    cbn [declare declaredVariables]. apply elem_of_union. by right.
  - split; [by rewrite E1, E2|]. left. by rewrite E2.
  - injection Hafter as A1 A2. split.
    + intros k' Hk'.
      apply (stateBefore_declared_mono U L lines (S k) k'); [lia|].
      by rewrite A1.
    + rewrite A2. destruct Hkey as [Hkey|[Ho Hkey]].
      * rewrite Hkey. apply Hag in Hdecl as [pt Hpt].
        rewrite Hkey in Hpt. by rewrite Hpt.
      * by rewrite Hkey, Ho.
Qed.

Lemma declare_registers_witness :
  (∀ k', 0 < k' →
     latinLower (js "x")
     ∈ declaredVariables (stateBefore latinUpper latinLower
                            (split_on 10 example_declared_twice) k'))
  ∧ variableTypes (stateBefore latinUpper latinLower
                     (split_on 10 example_declared_twice) 1)
      !! latinLower (js "x")
    = Some (default
              (mkVarInfo (declaredType (trim (js "DECLARE x: INTEGER"))) (0 + 1))
              (variableTypes (stateBefore latinUpper latinLower
                                (split_on 10 example_declared_twice) 0)
                 !! latinLower (js "x"))).
Proof.
  apply (declare_registers latinUpper latinLower example_declared_twice 0
           (js "DECLARE x: INTEGER") (js "x")); try by vm_compute.
  vm_compute. repeat constructor.
Defined.

(** ** LENGTH *)

Lemma rmatch_seqs_cons r rs k s :
  rmatch (seqs (r :: rs)) k s = rmatch r (rmatch (seqs rs) k) s.
Proof. reflexivity. Qed.

Lemma rmatch_seqs_nil k s : rmatch (seqs []) k s = k s.
Proof. reflexivity. Qed.

(** A literal under the [i] flag matches itself. *)
Lemma rmatch_lit_i_self (cs : jsstring) k rest caps :
  ∀ prev,
    rmatch (seqs ((λ c, Chr (λ x, canon x =? canon c)%N) <$> cs)) k
      (mkMState prev (cs ++ rest) caps)
    = k (mkMState (after prev cs) rest caps).
Proof.
  induction cs as [|c cs IH]; intros prev; [done|].
  rewrite fmap_cons, rmatch_seqs_cons. cbn [app].
  rewrite rmatch_chr_cons, N.eqb_refl. apply IH.
Qed.

Lemma rmatch_lit_i s k prev rest caps :
  rmatch (lit_i s) k (mkMState prev (js s ++ rest) caps)
  = k (mkMState (after prev (js s)) rest caps).
Proof. apply rmatch_lit_i_self. Qed.

Lemma rmatch_one c k prev rest caps :
  rmatch (one c) k (mkMState prev (c :: rest) caps)
  = k (mkMState (Some c) rest caps).
Proof. unfold one. by rewrite rmatch_chr_cons, N.eqb_refl. Qed.

(** A greedy iteration that has nothing to take. *)
Lemma star_chr_skip p k prev r caps :
  stops p r →
  rmatch (Star true (Chr p)) k (mkMState prev r caps)
  = k (mkMState prev r caps).
Proof.
  intros Hr. destruct r as [|c t]; [done|].
  rewrite star_chr_cons. simpl in Hr. by rewrite Hr.
Qed.

Lemma rmatch_ident name k prev r caps :
  isName name → stops isAlnumU r →
  (∀ res, k (mkMState (after prev name) r ((1, name) :: caps)) = Some res →
   rmatch (Group 1 ident_u) k (mkMState prev (name ++ r) caps) = Some res).
Proof.
  intros Hname Hr res Hk.
  destruct name as [|c xs]; [done|]. destruct Hname as [Hc Hxs].
  unfold ident_u, star.
  rewrite rmatch_group, rmatch_seq. cbn [app]. rewrite rmatch_chr_cons, Hc.
  apply star_chr_run; [done|done|].
  cbn [ms_prev ms_rest ms_caps].
  by rewrite (take_consumed_cons c xs r).
Qed.

Lemma rmatch_length name post :
  isName name →
  rmatch re_length Some (mkMState None (lengthCall name ++ post) [])
  = Some (mkMState (Some 41%N) post [(1, name)]).
Proof.
  intros Hname. unfold re_length, lengthCall.
  assert (E : js "LENGTH(" = js "LENGTH" ++ [40%N]) by (by vm_compute).
  rewrite E. change (js ")") with [41%N]. rewrite <- !app_assoc. cbn [app].
  rewrite rmatch_seqs_cons, rmatch_lit_i.
  rewrite rmatch_seqs_cons. unfold star at 1, cSpace at 1.
  rewrite star_chr_skip by done.
  rewrite rmatch_seqs_cons.
  change (chr "(") with 40%N. rewrite rmatch_one.
  rewrite rmatch_seqs_cons. unfold star at 1, cSpace at 1.
  rewrite star_chr_skip.
  2:{ destruct name as [|c xs]; [done|]. destruct Hname as [Hc _]. simpl.
      by apply alnum_not_space, alphaU_alnumU. }
  rewrite rmatch_seqs_cons.
  apply rmatch_ident; [done|done|].
  rewrite rmatch_seqs_cons. unfold star, cSpace.
  rewrite star_chr_skip by done.
  rewrite rmatch_seqs_cons. change (chr ")") with 41%N. rewrite rmatch_one.
  reflexivity.
Qed.

Lemma exec_length name :
  isName name →
  ∃ m, exec re_length (lengthCall name) = Some m ∧ grp 1 m = name.
Proof.
  intros Hname.
  pose proof (rmatch_length name [] Hname) as H. rewrite app_nil_r in H.
  unfold exec. destruct (lengthCall name) as [|c t] eqn:Ht.
  - by vm_compute in Ht.
  - cbn [search]. rewrite H. eexists. split; [reflexivity|done].
Qed.

Section LengthSweep.
Variables U L : jsstring → jsstring.

(** The check of one match of the LENGTH pattern. *)
Lemma checkLengthCall_text n name vt st :
  isName name → variableTypes st !! L name = Some vt →
  hasLength U (var_type vt) = false →
  (λ match_ st,
     match exec re_length match_ with
     | None => st
     | Some varMatch =>
       match variableTypes st !! L (grp 1 varMatch) with
       | None => st
       | Some varType =>
         when (negb (includes (js "STRING") (U (var_type varType)))
               && negb (includes (js "ARRAY") (U (var_type varType))))
           (push n (js "LENGTH() can only be used with STRING or ARRAY variables, not "
                    ++ var_type varType) error) st
       end
     end) (lengthCall name) st
  = push n (lengthMisuse (var_type vt)) error st.
Proof.
  intros Hname Hvt Hno. cbv beta.
  destruct (exec_length name Hname) as (m & -> & ->). rewrite Hvt.
  unfold hasLength in Hno. apply orb_false_iff in Hno as [-> ->].
  cbn [negb andb when]. unfold lengthMisuse. reflexivity.
Qed.

Lemma sweeps_before_length_types lines st :
  variableTypes (checkExtraClosers lines (checkUnmatched st)) = variableTypes st.
Proof.
  transitivity (variableTypes (checkUnmatched st)).
  - apply (respects_forEachLine (same variableTypes)). intros i l. cbv zeta.
    repeat respects_step ltac:(intros ?; reflexivity).
  - unfold checkUnmatched. apply (respects_forEach (same variableTypes)).
    intros b st'. reflexivity.
Qed.

Ltac length_leaf := idtac;
  lazymatch goal with
  | |- keeping _ _ ?st (when _ (push _ _ _) ?st) =>
    let Hc := fresh in
    unfold when; destruct (_ && _) eqn:Hc;
    [ apply keeping_push;
      [ done
      | let HI := fresh in
        intros HI _; split; [done|];
        match goal with
        | Hv : variableTypes st !! ?v = Some ?vt |- _ =>
          exists v, vt; rewrite <- HI; split; [exact Hv|]; split;
          [|cbn [message]; unfold lengthMisuse; reflexivity];
          apply andb_true_iff in Hc as [Hc1 Hc2];
          apply negb_true_iff in Hc1, Hc2; unfold hasLength;
          rewrite Hc1, Hc2; reflexivity
        end ]
    | reflexivity ]
  end.

Lemma checkLength_provenance lines types :
  respects (keeping (λ st, variableTypes st = types)
              (prefixed (js "LENGTH() ") (lengthMisused U types)))
    (checkLength U L lines).
Proof.
  unfold checkLength. repeat respects_step length_leaf.
  all: cbv zeta; repeat respects_step length_leaf.
Qed.

Lemma lineRules_no_length lines k text :
  Forall (respects (grows (notPrefix (js "LENGTH() "))))
    (lineRules U L lines k text).
Proof. rules_grow notPrefix_leaf. Qed.

Lemma finalState_length lines :
  Forall (prefixed (js "LENGTH() ")
            (lengthMisused U (variableTypes (linePass U L lines initial))))
    (errs (finalState U L lines)).
Proof.
  set (types := variableTypes (linePass U L lines initial)).
  unfold finalState. rewrite (run_split 2). cbn [take drop].
  unfold run. cbn [foldl].
  set (st1 := linePass U L lines initial).
  assert (H1 : Forall (prefixed (js "LENGTH() ") (lengthMisused U types))
                 (errs (checkUnmatched st1))).
  { rewrite checkUnmatched_errs. apply Forall_app. split.
    - eapply Forall_impl; [|apply notPrefix_prefixed].
      apply linePass_by_line. intros k text Hk Hs.
      exact (respects_run _ _ (lineRules_no_length lines k text) _).
    - apply Forall_fmap, Forall_true. intros b H. by vm_compute in H. }
  assert (H2 : grows (prefixed (js "LENGTH() ") (lengthMisused U types))
                 (checkUnmatched st1) (checkExtraClosers lines (checkUnmatched st1))).
  { unfold checkExtraClosers. apply respects_forEachLine; [tc_solve|].
    intros i l. cbv zeta. repeat respects_step prefixed_leaf. }
  destruct (checkLength_provenance lines types
              (checkExtraClosers lines (checkUnmatched st1))) as [_ H3].
  { apply sweeps_before_length_types. }
  assert (H4 : grows (prefixed (js "LENGTH() ") (lengthMisused U types))
                 (checkLength U L lines (checkExtraClosers lines (checkUnmatched st1)))
                 (checkEmptyLoops lines
                    (checkLength U L lines (checkExtraClosers lines (checkUnmatched st1))))).
  { unfold checkEmptyLoops. apply respects_forEachLine; [tc_solve|].
    intros i l. cbv zeta. repeat respects_step prefixed_leaf. }
  destruct H2 as (l2 & E2 & Q2), H3 as (l3 & E3 & Q3), H4 as (l4 & E4 & Q4).
  rewrite E4, E3, E2. rewrite !Forall_app. done.
Qed.

(** What the LENGTH sweep pushes on line [k] is in the final state. *)
Lemma checkLength_reaches lines k text name vt :
  lines !! k = Some text → isName name →
  lengthCall name ∈ match_all re_length (trim text) →
  variableTypes (linePass U L lines initial) !! L name = Some vt →
  hasLength U (var_type vt) = false →
  mkError (k + 1) (lengthMisuse (var_type vt)) error
  ∈ errs (finalState U L lines).
Proof.
  intros Hk Hname Hin Hvt Hno. unfold finalState.
  rewrite (run_split 3). cbn [take drop].
  set (st3 := run [linePass U L lines; checkUnmatched; checkExtraClosers lines] initial).
  assert (Hst3 : variableTypes st3 = variableTypes (linePass U L lines initial))
    by apply sweeps_before_length_types.
  unfold run at 1. cbn [foldl].
  eapply elem_of_prefix;
    [|apply (grows_prefix anything);
      apply (respects_forEachLine (grows anything)); intros;
      cbv zeta; repeat respects_step any_leaf].
  unfold checkLength.
  rewrite (forEachLine_split k text _ 0 _ _ Hk).
  match goal with
  | |- _ ∈ errs (forEachLine ?i ?ls ?body ?st') =>
    assert (Hg : respects (grows anything) (forEachLine i ls body))
  end.
  { apply (respects_forEachLine (grows anything)). intros.
    cbv zeta. repeat respects_step any_leaf.
    all: cbv zeta; repeat respects_step any_leaf. }
  eapply elem_of_prefix; [|apply (grows_prefix anything), Hg].
  cbv zeta. rewrite Nat.add_0_l.
  apply (forEach_reaches_inv
           (λ st, variableTypes st = variableTypes (linePass U L lines initial))
           _ _ (lengthCall name)); [done| | | |].
  - intros y. repeat respects_step any_leaf.
  - intros y st Hst. rewrite <- Hst.
    destruct (exec re_length y); [|done].
    destruct (variableTypes st !! _); [|done].
    unfold when. by destruct (_ && _).
  - intros st Hst.
    rewrite (checkLengthCall_text (k + 1) name vt st); [|done|by rewrite Hst|done].
    cbn [push errs]. apply elem_of_app. right. by apply list_elem_of_singleton.
  - rewrite <- Hst3.
    apply (respects_forEachLine (same variableTypes)). intros i l. cbv zeta.
    apply (respects_forEach (same variableTypes)). intros y st.
    unfold same. destruct (exec re_length y); [|done].
    destruct (variableTypes st !! _); [|done].
    unfold when. by destruct (_ && _).
Qed.

End LengthSweep.

(** X14. LENGTH(v) is checked on every line against the types as they stand
    at the end of the line pass: if v is then recorded with a type that
    contains neither STRING nor ARRAY in upper case, the line gets the error
    that names the type.  Every diagnostic that starts with LENGTH() is such
    an error. *)
Theorem length_checked_against_final_types (U L : jsstring → jsstring)
    (code : jsstring) :
  let lines := split_on 10 code in
  let r := checkSyntax U L code in
  let types := variableTypes (linePass U L lines initial) in
  (∀ k text name vt,
     lines !! k = Some text → isName name →
     lengthCall name ∈ match_all re_length (trim text) →
     types !! L name = Some vt → hasLength U (var_type vt) = false →
     mkError (k + 1) (lengthMisuse (var_type vt)) error ∈ errors r)
  ∧ (∀ d, d ∈ errors r → startsWith (js "LENGTH() ") (message d) = true →
       type d = error
       ∧ ∃ v vt, types !! v = Some vt ∧ hasLength U (var_type vt) = false
                 ∧ message d = lengthMisuse (var_type vt)).
Proof.
  intros lines r types. split.
  - intros k text name vt Hk Hname Hin Hvt Hno.
    assert (Hc : existsb hasContent lines = true).
    { destruct (existsb hasContent lines) eqn:Hc; [done|].
      unfold types, linePass in Hvt.
      rewrite (no_content_linePass U L lines lines 0 initial Hc) in Hvt.
      unfold initial in Hvt. cbn [variableTypes] in Hvt.
      by rewrite lookup_empty in Hvt. }
    destruct (reported_error U L code (k + 1) (lengthMisuse (var_type vt)))
      as ([l m t] & Hd & Hl & Hm & Ht); [done| |by vm_compute|].
    + by apply (checkLength_reaches U L lines k text name vt).
    + cbn [line message type] in Hl, Hm, Ht. by subst.
  - intros d Hd Hp.
    apply (in_result U L code d
             (prefixed (js "LENGTH() ") (lengthMisused U types)));
      [|apply finalState_length|done|done].
    intros H. by vm_compute in H.
Qed.

Lemma length_checked_against_final_types_witness :
  mkError (1 + 1) (lengthMisuse (js "INTEGER")) error
  ∈ errors (check example_length_of_integer).
Proof.
  apply (proj1 (length_checked_against_final_types latinUpper latinLower
                  example_length_of_integer)
           1 (js "OUTPUT LENGTH(n)") (js "n") (mkVarInfo (js "INTEGER") 1)).
  - by vm_compute.
  - split; [by vm_compute | by repeat constructor].
  - vm_compute. repeat constructor.
  - by vm_compute.
  - by vm_compute.
Defined.

(** ** Character literals, foreign keywords, first occurrences *)

Section Literals.
Variables U L : jsstring → jsstring.

Lemma lineRules_emptyChar lines k text :
  lines !! k = Some text →
  Forall (respects (grows (λ d, message d = emptyChar → charAt lines isEmpty d)))
    (lineRules U L lines k text).
Proof.
  intros Hk. unfold lineRules; cbv zeta.
  repeat apply Forall_cons_2; [..|apply Forall_nil_2].
  15:{ unfold checkCharLiterals. cbv zeta.
       apply respects_forEach_elem; [tc_solve|]. intros x Hx.
       destruct (length (slice_1_m1 x) =? 0) eqn:He.
       - apply grows_push. intros _. split; [done|].
         exists k, text, (slice_1_m1 x). split; [done|]. split; [done|].
         split; [|done]. unfold charLiterals. by apply list_elem_of_fmap_2.
       - apply respects_when; [tc_solve|]. intros _. differs_leaf. }
  all: unfold_all_rules; cbv zeta.
  all: repeat respects_step ltac:(first [quiet_leaf | differs_leaf]).
  all: try (cbv zeta; repeat respects_step ltac:(first [quiet_leaf | differs_leaf])).
Qed.

Lemma lineRules_longChar lines k text :
  lines !! k = Some text →
  Forall (respects (grows (λ d, message d = longChar → charAt lines tooLong d)))
    (lineRules U L lines k text).
Proof.
  intros Hk. unfold lineRules; cbv zeta.
  repeat apply Forall_cons_2; [..|apply Forall_nil_2].
  15:{ unfold checkCharLiterals. cbv zeta.
       apply respects_forEach_elem; [tc_solve|]. intros x Hx.
       destruct (length (slice_1_m1 x) =? 0) eqn:He.
       - differs_leaf.
       - apply respects_when; [tc_solve|]. intros Hlong.
         apply grows_push. intros _. split; [done|].
         exists k, text, (slice_1_m1 x). split; [done|]. split; [done|].
         split; [|done]. unfold charLiterals. by apply list_elem_of_fmap_2. }
  all: unfold_all_rules; cbv zeta.
  all: repeat respects_step ltac:(first [quiet_leaf | differs_leaf]).
  all: try (cbv zeta; repeat respects_step ltac:(first [quiet_leaf | differs_leaf])).
Qed.

Lemma finalState_emptyChar lines :
  Forall (λ d, message d = emptyChar → charAt lines isEmpty d)
    (errs (finalState U L lines)).
Proof.
  apply final_by_parts.
  - apply linePass_by_line. intros k text Hk Hs.
    exact (respects_run _ _ (lineRules_emptyChar lines k text Hk) _).
  - apply Forall_fmap, Forall_true. intros b H. vm_compute in H. discriminate H.
  - sweeps_keep differs_leaf.
Qed.

Lemma finalState_longChar lines :
  Forall (λ d, message d = longChar → charAt lines tooLong d)
    (errs (finalState U L lines)).
Proof.
  apply final_by_parts.
  - apply linePass_by_line. intros k text Hk Hs.
    exact (respects_run _ _ (lineRules_longChar lines k text Hk) _).
  - apply Forall_fmap, Forall_true. intros b H. vm_compute in H. discriminate H.
  - sweeps_keep differs_leaf.
Qed.

Lemma checkCharLiterals_pushes n t lit st :
  lit ∈ match_all re_single_quoted t →
  (isEmpty (slice_1_m1 lit) = true →
   mkError n emptyChar error ∈ errs (checkCharLiterals n t st))
  ∧ (tooLong (slice_1_m1 lit) = true →
     mkError n longChar error ∈ errs (checkCharLiterals n t st)).
Proof.
  intros Hin. unfold checkCharLiterals. cbv zeta. split; intros H.
  - apply (forEach_reaches _ _ lit); [done| |].
    + intros y. repeat respects_step any_leaf.
    + intros st'. unfold isEmpty in H. rewrite H. cbn [push errs].
      apply elem_of_app. right. apply list_elem_of_singleton.
      unfold emptyChar. reflexivity.
  - apply (forEach_reaches _ _ lit); [done| |].
    + intros y. repeat respects_step any_leaf.
    + intros st'. unfold tooLong in H.
      destruct (length (slice_1_m1 lit) =? 0) eqn:He.
      * apply Nat.eqb_eq in He. rewrite He in H. done.
      * rewrite H. cbn [when push errs].
        apply elem_of_app. right. apply list_elem_of_singleton.
        unfold longChar. reflexivity.
Qed.

End Literals.

(** X15. On a line that is neither blank nor a comment, the error for an empty
    CHAR literal is reported exactly when one of its single-quoted literals
    is empty, and the error for a long one exactly when the content of one
    of them has more than one unit and does not start with a backslash. *)
Theorem char_literal_length (U L : jsstring → jsstring) (code : jsstring)
    (k : nat) (text : jsstring) :
  let r := checkSyntax U L code in
  split_on 10 code !! k = Some text → skipped (trim text) = false →
  (mkError (k + 1) emptyChar error ∈ errors r
   ↔ ∃ content, content ∈ charLiterals text ∧ content = [])
  ∧ (mkError (k + 1) longChar error ∈ errors r
     ↔ ∃ content, content ∈ charLiterals text ∧ tooLong content = true).
Proof.
  intros r Hk Hs.
  assert (Hc : existsb hasContent (split_on 10 code) = true)
    by (by eapply lookup_hasContent).
  pose proof (finalState_emptyChar U L (split_on 10 code)) as He.
  pose proof (finalState_longChar U L (split_on 10 code)) as Hl.
  rewrite Forall_forall in He, Hl.
  split; split.
  - intros Hd. apply (result_in_final U L code _ Hc) in Hd.
    destruct (He _ Hd) as (_ & k' & text' & content & Hk' & Hln & Hin & Hp);
      [cbn [message]; reflexivity|].
    cbn [line] in Hln. assert (k' = k) as -> by lia.
    rewrite Hk in Hk'. injection Hk' as <-.
    exists content. split; [done|]. unfold isEmpty in Hp.
    apply Nat.eqb_eq in Hp. by destruct content.
  - intros (content & Hin & ->).
    apply list_elem_of_fmap in Hin as (lit & Hlit & Hin).
    apply (reported_typed U L code); [done| |].
    + apply (rule_reaches U L (split_on 10 code) k text 14
               (checkCharLiterals (k + 1) (trim text))); [done|done|done|].
      refine (proj1 (checkCharLiterals_pushes (k + 1) (trim text) lit _ Hin) _).
      by rewrite <- Hlit.
    + intros d Hd Hm. by destruct (He d Hd Hm).
  - intros Hd. apply (result_in_final U L code _ Hc) in Hd.
    destruct (Hl _ Hd) as (_ & k' & text' & content & Hk' & Hln & Hin & Hp);
      [cbn [message]; reflexivity|].
    cbn [line] in Hln. assert (k' = k) as -> by lia.
    rewrite Hk in Hk'. injection Hk' as <-. by exists content.
  - intros (content & Hin & Hp).
    apply list_elem_of_fmap in Hin as (lit & -> & Hin).
    apply (reported_typed U L code); [done| |].
    + apply (rule_reaches U L (split_on 10 code) k text 14
               (checkCharLiterals (k + 1) (trim text))); [done|done|done|].
      exact (proj2 (checkCharLiterals_pushes (k + 1) (trim text) lit _ Hin) Hp).
    + intros d Hd Hm. by destruct (Hl d Hd Hm).
Qed.

Lemma char_literal_length_witness :
  (mkError (0 + 1) emptyChar error ∈ errors (check (js "OUTPUT 'ab'"))
   ↔ ∃ content, content ∈ charLiterals (js "OUTPUT 'ab'") ∧ content = [])
  ∧ (mkError (0 + 1) longChar error ∈ errors (check (js "OUTPUT 'ab'"))
     ↔ ∃ content, content ∈ charLiterals (js "OUTPUT 'ab'")
                  ∧ tooLong content = true).
Proof.
  apply (char_literal_length latinUpper latinLower (js "OUTPUT 'ab'") 0
           (js "OUTPUT 'ab'")); by vm_compute.
Defined.

(** X16. A word of a processed line that is, in upper case, one of CONTINUE,
    DO, SWITCH, DEFAULT, TRY and CATCH is reported as not being a keyword of
    the pseudocode. *)
Theorem foreign_keyword_reported (U L : jsstring → jsstring) (code : jsstring)
    (k : nat) (text word : jsstring) :
  split_on 10 code !! k = Some text → skipped (trim text) = false →
  word ∈ split_re re_spaces (trim text) →
  mem (U word) invalidKeywords = true →
  mkError (k + 1) (notKeyword word) error ∈ errors (checkSyntax U L code).
Proof.
  intros Hk Hs Hin Hkw.
  destruct (reported_error U L code (k + 1) (notKeyword word))
    as ([l m t] & Hd & Hl & Hm & Ht); [by eapply lookup_hasContent| |by vm_compute|].
  - apply (rule_reaches U L (split_on 10 code) k text 6
             (checkInvalidKeywords U (k + 1) (split_re re_spaces (trim text))));
      [done|done|done|].
    unfold checkInvalidKeywords.
    apply (forEach_reaches _ _ word); [done| |].
    + intros y. repeat respects_step any_leaf.
    + intros st'. rewrite Hkw. cbn [when push errs].
      apply elem_of_app. right. by apply list_elem_of_singleton.
  - cbn [line message type] in Hl, Hm, Ht. by subst.
Qed.

Lemma foreign_keyword_reported_witness :
  mkError (0 + 1) (notKeyword (js "switch")) error
  ∈ errors (check (js "switch x")).
Proof.
  apply (foreign_keyword_reported latinUpper latinLower (js "switch x") 0
           (js "switch x") (js "switch")); try by vm_compute.
  vm_compute. repeat constructor.
Defined.

(** X17. Deduplication keeps the order of the diagnostics, and keeps every
    diagnostic that is the first with its line and message. *)
Theorem deduplicate_keeps_first (es : list SyntaxError) :
  deduplicate es `sublist_of` es
  ∧ ∀ l1 e l2,
      es = l1 ++ e :: l2 →
      Forall (λ x, ¬ (line x = line e ∧ message x = message e)) l1 →
      e ∈ deduplicate es.
Proof.
  split; [apply deduplicate_sublist|].
  intros l1 e l2 -> Hl1. rewrite deduplicate_eq.
  assert (G : ∀ l1 keys,
            errorKey e ∉ keys →
            Forall (λ x, errorKey x ≠ errorKey e) l1 →
            e ∈ dedupFrom keys (l1 ++ e :: l2)).
  { clear. induction l1 as [|x l1 IH]; intros keys Hk Hl1; cbn [app dedupFrom].
    - rewrite bool_decide_eq_false_2 by done. left.
    - apply Forall_cons in Hl1 as [Hx Hl1].
      case_bool_decide; [by apply IH|]. right. apply IH; [|done].
      rewrite elem_of_union, elem_of_singleton. intros [?|?]; congruence. }
  apply G; [set_solver|].
  eapply Forall_impl; [exact Hl1|]. intros x Hx Hkey. apply Hx.
  by apply errorKey_inj.
Qed.

(** ** OPENFILE *)

Lemma rmatch_plus_chr p k xs r caps res prev :
  xs ≠ [] → Forall (λ c, p c = true) xs → stops p r →
  k (mkMState (after prev xs) r caps) = Some res →
  rmatch (plus (Chr p)) k (mkMState prev (xs ++ r) caps) = Some res.
Proof.
  intros Hne Hxs Hr Hk. destruct xs as [|c xs]; [done|].
  apply Forall_cons in Hxs as [Hc Hxs].
  unfold plus. rewrite rmatch_seq. cbn [app]. rewrite rmatch_chr_cons, Hc.
  by apply star_chr_run.
Qed.

Lemma rmatch_group_plus p i k xs r caps res prev :
  xs ≠ [] → Forall (λ c, p c = true) xs → stops p r →
  k (mkMState (after prev xs) r ((i, xs) :: caps)) = Some res →
  rmatch (Group i (plus (Chr p))) k (mkMState prev (xs ++ r) caps) = Some res.
Proof.
  intros Hne Hxs Hr Hk. rewrite rmatch_group.
  apply rmatch_plus_chr; [done..|].
  cbn [ms_prev ms_rest ms_caps]. by rewrite take_consumed.
Qed.

Lemma rmatch_openfile file mode rest :
  file ≠ [] → Forall (λ c, isSpace c = false) file →
  mode ≠ [] → Forall (λ c, isWordChar c = true) mode → stops isWordChar rest →
  ∃ prev, rmatch re_openfile Some (mkMState None (openfileText file mode rest) [])
          = Some (mkMState prev rest [(1, mode)]).
Proof.
  intros Hf Hfile Hm Hmode Hrest. eexists. unfold re_openfile, openfileText.
  assert (E1 : js "OPENFILE " = js "OPENFILE" ++ [32%N]) by (by vm_compute).
  assert (E2 : js " FOR " = [32%N] ++ js "FOR" ++ [32%N]) by (by vm_compute).
  rewrite E1, E2, <- !app_assoc.
  rewrite rmatch_seqs_cons, rmatch_lit_i.
  rewrite rmatch_seqs_cons. unfold cSpace.
  apply (rmatch_plus_chr isSpace _ [32%N]); [done|by repeat constructor| |].
  { destruct file as [|c f]; [done|]. apply Forall_cons in Hfile as [Hc _]. done. }
  rewrite rmatch_seqs_cons. unfold cNonSpace.
  apply rmatch_plus_chr; [done| |done|].
  { eapply Forall_impl; [exact Hfile|]. cbv beta. by intros c ->. }
  rewrite rmatch_seqs_cons.
  apply (rmatch_plus_chr isSpace _ [32%N]); [done|by repeat constructor|done|].
  rewrite rmatch_seqs_cons, rmatch_lit_i.
  rewrite rmatch_seqs_cons.
  apply (rmatch_plus_chr isSpace _ [32%N]); [done|by repeat constructor| |].
  { destruct mode as [|c m]; [done|]. apply Forall_cons in Hmode as [Hc _].
    simpl. by apply alnum_not_space. }
  rewrite rmatch_seqs_cons. unfold cWord.
  apply rmatch_group_plus; [done|done|done|].
  rewrite rmatch_seqs_nil. reflexivity.
Qed.

Lemma exec_openfile file mode rest :
  file ≠ [] → Forall (λ c, isSpace c = false) file →
  mode ≠ [] → Forall (λ c, isWordChar c = true) mode → stops isWordChar rest →
  ∃ m, exec re_openfile (openfileText file mode rest) = Some m
       ∧ grp 1 m = mode.
Proof.
  intros Hf Hfile Hm Hmode Hrest.
  destruct (rmatch_openfile file mode rest Hf Hfile Hm Hmode Hrest) as [prev H].
  unfold exec. destruct (openfileText file mode rest) as [|c t] eqn:Ht.
  - by vm_compute in Ht.
  - cbn [search]. rewrite H. eexists. split; [reflexivity|done].
Qed.

Lemma invalidMode_inj a b : invalidMode a = invalidMode b → a = b.
Proof.
  unfold invalidMode. intros H. apply app_inv_head in H.
  by apply app_inv_tail in H.
Qed.

Section Files.
Variables U L : jsstring → jsstring.

Lemma lineRules_openfile lines k text :
  lines !! k = Some text →
  Forall (respects (grows (prefixed (js "Invalid file mode '")
                             (modeRejected U lines))))
    (lineRules U L lines k text).
Proof.
  intros Hk.
  rules_grow ltac:(first
    [ prefixed_leaf
    | apply grows_push; intros _; split; [done|];
      match goal with
      | He : exec re_openfile _ = Some ?m,
        Hm : negb (mem _ _) = true |- _ =>
        exists k, text, m; apply negb_true_iff in Hm;
        split; [exact Hk|]; split; [done|]; split; [exact He|];
        split; [exact Hm|]; cbn [message]; unfold invalidMode; reflexivity
      end ]).
Qed.

Lemma finalState_openfile lines :
  Forall (prefixed (js "Invalid file mode '") (modeRejected U lines))
    (errs (finalState U L lines)).
Proof.
  apply final_by_parts.
  - apply linePass_by_line. intros k text Hk Hs.
    exact (respects_run _ _ (lineRules_openfile lines k text Hk) _).
  - apply Forall_fmap, Forall_true. intros b H. by vm_compute in H.
  - sweeps_keep prefixed_leaf.
Qed.

Lemma checkOpenfile_text n file mode rest st :
  file ≠ [] → Forall (λ c, isSpace c = false) file →
  mode ≠ [] → Forall (λ c, isWordChar c = true) mode → stops isWordChar rest →
  checkOpenfile U n (openfileText file mode rest) st
  = when (negb (mem (U mode) fileModes))
      (push n (invalidMode (U mode)) error) st.
Proof.
  intros Hf Hfile Hm Hmode Hrest. unfold checkOpenfile.
  assert (startsWith (js "OPENFILE") (openfileText file mode rest) = true) as ->.
  { unfold openfileText.
    assert (E1 : js "OPENFILE " = js "OPENFILE" ++ [32%N]) by (by vm_compute).
    rewrite E1, <- app_assoc. apply startsWith_app. }
  cbn [when].
  destruct (exec_openfile file mode rest Hf Hfile Hm Hmode Hrest) as (m & -> & ->).
  unfold fileModes, invalidMode. reflexivity.
Qed.

End Files.

(** X18. A statement OPENFILE file FOR mode gets the invalid-mode error, which
    names the mode in upper case, exactly when the upper-cased mode is none
    of READ, WRITE and APPEND; with one of them no diagnostic of that form
    sits on the line. *)
Theorem openfile_mode_checked (U L : jsstring → jsstring) (code : jsstring)
    (k : nat) (text file mode rest : jsstring) :
  split_on 10 code !! k = Some text →
  trim text = openfileText file mode rest →
  file ≠ [] → Forall (λ c, isSpace c = false) file →
  mode ≠ [] → Forall (λ c, isWordChar c = true) mode → stops isWordChar rest →
  (mkError (k + 1) (invalidMode (U mode)) error ∈ errors (checkSyntax U L code)
   ↔ U mode ∉ fileModes)
  ∧ (U mode ∈ fileModes →
     ∀ d, d ∈ errors (checkSyntax U L code) → line d = k + 1 →
          startsWith (js "Invalid file mode '") (message d) = false).
Proof.
  intros Hk Ht Hf Hfile Hm Hmode Hrest.
  assert (Hs : skipped (trim text) = false).
  { rewrite Ht. by vm_compute. }
  assert (Hc : existsb hasContent (split_on 10 code) = true)
    by (by eapply lookup_hasContent).
  destruct (exec_openfile file mode rest Hf Hfile Hm Hmode Hrest) as (m & Hexec & Hgrp).
  pose proof (finalState_openfile U L (split_on 10 code)) as Hprov.
  rewrite Forall_forall in Hprov.
  assert (Honly : ∀ d, d ∈ errors (checkSyntax U L code) → line d = k + 1 →
            startsWith (js "Invalid file mode '") (message d) = true →
            mem (U mode) fileModes = false).
  { intros d Hd Hl Hp. apply (result_in_final U L code _ Hc) in Hd.
    destruct (Hprov d Hd Hp) as (_ & k' & text' & m' & Hk' & Hl' & He' & Hmem & _).
    assert (k' = k) as -> by lia. rewrite Hk in Hk'. injection Hk' as <-.
    rewrite Ht, Hexec in He'. injection He' as <-. by rewrite Hgrp in Hmem. }
  split; [split|].
  - intros Hd. rewrite <- mem_elem_of.
    rewrite (Honly _ Hd eq_refl); [done|]. apply startsWith_app.
  - intros Hno.
    destruct (reported_error U L code (k + 1) (invalidMode (U mode)))
      as ([l msg t] & Hd & Hl & Hmsg & Hty); [done| |by vm_compute|].
    + apply (rule_reaches U L (split_on 10 code) k text 21
               (checkOpenfile U (k + 1) (trim text))); [done|done|done|].
      rewrite Ht, checkOpenfile_text by done.
      assert (mem (U mode) fileModes = false) as ->.
      { apply not_true_iff_false. by rewrite mem_elem_of. }
      cbn [negb when push errs].
      apply elem_of_app. right. by apply list_elem_of_singleton.
    + cbn [line message type] in Hl, Hmsg, Hty. by subst.
  - intros Hin d Hd Hl. apply not_true_iff_false. intros Hp.
    apply mem_elem_of in Hin. by rewrite (Honly d Hd Hl Hp) in Hin.
Qed.

Lemma openfile_mode_checked_witness :
  (mkError (0 + 1) (invalidMode (latinUpper (js "delete"))) error
   ∈ errors (check (js "OPENFILE data.txt FOR delete"))
   ↔ latinUpper (js "delete") ∉ fileModes)
  ∧ (latinUpper (js "delete") ∈ fileModes →
     ∀ d, d ∈ errors (check (js "OPENFILE data.txt FOR delete")) →
          line d = 0 + 1 →
          startsWith (js "Invalid file mode '") (message d) = false).
Proof.
  apply (openfile_mode_checked latinUpper latinLower
           (js "OPENFILE data.txt FOR delete") 0
           (js "OPENFILE data.txt FOR delete") (js "data.txt") (js "delete") []).
  - by vm_compute.
  - by vm_compute.
  - done.
  - by repeat constructor.
  - done.
  - by repeat constructor.
  - done.
Defined.

(** ** Checks on the format of a line *)

(** What a step pushes in every state is there after the steps. *)
Lemma run_step_reaches (steps : list (State → State)) i f e st :
  steps !! i = Some f → Forall (respects (grows anything)) steps →
  (∀ st', e ∈ errs (f st')) → e ∈ errs (run steps st).
Proof.
  intros Hi Hg He. rewrite (run_split i), (drop_S _ _ _ Hi), run_cons.
  eapply elem_of_prefix; [apply He|].
  apply (grows_prefix anything), (respects_run (grows anything)).
  by apply Forall_drop.
Qed.

Section Formats.
Variables U L : jsstring → jsstring.

Ltac format_leaf k text Hk :=
  apply grows_push; unfold formatSound, formatChecks;
  repeat apply Forall_cons_2; [..|apply Forall_nil_2];
  cbn [fst snd];
  (let Hm := fresh in
   intros Hm;
   first
   [ vm_compute in Hm; discriminate Hm
   | split; [reflexivity|]; exists k, text;
     split; [exact Hk|]; split; [reflexivity|]; cbv beta;
     repeat match goal with
            | H : ?b = true |- context [?b] => rewrite H
            end;
     reflexivity ]).

Lemma lineRules_format lines k text :
  lines !! k = Some text →
  Forall (respects (grows (formatSound U lines))) (lineRules U L lines k text).
Proof.
  intros Hk.
  unfold lineRules; cbv zeta.
  repeat apply Forall_cons_2; [..|apply Forall_nil_2].
  all: unfold_all_rules; cbv zeta.
  all: repeat respects_step ltac:(first [quiet_leaf | format_leaf k text Hk]).
  all: try (cbv zeta; repeat respects_step ltac:(first [quiet_leaf | format_leaf k text Hk])).
Qed.

Ltac format_other :=
  apply grows_push; unfold formatSound, formatChecks;
  repeat apply Forall_cons_2; [..|apply Forall_nil_2];
  cbn [fst snd];
  (let Hm := fresh in intros Hm; vm_compute in Hm; discriminate Hm).

Lemma finalState_format lines :
  Forall (formatSound U lines) (errs (finalState U L lines)).
Proof.
  apply final_by_parts.
  - apply linePass_by_line. intros k text Hk Hs.
    exact (respects_run _ _ (lineRules_format lines k text Hk) _).
  - apply Forall_fmap, Forall_true. intros b.
    unfold formatSound, formatChecks.
    repeat apply Forall_cons_2; [..|apply Forall_nil_2].
    all: cbn [fst snd]; intros Hm; vm_compute in Hm; discriminate Hm.
  - sweeps_keep format_other.
Qed.

Ltac split_cond :=
  repeat match goal with
         | H : _ && _ = true |- _ => apply andb_true_iff in H as [? ?]
         end;
  repeat match goal with
         | H : ?b = true |- context [?b] => rewrite H
         end;
  cbn [negb andb when].

Ltac now_pushed :=
  cbn [push errs]; apply elem_of_app; right; by apply list_elem_of_singleton.

Ltac all_grow :=
  repeat apply Forall_cons_2; [..|apply Forall_nil_2];
  unfold declareParameters; repeat respects_step any_leaf.

(** Each check pushes its message when its condition holds. *)
Lemma formatChecks_pushed lines k text :
  lines !! k = Some text → skipped (trim text) = false →
  Forall (λ p, p.2 (trim text) = true →
               mkError (k + 1) p.1 error ∈ errs (finalState U L lines))
    (formatChecks U).
Proof.
  intros Hk Hs. unfold formatChecks.
  repeat apply Forall_cons_2; [..|apply Forall_nil_2]; cbn [fst snd]; intros Hc.
  - apply (rule_reaches U L lines k text 1
             (checkAssignmentOperator (k + 1) (trim text))); [done|done|done|].
    unfold checkAssignmentOperator. cbv zeta. split_cond. now_pushed.
  - apply (rule_reaches U L lines k text 7
             (checkDeclare U L (k + 1) (trim text))); [done|done|done|].
    unfold checkDeclare. split_cond. now_pushed.
  - apply (rule_reaches U L lines k text 8
             (checkConstant L (k + 1) (trim text))); [done|done|done|].
    unfold checkConstant. split_cond.
    eapply (run_step_reaches _ 0); [done|all_grow|].
    intros st'. split_cond. now_pushed.
  - apply (rule_reaches U L lines k text 8
             (checkConstant L (k + 1) (trim text))); [done|done|done|].
    unfold checkConstant. split_cond.
    eapply (run_step_reaches _ 1); [done|all_grow|].
    intros st'. split_cond. now_pushed.
  - apply (rule_reaches U L lines k text 9
             (checkArrayFormat (k + 1) (trim text))); [done|done|done|].
    unfold checkArrayFormat. split_cond.
    eapply (run_step_reaches _ 0); [done|all_grow|].
    intros st'. split_cond. now_pushed.
  - apply (rule_reaches U L lines k text 9
             (checkArrayFormat (k + 1) (trim text))); [done|done|done|].
    unfold checkArrayFormat. split_cond.
    eapply (run_step_reaches _ 1); [done|all_grow|].
    intros st'. split_cond. now_pushed.
  - apply (rule_reaches U L lines k text 10
             (checkForSyntax (k + 1) (trim text))); [done|done|done|].
    unfold checkForSyntax. split_cond. now_pushed.
  - apply (rule_reaches U L lines k text 12
             (checkWhileParentheses (k + 1) (trim text))); [done|done|done|].
    unfold checkWhileParentheses. split_cond. now_pushed.
  - apply (rule_reaches U L lines k text 23
             (checkFunction L (k + 1) (trim text))); [done|done|done|].
    unfold checkFunction. split_cond.
    eapply (run_step_reaches _ 0); [done|all_grow|].
    intros st'. split_cond. now_pushed.
  - apply (rule_reaches U L lines k text 3
             (checkStructure U (k + 1) (trim text) (split_re re_spaces (trim text))));
      [done|done|done|].
    unfold checkStructure. cbv zeta. split_cond. now_pushed.
  - apply (rule_reaches U L lines k text 15
             (checkCharDeclaration (k + 1) (trim text))); [done|done|done|].
    unfold checkCharDeclaration. split_cond. now_pushed.
Qed.

End Formats.

(** X19. Eleven checks depend on the text of the line alone.  On a line that
    is neither blank nor a comment, the message of each is reported as an
    error exactly when its condition holds of the trimmed line. *)
Theorem format_checks_iff (U L : jsstring → jsstring) (code : jsstring)
    (k : nat) (text : jsstring) :
  split_on 10 code !! k = Some text → skipped (trim text) = false →
  Forall (λ p, mkError (k + 1) p.1 error ∈ errors (checkSyntax U L code)
               ↔ p.2 (trim text) = true)
    (formatChecks U).
Proof.
  intros Hk Hs.
  assert (Hc : existsb hasContent (split_on 10 code) = true)
    by (by eapply lookup_hasContent).
  pose proof (finalState_format U L (split_on 10 code)) as Hprov.
  rewrite Forall_forall in Hprov.
  pose proof (formatChecks_pushed U L (split_on 10 code) k text Hk Hs) as Hpush.
  rewrite Forall_forall in Hpush.
  apply Forall_forall. intros p Hp. split.
  - intros Hd. apply (result_in_final U L code _ Hc) in Hd.
    specialize (Hprov _ Hd). unfold formatSound in Hprov.
    rewrite Forall_forall in Hprov.
    destruct (Hprov p Hp) as (_ & k' & text' & Hk' & Hl & Hcond);
      [cbn [message]; reflexivity|].
    cbn [line] in Hl. assert (k' = k) as -> by lia. congruence.
  - intros Hcond. apply (reported_typed U L code); [done|by apply Hpush|].
    intros d Hd Hm. specialize (Hprov _ Hd). unfold formatSound in Hprov.
    rewrite Forall_forall in Hprov. by destruct (Hprov p Hp Hm).
Qed.

Lemma format_checks_iff_witness :
  Forall (λ p, mkError (0 + 1) p.1 error ∈ errors (check (js "x = 1"))
               ↔ p.2 (trim (js "x = 1")) = true)
    (formatChecks latinUpper).
Proof.
  apply (format_checks_iff latinUpper latinLower (js "x = 1") 0 (js "x = 1"));
    by vm_compute.
Defined.

(** ** The shape of identifiers *)

(** *** What a global match returns *)

Lemma search_sound r rest :
  ∀ idx prev m,
    search r idx prev rest = Some m →
    ∃ prev' rest',
      rmatch r Some (mkMState prev' rest' []) = Some (m_end m)
      ∧ m_text m = take (length rest' - length (ms_rest (m_end m))) rest'.
Proof.
  induction rest as [|c t IH]; intros idx prev m; cbn [search].
  - destruct (rmatch r Some _) as [e|] eqn:He; [|done].
    intros [= <-]. by exists prev, [].
  - destruct (rmatch r Some _) as [e|] eqn:He.
    + intros [= <-]. by exists prev, (c :: t).
    + apply IH.
Qed.

(** Every text of a global match is what the pattern consumed somewhere. *)
Lemma match_all_from_sound r fuel :
  ∀ prev rest x,
    x ∈ match_all_from r fuel prev rest →
    ∃ prev' rest' e,
      rmatch r Some (mkMState prev' rest' []) = Some e
      ∧ x = take (length rest' - length (ms_rest e)) rest'.
Proof.
  induction fuel as [|f IH]; intros prev rest x; cbn [match_all_from].
  - by intros ?%elem_of_nil.
  - destruct (search r 0 prev rest) as [m|] eqn:Hm; [|by intros ?%elem_of_nil].
    intros [->|Hx]%elem_of_cons.
    + destruct (search_sound _ _ _ _ _ Hm) as (p' & r' & He & Ht).
      by exists p', r', (m_end m).
    + destruct (m_text m), (ms_rest (m_end m));
        first [by apply elem_of_nil in Hx | by eapply IH].
Qed.

Lemma match_all_sound r s x :
  x ∈ match_all r s →
  ∃ prev' rest' e,
    rmatch r Some (mkMState prev' rest' []) = Some e
    ∧ x = take (length rest' - length (ms_rest e)) rest'.
Proof. apply match_all_from_sound. Qed.

Lemma rmatch_wordb k s :
  rmatch WordB k s
  = if xorb (is_word (ms_prev s)) (is_word (head (ms_rest s))) then k s else None.
Proof. reflexivity. Qed.

(** A match of the identifier pattern is a letter followed by word
    characters. *)
Lemma identifier_match_shape t x :
  x ∈ match_all re_identifier t →
  ∃ c a, x = c :: a ∧ isAlpha c = true ∧ Forall (λ c, isAlnumU c = true) a.
Proof.
  intros (prev & rest & e & He & ->)%match_all_sound.
  change (rmatch re_identifier Some _) with
    (rmatch WordB
       (rmatch (Chr isAlpha)
          (rmatch (Star true (Chr isAlnumU)) (rmatch WordB Some)))
       (mkMState prev rest [])) in He.
  rewrite rmatch_wordb in He. destruct (xorb _ _); [|done].
  destruct rest as [|c t']; [done|]. rewrite rmatch_chr_cons in He.
  destruct (isAlpha c) eqn:Hc; [|done].
  apply star_chr_inv in He as (a & b & -> & Ha & He).
  rewrite rmatch_wordb in He. destruct (xorb _ _); [|done].
  injection He as <-. cbn [ms_rest].
  exists c, a. by rewrite (take_consumed_cons c a b).
Qed.

Lemma identifier_not_leading_digit c a :
  isAlpha c = true → test re_leading_digit (c :: a) = false.
Proof.
  intros Hc. apply not_true_iff_false. intros [res H]%test_bol.
  change (rmatch _ _ _) with
    (rmatch (Chr isDigit) Some (mkMState None (c :: a) [])) in H.
  rewrite rmatch_chr_cons in H.
  assert (isDigit c = false) as Hd.
  { apply not_true_iff_false. intros Hd. class_solve. }
  by rewrite Hd in H.
Qed.

Lemma identifier_whole c a :
  isAlpha c = true → Forall (λ c, isAlnumU c = true) a →
  test re_identifier_whole (c :: a) = true.
Proof.
  intros Hc Ha. apply test_bol. exists (mkMState (after (Some c) a) [] []).
  change (rmatch _ _ _) with
    (rmatch (Chr isAlpha)
       (rmatch (Star true (Chr isAlnumU)) (rmatch Eol Some))
       (mkMState None (c :: a) [])).
  rewrite rmatch_chr_cons, Hc. by apply star_chr_all.
Qed.

Section Identifiers.
Variables U L : jsstring → jsstring.

Lemma lineRules_no_identifier lines k text :
  Forall (respects (grows (notPrefix (js "Identifier '"))))
    (lineRules U L lines k text).
Proof.
  unfold lineRules; cbv zeta.
  repeat apply Forall_cons_2; [..|apply Forall_nil_2].
  3:{ unfold checkIdentifiers. cbv zeta.
      apply respects_forEach_elem; [tc_solve|]. intros x Hx.
      destruct (identifier_match_shape _ _ Hx) as (c & a & -> & Hc & Ha).
      apply respects_when; [tc_solve|]. intros _.
      apply respects_run; [tc_solve|].
      repeat apply Forall_cons_2; [..|apply Forall_nil_2].
      - apply respects_when; [tc_solve|]. intros H.
        by rewrite identifier_not_leading_digit in H.
      - apply respects_when; [tc_solve|]. intros H.
        by rewrite identifier_whole in H. }
  all: unfold_all_rules; cbv zeta.
  all: repeat respects_step ltac:(first [quiet_leaf | notPrefix_leaf]).
  all: try (cbv zeta; repeat respects_step ltac:(first [quiet_leaf | notPrefix_leaf])).
Qed.

Lemma finalState_no_identifier lines :
  Forall (notPrefix (js "Identifier '")) (errs (finalState U L lines)).
Proof.
  apply final_by_parts.
  - apply linePass_by_line. intros k text Hk Hs.
    exact (respects_run _ _ (lineRules_no_identifier lines k text) _).
  - apply Forall_fmap, Forall_true. intros b. by vm_compute.
  - sweeps_keep notPrefix_leaf.
Qed.

End Identifiers.

(** X20. No diagnostic on the shape of an identifier is ever produced: the
    words the rule looks at start with a letter and consist of letters,
    digits and underscores, so neither of its two tests can fail. *)
Theorem identifier_shape_never_reported (U L : jsstring → jsstring)
    (code : jsstring) :
  Forall (λ d, startsWith (js "Identifier '") (message d) = false)
    (errors (checkSyntax U L code)).
Proof.
  apply Forall_forall. intros d.
  apply (in_result U L code d (notPrefix (js "Identifier '"))).
  - by vm_compute.
  - apply finalState_no_identifier.
Qed.

(** ** CALL *)

Lemma exec_call ws name rest :
  Forall (λ c, isSpace c = true) ws → isName name → stops isAlnumU rest →
  ∃ m, exec re_call (callText ws name rest) = Some m ∧ grp 1 m = name.
Proof.
  intros Hws Hname Hrest.
  assert (E : js "CALL " = js "CALL" ++ [32%N]) by (by vm_compute).
  assert (H : rmatch re_call Some (mkMState None (callText ws name rest) [])
              = Some (mkMState (after (after (after None (js "CALL")) (32%N :: ws)) name)
                        rest [(1, name)])).
  { unfold re_call, callText. rewrite E, <- !app_assoc.
    rewrite rmatch_seqs_cons, rmatch_lit_i.
    rewrite rmatch_seqs_cons. unfold cSpace.
    rewrite (app_assoc [32%N] ws).
    apply (rmatch_plus_chr isSpace _ ([32%N] ++ ws)); [done|by constructor| |].
    { destruct name as [|c xs]; [done|]. destruct Hname as [Hc _]. simpl.
      by apply alnum_not_space, alphaU_alnumU. }
    rewrite rmatch_seqs_cons.
    apply rmatch_ident; [done|done|]. reflexivity. }
  unfold exec. destruct (callText ws name rest) as [|c t] eqn:Ht.
  - by vm_compute in Ht.
  - cbn [search]. rewrite H. eexists. split; [reflexivity|done].
Qed.

Lemma callOfFunction_inj a b : callOfFunction a = callOfFunction b → a = b.
Proof.
  unfold callOfFunction. intros H. apply app_inv_head in H.
  by apply app_inv_tail in H.
Qed.

Lemma callOfFunction_prefix name :
  startsWith (js "CALL should ") (callOfFunction name) = true.
Proof. by vm_compute. Qed.

Lemma skipped_not_function t :
  skipped t = true → startsWith (js "FUNCTION") t = false.
Proof.
  intros Hs. apply not_true_iff_false. intros Hf.
  apply (starts_not_skipped 70 (js "UNCTION")) in Hf; [congruence|done].
Qed.

Section Calls.
Variables U L : jsstring → jsstring.

Ltac same_functions_leaf := idtac;
  lazymatch goal with
  | |- respects (same _) (push _ _ _) => intros ?; reflexivity
  | |- respects (same _) (set_blockStack _) => intros ?; reflexivity
  | |- respects (same _) (set_array _ _) => intros ?; reflexivity
  | |- respects (same _) (declare _ _) => intros ?; reflexivity
  | |- same _ ?st (declare _ _ ?st) => reflexivity
  | |- same _ ?st (push _ _ _ ?st) => reflexivity
  | |- same _ ?st (when _ (push _ _ _) ?st) => by destruct (_ : bool)
  end.

(** Only the FUNCTION rule, the last but one, touches the table of
    functions. *)
Lemma lineRules_same_functions lines k text :
  Forall (respects (same declaredFunctions))
    (take 23 (lineRules U L lines k text)).
Proof.
  unfold lineRules. cbv zeta. cbn [take].
  repeat apply Forall_cons_2; [..|apply Forall_nil_2].
  all: unfold_all_rules; cbv zeta.
  all: repeat respects_step same_functions_leaf.
  all: try (cbv zeta; repeat respects_step same_functions_leaf).
Qed.

Lemma declareParameters_same_functions n kw t :
  respects (same declaredFunctions) (declareParameters L n kw t).
Proof.
  unfold declareParameters.
  repeat respects_step same_functions_leaf.
  all: try (cbv zeta; repeat respects_step same_functions_leaf).
Qed.

Lemma checkFunction_functions n t st f :
  f ∈ declaredFunctions (checkFunction L n t st)
  ↔ f ∈ declaredFunctions st ∨ functionNamed L t f.
Proof.
  unfold checkFunction, functionNamed, when.
  destruct (startsWith (js "FUNCTION") t).
  2:{ split; [by left|]. by intros [?|[? _]]. }
  rewrite !run_cons. unfold run. cbn [foldl].
  rewrite (declareParameters_same_functions n "FUNCTION" t).
  destruct (exec re_function_name t) as [m|].
  - destruct (negb _); cbn [add_function push declaredFunctions];
      rewrite elem_of_union, elem_of_singleton.
    all: split;
      [ intros [->|?]; [right; split; [done|by exists m] | by left]
      | intros [?|[_ (m' & [= <-] & ->)]]; [by right | by left] ].
  - destruct (negb _); cbn [push declaredFunctions id].
    all: split; [by left | by intros [?|[_ (? & ? & _)]]].
Qed.

Lemma checkProcedure_same_functions n t :
  respects (same declaredFunctions) (checkProcedure L n t).
Proof.
  unfold checkProcedure. apply respects_when; [tc_solve|]. intros _.
  apply declareParameters_same_functions.
Qed.

(** What a line adds to the table of functions. *)
Lemma line_functions lines k text st f :
  f ∈ declaredFunctions (run (lineRules U L lines k text) st)
  ↔ f ∈ declaredFunctions st ∨ functionNamed L (trim text) f.
Proof.
  rewrite (run_split 23).
  change (drop 23 (lineRules U L lines k text))
    with [checkFunction L (k + 1) (trim text);
          checkProcedure L (k + 1) (trim text)].
  rewrite !run_cons. unfold run at 1. cbn [foldl].
  rewrite (checkProcedure_same_functions (k + 1) (trim text)).
  rewrite checkFunction_functions.
  by rewrite (respects_run (same declaredFunctions) _
                (lineRules_same_functions lines k text) st).
Qed.

(** The table of functions holds the names of the headings met so far. *)
Lemma stateBefore_functions lines k f :
  f ∈ declaredFunctions (stateBefore U L lines k) ↔ functionsBefore L lines k f.
Proof.
  induction k as [|k IH].
  - split; [by intros ?%elem_of_empty|]. intros (j & _ & Hj & _). lia.
  - assert (Hstep : functionsBefore L lines (S k) f
              ↔ functionsBefore L lines k f
                ∨ ∃ text, lines !! k = Some text ∧ functionNamed L (trim text) f).
    { split.
      - intros (j & text & Hj & Hl & Hf).
        destruct (decide (j = k)) as [->|Hne].
        + right. by exists text.
        + left. exists j, text. split; [lia|done].
      - intros [(j & text & Hj & Hl & Hf)|(text & Hl & Hf)].
        + exists j, text. split; [lia|done].
        + exists k, text. split; [lia|done]. }
    rewrite Hstep, <- IH. clear Hstep IH.
    destruct (lines !! k) as [text|] eqn:Hk.
    + destruct (skipped (trim text)) eqn:Hs.
      * rewrite (stateBefore_skipped U L lines k text) by done.
        split; [by left|]. intros [?|(text' & [= <-] & Hf & _)]; [done|].
        by rewrite skipped_not_function in Hf.
      * rewrite (stateBefore_processed U L lines k text) by done.
        rewrite line_functions. split.
        -- intros [?|?]; [by left|]. right. by exists text.
        -- intros [?|(text' & [= <-] & ?)]; [by left|by right].
    + apply lookup_ge_None in Hk.
      rewrite !(stateBefore_all U L lines) by lia.
      split; [by left|]. by intros [?|(? & ? & _)].
Qed.

Lemma lineRules_no_call lines k text :
  Forall (respects (grows (notPrefix (js "CALL should "))))
    (take 20 (lineRules U L lines k text))
  ∧ Forall (respects (grows (notPrefix (js "CALL should "))))
      (drop 21 (lineRules U L lines k text)).
Proof.
  unfold lineRules. cbv zeta. cbn [take drop]. split.
  all: repeat apply Forall_cons_2; [..|apply Forall_nil_2].
  all: unfold_all_rules; cbv zeta.
  all: repeat respects_step ltac:(first [quiet_leaf | notPrefix_leaf]).
  all: try (cbv zeta; repeat respects_step ltac:(first [quiet_leaf | notPrefix_leaf])).
Qed.

Lemma functions_at_call lines k text st :
  declaredFunctions (run (take 20 (lineRules U L lines k text)) st)
  = declaredFunctions st.
Proof.
  apply (respects_run (same declaredFunctions)).
  replace 20 with (20 `min` 23) by done. rewrite <- take_take.
  apply Forall_take, lineRules_same_functions.
Qed.

Lemma checkCall_provenance n t st :
  grows (callOn L n t (declaredFunctions st)) st (checkCall L n t st).
Proof.
  unfold checkCall, when. destruct (startsWith _ _); [|reflexivity].
  destruct (exec re_call t) as [m|] eqn:Hm; [|reflexivity].
  case_bool_decide as Hin; [|reflexivity].
  apply grows_push_at. split; [done|]. split; [done|]. exists m.
  split; [done|]. split; [done|]. cbn [message]. unfold callOfFunction.
  reflexivity.
Qed.

Lemma finalState_call lines :
  Forall (prefixed (js "CALL should ") (callAt U L lines))
    (errs (finalState U L lines)).
Proof.
  apply final_by_parts.
  - apply linePass_by_line. intros k text Hk Hs.
    destruct (lineRules_no_call lines k text) as [Hpre Hpost].
    apply (rules_grow_special _ (notPrefix (js "CALL should ")) 20
             (checkCall L (k + 1) (trim text)));
      [apply notPrefix_prefixed|done|done|done|].
    eapply grows_weaken; [|apply checkCall_provenance].
    intros d Hd _. exists k, text. split; [done|].
    by rewrite <- (functions_at_call lines k text).
  - apply Forall_fmap, Forall_true. intros b H. by vm_compute in H.
  - sweeps_keep prefixed_leaf.
Qed.

Lemma checkCall_text n ws name rest st :
  Forall (λ c, isSpace c = true) ws → isName name → stops isAlnumU rest →
  L name ∈ declaredFunctions st →
  checkCall L n (callText ws name rest) st
  = push n (callOfFunction name) error st.
Proof.
  intros Hws Hname Hrest Hin. unfold checkCall.
  assert (startsWith (js "CALL ") (callText ws name rest) = true) as ->
    by apply startsWith_app.
  cbn [when].
  destruct (exec_call ws name rest Hws Hname Hrest) as (m & -> & ->).
  rewrite bool_decide_eq_true_2 by done. unfold callOfFunction. reflexivity.
Qed.

End Calls.

(** X21. A line CALL name gets the error that CALL is not for functions
    exactly when an earlier line is a FUNCTION heading whose name is, in
    lower case, the name called. *)
Theorem call_of_function_reported (U L : jsstring → jsstring) (code : jsstring)
    (k : nat) (text ws name rest : jsstring) :
  split_on 10 code !! k = Some text →
  trim text = callText ws name rest →
  Forall (λ c, isSpace c = true) ws → isName name → stops isAlnumU rest →
  mkError (k + 1) (callOfFunction name) error ∈ errors (checkSyntax U L code)
  ↔ functionsBefore L (split_on 10 code) k (L name).
Proof.
  intros Hk Ht Hws Hname Hrest.
  assert (Hs : skipped (trim text) = false).
  { rewrite Ht. by vm_compute. }
  assert (Hc : existsb hasContent (split_on 10 code) = true)
    by (by eapply lookup_hasContent).
  destruct (exec_call ws name rest Hws Hname Hrest) as (m & Hexec & Hgrp).
  pose proof (finalState_call U L (split_on 10 code)) as Hprov.
  rewrite Forall_forall in Hprov.
  rewrite <- (stateBefore_functions U L).
  split.
  - intros Hd. apply (result_in_final U L code _ Hc) in Hd.
    destruct (Hprov _ Hd) as (k' & text' & Hk' & _ & Hl & m' & He' & Hin & _).
    { apply callOfFunction_prefix. }
    cbn [line] in Hl. assert (k' = k) as -> by lia.
    rewrite Hk in Hk'. injection Hk' as <-.
    rewrite Ht, Hexec in He'. injection He' as <-. by rewrite Hgrp in Hin.
  - intros Hin. apply (reported_typed U L code); [done| |].
    + apply (rule_reaches U L (split_on 10 code) k text 20
               (checkCall L (k + 1) (trim text))); [done|done|done|].
      rewrite Ht, checkCall_text; [|done|done|done|].
      * cbn [push errs]. apply elem_of_app. right.
        by apply list_elem_of_singleton.
      * by rewrite functions_at_call.
    + intros d Hd Hm.
      destruct (Hprov d Hd) as (_ & _ & _ & Hty & _); [|done].
      rewrite Hm. apply callOfFunction_prefix.
Qed.

Lemma call_of_function_reported_witness :
  mkError (2 + 1) (callOfFunction (js "f")) error ∈ errors (check example_call)
  ↔ functionsBefore latinLower (split_on 10 example_call) 2
      (latinLower (js "f")).
Proof.
  apply (call_of_function_reported latinUpper latinLower example_call 2
           (js "CALL f()") [] (js "f") (js "()")).
  - by vm_compute.
  - by vm_compute.
  - by constructor.
  - split; [by vm_compute | by repeat constructor].
  - by vm_compute.
Defined.

(** ** Texts assigned to CHAR variables *)

Lemma exec_assign_string name ws ws' content rest :
  isName name → Forall (λ c, isSpace c = true) ws →
  Forall (λ c, isSpace c = true) ws' → Forall (λ c, c ≠ DQUOTE) content →
  ∃ m, exec re_assign_string (stringAssignment name ws ws' content rest) = Some m
       ∧ grp 1 m = name.
Proof.
  intros Hname Hws Hws' Hcontent.
  assert (H : ∃ prev,
            rmatch re_assign_string Some
              (mkMState None (stringAssignment name ws ws' content rest) [])
            = Some (mkMState prev rest [(1, name)])).
  { eexists. unfold re_assign_string, stringAssignment, assignmentText.
    rewrite rmatch_seqs_cons.
    apply rmatch_ident; [done| |].
    { destruct ws as [|w ws0]; simpl; [done|].
      apply Forall_cons in Hws as [Hw _]. by apply space_not_alnum. }
    rewrite rmatch_seqs_cons. unfold star at 1, cSpace at 1.
    apply star_chr_run; [done|done|].
    rewrite rmatch_seqs_cons, rmatch_one.
    rewrite rmatch_seqs_cons. unfold star at 1, cSpace at 1.
    apply star_chr_run; [done|done|].
    rewrite rmatch_seqs_cons, rmatch_one.
    rewrite rmatch_seqs_cons. unfold star at 1, none_of.
    apply star_chr_run.
    { eapply Forall_impl; [exact Hcontent|]. cbv beta. intros c Hc.
      apply negb_true_iff. by apply N.eqb_neq. }
    { reflexivity. }
    rewrite rmatch_seqs_cons, rmatch_one. reflexivity. }
  destruct H as [prev H].
  unfold exec.
  destruct (stringAssignment name ws ws' content rest) as [|c t] eqn:Ht.
  - destruct name; [done|discriminate Ht].
  - cbn [search]. rewrite H. eexists. split; [reflexivity|done].
Qed.

Lemma charQuotes_prefix name :
  startsWith (js "CHAR variable '") (charQuotes name) = true.
Proof. apply startsWith_app. Qed.

Section Quotes.
Variables U L : jsstring → jsstring.

Lemma lineRules_no_charQuotes lines k text :
  Forall (respects (grows (notPrefix (js "CHAR variable '"))))
    (take 16 (lineRules U L lines k text))
  ∧ Forall (respects (grows (notPrefix (js "CHAR variable '"))))
      (drop 17 (lineRules U L lines k text)).
Proof.
  unfold lineRules. cbv zeta. cbn [take drop]. split.
  all: repeat apply Forall_cons_2; [..|apply Forall_nil_2].
  all: unfold_all_rules; cbv zeta.
  all: repeat respects_step ltac:(first [quiet_leaf | notPrefix_leaf]).
  all: try (cbv zeta; repeat respects_step ltac:(first [quiet_leaf | notPrefix_leaf])).
Qed.

Lemma checkCharAssignment_provenance n t st :
  grows (charAssignOn U L n t (variableTypes st)) st
    (checkCharAssignment U L n t st).
Proof.
  unfold checkCharAssignment, when. destruct (includes _ _); [|reflexivity].
  destruct (exec re_assign_string t) as [m|] eqn:Hm; [|reflexivity].
  destruct (variableTypes st !! L (grp 1 m)) as [vt|] eqn:Hv; [|reflexivity].
  destruct (str_eqb _ _) eqn:Hc; [|reflexivity].
  apply grows_push_at. split; [done|]. split; [done|]. exists m.
  split; [done|]. split.
  - exists vt. split; [done|]. by apply str_eqb_eq.
  - cbn [message]. unfold charQuotes. reflexivity.
Qed.

Lemma finalState_charQuotes lines :
  Forall (prefixed (js "CHAR variable '") (charAssignAt U L lines))
    (errs (finalState U L lines)).
Proof.
  apply final_by_parts.
  - apply linePass_by_line. intros k text Hk Hs.
    destruct (lineRules_no_charQuotes lines k text) as [Hpre Hpost].
    apply (rules_grow_special _ (notPrefix (js "CHAR variable '")) 16
             (checkCharAssignment U L (k + 1) (trim text)));
      [apply notPrefix_prefixed|done|done|done|].
    eapply grows_weaken; [|apply checkCharAssignment_provenance].
    intros d Hd _. by exists k, text.
  - apply Forall_fmap, Forall_true. intros b H. by vm_compute in H.
  - sweeps_keep prefixed_leaf.
Qed.

Ltac same_types_leaf := idtac;
  lazymatch goal with
  | |- respects (same _) (push _ _ _) => intros ?; reflexivity
  | |- respects (same _) (set_blockStack _) => intros ?; reflexivity
  | |- respects (same _) (set_array _ _) => intros ?; reflexivity
  | |- respects (same _) (add_function _) => intros ?; reflexivity
  | |- respects (same _) (declare _ _) => exfalso; congruence
  | |- same _ ?st (declare _ _ ?st) => exfalso; congruence
  end.

(** A line that opens with none of the declaring words records no type. *)
Lemma lineRules_same_types lines k text :
  declaring (trim text) = false →
  Forall (respects (same variableTypes)) (lineRules U L lines k text).
Proof.
  unfold declaring. intros H.
  apply orb_false_iff in H as [H H4]. apply orb_false_iff in H as [H H3].
  apply orb_false_iff in H as [H1 H2].
  unfold lineRules; cbv zeta.
  repeat apply Forall_cons_2; [..|apply Forall_nil_2].
  all: unfold_all_rules; cbv zeta.
  all: repeat respects_step same_types_leaf.
  all: try (cbv zeta; repeat respects_step same_types_leaf).
Qed.

Lemma types_at_charAssignment lines k text st :
  declaring (trim text) = false →
  variableTypes (run (take 16 (lineRules U L lines k text)) st)
  = variableTypes st.
Proof.
  intros Hd. apply (respects_run (same variableTypes)).
  by apply Forall_take, lineRules_same_types.
Qed.

Lemma checkCharAssignment_text n name ws ws' content rest st :
  isName name → Forall (λ c, isSpace c = true) ws →
  Forall (λ c, isSpace c = true) ws' → Forall (λ c, c ≠ DQUOTE) content →
  isChar U (variableTypes st) (L name) →
  checkCharAssignment U L n (stringAssignment name ws ws' content rest) st
  = push n (charQuotes name) error st.
Proof.
  intros Hname Hws Hws' Hcontent (vt & Hv & Hc). unfold checkCharAssignment.
  unfold stringAssignment at 1. rewrite includes_arrow. cbn [when].
  destruct (exec_assign_string name ws ws' content rest Hname Hws Hws' Hcontent)
    as (m & -> & ->).
  rewrite Hv, Hc, str_eqb_refl. cbn [when]. unfold charQuotes. reflexivity.
Qed.

End Quotes.

(** X22. The assignment of a double-quoted text to a name, on a line that
    opens with none of the declaring words, gets the error on the quotes of
    CHAR values exactly when the table of types left by the lines before
    records the lower-cased name with a type that is CHAR in upper case. *)
Theorem char_assignment_quotes (U L : jsstring → jsstring) (code : jsstring)
    (k : nat) (text name ws ws' content rest : jsstring) :
  split_on 10 code !! k = Some text →
  trim text = stringAssignment name ws ws' content rest →
  isName name → Forall (λ c, isSpace c = true) ws →
  Forall (λ c, isSpace c = true) ws' → Forall (λ c, c ≠ DQUOTE) content →
  declaring (trim text) = false →
  mkError (k + 1) (charQuotes name) error ∈ errors (checkSyntax U L code)
  ↔ isChar U (variableTypes (stateBefore U L (split_on 10 code) k)) (L name).
Proof.
  intros Hk Ht Hname Hws Hws' Hcontent Hdecl.
  assert (Hs : skipped (trim text) = false).
  { rewrite Ht. destruct name as [|c xs]; [done|]. destruct Hname as [Hc _].
    unfold skipped, stringAssignment, assignmentText. cbn [app nonempty negb orb].
    change (js "//") with [47%N; 47%N]. cbn [startsWith].
    destruct (N.eqb_spec 47 c) as [<-|]; [by vm_compute in Hc|done]. }
  assert (Hc : existsb hasContent (split_on 10 code) = true)
    by (by eapply lookup_hasContent).
  destruct (exec_assign_string name ws ws' content rest Hname Hws Hws' Hcontent)
    as (m & Hexec & Hgrp).
  pose proof (finalState_charQuotes U L (split_on 10 code)) as Hprov.
  rewrite Forall_forall in Hprov.
  split.
  - intros Hd. apply (result_in_final U L code _ Hc) in Hd.
    destruct (Hprov _ Hd) as (k' & text' & Hk' & _ & Hl & m' & He' & Hin & _).
    { apply charQuotes_prefix. }
    cbn [line] in Hl. assert (k' = k) as -> by lia.
    rewrite Hk in Hk'. injection Hk' as <-.
    rewrite Ht, Hexec in He'. injection He' as <-.
    rewrite Hgrp in Hin. by rewrite types_at_charAssignment in Hin.
  - intros Hin. apply (reported_typed U L code); [done| |].
    + apply (rule_reaches U L (split_on 10 code) k text 16
               (checkCharAssignment U L (k + 1) (trim text))); [done|done|done|].
      rewrite Ht, checkCharAssignment_text; [|done|done|done|done|].
      * cbn [push errs]. apply elem_of_app. right.
        by apply list_elem_of_singleton.
      * by rewrite types_at_charAssignment.
    + intros d Hd Hm.
      destruct (Hprov d Hd) as (_ & _ & _ & Hty & _); [|done].
      rewrite Hm. apply charQuotes_prefix.
Qed.

Lemma char_assignment_quotes_witness :
  mkError (1 + 1) (charQuotes (js "c")) error ∈ errors (check example_char)
  ↔ isChar latinUpper
      (variableTypes (stateBefore latinUpper latinLower
                        (split_on 10 example_char) 1))
      (latinLower (js "c")).
Proof.
  apply (char_assignment_quotes latinUpper latinLower example_char 1
           (js "c ← " ++ [DQUOTE] ++ js "a" ++ [DQUOTE])
           (js "c") (js " ") (js " ") (js "a") []).
  - by vm_compute.
  - by vm_compute.
  - split; [by vm_compute | by repeat constructor].
  - by repeat constructor.
  - by repeat constructor.
  - by repeat constructor.
  - by vm_compute.
Defined.

(** * Numbers, arrays and literals *)

(** ** Doubles *)

Local Open Scope N_scope.

Lemma toNumber_small n : n < 2 ^ 53 → toNumber n = Finite n.
Proof. intros H. unfold toNumber. by rewrite (proj2 (N.ltb_lt _ _) H). Qed.

(** A 53-bit significand times a power of two is a double. *)
Lemma toNumber_scaled m e :
  2 ^ 52 ≤ m → m < 2 ^ 53 → 1 ≤ e → m * 2 ^ e < 2 ^ 1024 →
  toNumber (m * 2 ^ e) = Finite (m * 2 ^ e).
Proof.
  intros Hlo Hhi He Hmax.
  assert (Hpe : 2 ^ e ≠ 0) by (by apply N.pow_nonzero).
  assert (Hlog : N.log2 (m * 2 ^ e) = e + 52).
  { rewrite N.log2_mul_pow2 by lia. f_equal.
    apply N.log2_unique; [lia|]. split; [done|].
    by replace (N.succ 52) with 53 by done. }
  assert (H2e : 2 ≤ 2 ^ e).
  { replace 2 with (2 ^ 1) at 1 by done. apply N.pow_le_mono_r; lia. }
  unfold toNumber.
  assert ((m * 2 ^ e <? 2 ^ 53) = false) as ->.
  { apply N.ltb_ge. revert Hlo H2e. generalize (2 ^ e). intros p.
    change (2 ^ 53) with (2 ^ 52 * 2). generalize (2 ^ 52). intros; nia. }
  cbv zeta. rewrite Hlog.
  replace (e + 52 - 52) with e by lia.
  rewrite N.div_mul, N.Div0.mod_mul by done.
  assert ((0 <? 2 ^ (e - 1)) = true) as ->.
  { apply N.ltb_lt. assert (2 ^ (e - 1) ≠ 0) by (by apply N.pow_nonzero). lia. }
  by rewrite (proj2 (N.leb_gt _ _) Hmax).
Qed.

(** Rounding lands on a double. *)
Lemma toNumber_idem n v : toNumber n = Finite v → toNumber v = Finite v.
Proof.
  unfold toNumber. destruct (N.ltb_spec n (2 ^ 53)) as [Hs|Hb].
  { intros [= <-]. by apply toNumber_small. }
  cbv zeta.
  set (e := N.log2 n - 52). set (q := n `div` 2 ^ e).
  set (m := if n `mod` 2 ^ e <? 2 ^ (e - 1) then q
            else if 2 ^ (e - 1) <? n `mod` 2 ^ e then q + 1
            else if N.even q then q else q + 1).
  destruct (N.leb_spec (2 ^ 1024) (m * 2 ^ e)) as [|Hmax]; [done|].
  intros [= <-].
  assert (Hpos : 0 < n) by (assert (0 < 2 ^ 53) by done; lia).
  destruct (N.log2_spec n Hpos) as [Hl1 Hl2].
  assert (Hl : 53 ≤ N.log2 n).
  { change 53 with (N.log2 (2 ^ 53)). by apply N.log2_le_mono. }
  assert (He : 1 ≤ e) by (unfold e; lia).
  assert (HL : N.log2 n = 52 + e) by (unfold e; lia).
  rewrite HL in Hl1. replace (N.succ (N.log2 n)) with (53 + e) in Hl2 by lia.
  rewrite N.pow_add_r in Hl1, Hl2.
  assert (Hpe : 2 ^ e ≠ 0) by (by apply N.pow_nonzero).
  assert (Hq1 : 2 ^ 52 ≤ q).
  { unfold q. apply N.div_le_lower_bound; [done|]. lia. }
  assert (Hq2 : q < 2 ^ 53).
  { unfold q. apply N.Div0.div_lt_upper_bound. lia. }
  assert (Hm : m = q ∨ m = q + 1).
  { unfold m. repeat destruct (_ <? _); try destruct (N.even q); auto. }
  destruct (decide (m = 2 ^ 53)) as [E|Hne].
  - rewrite E in Hmax |- *.
    replace (2 ^ 53 * 2 ^ e) with (2 ^ 52 * 2 ^ (e + 1)) in Hmax |- *.
    2:{ rewrite N.pow_add_r. change (2 ^ 53) with (2 ^ 52 * 2).
        change (2 ^ 1) with 2. lia. }
    apply toNumber_scaled; [done|done|lia|done].
  - apply toNumber_scaled; [|  |done|done].
    + destruct Hm as [->| ->]; lia.
    + assert (m ≤ 2 ^ 53) by (destruct Hm as [->| ->]; lia). lia.
Qed.

Lemma toNumber_double n : isDouble (toNumber n).
Proof.
  destruct (toNumber n) as [v|] eqn:E; [|done]. by apply (toNumber_idem n).
Qed.

Lemma parseInt_double s : isDouble (parseInt s).
Proof. apply toNumber_double. Qed.

Lemma Number_eqb_eq a b : Number_eqb a b = true ↔ a = b.
Proof.
  destruct a, b; simpl; try (split; [done|discriminate]); [|done].
  rewrite N.eqb_eq. split; [by intros ->|by intros [= ->]].
Qed.

(** The decimal chosen for a double reads back as that double. *)
Lemma shortest_from_round p v :
  toNumber v = Finite v → toNumber (shortest_from p v) = Finite v.
Proof.
  intros Hv. induction p as [|p IH]; cbn [shortest_from]; cbv zeta.
  all: destruct (Number_eqb (toNumber (v `div` _ * _)) (Finite v)) eqn:E1;
       destruct (Number_eqb (toNumber (v `div` _ * _ + _)) (Finite v)) eqn:E2;
       cbn [andb];
       repeat match goal with
              | |- context [if ?b then _ else _] => destruct b
              end;
       first [ by apply Number_eqb_eq | done ].
Qed.

Lemma shortest_round v : toNumber v = Finite v → toNumber (shortest v) = Finite v.
Proof. apply shortest_from_round. Qed.

(** ** The text of a number *)

Lemma digit_finiteUnit c : isDigit c = true → finiteUnit c = true.
Proof. unfold finiteUnit. by intros ->. Qed.

Lemma stripZeros_spec ds : ∃ z, ds = stripZeros ds ++ repeat 48 z.
Proof.
  induction ds as [|c t [z IH]]; [by exists 0%nat|]. cbn [stripZeros].
  destruct (stripZeros t) as [|x t'].
  - destruct (N.eqb_spec c 48) as [->|_].
    + exists (S z). by rewrite IH at 1.
    + exists z. by rewrite IH at 1.
  - exists z. by rewrite IH at 1.
Qed.

Lemma stripZeros_Forall (P : N → Prop) ds :
  Forall P ds → Forall P (stripZeros ds).
Proof.
  induction 1 as [|c t Hc Ht IH]; [done|]. cbn [stripZeros].
  destruct (stripZeros t); [destruct (c =? 48)|];
    first [by constructor | by repeat constructor].
Qed.

Lemma decimal_nonempty n : decimal n ≠ [].
Proof.
  unfold decimal. cbn [decimal_aux]. destruct (n <? 10); [done|].
  destruct (decimal_aux_app (N.to_nat (N.log2 n)) (n `div` 10)
              [digit_of (n `mod` 10)]) as [ds ->].
  by destruct ds.
Qed.

Lemma significand_digits sig :
  Forall (λ c, isDigit c = true) sig →
  List.filter isDigit (significand sig) = sig.
Proof.
  intros H. unfold significand.
  destruct H as [|h t Hh Ht]; [done|]. cbn [take length drop].
  assert (Hid : List.filter isDigit t = t).
  { clear Hh. induction t as [|x t IH]; [done|].
    apply Forall_cons in Ht as [Hx Ht]. simpl. rewrite Hx. f_equal. by apply IH. }
  assert (Hh' : List.filter isDigit [h] = [h]) by (simpl; by rewrite Hh).
  destruct (decide (t = [])) as [->|Hne].
  - rewrite take_0, app_nil_r. exact Hh'.
  - assert ((1 <? S (length t))%nat = true) as -> by (by destruct t).
    rewrite take_0, drop_0, !List.filter_app, Hh', Hid. done.
Qed.

Lemma significand_units sig :
  Forall (λ c, isDigit c = true) sig →
  Forall (λ c, isDigit c || (c =? 46) = true) (significand sig).
Proof.
  intros H. unfold significand. apply Forall_app. split.
  - apply Forall_take. eapply Forall_impl; [exact H|]. cbv beta. by intros c ->.
  - destruct (1 <? length sig)%nat; [|done]. change (js ".") with [46].
    constructor; [done|]. apply Forall_drop.
    eapply Forall_impl; [exact H|]. cbv beta. by intros c ->.
Qed.

Lemma exponential_eq c :
  exponential c
  = significand (stripZeros (decimal c))
    ++ 101 :: 43 :: decimal (N.of_nat (length (decimal c) - 1)).
Proof.
  unfold exponential, significand. cbv zeta. rewrite <- !app_assoc.
  by change (js "e+") with [101; 43].
Qed.

(** A run of units of a class ends at the first unit outside it. *)
Lemma class_then_inj (p : N → bool) (a1 a2 m1 m2 : jsstring) (c : N) :
  p c = false →
  Forall (λ x, p x = true) a1 → Forall (λ x, p x = true) a2 →
  a1 ++ c :: m1 = a2 ++ c :: m2 → a1 = a2 ∧ m1 = m2.
Proof.
  intros Hc H1. revert a2.
  induction H1 as [|d a1 Hd H1 IH]; intros a2 H2 Heq.
  - destruct H2 as [|d' a2 Hd' H2]; simpl in Heq.
    + by injection Heq.
    + injection Heq as -> _. congruence.
  - destruct H2 as [|d' a2 Hd' H2]; simpl in Heq.
    + injection Heq as -> _. congruence.
    + injection Heq as -> Heq. destruct (IH _ H2 Heq) as [-> ->]. done.
Qed.

Lemma exponential_inj c c' : exponential c = exponential c' → c = c'.
Proof.
  rewrite !exponential_eq. intros H.
  pose proof (proj1 (decimal_spec c)) as Hd.
  pose proof (proj1 (decimal_spec c')) as Hd'.
  apply (class_then_inj (λ x, isDigit x || (x =? 46))) in H as [Hs He];
    [|done|by apply significand_units, stripZeros_Forall
          |by apply significand_units, stripZeros_Forall].
  injection He as He. apply decimal_inj in He.
  apply (f_equal (List.filter isDigit)) in Hs.
  rewrite !significand_digits in Hs by (by apply stripZeros_Forall).
  destruct (stripZeros_spec (decimal c)) as [z Hz].
  destruct (stripZeros_spec (decimal c')) as [z' Hz'].
  apply decimal_inj. rewrite Hz, Hz', Hs. f_equal. f_equal.
  assert (Hl : length (decimal c) = length (decimal c')).
  { pose proof (decimal_nonempty c). pose proof (decimal_nonempty c').
    destruct (decimal c), (decimal c'); try done. simpl in He. simpl. lia. }
  rewrite Hz, Hz', Hs, !length_app, !repeat_length in Hl. lia.
Qed.

Lemma exponential_units c :
  Forall (λ x, finiteUnit x = true) (exponential c).
Proof.
  rewrite exponential_eq. apply Forall_app. split.
  - eapply Forall_impl;
      [apply significand_units, stripZeros_Forall, decimal_spec|].
    cbv beta. intros x Hx. unfold finiteUnit.
    apply orb_true_iff in Hx as [->|Hx]; [done|].
    apply N.eqb_eq in Hx as ->. done.
  - do 2 (constructor; [done|]).
    eapply Forall_impl; [apply decimal_spec|]. apply digit_finiteUnit.
Qed.

Lemma finite_units v :
  Forall (λ x, finiteUnit x = true) (numberToString (Finite v)).
Proof.
  cbn [numberToString]. cbv zeta. destruct (_ <? _).
  - eapply Forall_impl; [apply decimal_spec|]. apply digit_finiteUnit.
  - apply exponential_units.
Qed.

Lemma number_units x : Forall (λ c, numberUnit c = true) (numberToString x).
Proof.
  destruct x as [v|].
  - eapply Forall_impl; [apply finite_units|]. cbv beta. unfold numberUnit.
    by intros c ->.
  - by repeat constructor.
Qed.

(** The text of a double tells which double it is. *)
Lemma numberToString_inj a b :
  isDouble a → isDouble b → numberToString a = numberToString b → a = b.
Proof.
  assert (Hinf : ∀ v, numberToString (Finite v) ≠ js "Infinity").
  { intros v H. pose proof (finite_units v) as Hu. rewrite H in Hu.
    by apply Forall_cons in Hu as [Hu _]. }
  destruct a as [v|], b as [v'|]; cbn [isDouble]; intros Ha Hb H; try done.
  2:{ by apply Hinf in H. }
  2:{ symmetry in H. by apply Hinf in H. }
  assert (Hc : shortest v = shortest v').
  { cbn [numberToString] in H. cbv zeta in H.
    destruct (shortest v <? 10 ^ 21), (shortest v' <? 10 ^ 21).
    - by apply decimal_inj.
    - exfalso. pose proof (proj1 (decimal_spec (shortest v))) as Hd.
      rewrite H, exponential_eq in Hd.
      apply Forall_app in Hd as [_ Hd]. by apply Forall_cons in Hd as [Hd _].
    - exfalso. pose proof (proj1 (decimal_spec (shortest v'))) as Hd.
      rewrite <- H, exponential_eq in Hd.
      apply Forall_app in Hd as [_ Hd]. by apply Forall_cons in Hd as [Hd _].
    - by apply exponential_inj. }
  apply shortest_round in Ha, Hb. rewrite Hc in Ha. congruence.
Qed.

(** Below 2^53 the numbers are the integers, printed as they are. *)
Lemma parseInt_small s : mathInt s < 2 ^ 53 → parseInt s = Finite (mathInt s).
Proof. apply toNumber_small. Qed.

Local Open Scope nat_scope.

(** ** Array bounds *)

(** The texts of the index and of the bounds, and the name, can be read
    back from the message. *)
Lemma outOfBounds_parts i n lo hi i' n' lo' hi' :
  outOfBounds i n lo hi = outOfBounds i' n' lo' hi' →
  numberToString i = numberToString i' ∧ n = n'
  ∧ numberToString lo = numberToString lo'
  ∧ numberToString hi = numberToString hi'.
Proof.
  assert (E1 : js " is out of bounds. Array '"
               = 32%N :: js "is out of bounds. Array '") by (by vm_compute).
  assert (E2 : rev (js "]") = [93%N]) by (by vm_compute).
  assert (E3 : rev (js ":") = [58%N]) by (by vm_compute).
  assert (E4 : rev (js "' valid range is [")
               = 91%N :: rev (js "' valid range is ")) by (by vm_compute).
  unfold outOfBounds. intros H0. pose proof H0 as H. apply app_inv_head in H.
  rewrite E1, <- !app_comm_cons in H.
  apply (class_then_inj numberUnit) in H as [Hi H];
    [|done|apply number_units|apply number_units].
  apply (f_equal (@rev N)) in H. rewrite !rev_app_distr in H.
  rewrite <- !app_assoc, E2, E3, E4 in H.
  cbn [app] in H. injection H as H.
  apply (class_then_inj numberUnit) in H as [Hhi H];
    [|done|apply Forall_rev, number_units|apply Forall_rev, number_units].
  apply rev_inj in Hhi.
  apply (class_then_inj numberUnit) in H as [Hlo _];
    [|done|apply Forall_rev, number_units|apply Forall_rev, number_units].
  apply rev_inj in Hlo.
  rewrite Hi, Hlo, Hhi in H0.
  do 3 apply app_inv_head in H0. apply app_inv_tail in H0. done.
Qed.

(** With the bounds the wrong way round, every number is outside. *)
Lemma inverted_outside i lo hi : num_ltb hi lo = true → outside i lo hi.
Proof.
  unfold outside. destruct i as [i|], lo as [lo|], hi as [hi|]; simpl; auto.
  intros H%N.ltb_lt. rewrite !N.ltb_lt. lia.
Qed.

(** Below 2^53 a number is printed as the integer it is. *)
Lemma shortest_from_small p v :
  (v < 2 ^ 53)%N → shortest_from p v = v.
Proof.
  intros Hv.
  assert (Hbig : ∀ n, (2 ^ 53 ≤ n)%N → toNumber n ≠ Finite v).
  { intros n Hn E. pose proof (toNumber_idem n v E) as Hd.
    revert E. unfold toNumber.
    destruct (N.ltb_spec n (2 ^ 53)) as [|_]; [lia|]. cbv zeta.
    destruct (_ <=? _)%N; [done|]. intros [= E].
    assert (2 ^ 53 ≤ v)%N; [|lia]. rewrite <- E.
    set (e := (N.log2 n - 52)%N).
    assert (53 ≤ N.log2 n)%N.
    { change 53%N with (N.log2 (2 ^ 53)). by apply N.log2_le_mono. }
    assert (Hpos : (0 < n)%N) by (assert (0 < 2 ^ 53)%N by done; lia).
    destruct (N.log2_spec n Hpos) as [Hl1 Hl2].
    assert (HL : N.log2 n = (52 + e)%N) by (unfold e; lia).
    rewrite HL in Hl1. rewrite N.pow_add_r in Hl1.
    assert (Hpe : (2 ^ e ≠ 0)%N) by (by apply N.pow_nonzero).
    assert (H2e : (2 ≤ 2 ^ e)%N).
    { replace 2%N with (2 ^ 1)%N at 1 by done.
      apply N.pow_le_mono_r; [done|unfold e; lia]. }
    assert (Hq1 : (2 ^ 52 ≤ n `div` 2 ^ e)%N).
    { apply N.div_le_lower_bound; [done|]. lia. }
    match goal with
    | |- (_ ≤ ?m * _)%N => assert (n `div` 2 ^ e ≤ m)%N
    end.
    { repeat destruct (_ <? _)%N; try destruct (N.even _); lia. }
    change (2 ^ 53)%N with (2 ^ 52 * 2)%N. nia. }
  assert (Hval : ∀ n, toNumber n = Finite v → n = v).
  { intros n E. destruct (N.lt_ge_cases n (2 ^ 53)) as [Hs|Hb].
    - rewrite toNumber_small in E by done. by injection E.
    - by apply Hbig in E. }
  induction p as [|p IH]; cbn [shortest_from]; cbv zeta.
  all: set (u := (10 ^ _)%N);
       assert (Hu : (u ≠ 0)%N) by (by apply N.pow_nonzero);
       pose proof (N.Div0.mul_div_le v u) as Hle;
       pose proof (N.mul_succ_div_gt v u Hu) as Hgt;
       destruct (Number_eqb (toNumber (v `div` u * u)) (Finite v)) eqn:E1;
       destruct (Number_eqb (toNumber (v `div` u * u + u)) (Finite v)) eqn:E2;
       cbn [andb];
       try (apply Number_eqb_eq, Hval in E2; lia);
       try (apply Number_eqb_eq, Hval in E1; done);
       done.
Qed.

Lemma numberToString_small v :
  (v < 2 ^ 53)%N → numberToString (Finite v) = decimal v.
Proof.
  intros Hv. cbn [numberToString]. cbv zeta. unfold shortest.
  rewrite shortest_from_small by done.
  assert ((v <? 10 ^ 21)%N = true) as ->; [|done].
  apply N.ltb_lt. assert (2 ^ 53 < 10 ^ 21)%N by done. lia.
Qed.

Section Accesses.
Variables U L : jsstring → jsstring.

Lemma checkArrayBounds_provenance n t st :
  grows (accessOn L n t (arrayDeclarations st)) st (checkArrayBounds L n t st).
Proof.
  unfold checkArrayBounds. cbv zeta.
  assert (H : respects
                (keeping (λ st', arrayDeclarations st' = arrayDeclarations st)
                   (accessOn L n t (arrayDeclarations st)))
                (forEach (match_all re_array_access t) (checkAccess L n))).
  { apply respects_forEach_elem; [tc_solve|]. intros access Hin st'.
    unfold checkAccess.
    destruct (exec re_array_access access) as [m|] eqn:Hm; [|reflexivity].
    destruct (arrayDeclarations st' !! L (grp 1 m)) as [info|] eqn:Hinfo;
      [|reflexivity].
    unfold when.
    destruct (num_ltb _ _ || num_ltb _ _) eqn:Hout; [|reflexivity].
    apply keeping_push; [done|]. intros HI.
    split; [done|]. split; [done|]. exists access, m, info.
    split; [done|]. split; [done|]. split; [by rewrite <- HI|].
    split; [by apply orb_true_iff|].
    cbn [message]. unfold outOfBounds. reflexivity. }
  by destruct (H st eq_refl).
Qed.

Lemma lineRules_no_access lines k text :
  Forall (respects (grows (notPrefix (js "Array index "))))
    (take 17 (lineRules U L lines k text))
  ∧ Forall (respects (grows (notPrefix (js "Array index "))))
      (drop 18 (lineRules U L lines k text)).
Proof.
  unfold lineRules. cbv zeta. cbn [take drop]. split.
  all: repeat apply Forall_cons_2; [..|apply Forall_nil_2].
  all: unfold_all_rules; cbv zeta.
  all: repeat respects_step ltac:(first [quiet_leaf | notPrefix_leaf]).
  all: try (cbv zeta; repeat respects_step ltac:(first [quiet_leaf | notPrefix_leaf])).
Qed.

(** Every out-of-bounds diagnostic comes from an access of its line that
    lies outside the bounds registered for its array. *)
Lemma finalState_access lines :
  Forall (prefixed (js "Array index ") (accessAt U L lines))
    (errs (finalState U L lines)).
Proof.
  apply final_by_parts.
  - apply linePass_by_line. intros k text Hk Hs.
    destruct (lineRules_no_access lines k text) as [Hpre Hpost].
    apply (rules_grow_special _ (notPrefix (js "Array index ")) 17
             (checkArrayBounds L (k + 1) (trim text)));
      [apply notPrefix_prefixed|done|done|done|].
    eapply grows_weaken; [|apply checkArrayBounds_provenance].
    intros d Hd _. exists k, text. split; [done|].
    by rewrite <- (arraysAt_access U L lines k text Hk Hs).
  - apply Forall_fmap, Forall_true. intros b H. by vm_compute in H.
  - sweeps_keep prefixed_leaf.
Qed.

End Accesses.

(** C4, as the code has it.  On a line that is neither blank nor a comment,
    an access [name[i]] to an array registered with bounds lo and hi when the
    line is checked is reported with the out-of-bounds error that names
    index and range exactly when i is below lo or above hi, all three being
    the numbers that [parseInt] reads: doubles, which are the integers
    written as long as these are below 2^53.  The check of the access itself
    pushes that error in this case and nothing otherwise.  The declaration of
    [arr] with range 1 to 5 followed by the output of [arr[10]] is invalid
    for that reason, whatever the case mappings do outside plain texts. *)
Theorem array_access_bounds (toUpperCase toLowerCase : jsstring → jsstring) :
  (∀ code k text name ds info,
     split_on 10 code !! k = Some text → skipped (trim text) = false →
     isName name → isNumeral ds →
     accessText name ds ∈ match_all re_array_access (trim text) →
     arraysAt toUpperCase toLowerCase (split_on 10 code) k !! toLowerCase name
     = Some info →
     outside (parseInt ds) (arr_start info) (arr_end info)
     ↔ ∃ d, d ∈ errors (checkSyntax toUpperCase toLowerCase code)
            ∧ line d = k + 1
            ∧ message d = outOfBounds (parseInt ds) name (arr_start info)
                            (arr_end info)
            ∧ type d = error)
  ∧ (∀ n name ds info st,
       isName name → isNumeral ds →
       arrayDeclarations st !! toLowerCase name = Some info →
       checkAccess toLowerCase n (accessText name ds) st
       = when (num_ltb (parseInt ds) (arr_start info)
               || num_ltb (arr_end info) (parseInt ds))
           (push n (outOfBounds (parseInt ds) name (arr_start info)
                      (arr_end info)) error) st)
  ∧ (∀ ds, (mathInt ds < 2 ^ 53)%N →
           parseInt ds = Finite (mathInt ds)
           ∧ numberToString (parseInt ds) = decimal (mathInt ds))
  ∧ checkPlain toUpperCase toLowerCase
      (unlines [js "DECLARE arr: ARRAY[1:5] OF INTEGER"; js "OUTPUT arr[10]"])
    = mkResult false
        [mkError 2
           (js "Array index 10 is out of bounds. Array 'arr' valid range is [1:5]")
           error].
Proof.
  split; [|split; [|split; [|by vm_compute]]].
  - intros code k text name ds info Hk Hs Hname Hds Hin Hinfo. split.
    + by apply (out_of_range_text_reported _ _ _ _ _ _ _ _ Hk Hs).
    + intros (d & Hd & Hl & Hmsg & _).
      pose proof (lookup_hasContent _ _ _ Hk Hs) as Hc.
      apply (result_in_final toUpperCase toLowerCase code _ Hc) in Hd.
      pose proof (finalState_access toUpperCase toLowerCase (split_on 10 code))
        as Hprov.
      rewrite Forall_forall in Hprov.
      destruct (Hprov d Hd)
        as (k' & text' & Hk' & _ & Hl' & access & m & info' & _ & _ & Hinfo'
            & Hout & Hmsg').
      { rewrite Hmsg. apply startsWith_app. }
      assert (k' = k) as -> by lia.
      rewrite Hmsg in Hmsg'.
      apply outOfBounds_parts in Hmsg' as (Hi & Hn & _ & _).
      apply numberToString_inj in Hi; [|apply parseInt_double..].
      rewrite <- Hn, Hinfo in Hinfo'. injection Hinfo' as <-.
      by rewrite Hi.
  - intros. by apply checkAccess_text.
  - intros ds Hds. rewrite parseInt_small by done.
    split; [done|]. by apply numberToString_small.
Qed.

Lemma array_access_bounds_witness :
  outside (parseInt (js "5")) (Finite 1) (Finite 5)
  ↔ ∃ d, d ∈ errors (check (unlines [js "DECLARE a: ARRAY[1:5] OF INTEGER";
                                     js "OUTPUT a[5]"]))
         ∧ line d = 2
         ∧ message d = outOfBounds (parseInt (js "5")) (js "a") (Finite 1)
                         (Finite 5)
         ∧ type d = error.
Proof.
  apply (proj1 (array_access_bounds latinUpper latinLower)
    (unlines [js "DECLARE a: ARRAY[1:5] OF INTEGER"; js "OUTPUT a[5]"]) 1
    (js "OUTPUT a[5]") (js "a") (js "5") (mkArrayInfo (Finite 1) (Finite 5) 1)).
  - by vm_compute.
  - by vm_compute.
  - split; [by vm_compute | by repeat constructor].
  - split; [by vm_compute | by repeat constructor].
  - vm_compute. left.
  - by vm_compute.
Defined.

(** An access on a comment line is not checked, and a numeral beyond 2^53
    is compared after rounding: 9007199254740993 reads as
    9007199254740992. *)
Lemma array_access_unreported :
  (∃ text,
     split_on 10 example_access_in_comment !! 1 = Some text
     ∧ accessText (js "arr") (js "10") ∈ match_all re_array_access (trim text)
     ∧ arraysAt latinUpper latinLower (split_on 10 example_access_in_comment) 1
         !! js "arr" = Some (mkArrayInfo (Finite 1) (Finite 5) 1)
     ∧ (5 < mathInt (js "10"))%N
     ∧ check example_access_in_comment = mkResult true [])
  ∧ (∃ text,
       split_on 10 example_rounded_index !! 1 = Some text
       ∧ skipped (trim text) = false
       ∧ accessText (js "a") (js "9007199254740993")
         ∈ match_all re_array_access (trim text)
       ∧ arraysAt latinUpper latinLower (split_on 10 example_rounded_index) 1
           !! js "a" = Some (mkArrayInfo (Finite 1) (Finite 9007199254740992) 1)
       ∧ (9007199254740992 < mathInt (js "9007199254740993"))%N
       ∧ ¬ ∃ d, d ∈ errors (check example_rounded_index)
                ∧ startsWith (js "Array index ") (message d) = true).
Proof.
  split.
  - eexists. split; [by vm_compute|]. split; [vm_compute; left|].
    split; [by vm_compute|]. split; by vm_compute.
  - eexists. split; [by vm_compute|]. split; [by vm_compute|].
    split; [vm_compute; left|]. split; [by vm_compute|]. split; [by vm_compute|].
    intros (d & Hd & Hm). vm_compute in Hd.
    repeat (apply elem_of_cons in Hd as [->|Hd]; [by vm_compute in Hm|]).
    by apply elem_of_nil in Hd.
Qed.

(** C10, as the code has it.  Registering an array pushes no diagnostic,
    whatever the order of its bounds, and records the numbers that
    [parseInt] reads; when the lower bound registered exceeds the upper one,
    every access [name[i]] to the array found on a line that is neither
    blank nor a comment is reported as out of bounds, for every numeral i.
    A program that only declares such an array is valid; one access makes it
    invalid. *)
Theorem inverted_range (toUpperCase toLowerCase : jsstring → jsstring) :
  (∀ n t st,
     errs (trackArray toLowerCase n t st) = errs st
     ∧ ∀ m, exec re_array_declaration t = Some m →
            arrayDeclarations (trackArray toLowerCase n t st)
              !! toLowerCase (grp 1 m)
            = Some (mkArrayInfo (parseInt (grp 2 m)) (parseInt (grp 3 m)) n))
  ∧ (∀ code k text name ds info,
       split_on 10 code !! k = Some text → skipped (trim text) = false →
       isName name → isNumeral ds →
       accessText name ds ∈ match_all re_array_access (trim text) →
       arraysAt toUpperCase toLowerCase (split_on 10 code) k
         !! toLowerCase name = Some info →
       num_ltb (arr_end info) (arr_start info) = true →
       ∃ d, d ∈ errors (checkSyntax toUpperCase toLowerCase code)
            ∧ line d = k + 1
            ∧ message d = outOfBounds (parseInt ds) name (arr_start info)
                            (arr_end info)
            ∧ type d = error)
  ∧ checkPlain toUpperCase toLowerCase (js "DECLARE a: ARRAY[5:1] OF INTEGER")
    = mkResult true []
  ∧ checkPlain toUpperCase toLowerCase
      (unlines [js "DECLARE a: ARRAY[5:1] OF INTEGER"; js "a[3] ← 1"])
    = mkResult false
        [mkError 2
           (js "Array index 3 is out of bounds. Array 'a' valid range is [5:1]")
           error].
Proof.
  split; [|split; [|split; by vm_compute]].
  - intros n t st. unfold trackArray. split.
    + by destruct (exec _ _).
    + intros m ->. cbn [set_array arrayDeclarations]. apply lookup_insert_eq.
  - intros code k text name ds info Hk Hs Hname Hds Hin Hinfo Hinv.
    apply (out_of_range_text_reported _ _ _ _ _ _ _ _ Hk Hs Hname Hds Hin Hinfo).
    by apply inverted_outside.
Qed.

Lemma inverted_range_witness :
  ∃ d, d ∈ errors (check (unlines [js "DECLARE a: ARRAY[9:2] OF INTEGER";
                                   js "OUTPUT a[4]"]))
       ∧ line d = 2
       ∧ message d = outOfBounds (parseInt (js "4")) (js "a") (Finite 9)
                       (Finite 2)
       ∧ type d = error.
Proof.
  apply (proj1 (proj2 (inverted_range latinUpper latinLower))
    (unlines [js "DECLARE a: ARRAY[9:2] OF INTEGER"; js "OUTPUT a[4]"]) 1
    (js "OUTPUT a[4]") (js "a") (js "4") (mkArrayInfo (Finite 9) (Finite 2) 1)).
  - by vm_compute.
  - by vm_compute.
  - split; [by vm_compute | by repeat constructor].
  - split; [by vm_compute | by repeat constructor].
  - vm_compute. left.
  - by vm_compute.
  - by vm_compute.
Defined.

(** An access on a comment line is not checked, whatever the bounds. *)
Lemma inverted_range_in_comment :
  ∃ text,
    split_on 10 example_inverted_in_comment !! 1 = Some text
    ∧ accessText (js "a") (js "3") ∈ match_all re_array_access (trim text)
    ∧ arraysAt latinUpper latinLower (split_on 10 example_inverted_in_comment) 1
        !! js "a" = Some (mkArrayInfo (Finite 5) (Finite 1) 1)
    ∧ check example_inverted_in_comment = mkResult true [].
Proof.
  eexists. split; [by vm_compute|]. split; [vm_compute; left|].
  split; by vm_compute.
Qed.

(** ** Keyword casing *)

(** A search passes over the positions at which the pattern fails. *)
Lemma search_skip r x rest :
  ∀ idx prev,
    (∀ p c q, x = p ++ c :: q →
       rmatch r Some (mkMState (after prev p) (c :: q ++ rest) []) = None) →
    search r idx prev (x ++ rest)
    = search r (idx + length x) (after prev x) rest.
Proof.
  induction x as [|c x IH]; intros idx prev H.
  - cbn [app length after]. by rewrite Nat.add_0_r.
  - pose proof (H [] c x eq_refl) as H0. cbn [after app] in H0.
    cbn [app search length after]. rewrite H0, IH.
    + f_equal. lia.
    + intros p c' q ->. apply (H (c :: p) c' q). done.
Qed.

Lemma search_nil r idx prev :
  rmatch r Some (mkMState prev [] []) = None → search r idx prev [] = None.
Proof. intros H. cbn [search]. by rewrite H. Qed.

Lemma rmatch_quoted_none q k prev c t caps :
  c ≠ q → rmatch (re_quoted q) k (mkMState prev (c :: t) caps) = None.
Proof.
  intros Hc. unfold re_quoted, one. rewrite rmatch_seqs_cons, rmatch_chr_cons.
  destruct (N.eqb_spec q c); [congruence|done].
Qed.

Lemma rmatch_quoted q s rest prev :
  Forall (λ c, c ≠ q) s →
  rmatch (re_quoted q) Some (mkMState prev (quoted q s ++ rest) [])
  = Some (mkMState (Some q) rest []).
Proof.
  intros Hs. unfold re_quoted, quoted.
  rewrite <- app_comm_cons, <- app_assoc. cbn [app].
  rewrite rmatch_seqs_cons, rmatch_one, rmatch_seqs_cons.
  unfold star, none_of. apply star_chr_run.
  - eapply Forall_impl; [exact Hs|]. cbv beta. intros c Hc.
    apply negb_true_iff. by apply N.eqb_neq.
  - simpl. by rewrite N.eqb_refl.
  - rewrite rmatch_seqs_cons, rmatch_one. reflexivity.
Qed.

Lemma search_quoted_free q x idx prev :
  Forall (λ c, c ≠ q) x → search (re_quoted q) idx prev x = None.
Proof.
  intros Hx. rewrite <- (app_nil_r x). rewrite search_skip.
  - by apply search_nil.
  - intros p c t ->. apply rmatch_quoted_none.
    apply Forall_app in Hx as [_ Hx]. by apply Forall_cons in Hx as [Hx _].
Qed.

Lemma search_quoted q x s rest prev :
  Forall (λ c, c ≠ q) x → Forall (λ c, c ≠ q) s →
  search (re_quoted q) 0 prev (x ++ quoted q s ++ rest)
  = Some (mkMatch (length x) (quoted q s) (mkMState (Some q) rest [])).
Proof.
  intros Hx Hs. rewrite search_skip.
  - cbn [Nat.add].
    assert (E : ∃ t, quoted q s ++ rest = q :: t)
      by (by eexists).
    destruct E as [t E].
    destruct (quoted q s ++ rest) as [|c t'] eqn:Ht; [done|].
    cbn [search]. rewrite <- Ht, rmatch_quoted by done.
    cbn [ms_rest]. by rewrite take_consumed.
  - intros p c t ->. apply rmatch_quoted_none.
    apply Forall_app in Hx as [_ Hx]. by apply Forall_cons in Hx as [Hx _].
Qed.

(** Removing the quoted parts leaves the parts outside. *)
Lemma remove_all_from_items q items :
  ∀ fuel prev x,
    Forall (λ c, c ≠ q) x → Forall (free q) items →
    length (x ++ flat q items) < fuel →
    remove_all_from (re_quoted q) fuel prev (x ++ flat q items)
    = x ++ kept items.
Proof.
  induction items as [|[y|s] items IH]; intros fuel prev x Hx Hitems Hf.
  - unfold flat, kept. cbn [fmap list_fmap concat]. rewrite !app_nil_r.
    destruct fuel as [|f]; [done|]. cbn [remove_all_from].
    by rewrite search_quoted_free.
  - apply Forall_cons in Hitems as [Hy Hitems].
    unfold flat, kept in *. cbn [fmap list_fmap concat] in *.
    rewrite !app_assoc. rewrite app_assoc in Hf.
    apply IH; [|done|done]. apply Forall_app. done.
  - apply Forall_cons in Hitems as [Hs Hitems].
    unfold flat, kept in *. cbn [fmap list_fmap concat app] in *.
    destruct fuel as [|f]; [by apply Nat.nlt_0_r in Hf|]. cbn [remove_all_from].
    rewrite search_quoted by done.
    cbn [m_index m_text m_end ms_rest ms_prev quoted].
    rewrite take_app_length. f_equal.
    apply (IH f (Some q) []); [done|done|].
    revert Hf. generalize (concat
      ((λ it : jsstring + jsstring,
          match it with inl x0 => x0 | inr s0 => quoted q s0 end) <$> items)).
    intros C. unfold quoted.
    rewrite !length_app. cbn [app length]. rewrite length_app. cbn [length].
    lia.
Qed.

Lemma remove_all_items q items :
  Forall (free q) items →
  remove_all (re_quoted q) (flat q items) = kept items.
Proof.
  intros H. unfold remove_all.
  apply (remove_all_from_items q items _ None []); [done|done|].
  simpl. lia.
Qed.

(** The comment. *)
Lemma rmatch_comment_none k prev t caps :
  startsWith (js "//") t = false →
  rmatch re_comment k (mkMState prev t caps) = None.
Proof.
  intros H. unfold re_comment, lit.
  change (js "//") with [47%N; 47%N] in *. cbn [fmap list_fmap].
  rewrite !rmatch_seqs_cons.
  destruct t as [|a t]; [done|]. rewrite rmatch_chr_cons.
  cbn [startsWith] in H. destruct (47 =? a)%N; [|done].
  destruct t as [|b t]; [done|]. rewrite rmatch_seqs_cons, rmatch_chr_cons.
  cbn [andb] in H. destruct (47 =? b)%N; [|done]. done.
Qed.

Lemma rmatch_comment prev c :
  Forall (λ x, isLineTerminator x = false) c →
  ∃ e, rmatch re_comment Some (mkMState prev (js "//" ++ c) []) = Some e
       ∧ ms_rest e = [].
Proof.
  intros Hc. eexists. unfold re_comment, lit.
  change (js "//") with [47%N; 47%N]. cbn [fmap list_fmap app].
  repeat (rewrite ?rmatch_seqs_cons, ?rmatch_seqs_nil, ?rmatch_chr_cons,
            ?N.eqb_refl).
  unfold star, cDot. split.
  - apply star_chr_all.
    + eapply Forall_impl; [exact Hc|]. cbv beta. by intros x ->.
    + reflexivity.
  - done.
Qed.

Lemma includes_suffix p a b :
  includes p (a ++ b) = false → includes p b = false.
Proof.
  induction a as [|x a IH]; [done|]. cbn [app includes].
  intros [_ H]%orb_false_iff. by apply IH.
Qed.

Lemma startsWith_take p s :
  length p ≤ length s → ∀ t u, startsWith p (s ++ t) = startsWith p (s ++ u).
Proof.
  revert s. induction p as [|x p IH]; intros s Hl t u; [done|].
  destruct s as [|y s]; [simpl in Hl; lia|]. cbn [app startsWith].
  f_equal. apply IH. simpl in Hl. lia.
Qed.

Lemma remove_comment body tail :
  isComment tail = true →
  includes (js "//") (body ++ take 1 tail) = false →
  remove_first re_comment (body ++ tail) = body.
Proof.
  intros Htail Hfree. unfold remove_first, exec.
  rewrite search_skip.
  2:{ intros p c q ->. apply rmatch_comment_none.
      rewrite <- app_assoc in Hfree. apply includes_suffix in Hfree.
      cbn [app includes] in Hfree. apply orb_false_iff in Hfree as [Hfree _].
      destruct tail as [|a tail'].
      - by rewrite app_nil_r in *.
      - cbn [take] in Hfree. rewrite take_0 in Hfree.
        change (js "//") with [47%N; 47%N] in *.
        destruct q as [|b q]; cbn [app startsWith] in *.
        + by rewrite andb_true_r in *.
        + by rewrite andb_true_r in *. }
  cbn [Nat.add]. destruct tail as [|a tail'].
  - rewrite search_nil by (by apply rmatch_comment_none).
    by rewrite app_nil_r.
  - cbn [isComment] in Htail. apply andb_true_iff in Htail as [Hs Hc].
    apply startsWith_inv in Hs as [c Hs].
    destruct (rmatch_comment (after None body) c) as (e & He & Hrest).
    { rewrite Hs in Hc. rewrite forallb_forall in Hc.
      apply Forall_forall. intros x Hx. apply negb_true_iff, Hc.
      apply list_elem_of_In. apply elem_of_app. by right. }
    rewrite <- Hs in He. cbn [search]. rewrite He. cbn [m_index m_end].
    by rewrite take_app_length, Hrest, app_nil_r.
Qed.

(** What is left of a line once its comment and its literals are removed,
    when the removal finds them. *)
Lemma withoutStrings_segments segs tail :
  forallb lexical segs = true → forallb tame segs = true →
  isComment tail = true → slashFree segs tail = true →
  withoutStrings (renderAll segs ++ tail) = codeOf segs.
Proof.
  intros Hlex Htame Htail Hfree. unfold withoutStrings.
  apply negb_true_iff in Hfree.
  rewrite remove_comment by done.
  rewrite forallb_forall in Hlex, Htame.
  assert (E1 : renderAll segs = flat DQUOTE (atStrings <$> segs)).
  { unfold renderAll, flat. rewrite <- list_fmap_compose. f_equal.
    apply list_fmap_ext. by intros _ [] _. }
  assert (E2 : kept (atStrings <$> segs) = flat SQUOTE (segs ≫= atChars)).
  { clear. unfold kept, flat.
    induction segs as [|[s|s|s] segs IH]; [done|..]; simpl;
      repeat first [ exact IH | apply (f_equal (cons _))
                   | apply (f_equal (app _)) ]. }
  assert (E3 : kept (segs ≫= atChars) = codeOf segs).
  { clear. unfold kept, codeOf.
    induction segs as [|[s|s|s] segs IH]; [done|..]; simpl;
      repeat first [ exact IH | apply (f_equal (cons _))
                   | apply (f_equal (app _)) ]. }
  change re_double_quoted with (re_quoted DQUOTE).
  change re_single_quoted with (re_quoted SQUOTE).
  rewrite E1, remove_all_items, E2, remove_all_items, E3; [done|..].
  - apply Forall_forall. intros it Hit.
    apply list_elem_of_bind in Hit as (g & Hit & Hg).
    apply list_elem_of_In, Hlex in Hg.
    destruct g as [s|s|s]; cbn [atChars] in Hit.
    + apply list_elem_of_singleton in Hit as ->. cbn [free lexical] in *.
      rewrite forallb_forall in Hg. apply Forall_forall. intros c Hc.
      apply list_elem_of_In, Hg in Hc. apply andb_true_iff in Hc as [_ Hc].
      apply negb_true_iff in Hc. by apply N.eqb_neq.
    + by apply elem_of_nil in Hit.
    + apply list_elem_of_singleton in Hit as ->. cbn [free lexical] in *.
      rewrite forallb_forall in Hg. apply Forall_forall. intros c Hc.
      apply list_elem_of_In, Hg in Hc.
      apply negb_true_iff in Hc. by apply N.eqb_neq.
  - apply Forall_forall. intros it Hit.
    apply list_elem_of_fmap in Hit as (g & -> & Hg).
    apply list_elem_of_In in Hg.
    pose proof (Hlex g Hg) as Hl. pose proof (Htame g Hg) as Ht.
    destruct g as [s|s|s]; cbn [atStrings free lexical tame render] in *.
    + rewrite forallb_forall in Hl. apply Forall_forall. intros c Hc.
      apply list_elem_of_In, Hl in Hc. apply andb_true_iff in Hc as [Hc _].
      apply negb_true_iff in Hc. by apply N.eqb_neq.
    + rewrite forallb_forall in Hl. apply Forall_forall. intros c Hc.
      apply list_elem_of_In, Hl in Hc.
      apply negb_true_iff in Hc. by apply N.eqb_neq.
    + rewrite forallb_forall in Ht. unfold quoted.
      constructor; [done|]. apply Forall_app. split; [|by constructor].
      apply Forall_forall. intros c Hc.
      apply list_elem_of_In, Ht in Hc.
      apply negb_true_iff in Hc. by apply N.eqb_neq.
Qed.

(** C6, as the code has it.  Take a line that is neither blank nor a
    comment and reads, from left to right, as code, closed string and
    character literals and then, maybe, a comment, where two slashes in a
    row occur nowhere before the comment, no character literal holds a
    double quote and the comment holds no line terminator.  Every word of
    the code outside the literals whose upper-case form is a keyword and
    differs from the word is reported with a keyword-casing error on that
    line.  The all-lowercase declaration is invalid for both of its
    keywords. *)
Theorem keyword_casing_reported
    (toUpperCase toLowerCase : jsstring → jsstring) :
  (∀ code k text segs tail word,
     split_on 10 code !! k = Some text → skipped (trim text) = false →
     trim text = renderAll segs ++ tail →
     forallb lexical segs = true → forallb tame segs = true →
     isComment tail = true → slashFree segs tail = true →
     word ∈ split_re re_spaces (codeOf segs) → word ≠ [] →
     mem (toUpperCase word) KEYWORDS = true → word ≠ toUpperCase word →
     ∃ d, d ∈ errors (checkSyntax toUpperCase toLowerCase code)
          ∧ line d = k + 1 ∧ message d = keywordCasing toUpperCase word
          ∧ type d = error)
  ∧ checkPlain toUpperCase toLowerCase (js "declare x: integer")
    = mkResult false
        [ mkError 1 (js "Keyword 'declare' should be uppercase: 'DECLARE'") error;
          mkError 1 (js "Keyword 'integer' should be uppercase: 'INTEGER'") error ].
Proof.
  split; [|by vm_compute].
  intros code k text segs tail word Hk Hs Ht Hlex Htame Htail Hfree Hin Hne
    Hkw Hcase.
  apply (reported_error toUpperCase toLowerCase code).
  - by eapply lookup_hasContent.
  - apply (rule_reaches _ _ _ k text 5
             (checkKeywordCase toUpperCase (k + 1) (wordsOutsideStrings text)));
      [done|done|done|].
    apply checkKeywordCase_pushes; try done.
    unfold wordsOutsideStrings. by rewrite Ht, withoutStrings_segments.
  - by vm_compute.
Qed.

Lemma keyword_casing_reported_witness :
  ∃ d, d ∈ errors (check example_word_after_string)
       ∧ line d = 0 + 1 ∧ message d = keywordCasing latinUpper (js "and")
       ∧ type d = error.
Proof.
  apply (proj1 (keyword_casing_reported latinUpper latinLower)
           example_word_after_string 0 example_word_after_string
           [Code (js "OUTPUT "); StringLiteral (js "a"); Code (js "and x")] []
           (js "and")); try by vm_compute.
  vm_compute. right. left.
Defined.

(** Two slashes inside a string literal are taken for a comment, and a
    double quote inside a character literal for the start of a string:
    the keyword that follows, outside all literals, is not reported. *)
Lemma keyword_hidden_by_literal :
  (∃ segs,
     trim example_slashes_in_string = renderAll segs
     ∧ forallb lexical segs = true
     ∧ js "and" ∈ split_re re_spaces (codeOf segs)
     ∧ mem (latinUpper (js "and")) KEYWORDS = true
     ∧ ¬ ∃ d, d ∈ errors (check example_slashes_in_string)
              ∧ message d = keywordCasing latinUpper (js "and"))
  ∧ (∃ segs,
       trim example_quote_in_char = renderAll segs
       ∧ forallb lexical segs = true
       ∧ js "if" ∈ split_re re_spaces (codeOf segs)
       ∧ mem (latinUpper (js "if")) KEYWORDS = true
       ∧ ¬ ∃ d, d ∈ errors (check example_quote_in_char)
                ∧ message d = keywordCasing latinUpper (js "if")).
Proof.
  split.
  - exists [Code (js "OUTPUT "); StringLiteral (js "http://x"); Code (js " and y")].
    split; [by vm_compute|]. split; [by vm_compute|].
    split; [vm_compute; right; left|]. split; [by vm_compute|].
    intros (d & Hd & Hm). vm_compute in Hd.
    repeat (apply elem_of_cons in Hd as [->|Hd]; [by vm_compute in Hm|]).
    by apply elem_of_nil in Hd.
  - exists [Code (js "y ← "); CharLiteral [DQUOTE]; Code (js " if ");
            CharLiteral [DQUOTE]].
    split; [by vm_compute|]. split; [by vm_compute|].
    split; [vm_compute; repeat constructor|]. split; [by vm_compute|].
    intros (d & Hd & Hm). vm_compute in Hd.
    repeat (apply elem_of_cons in Hd as [->|Hd]; [by vm_compute in Hm|]).
    by apply elem_of_nil in Hd.
Qed.
